(* ===== verification/_CoqProject ===== *)
-Q . S2P
Prelude.v
GoString.v
GoRegexp.v
GoTime.v
Sha256.v
Timestamp.v
Spec.v
SpecValid.v
Kernelfile.v
KernelfileLaws.v
LLB.v
LLBLaws.v
GraphLaws.v
LLBDump.v
StepEnv.v
Expect.v
Download.v
Policy.v
PolicyLaws.v
GoURL.v
Redact.v
GoSort.v
Mount.v
Tree.v
TreeLaws.v
SeedLaws.v
PrepareLaws.v
ConfigureLaws.v
TreeScenarios.v
Step.v
StepLaws.v
ExportLaws.v
ArtifactLaws.v
StepScenarios.v
Gateway.v
GatewayLaws.v
Frontend.v
FrontendLaws.v
FrontendScenarios.v
Client.v
ClientLaws.v
BuildLaws.v
ClientScenarios.v
Prune.v
Ctl.v
Untar.v
UntarLaws.v
PoolOps.v
PoolLaws.v
UntarScenarios.v
PoolBounds.v
Patch.v
PatchLaws.v
ExtractLaws.v
RequestLaws.v
SuccessLaws.v
Provenance.v
RequestScenarios.v
