(* ===== verification/Prelude.v ===== *)
(** * kernelbuild-buildkit: a verification library

    The program builds Linux kernels inside BuildKit. A client ([kbuildctl], or the
    gateway frontend that [docker build] delegates a Kernelfile to) turns a request into
    a specification, validates it, and generates a build graph; the daemon runs the
    graph, whose last vertex is the in-build step: it keeps an object tree on a
    persistent cache mount, brings it to the wanted source and configuration, gates the
    resolved configuration, compiles, exports the artifacts and may publish the tree as
    a seed. This library models those parts in the order a request passes them and
    proves what each promises to the next.

    ** Files

    Shared: [Prelude] (results, the early-return monad, lemmas), [GoString],
    [GoRegexp], [GoTime], [GoSort], [Sha256]: the parts of Go's standard library the
    source computes with, executable.

    Request (package kbuild, src/*.go)
    - [Timestamp]: step.go, Timestamp.
    - [Spec], [SpecValid]: spec.go. [Validate] check by check; [valid_spec] is what it
      accepts, field by field.
    - [Kernelfile], [KernelfileLaws]: step.go, ParseKernelfile. Scanner, lexer, key
      switch; [meaning] is the order-free reading of a file.
    - [LLB], [LLBLaws], [GraphLaws]: llb.go. [KernelLLB] as the sequence of llb calls it
      makes. [LLBDump]: cmd/llbdump/main.go, the graph printed op by op.
    - [Gateway], [GatewayLaws]: gateway.go. [GatewaySolve], [checkContext],
      [checkContextDir] as dialogues with the daemon.
    - [Frontend], [FrontendLaws], [FrontendScenarios]: cmd/kbuild-frontend/main.go.
      [applyOpts], [layers], [build].
    - [Client], [ClientLaws], [BuildLaws], [ClientScenarios]: client.go. Cache entries
      over encoding/csv, the report, [Build] with its defers as a trace. [Prune]: client.go,
      Prune, its two goroutines as a step relation.
    - [Ctl]: cmd/kbuildctl/main.go after flag.Parse.

    Step (src/cmd/kbuild-step)
    - [StepEnv]: main.go, the environment and secrets the graph gives the step.
    - [Expect]: expect.go, validateExpectations.
    - [Download]: main.go, download and its retry schedule. [Policy], [PolicyLaws]:
      downloadClient, the client between the download and the network. [GoURL],
      [Redact]: net/url and redactURL, what of a URL is logged.
    - [Mount]: programs over the persistent mount that can be killed between any two
      writes, and their crash triples.
    - [Tree], [TreeLaws], [PrepareLaws], [ConfigureLaws], [SeedLaws], [TreeScenarios]:
      main.go, from stampWant to configure and the seed.
    - [Step], [StepLaws], [ExportLaws], [ArtifactLaws], [StepScenarios]: main.go, run;
      expect.go, bundleKconfigs.
    - [Untar], [UntarLaws], [PoolOps], [PoolLaws], [PoolBounds], [UntarScenarios]: main.go,
      untarFiltered and writeEntry; untarpool.go.
    - [Patch], [PatchLaws]: main.go, applyPatches file by file on the tree of [Untar].
    - [ExtractLaws]: the join of [Untar] with the object tree of [Tree].

    Whole requests
    - [RequestLaws], [SuccessLaws], [Provenance], [RequestScenarios]: the client's trace,
      the graph and the step, joined by what the daemon delivers to the compile vertex
      ([delivers]); [SuccessLaws] has the strong triples ([wins]) of the step.

    ** What the theorems show

    - Requests. [request_never_refused] (and [issued_never_refused], for the
      frontend's): what the client let through, the step refuses for one thing only, a
      seed URL without a bucket. [request_succeeds]: it is built, on a mount earlier
      builds left, when the outside does its part ([cooperates]); a mount that already
      has the wanted tree must not carry a marker whose .config is gone.
      [request_provenance]: what a pinned request exports was compiled from the pinned
      tarball, whatever was built on the mount before by builds that [Spares] the
      step's own files.
    - Input. [Validate_exact], [ParseKernelfile_roundtrip] and [_error] say
      what is accepted and what it means; [Kernelfile_options_agree] and [ctl_agrees]
      that the three ways to write a request mean the same specification;
      [layers_pin] that a checksum never outlives the source it was for.
    - Graph. [KernelLLB_well_formed]: one argument vector, mounts apart, selectors their
      transfers carry. [KernelLLB_injection_free], [KernelLLB_determined], [cache_mount_separates]:
      what is interpolated where, which choices of a specification the graph is made of
      and no others, who shares a tree.
    - What is asked and sent. [GatewaySolve_pinned], [build_asks], [Build_sends] hold for
      every answer the daemon may give; [Build_releases] for every way out.
    - Tree. [prepareTree_crash_safe], [configure_crash_safe], [reachable_truthful]:
      invariants over every point a build can be killed at - the write pool's included,
      in any order - and every sequence of builds that spare the step's own files.
      [seed_roundtrip] for the seed.
    - Extraction. [untarPool_serial] refines the serial loop by the concurrent pool:
      calls on names that are apart commute ([PoolOps]), so what is left to do always
      leads to the serial result ([running] in [PoolLaws]). [untarPool_returns] is its
      termination, [untarPool_memory] its bound on the bodies held, [writeEntry_replaces]
      its defence against planted links.
      [extractTarball_refines]: the files that [Tree] writes for a tarball are those the
      calls of the extraction leave ([shows] relates the two states); [seedPull_join] and
      [applyPatches_join] say the same of a seed and of the patch series.
    - Patches. [applyPatches_git]: what git applies ([git_series], stated by itself), the
      calls of applyPatches apply, with git's files and modes. [applyPatches_effect] says
      what they do in every case, also where git refuses.
    - Network. [refused_exact] and [download_confined]: which addresses, schemes and
      redirects a fetch can be led to, whatever it is answered. [redactURL_hides]: what is
      logged of a URL does not depend on its user, query and fragment.
    - Step. [run_exports] refines the step's contract; [validateExpectations_report],
      [make_argv_safe], [archive_reproducible], [bundle_reads_back], [download_resumes]
      and [_succeeds] are its parts.
    - Laws that fail are theorems too: [nuke_window], [forged_stamp],
      [Build_seed_key_moves], [untarPool_races], [move_needs_directory],
      [create_overwrites], [delete_unchecked], [link_becomes_file], [prefix_twice],
      [blank_in_targets], [push_without_bucket] and [nowhere_refused] exhibit runs.

    ** The outside

    What is not part of the source is a parameter: the daemon ([Daemon], arbitrary
    answers), the client's machine and control connection ([Host], [Control]), and the
    step's surroundings ([World] in [Tree], [Exporter] in [Step], [Network] in
    [Policy]): decoders, encoders, gitdiff, make, the HTTP server, the resolver, the
    bucket. Laws are assumed only where a theorem needs them and as classes. [WorldOk]:
    RemoveAll removes each file below an entry, in some order, and the pool's workers
    change no file but the stream's. [BucketOk]: a complete object is what the push of
    some pushable tree packed - a tree whose stamp is true - and its files have names
    the seed may hold. [Spares], of one world and one build: the source it extracts
    holds none of the step's own .kbf- files, and its patches and its make leave them
    alone. Nothing in the code enforces that, so the theorems on the tree and on whole
    requests ask it of every build on the mount; [forged_stamp] is what happens
    otherwise. The scenario files give instances that meet these laws and run the code
    on them.

    ** Bounds

    A download makes at most five attempts, the source's own bound; the csv reader, the
    scanner and the pool are structural or step relations without fuel. [walk] and
    [mkdirs] in [Untar] carry the number of symbolic links a resolution may follow,
    which the kernel limits too; it is a parameter, and no theorem depends on its value.
    [orderly] takes fuel for its segments: one more than the program's length is enough,
    as every recursive call drops an instruction. [follow] in [Policy] takes four for its
    redirects, and [follow_fuel] shows that more changes nothing. [dec_go] in [GoString]
    takes the binary length of its number, more than its decimal digits.

    ** Not modelled

    Marshalling of the graph, padding and quoting of printed text, and most texts of
    error messages; the tracing spans and the timing output of the client; panics of the
    frontend; flag parsing; how net/url reads a host,
    which differs between Go releases (a parameter of [GoURL]); the reuse of idle
    connections (one that is used again was vetted when it was dialled); multipart
    upload and compression. Hard links share their node by value, so an
    in-place patch of a file with two names is outside [Patch]. File permissions are
    recorded, not enforced: the step runs as root. On the mount of [Tree] the workers'
    changes come in an order the world chooses and end in the files of the stream, which
    [untarPool_serial] shows of the pool itself; directories, modes and links are not on
    that mount. The pool's MkdirAll and exclusive
    create with its write are single calls: nobody reads a file before the barrier, and
    a directory made twice is one directory. *)

From stdpp Require Export base tactics option list strings gmap.
From Stdlib Require Export Ascii ZArith Lia.

(** ** Results *)

(** The code returns [(value, error)] pairs and leaves at the first non-nil
    error; [result] is that convention as a type, and the bind of stdpp's monad
    classes is the early return. *)
Inductive result (E A : Type) : Type :=
  | Ok (a : A)
  | Err (e : E).
Arguments Ok {E A} _.
Arguments Err {E A} _.

#[export] Instance result_ret {E} : MRet (result E) := λ A a, Ok a.
#[export] Instance result_bind {E} : MBind (result E) := λ A B f m,
  match m with Ok a => f a | Err e => Err e end.
#[export] Instance result_fmap {E} : FMap (result E) := λ A B f m,
  match m with Ok a => Ok (f a) | Err e => Err e end.

#[export] Instance result_eq_dec {E A} `{EqDecision E, EqDecision A} :
  EqDecision (result E A).
Proof. solve_decision. Defined.

#[export] Instance In_decision {A} `{EqDecision A} (x : A) (l : list A) : Decision (In x l).
Proof. destruct (decide (x ∈ l)) as [H|H]; rewrite list_elem_of_In in H; [by left|by right]. Defined.

(** [if bad { return err }] *)
Definition reject {E} (bad : bool) (e : E) : result E unit :=
  if bad then Err e else Ok tt.

(** A sub-error wrapped with the caller's context ([fmt.Errorf("...: %w", err)]). *)
Definition map_err {E F A} (f : E → F) (r : result E A) : result F A :=
  match r with Ok a => Ok a | Err e => Err (f e) end.

Definition is_ok {E A} (r : result E A) : bool :=
  match r with Ok _ => true | Err _ => false end.

(** A loop that leaves at the first error, threading a state. *)
Fixpoint foldR {E S A} (f : S → A → result E S) (s : S) (l : list A) : result E S :=
  match l with
  | [] => Ok s
  | a :: l => s' ← f s a; foldR f s' l
  end.

Declare Scope kb_scope.
Delimit Scope kb_scope with kb.
(** [x =? y] on Go strings, [if b1 && b2] on booleans. *)
Notation "s =s t" := (String.eqb s t) (at level 70, no associativity) : kb_scope.
Notation "s <>s t" := (negb (String.eqb s t)) (at level 70, no associativity) : kb_scope.
#[global] Open Scope kb_scope.

Create HintDb kb.
Create Rewrite HintDb kb.

Section result.
Context {E : Type}.

Lemma bind_Ok {A B} (m : result E A) (f : A → result E B) b :
  m ≫= f = Ok b ↔ ∃ a, m = Ok a ∧ f a = Ok b.
Proof. destruct m; simpl; naive_solver. Qed.

Lemma bind_Err {A B} (m : result E A) (f : A → result E B) e :
  m ≫= f = Err e ↔ m = Err e ∨ ∃ a, m = Ok a ∧ f a = Err e.
Proof. destruct m; simpl; naive_solver. Qed.

Lemma reject_Ok (b : bool) (e : E) u : reject b e = Ok u ↔ b = false.
Proof. destruct b, u; naive_solver. Qed.

(** A sequence of checks succeeds when each does. *)
Lemma then_Ok {B} (m : result E unit) (k : result E B) b :
  (m;; k) = Ok b ↔ m = Ok tt ∧ k = Ok b.
Proof. rewrite bind_Ok. split; [by intros ([] & ? & ?)|intros [? ?]; by exists tt]. Qed.

Lemma then_Ok_any {A B} (m : result E A) (k : result E B) b :
  (m;; k) = Ok b ↔ is_ok m = true ∧ k = Ok b.
Proof.
  rewrite bind_Ok. destruct m; simpl; [|naive_solver].
  split; [by intros (? & [= <-] & ?)|naive_solver].
Qed.

Lemma map_err_Ok {F A} (f : E → F) (r : result E A) a :
  map_err f r = Ok a ↔ r = Ok a.
Proof. destruct r; naive_solver. Qed.

Lemma foldR_app {S A} (f : S → A → result E S) s l1 l2 :
  foldR f s (l1 ++ l2) = (s' ← foldR f s l1; foldR f s' l2).
Proof.
  revert s. induction l1 as [|a l1 IH]; intros s; simpl; [done|].
  destruct (f s a); simpl; auto.
Qed.

(** A fold whose every step is a check leaves the state alone. *)
Lemma foldR_check {A} (bad : A → bool) (err : A → E) l u :
  foldR (λ _ a, reject (bad a) (err a)) tt l = Ok u ↔ Forall (λ a, bad a = false) l.
Proof.
  induction l as [|a l IH]; simpl; [destruct u; naive_solver|].
  rewrite bind_Ok, Forall_cons. setoid_rewrite reject_Ok.
  split; [intros ([] & ? & ?)|intros [? ?]; exists tt]; naive_solver.
Qed.
End result.

(** Opens every bind of a successful run in the context. *)
Ltac inv_ok :=
  repeat match goal with
  | H : Ok _ = Ok _ |- _ => injection H as H; subst
  | H : mret _ = Ok _ |- _ => injection H as H; subst
  | H : Err _ = Ok _ |- _ => discriminate H
  | H : Ok _ = Err _ |- _ => discriminate H
  | H : (_ ≫= _) = Ok _ |- _ =>
      apply bind_Ok in H; let a := fresh "a" in destruct H as (a & ? & H)
  | H : reject _ _ = Ok _ |- _ => apply reject_Ok in H
  | H : map_err _ _ = Ok _ |- _ => apply map_err_Ok in H
  | u : unit |- _ => destruct u
  end.

(** ** Maps from lists *)

Definition insert_all {A} (m : gmap string A) (l : list (string * A)) : gmap string A :=
  foldl (λ m kv, <[kv.1 := kv.2]> m) m l.

Lemma insert_all_union {A} (m : gmap string A) l :
  NoDup (l.*1) → insert_all m l = list_to_map l ∪ m.
Proof.
  revert m. induction l as [|[k v] l IH]; intros m.
  { cbn. by rewrite map_empty_union. }
  rewrite fmap_cons, NoDup_cons. intros [Hk Hd].
  change (insert_all m ((k, v) :: l)) with (insert_all (<[k:=v]> m) l). rewrite IH by done.
  rewrite list_to_map_cons, <- insert_union_l, insert_union_r; [done|].
  by apply not_elem_of_list_to_map_1.
Qed.

(** ** Propositions *)

(** The second part of a conjunction, rewritten under the first. *)
Lemma and_under (P Q R : Prop) : (P → (Q ↔ R)) → (P ∧ Q) ↔ (P ∧ R).
Proof. tauto. Qed.

(** ** Booleans *)

Lemma eqb_true (s t : string) : (s =s t) = true ↔ s = t.
Proof. apply String.eqb_eq. Qed.
Lemma eqb_false (s t : string) : (s =s t) = false ↔ s ≠ t.
Proof. apply String.eqb_neq. Qed.

Ltac inv_bool :=
  repeat match goal with
  | H : (_ || _)%bool = false |- _ => apply orb_false_iff in H as [? ?]
  | H : (_ && _)%bool = true |- _ => apply andb_true_iff in H as [? ?]
  | H : negb _ = false |- _ => apply negb_false_iff in H
  | H : negb _ = true |- _ => apply negb_true_iff in H
  | H : (_ =s _) = true |- _ => apply eqb_true in H
  | H : (_ =s _) = false |- _ => apply eqb_false in H
  end.

(** A check guarded by "field set": [s != "" && bad] is false. *)
Lemma guarded_check (s : string) (bad : bool) :
  ((s <>s "") && bad)%bool = false ↔ s = "" ∨ bad = false.
Proof. destruct (String.eqb_spec s ""); simpl; naive_solver. Qed.

(** Decides a property of a byte by running it on all 256 of them. *)
Lemma ascii_forall (P : ascii → bool) :
  forallb P (map ascii_of_nat (seq 0 256)) = true → ∀ c, P c = true.
Proof.
  intros H c. rewrite forallb_forall in H. apply H.
  rewrite <- (ascii_nat_embedding c). apply in_map.
  apply in_seq. pose proof (nat_ascii_bounded c). lia.
Qed.

Lemma ascii_impl (p q : ascii → bool) :
  forallb (λ c, implb (p c) (q c)) (map ascii_of_nat (seq 0 256)) = true →
  ∀ c, p c = true → q c = true.
Proof.
  intros H c Hp. pose proof (ascii_forall _ H c) as Hi. simpl in Hi.
  by rewrite Hp in Hi.
Qed.
