(* ===== verification/GoString.v ===== *)
(** Go strings: the part of package strings the program calls, over byte
    strings (a Go string is a sequence of bytes). White space is Unicode white
    space, recognised by its UTF-8 encodings. Then the lemmas the components
    share: cutting, splitting, joining, trimming, fields, and sets of bytes. *)

From S2P Require Import Prelude.

(** ** Bytes and byte sets *)

Definition byte (n : nat) : ascii := ascii_of_nat n.
Definition chr (n : nat) : string := String (byte n) "".
Definition TAB : ascii := byte 9.
Definition LF : ascii := byte 10.
Definition CR : ascii := byte 13.
Definition NUL : ascii := byte 0.

Definition in_range (lo hi c : ascii) : bool :=
  (nat_of_ascii lo <=? nat_of_ascii c)%nat && (nat_of_ascii c <=? nat_of_ascii hi)%nat.

(** A printable, non-blank ASCII byte: 0x21 to 0x7e. *)
Definition printable (c : ascii) : bool := in_range (byte 33) (byte 126) c.
Definition is_digit (c : ascii) : bool := in_range "0" "9" c.

Abbreviation chars := String.list_ascii_of_string.
Abbreviation str := String.string_of_list_ascii.

Fixpoint all_bytes (p : ascii → bool) (s : string) : bool :=
  match s with
  | "" => true
  | String c s => p c && all_bytes p s
  end.

Definition ContainsByte (s : string) (c : ascii) : bool :=
  negb (all_bytes (λ d, negb (Ascii.eqb d c)) s).

Fixpoint str_take (n : nat) (s : string) : string :=
  match n, s with
  | S n, String c s => String c (str_take n s)
  | _, _ => ""
  end.

Fixpoint str_drop (n : nat) (s : string) : string :=
  match n, s with
  | S n, String _ s => str_drop n s
  | _, _ => s
  end.

(** ** Package strings *)


Definition HasPrefix (s p : string) : bool := String.prefix p s.

#[global] Arguments HasPrefix : simpl never.

(** [len(s) >= len(p) && s[len(s)-len(p):] == p] *)
Definition HasSuffix (s p : string) : bool :=
  (String.length p <=? String.length s)%nat
  && (str_drop (String.length s - String.length p) s =s p).

Definition TrimPrefix (s p : string) : string :=
  if HasPrefix s p then str_drop (String.length p) s else s.

Definition CutPrefix (s p : string) : string * bool :=
  if HasPrefix s p then (str_drop (String.length p) s, true) else (s, false).

Definition TrimSuffix (s p : string) : string :=
  if HasSuffix s p then str_take (String.length s - String.length p) s else s.

Fixpoint Contains (s sub : string) : bool :=
  HasPrefix s sub || match s with "" => false | String _ s => Contains s sub end.

(** The index of the first byte satisfying [p] (Go's -1 is [None]). *)
Fixpoint IndexFunc (s : string) (p : ascii → bool) : option nat :=
  match s with
  | "" => None
  | String d s => if p d then Some 0%nat else S <$> IndexFunc s p
  end.

Definition IndexByte (s : string) (c : ascii) : option nat := IndexFunc s (Ascii.eqb c).
Definition IndexAny (s cs : string) : option nat := IndexFunc s (ContainsByte cs).

(** [strings.Cut(s, sep)] for a one-byte separator. *)
Fixpoint Cut (s : string) (sep : ascii) : string * string * bool :=
  match s with
  | "" => ("", "", false)
  | String d s' =>
      if Ascii.eqb d sep then ("", s', true)
      else let '(a, b, ok) := Cut s' sep in (String d a, b, ok)
  end.

(** [strings.Split] (and [SplitSeq]) for a one-byte separator. *)
Fixpoint Split (s : string) (sep : ascii) : list string :=
  match s with
  | "" => [""]
  | String d s' =>
      if Ascii.eqb d sep then "" :: Split s' sep
      else match Split s' sep with
           | w :: ws => String d w :: ws
           | [] => []
           end
  end.

Fixpoint Join (l : list string) (sep : string) : string :=
  match l with
  | [] => ""
  | [w] => w
  | w :: l => w +:+ sep +:+ Join l sep
  end.

(** *** White space *)

Definition utf8 (l : list nat) : list ascii := map byte l.

(** The UTF-8 encodings of the runes [unicode.IsSpace] accepts. A decoder meets
    one of these runes at a position exactly when its encoding starts there, so
    matching the encodings is the same as decoding. *)
Definition white_space : list (list ascii) :=
  map utf8 ([[9]; [10]; [11]; [12]; [13]; [32]; [194; 133]; [194; 160]; [225; 154; 128];
             [226; 128; 168]; [226; 128; 169]; [226; 128; 175]; [226; 129; 159];
             [227; 128; 128]]
            ++ map (λ k, [226; 128; k]) (seq 128 11)).

Fixpoint starts_with (p l : list ascii) : bool :=
  match p, l with
  | [], _ => true
  | c :: p, d :: l => Ascii.eqb c d && starts_with p l
  | _, _ => false
  end.

(** The width of the rune of [ws] that [l] starts with, 0 when there is none. *)
Fixpoint rune_width (ws : list (list ascii)) (l : list ascii) : nat :=
  match ws with
  | [] => 0%nat
  | w :: ws => if starts_with w l then length w else rune_width ws l
  end.

(** Drops leading runes of [ws]; [skip] counts the bytes left of the rune being
    dropped. *)
Fixpoint trim_runes (ws : list (list ascii)) (skip : nat) (l : list ascii) : list ascii :=
  match l with
  | [] => []
  | c :: l' =>
      match skip with
      | S k => trim_runes ws k l'
      | O => match rune_width ws l with
             | O => l
             | S k => trim_runes ws k l'
             end
      end
  end.

Definition TrimSpace (s : string) : string :=
  let l := trim_runes white_space 0 (chars s) in
  str (rev (trim_runes (map (@rev ascii) white_space) 0 (rev l))).

(** The maximal runs between separators; [sep l] is the width of the separator
    [l] starts with, 0 when there is none. *)
Fixpoint fields_go (sep : list ascii → nat) (skip : nat) (cur l : list ascii)
    : list (list ascii) :=
  let flush := match cur with [] => [] | _ => [rev cur] end in
  match l with
  | [] => flush
  | c :: l' =>
      match skip with
      | S k => fields_go sep k [] l'
      | O => match sep l with
             | O => fields_go sep 0 (c :: cur) l'
             | S k => flush ++ fields_go sep k [] l'
             end
      end
  end.

(** [strings.Fields] and [FieldsSeq]. *)
Definition Fields (s : string) : list string :=
  map str (fields_go (rune_width white_space) 0 [] (chars s)).

(** [strings.FieldsFunc] for a predicate that only accepts ASCII runes. *)
Definition FieldsFunc (s : string) (p : ascii → bool) : list string :=
  map str (fields_go (λ l, match l with c :: _ => if p c then 1%nat else 0%nat | [] => 0%nat end)
                     0 [] (chars s)).

(** *** Numbers in strings *)

Definition digit (n : Z) : ascii := ascii_of_N (48 + Z.to_N n).

(** [%d] of a non-negative integer. *)
Fixpoint dec_go (fuel : nat) (n : Z) (acc : string) : string :=
  match fuel with
  | O => acc
  | S fuel =>
      let acc := String (digit (n mod 10)) acc in
      if (n <? 10)%Z then acc else dec_go fuel (n / 10) acc
  end.
Definition dec (n : Z) : string := dec_go (S (Z.to_nat (Z.log2 n))) n "".

Definition hex_digit (n : N) : ascii :=
  if (n <? 10)%N then ascii_of_N (48 + n) else ascii_of_N (87 + n).

(** [hex.EncodeToString] and [%x] of a byte slice. *)
Fixpoint hex (l : list ascii) : string :=
  match l with
  | [] => ""
  | c :: l =>
      let n := N_of_ascii c in
      String (hex_digit (n / 16)) (String (hex_digit (n mod 16)) (hex l))
  end.

(** ** Lemmas *)

Lemma app_cons c s t : String c s +:+ t = String c (s +:+ t).
Proof. done. Qed.
Lemma app_nil_l s : "" +:+ s = s.
Proof. done. Qed.
Lemma str_app_nil_r s : s +:+ "" = s.
Proof. induction s as [|c s IH]; [done|]. by rewrite app_cons, IH. Qed.
Lemma str_app_assoc s t u : (s +:+ t) +:+ u = s +:+ (t +:+ u).
Proof. induction s as [|c s IH]; [done|]. by rewrite !app_cons, IH. Qed.
Lemma str_length_app s t : String.length (s +:+ t) = (String.length s + String.length t)%nat.
Proof. induction s as [|c s IH]; [done|]. rewrite app_cons. simpl. by rewrite IH. Qed.
Lemma chars_app s t : chars (s +:+ t) = chars s ++ chars t.
Proof. induction s as [|c s IH]; [done|]. rewrite app_cons. simpl. by rewrite IH. Qed.
Lemma str_chars s : str (chars s) = s.
Proof. apply String.string_of_list_ascii_of_string. Qed.
Lemma chars_str l : chars (str l) = l.
Proof. apply String.list_ascii_of_string_of_list_ascii. Qed.
Lemma str_app_inj s t u : s +:+ t = s +:+ u → t = u.
Proof. induction s as [|c s IH]; [done|]. rewrite !app_cons. intros [= H]. auto. Qed.

Lemma length_chars s : length (chars s) = String.length s.
Proof. induction s as [|c s IH]; [done|]. simpl. by rewrite IH. Qed.

#[export] Hint Rewrite app_cons app_nil_l str_app_nil_r str_app_assoc : kb.

(** *** Sets of bytes *)

Lemma all_bytes_app p s t : all_bytes p (s +:+ t) = all_bytes p s && all_bytes p t.
Proof. induction s as [|c s IH]; [done|]. rewrite app_cons. simpl. by rewrite IH, andb_assoc. Qed.

Lemma all_bytes_chars p s : all_bytes p s = true ↔ Forall (λ c, p c = true) (chars s).
Proof.
  induction s as [|c s IH]; simpl; [by split|].
  rewrite andb_true_iff, Forall_cons, IH. done.
Qed.

Lemma all_bytes_impl (p q : ascii → bool) s :
  (∀ c, p c = true → q c = true) → all_bytes p s = true → all_bytes q s = true.
Proof. rewrite !all_bytes_chars. intros H Hp. eapply Forall_impl; eauto. Qed.

Lemma ContainsByte_false s c :
  ContainsByte s c = false ↔ all_bytes (λ d, negb (Ascii.eqb d c)) s = true.
Proof. unfold ContainsByte. by destruct (all_bytes _ _). Qed.

Lemma ContainsByte_app s t c :
  ContainsByte (s +:+ t) c = ContainsByte s c || ContainsByte t c.
Proof. unfold ContainsByte. by rewrite all_bytes_app, negb_andb. Qed.

Lemma ContainsByte_cons d s c : ContainsByte (String d s) c = Ascii.eqb d c || ContainsByte s c.
Proof. unfold ContainsByte. simpl. by rewrite negb_andb, negb_involutive. Qed.

(** A byte outside the set [p] is in no string over [p]. *)
Lemma all_bytes_lacks p s c : all_bytes p s = true → p c = false → ContainsByte s c = false.
Proof.
  intros Hp Hc. apply ContainsByte_false. eapply all_bytes_impl; [|exact Hp].
  intros d Hd. destruct (Ascii.eqb_spec d c) as [->|]; [congruence|done].
Qed.

(** *** Prefixes, suffixes, substrings *)

Lemma HasPrefix_spec s p : HasPrefix s p = true ↔ ∃ t, s = p +:+ t.
Proof.
  unfold HasPrefix. revert s. induction p as [|c p IH]; intros s; simpl.
  { split; [by exists s|by destruct s]. }
  destruct s as [|d s]; simpl; [split; [done|intros [t ?]; by rewrite app_cons in *]|].
  destruct (ascii_dec c d) as [->|Hne].
  - rewrite IH. split; intros [t Ht]; exists t; rewrite app_cons in *; naive_solver.
  - split; [done|intros [t Ht]]. rewrite app_cons in Ht. naive_solver.
Qed.

Lemma HasPrefix_app p t : HasPrefix (p +:+ t) p = true.
Proof. apply HasPrefix_spec. eauto. Qed.

Lemma str_drop_app s t : str_drop (String.length s) (s +:+ t) = t.
Proof. induction s as [|c s IH]; [by destruct t|]. by rewrite app_cons. Qed.

Lemma str_take_app s t : str_take (String.length s) (s +:+ t) = s.
Proof. induction s as [|c s IH]; [by destruct t|]. rewrite app_cons. simpl. by rewrite IH. Qed.

Lemma str_take_drop n s : str_take n s +:+ str_drop n s = s.
Proof.
  revert s. induction n as [|n IH]; intros [|c s]; try done.
  simpl. by rewrite app_cons, IH.
Qed.

Lemma HasSuffix_spec s p : HasSuffix s p = true ↔ ∃ t, s = t +:+ p.
Proof.
  unfold HasSuffix. rewrite andb_true_iff, Nat.leb_le, eqb_true. split.
  - intros [_ H]. exists (str_take (String.length s - String.length p) s).
    by rewrite <- H at 2; rewrite str_take_drop.
  - intros [t ->]. rewrite str_length_app, Nat.add_sub. split; [lia|]. apply str_drop_app.
Qed.

Lemma Contains_spec s sub : Contains s sub = true ↔ ∃ a b, s = a +:+ sub +:+ b.
Proof.
  induction s as [|c s IH]; simpl; rewrite orb_true_iff, HasPrefix_spec.
  - split; [intros [[t H]|]; [by exists "", t|done]|intros (a & b & H)].
    left. exists b. destruct a; [done|]. by rewrite app_cons in H.
  - rewrite IH. split.
    + intros [[t H]|(a & b & ->)]; [by exists "", t|by exists (String c a), b].
    + intros ([|d a] & b & H); [left; by exists b|right].
      rewrite app_cons in H. injection H as -> ->. eauto.
Qed.

Lemma TrimPrefix_none s p : HasPrefix s p = false → TrimPrefix s p = s.
Proof. unfold TrimPrefix. by intros ->. Qed.

Lemma TrimPrefix_app p t : TrimPrefix (p +:+ t) p = t.
Proof. unfold TrimPrefix. rewrite HasPrefix_app. apply str_drop_app. Qed.

Lemma IndexFunc_None s p : IndexFunc s p = None ↔ all_bytes (λ c, negb (p c)) s = true.
Proof.
  induction s as [|d s IH]; simpl; [done|].
  destruct (p d); simpl; [done|]. rewrite <- IH. by destruct (IndexFunc s p).
Qed.

Lemma IndexFunc_app a c b p :
  all_bytes (λ d, negb (p d)) a = true → p c = true →
  IndexFunc (a +:+ String c b) p = Some (String.length a).
Proof.
  intros Ha Hc. induction a as [|d a IH]; [simpl; by rewrite Hc|].
  rewrite app_cons. simpl in *. apply andb_true_iff in Ha as [Hd Ha].
  apply negb_true_iff in Hd. by rewrite Hd, IH.
Qed.

Lemma IndexFunc_Some s p i :
  IndexFunc s p = Some i ↔
  ∃ a c b, s = a +:+ String c b ∧ all_bytes (λ d, negb (p d)) a = true ∧
           p c = true ∧ String.length a = i.
Proof.
  split; [|intros (a & c & b & -> & Ha & Hc & <-); by apply IndexFunc_app].
  revert i. induction s as [|d s IH]; intros i; simpl; [done|].
  destruct (p d) eqn:Hd; [intros [= <-]; exists "", d, s; done|].
  destruct (IndexFunc s p) as [j|] eqn:Hj; [|done]. intros [= <-].
  destruct (IH _ eq_refl) as (a & c & b & -> & Ha & Hc & Hl).
  exists (String d a), c, b. simpl. rewrite Hd. naive_solver.
Qed.

(** *** Cutting, splitting, joining *)

Lemma Cut_app a b c : ContainsByte a c = false → Cut (a +:+ String c b) c = (a, b, true).
Proof.
  rewrite ContainsByte_false. induction a as [|d a IH]; intros Ha.
  { simpl. by rewrite Ascii.eqb_refl. }
  rewrite app_cons. simpl in *. apply andb_true_iff in Ha as [Hd Ha].
  apply negb_true_iff in Hd. rewrite Hd, IH by done. done.
Qed.

Lemma Cut_none s c : ContainsByte s c = false → Cut s c = (s, "", false).
Proof.
  rewrite ContainsByte_false. induction s as [|d s IH]; simpl; intros Hs; [done|].
  apply andb_true_iff in Hs as [Hd Hs]. apply negb_true_iff in Hd.
  rewrite Hd, IH by done. done.
Qed.

(** Cutting beyond a separator-free beginning. *)
Lemma Cut_after p x c :
  ContainsByte p c = false →
  Cut (p +:+ x) c = let '(a, b, ok) := Cut x c in (p +:+ a, b, ok).
Proof.
  destruct (Cut x c) as [[a b] ok] eqn:E. induction p as [|d p IH].
  { by rewrite !app_nil_l, E. }
  rewrite ContainsByte_cons. intros [Hd Hp]%orb_false_iff.
  rewrite !app_cons. cbn [Cut]. by rewrite Hd, IH.
Qed.

Lemma Cut_true s c a b : Cut s c = (a, b, true) → s = a +:+ String c b ∧ ContainsByte a c = false.
Proof.
  revert a b. induction s as [|d s IH]; intros a b; simpl; [done|].
  destruct (Ascii.eqb_spec d c) as [->|Hne]; [by intros [= <- <-]|].
  destruct (Cut s c) as [[a' b'] []] eqn:Hc; [|done]. intros [= <- <-].
  destruct (IH _ _ eq_refl) as [-> Ha]. split; [done|].
  rewrite ContainsByte_cons, Ha. by destruct (Ascii.eqb_spec d c).
Qed.

Lemma Split_cons_ne s c : Split s c ≠ [].
Proof. induction s as [|d s IH]; simpl; [done|]. case_match; [done|]. by case_match. Qed.

Lemma Split_app a b c :
  ContainsByte a c = false → Split (a +:+ String c b) c = a :: Split b c.
Proof.
  rewrite ContainsByte_false. induction a as [|d a IH]; intros Ha.
  { simpl. by rewrite Ascii.eqb_refl. }
  rewrite app_cons. simpl in *. apply andb_true_iff in Ha as [Hd Ha].
  apply negb_true_iff in Hd. by rewrite Hd, IH.
Qed.

Lemma Split_none s c : ContainsByte s c = false → Split s c = [s].
Proof.
  rewrite ContainsByte_false. induction s as [|d s IH]; simpl; intros Hs; [done|].
  apply andb_true_iff in Hs as [Hd Hs]. apply negb_true_iff in Hd. by rewrite Hd, IH.
Qed.

Lemma Split_lacks s c : Forall (λ w, ContainsByte w c = false) (Split s c).
Proof.
  induction s as [|d s IH]; simpl; [by repeat constructor|].
  destruct (Ascii.eqb_spec d c) as [->|Hne]; [by constructor|].
  inversion IH as [|w ws Hw Hws]; subst; constructor; auto.
  rewrite ContainsByte_cons, Hw. by destruct (Ascii.eqb_spec d c).
Qed.

Lemma Join_cons w l sep : l ≠ [] → Join (w :: l) sep = w +:+ sep +:+ Join l sep.
Proof. by destruct l. Qed.

Lemma Split_Join (w : string) l c :
  Forall (λ w, ContainsByte w c = false) (w :: l) →
  Split (Join (w :: l) (String c "")) c = w :: l.
Proof.
  revert w. induction l as [|v l IH]; intros w; rewrite Forall_cons; intros [Hw Hl].
  - by apply Split_none.
  - rewrite Join_cons by done. rewrite app_cons, app_nil_l, Split_app by done.
    by rewrite IH.
Qed.

Lemma Join_Split s c : Join (Split s c) (String c "") = s.
Proof.
  induction s as [|d s IH]; simpl; [done|].
  destruct (Ascii.eqb_spec d c) as [->|Hne].
  - rewrite Join_cons by apply Split_cons_ne. by rewrite IH.
  - destruct (Split s c) as [|w ws] eqn:Hs; [by destruct (Split_cons_ne s c)|].
    destruct ws; simpl in *; by rewrite <- IH.
Qed.

(** Pieces that each end with the separator split into the pieces and a last
    empty one: a text file split into lines. *)
Lemma Split_lines (l : list string) c :
  Forall (λ w, ContainsByte w c = false) l →
  Split (foldr (λ w r, w +:+ String c r) "" l) c = l ++ [""].
Proof. induction 1 as [|w l Hw Hl IH]; simpl; [done|]. by rewrite Split_app, IH. Qed.

(** *** White space *)

(** [l] does not start with a rune of [ws]. *)
Definition not_ws (ws : list (list ascii)) (c : ascii) : bool :=
  forallb (λ w, match w with d :: _ => negb (Ascii.eqb d c) | [] => false end) ws.

Lemma rune_width_0 ws c l : not_ws ws c = true → rune_width ws (c :: l) = 0%nat.
Proof.
  induction ws as [|[|d w] ws IH]; simpl; [done..|].
  intros [Hd H]%andb_true_iff. apply negb_true_iff in Hd. rewrite Hd. simpl. auto.
Qed.

Lemma printable_not_ws c : printable c = true → not_ws white_space c = true.
Proof. apply ascii_impl. by vm_compute. Qed.

Lemma printable_not_sw c : printable c = true → not_ws (map (@rev ascii) white_space) c = true.
Proof. apply ascii_impl. by vm_compute. Qed.

(** The ASCII blanks a line is laid out with. *)
Definition blank (c : ascii) : bool := Ascii.eqb c " " || Ascii.eqb c TAB || Ascii.eqb c CR.

Lemma trim_blank ws p s l :
  (∀ c l, blank c = true → rune_width ws (c :: l) = 1%nat) →
  Forall (λ c, blank c = true) p → not_ws ws s = true →
  trim_runes ws 0 (p ++ s :: l) = s :: l.
Proof.
  intros Hb Hp Hs. induction Hp as [|c p Hc Hp IH].
  - simpl. by rewrite rune_width_0.
  - change (trim_runes ws 0 (c :: (p ++ s :: l)) = s :: l).
    cbn [trim_runes]. by rewrite Hb.
Qed.

Lemma trim_all_blank ws p :
  (∀ c l, blank c = true → rune_width ws (c :: l) = 1%nat) →
  Forall (λ c, blank c = true) p → trim_runes ws 0 p = [].
Proof.
  intros Hb. induction 1 as [|c p Hc Hp IH]; [done|]. cbn [trim_runes]. by rewrite Hb.
Qed.

Lemma blank_width c l : blank c = true → rune_width white_space (c :: l) = 1%nat.
Proof.
  unfold blank. intros [[->%Ascii.eqb_eq| ->%Ascii.eqb_eq]%orb_true_iff
                       | ->%Ascii.eqb_eq]%orb_true_iff; reflexivity.
Qed.

Lemma blank_width_rev c l :
  blank c = true → rune_width (map (@rev ascii) white_space) (c :: l) = 1%nat.
Proof.
  unfold blank. intros [[->%Ascii.eqb_eq| ->%Ascii.eqb_eq]%orb_true_iff
                       | ->%Ascii.eqb_eq]%orb_true_iff; reflexivity.
Qed.

(** A value as the lines of a configuration file carry one: its first and last
    bytes are printable, so trimming leaves it alone. *)
Definition trimmed (s : string) : bool :=
  match chars s, rev (chars s) with
  | c :: _, d :: _ => printable c && printable d
  | _, _ => false
  end.

Lemma trimmed_inv s :
  trimmed s = true →
  ∃ c l d r, chars s = c :: l ∧ rev (chars s) = d :: r ∧
             printable c = true ∧ printable d = true.
Proof.
  unfold trimmed. destruct (chars s) as [|c l] eqn:Hl; [done|].
  destruct (rev (c :: l)) as [|d r] eqn:Hr; [done|].
  intros [Hc Hd]%andb_true_iff. naive_solver.
Qed.

Lemma TrimSpace_pad p s q :
  all_bytes blank p = true → all_bytes blank q = true → trimmed s = true →
  TrimSpace (p +:+ s +:+ q) = s.
Proof.
  rewrite !all_bytes_chars. intros Hp Hq (c & l & d & r & Hl & Hr & Hc & Hd)%trimmed_inv.
  unfold TrimSpace. rewrite !chars_app, Hl. cbn [app].
  rewrite trim_blank by auto using blank_width, printable_not_ws.
  change (c :: l ++ chars q) with ((c :: l) ++ chars q). rewrite <- Hl.
  rewrite rev_app_distr, Hr.
  rewrite trim_blank by auto using blank_width_rev, printable_not_sw, Forall_rev.
  rewrite <- Hr, rev_involutive. apply str_chars.
Qed.

Lemma TrimSpace_trimmed s : trimmed s = true → TrimSpace s = s.
Proof.
  intros H. rewrite <- (TrimSpace_pad "" s "") at 2 by done.
  by rewrite app_nil_l, str_app_nil_r.
Qed.

Lemma TrimSpace_blank s : all_bytes blank s = true → TrimSpace s = "".
Proof.
  rewrite all_bytes_chars. intros Hs. unfold TrimSpace.
  by rewrite (trim_all_blank white_space (chars s)) by auto using blank_width.
Qed.

Lemma trimmed_app s t : trimmed s = true → trimmed t = true → trimmed (s +:+ t) = true.
Proof.
  intros (c & l & d & r & Hl & Hr & Hc & Hd)%trimmed_inv.
  intros (c' & l' & d' & r' & Hl' & Hr' & Hc' & Hd')%trimmed_inv.
  unfold trimmed. rewrite chars_app, rev_app_distr, Hl, Hr'. simpl. by rewrite Hc, Hd'.
Qed.

(** [s ++ u ++ t] for trimmed ends and any middle. *)
Lemma trimmed_app3 s u t :
  trimmed s = true → trimmed t = true → trimmed (s +:+ u +:+ t) = true.
Proof.
  intros (c & l & d & r & Hl & Hr & Hc & Hd)%trimmed_inv.
  intros (c' & l' & d' & r' & Hl' & Hr' & Hc' & Hd')%trimmed_inv.
  unfold trimmed. rewrite !chars_app, !rev_app_distr, Hl, Hr'. simpl. by rewrite Hc, Hd'.
Qed.

Lemma trimmed_printable s : s ≠ "" → all_bytes printable s = true → trimmed s = true.
Proof.
  intros Hne. rewrite all_bytes_chars. intros H. unfold trimmed.
  destruct (chars s) as [|c l] eqn:Hl; [by destruct s|].
  apply Forall_rev in H as Hr. destruct (rev (c :: l)) as [|d r] eqn:He.
  { by apply (f_equal (@length _)) in He; rewrite length_rev in He. }
  inversion H; inversion Hr; subst. by apply andb_true_iff.
Qed.

Lemma trimmed_ne s : trimmed s = true → s ≠ "".
Proof. by intros H ->. Qed.

(** *** Fields *)

(** A separator-free list is one field. *)
Lemma fields_go_flat sep cur l rest :
  (∀ c r, In c l → sep (c :: r) = 0%nat) →
  fields_go sep 0 cur (l ++ rest) = fields_go sep 0 (rev l ++ cur) rest.
Proof.
  revert cur. induction l as [|c l IH]; intros cur Hl; [done|].
  change ((c :: l) ++ rest) with (c :: (l ++ rest)). cbn [fields_go].
  rewrite Hl by (by left). rewrite IH by (intros; apply Hl; by right).
  simpl. by rewrite <- app_assoc.
Qed.

Lemma fields_go_Join sep (d : ascii) (l : list string) :
  (∀ r, sep (d :: r) = 1%nat) →
  Forall (λ w, w ≠ "" ∧ ∀ c r, In c (chars w) → sep (c :: r) = 0%nat) l →
  map str (fields_go sep 0 [] (chars (Join l (String d "")))) = l.
Proof.
  intros Hd Hl. induction Hl as [|w l [Hne Hw] Hl IH]; [done|].
  assert (rev (chars w) ≠ []) as Hr.
  { intros H%(f_equal (@length _)). rewrite length_rev in H. by destruct w. }
  assert (∀ rest, match rev (chars w) ++ [] with [] => [] | _ => [rev (rev (chars w) ++ [])] end
                  ++ rest = [chars w] ++ rest) as Hflush.
  { intros rest. rewrite app_nil_r, rev_involutive. by destruct (rev (chars w)). }
  destruct l as [|v l].
  - simpl Join. rewrite <- (app_nil_r (chars w)), fields_go_flat by done.
    cbn [fields_go]. rewrite <- (app_nil_r (match _ with [] => _ | _ => _ end)), Hflush.
    simpl. by rewrite str_chars.
  - rewrite Join_cons, !chars_app, fields_go_flat by done. cbn [chars app fields_go].
    rewrite Hd, Hflush. cbn [map app]. by rewrite str_chars, IH.
Qed.

Lemma Fields_Join (l : list string) :
  Forall (λ w, w ≠ "" ∧ all_bytes printable w = true) l → Fields (Join l " ") = l.
Proof.
  intros Hl. unfold Fields. apply fields_go_Join; [done|].
  eapply Forall_impl; [exact Hl|]. intros w [Hne Hw]. split; [done|].
  intros c r Hc. apply rune_width_0, printable_not_ws.
  apply all_bytes_chars in Hw. rewrite List.Forall_forall in Hw. auto.
Qed.

Lemma FieldsFunc_Join (p : ascii → bool) (d : ascii) (l : list string) :
  p d = true →
  Forall (λ w, w ≠ "" ∧ all_bytes (λ c, negb (p c)) w = true) l →
  FieldsFunc (Join l (String d "")) p = l.
Proof.
  intros Hd Hl. apply fields_go_Join; [intros r; by rewrite Hd|].
  eapply Forall_impl; [exact Hl|]. intros w [Hne Hw]. split; [done|].
  intros c r Hc. apply all_bytes_chars in Hw. rewrite List.Forall_forall in Hw.
  specialize (Hw _ Hc). simpl in Hw. by destruct (p c).
Qed.

(** *** Concatenations of fixed-width pieces *)

Lemma str_app_inj_len s1 t1 s2 t2 :
  String.length s1 = String.length s2 → s1 +:+ t1 = s2 +:+ t2 → s1 = s2 ∧ t1 = t2.
Proof.
  revert s2. induction s1 as [|c s1 IH]; intros [|d s2] Hl He; try done.
  rewrite !app_cons in He. injection He as -> He. injection Hl as Hl.
  by destruct (IH _ Hl He) as [-> ->].
Qed.
