(* ===== verification/GoRegexp.v ===== *)
(** The part of package regexp the program uses: patterns anchored at both
    ends, built from bytes, classes, groups, alternation and repetition.
    [MustCompile] reads the pattern text the source has; [MatchString] runs the
    compiled pattern by derivatives, and is proved equal to the language of the
    pattern. *)

From S2P Require Import Prelude GoString.

Inductive re : Type :=
  | Void
  | Eps
  | Cls (rs : list (ascii * ascii))
  | Cat (a b : re)
  | Alt (a b : re)
  | Star (a : re).

Definition in_class (rs : list (ascii * ascii)) (c : ascii) : bool :=
  existsb (λ '(lo, hi), in_range lo hi c) rs.

(** The language of a pattern. *)
Inductive matches : re → list ascii → Prop :=
  | m_eps : matches Eps []
  | m_cls rs c : in_class rs c = true → matches (Cls rs) [c]
  | m_cat a b l1 l2 : matches a l1 → matches b l2 → matches (Cat a b) (l1 ++ l2)
  | m_alt_l a b l : matches a l → matches (Alt a b) l
  | m_alt_r a b l : matches b l → matches (Alt a b) l
  | m_star_nil a : matches (Star a) []
  | m_star_app a l1 l2 : matches a l1 → matches (Star a) l2 → matches (Star a) (l1 ++ l2).

(** ** Matching *)

Fixpoint nullable (r : re) : bool :=
  match r with
  | Void | Cls _ => false
  | Eps | Star _ => true
  | Cat a b => nullable a && nullable b
  | Alt a b => nullable a || nullable b
  end.

Definition cat (a b : re) : re :=
  match a, b with
  | Void, _ | _, Void => Void
  | Eps, b => b
  | a, Eps => a
  | a, b => Cat a b
  end.

Definition alt (a b : re) : re :=
  match a, b with
  | Void, b => b
  | a, Void => a
  | a, b => Alt a b
  end.

Fixpoint deriv (c : ascii) (r : re) : re :=
  match r with
  | Void | Eps => Void
  | Cls rs => if in_class rs c then Eps else Void
  | Cat a b =>
      if nullable a then alt (cat (deriv c a) b) (deriv c b) else cat (deriv c a) b
  | Alt a b => alt (deriv c a) (deriv c b)
  | Star a => cat (deriv c a) (Star a)
  end.

Fixpoint MatchString (r : re) (s : string) : bool :=
  match s with
  | "" => nullable r
  | String c s => MatchString (deriv c r) s
  end.

(** ** Compiling a pattern *)

Definition hex_value (c : ascii) : option N :=
  if is_digit c then Some (N_of_ascii c - 48)%N
  else if in_range "a" "f" c then Some (N_of_ascii c - 87)%N
  else None.

(** One byte of a class or of the pattern, escapes undone. *)
Definition parse_byte (l : list ascii) : option (ascii * list ascii) :=
  match l with
  | "\" :: "x" :: h :: k :: l =>
      h ← hex_value h; k ← hex_value k; Some (ascii_of_N (h * 16 + k), l)
  | "\" :: c :: l => Some (c, l)
  | c :: l => Some (c, l)
  | [] => None
  end%char.

Fixpoint parse_class (n : nat) (l : list ascii) : option (list (ascii * ascii) * list ascii) :=
  match n with
  | O => None
  | S n =>
      match l with
      | "]" :: l => Some ([], l)
      | _ =>
          '(lo, l) ← parse_byte l;
          match l with
          | "-" :: "]" :: _ => '(rs, l) ← parse_class n l; Some ((lo, lo) :: rs, l)
          | "-" :: l =>
              '(hi, l) ← parse_byte l;
              '(rs, l) ← parse_class n l; Some ((lo, hi) :: rs, l)
          | _ => '(rs, l) ← parse_class n l; Some ((lo, lo) :: rs, l)
          end
      end
  end%char.

Fixpoint repeat_re (n : nat) (r : re) : re :=
  match n with O => Eps | S n => cat r (repeat_re n r) end.

Fixpoint parse_count (n : nat) (l : list ascii) : option (nat * list ascii) :=
  match l with
  | "}" :: l => Some (n, l)
  | c :: l => if is_digit c then parse_count (n * 10 + (nat_of_ascii c - 48)) l else None
  | [] => None
  end%char.

Definition parse_postfix (r : re) (l : list ascii) : option (re * list ascii) :=
  match l with
  | "*" :: l => Some (Star r, l)
  | "+" :: l => Some (Cat r (Star r), l)
  | "?" :: l => Some (Alt r Eps, l)
  | "{" :: l => '(n, l) ← parse_count 0 l; Some (repeat_re n r, l)
  | _ => Some (r, l)
  end%char.

Fixpoint parse_alt (n : nat) (l : list ascii) : option (re * list ascii) :=
  match n with
  | O => None
  | S n =>
      '(a, l) ← parse_cat n l;
      match l with
      | "|" :: l => '(b, l) ← parse_alt n l; Some (Alt a b, l)
      | _ => Some (a, l)
      end
  end%char
with parse_cat (n : nat) (l : list ascii) : option (re * list ascii) :=
  match n with
  | O => None
  | S n =>
      match l with
      | [] | ")" :: _ | "|" :: _ | "$" :: _ => Some (Eps, l)
      | _ =>
          '(a, l) ← parse_atom n l;
          '(a, l) ← parse_postfix a l;
          '(b, l) ← parse_cat n l; Some (cat a b, l)
      end
  end%char
with parse_atom (n : nat) (l : list ascii) : option (re * list ascii) :=
  match n with
  | O => None
  | S n =>
      match l with
      | "(" :: l =>
          '(a, l) ← parse_alt n l;
          match l with ")" :: l => Some (a, l) | _ => None end
      | "[" :: l => '(rs, l) ← parse_class n l; Some (Cls rs, l)
      | _ => '(c, l) ← parse_byte l; Some (Cls [(c, c)], l)
      end
  end%char.

(** [regexp.MustCompile] of a pattern of the form [^...$]. *)
Definition MustCompile (p : string) : option re :=
  match chars p with
  | "^" :: l =>
      '(r, l) ← parse_alt 400 l;
      match l with ["$"] => Some r | _ => None end
  | _ => None
  end%char.

(** ** Correctness of the matcher *)

Lemma nullable_spec r : nullable r = true ↔ matches r [].
Proof.
  induction r as [| |rs|a IHa b IHb|a IHa b IHb|a IHa]; simpl.
  - split; [done|]. inversion 1.
  - split; [constructor|done].
  - split; [done|]. inversion 1.
  - rewrite andb_true_iff, IHa, IHb. split.
    + intros [Ha Hb]. by apply (m_cat a b [] []).
    + inversion 1; subst.
      by match goal with H : _ ++ _ = [] |- _ => apply app_eq_nil in H as [-> ->] end.
  - rewrite orb_true_iff, IHa, IHb. split; [intros [|]; eauto using matches|].
    inversion 1; auto.
  - split; [constructor|done].
Qed.

Lemma matches_cat a b l : matches (cat a b) l ↔ matches (Cat a b) l.
Proof.
  assert (∀ l, matches Void l ↔ False) as HV by (split; [inversion 1|done]).
  assert (∀ b l, matches (Cat Void b) l ↔ False) as HVl.
  { split; [inversion 1; subst; by eapply HV|done]. }
  assert (∀ a l, matches (Cat a Void) l ↔ False) as HVr.
  { split; [inversion 1; subst; by eapply HV|done]. }
  assert (∀ b l, matches (Cat Eps b) l ↔ matches b l) as HEl.
  { intros b' l'. split; [inversion 1; subst; by match goal with H : matches Eps _ |- _ => inversion H end|].
    intros H. apply (m_cat Eps _ []); [constructor|done]. }
  assert (∀ a l, matches (Cat a Eps) l ↔ matches a l) as HEr.
  { intros a' l'. split.
    - inversion 1; subst. match goal with H : matches Eps _ |- _ => inversion H end.
      by rewrite app_nil_r.
    - intros H. rewrite <- (app_nil_r l'). by repeat constructor. }
  destruct a, b; simpl; rewrite ?HV, ?HVl, ?HVr, ?HEl, ?HEr; done.
Qed.

Lemma matches_alt a b l : matches (alt a b) l ↔ matches (Alt a b) l.
Proof.
  assert (∀ a b l, matches (Alt a b) l ↔ matches a l ∨ matches b l) as HA.
  { split; [inversion 1; auto|intros [|]; eauto using matches]. }
  assert (∀ l, matches Void l ↔ False) as HV by (split; [inversion 1|done]).
  destruct a, b; simpl; rewrite ?HA, ?HV; tauto.
Qed.

Lemma matches_Cat_cons a b c l :
  matches (Cat a b) (c :: l) ↔
  (∃ l1 l2, l = l1 ++ l2 ∧ matches a (c :: l1) ∧ matches b l2) ∨
  (matches a [] ∧ matches b (c :: l)).
Proof.
  split.
  - inversion 1 as [| |? ? l1 l2 Ha Hb| | | |]; subst.
    destruct l1 as [|d l1]; simplify_eq/=; [by right|left; eauto].
  - intros [(l1 & l2 & -> & Ha & Hb)|[Ha Hb]].
    + by apply (m_cat a b (c :: l1)).
    + by apply (m_cat a b []).
Qed.

Lemma matches_Star_cons a c l :
  matches (Star a) (c :: l) ↔
  ∃ l1 l2, l = l1 ++ l2 ∧ matches a (c :: l1) ∧ matches (Star a) l2.
Proof.
  split.
  - remember (Star a) as r eqn:Hr. remember (c :: l) as k eqn:Hk. intros H.
    revert c l Hk. induction H as [| | | | | |a' l1 l2 H1 _ H2 IH]; try done.
    injection Hr as ->. intros c l Hk. destruct l1 as [|d l1]; simplify_eq/=; eauto.
  - intros (l1 & l2 & -> & Ha & Hs). by apply (m_star_app a (c :: l1)).
Qed.

Lemma deriv_spec c r l : matches (deriv c r) l ↔ matches r (c :: l).
Proof.
  revert l. induction r as [| |rs|a IHa b IHb|a IHa b IHb|a IHa]; intros l; simpl.
  - split; inversion 1.
  - split; inversion 1.
  - destruct (in_class rs c) eqn:Hc; split; inversion 1; subst; try congruence.
    by constructor.
    constructor.
  - rewrite matches_Cat_cons, <- nullable_spec.
    assert (matches (cat (deriv c a) b) l ↔
            ∃ l1 l2, l = l1 ++ l2 ∧ matches a (c :: l1) ∧ matches b l2) as Hcat.
    { rewrite matches_cat. setoid_rewrite <- IHa. split.
      - inversion 1; subst; eauto.
      - intros (l1 & l2 & -> & ? & ?). by constructor. }
    destruct (nullable a).
    + rewrite matches_alt, <- Hcat, <- IHb. split; [inversion 1; auto|].
      intros [|[_ ?]]; eauto using matches.
    + rewrite Hcat. split; [auto|]. by intros [|[? _]].
  - rewrite matches_alt. split.
    + inversion 1; subst; [apply m_alt_l, IHa|apply m_alt_r, IHb]; done.
    + inversion 1; subst; [apply m_alt_l, IHa|apply m_alt_r, IHb]; done.
  - rewrite matches_cat, matches_Star_cons. setoid_rewrite <- IHa. split.
    + inversion 1; subst; eauto.
    + intros (l1 & l2 & -> & ? & ?). by constructor.
Qed.

Lemma MatchString_spec r s : MatchString r s = true ↔ matches r (chars s).
Proof.
  revert r. induction s as [|c s IH]; intros r; simpl.
  - apply nullable_spec.
  - by rewrite IH, deriv_spec.
Qed.

(** ** What a pattern says of the bytes it matches *)

Fixpoint re_bytes (r : re) (c : ascii) : bool :=
  match r with
  | Void | Eps => false
  | Cls rs => in_class rs c
  | Cat a b | Alt a b => re_bytes a c || re_bytes b c
  | Star a => re_bytes a c
  end.

Fixpoint re_first (r : re) (c : ascii) : bool :=
  match r with
  | Void | Eps => false
  | Cls rs => in_class rs c
  | Cat a b => re_first a c || (nullable a && re_first b c)
  | Alt a b => re_first a c || re_first b c
  | Star a => re_first a c
  end.

Lemma matches_bytes r l : matches r l → Forall (λ c, re_bytes r c = true) l.
Proof.
  induction 1; simpl; rewrite ?Forall_app; try split; repeat constructor; try done;
    (eapply Forall_impl; [eassumption|]); intros c Hc; simpl; rewrite Hc;
    auto using orb_true_r.
Qed.

Lemma matches_first r c l : matches r (c :: l) → re_first r c = true.
Proof.
  revert c l. induction r as [| |rs|a IHa b IHb|a IHa b IHb|a IHa]; intros c l; simpl.
  - inversion 1.
  - inversion 1.
  - by inversion 1.
  - rewrite matches_Cat_cons, <- nullable_spec.
    intros [(? & ? & _ & Ha & _)|[-> Hb]]; apply orb_true_iff; [left|right]; eauto.
  - inversion 1; subst; apply orb_true_iff; eauto.
  - rewrite matches_Star_cons. intros (? & ? & _ & Ha & _). eauto.
Qed.

Definition all_ascii : list ascii := map ascii_of_nat (seq 0 256).

(** Every byte of a match satisfies [p], by running over the byte set. *)
Lemma MatchString_bytes (p : ascii → bool) r s :
  forallb (λ c, implb (re_bytes r c) (p c)) all_ascii = true →
  MatchString r s = true → all_bytes p s = true.
Proof.
  intros Hp Hm. apply MatchString_spec, matches_bytes in Hm.
  apply all_bytes_chars. eapply Forall_impl; [exact Hm|].
  intros c. by apply ascii_impl.
Qed.

(** The first byte of a match satisfies [p], and there is one. *)
Lemma MatchString_first (p : ascii → bool) r s :
  forallb (λ c, implb (re_first r c) (p c)) all_ascii = true →
  nullable r = false → MatchString r s = true →
  ∃ c t, s = String c t ∧ p c = true.
Proof.
  intros Hp Hn Hm. destruct s as [|c t]; [simpl in Hm; congruence|].
  exists c, t. split; [done|]. apply MatchString_spec, matches_first in Hm.
  by apply (ascii_impl (re_first r) p).
Qed.
