(* ===== verification/GoTime.v ===== *)
(** Numbers and dates: strconv.ParseInt and strconv.Atoi over 64-bit integers,
    the proleptic Gregorian calendar of package time, and the rendering layout
    [kbuild.Timestamp] asks for. *)

From S2P Require Import Prelude GoString.
#[local] Open Scope Z_scope.
#[local] Ltac Zify.zify_post_hook ::= Z.to_euclidean_division_equations.

(** ** strconv *)

Inductive NumError := ErrSyntax | ErrRange.

Definition maxUint64 : Z := 2 ^ 64 - 1.
Definition maxInt64 : Z := 2 ^ 63 - 1.

Definition digit_value (c : ascii) : Z := Z.of_N (N_of_ascii c) - 48.

(** The accumulation loop of ParseUint in base 10: it stops at the first byte
    that is no digit and at the first overflow of 64 bits. *)
Fixpoint parse_digits (n : Z) (s : string) : result NumError Z :=
  match s with
  | "" => Ok n
  | String c s =>
      if is_digit c then
        let n' := n * 10 + digit_value c in
        if maxUint64 <? n' then Err ErrRange else parse_digits n' s
      else Err ErrSyntax
  end.

Definition ParseUint (s : string) : result NumError Z :=
  if s =s "" then Err ErrSyntax else parse_digits 0 s.

(** [strconv.ParseInt(s, 10, 64)]. A magnitude out of 64 bits is saturated, so
    it fails the signed range check. *)
Definition ParseInt (s : string) : result NumError Z :=
  let '(neg, body) := match s with
                      | String "+" t => (false, t)
                      | String "-" t => (true, t)
                      | _ => (false, s)
                      end in
  match ParseUint body with
  | Err ErrSyntax => Err ErrSyntax
  | Err ErrRange => Err ErrRange
  | Ok un =>
      if neg then (if 2 ^ 63 <? un then Err ErrRange else Ok (- un))
      else if 2 ^ 63 <=? un then Err ErrRange else Ok un
  end.

(** [strconv.Atoi] on a platform with 64-bit [int]. *)
Definition Atoi (s : string) : result NumError Z := ParseInt s.

(** ** Calendar dates *)

Record date := Date {
  year : Z; month : Z; day : Z; hour : Z; minute : Z; second : Z
}.

Definition isLeap (y : Z) : bool :=
  (y mod 4 =? 0) && (negb (y mod 100 =? 0) || (y mod 400 =? 0)).

(** Days of a common year before month [m] (1 to 12), and of the whole year for 13. *)
Definition daysBefore (m : Z) : Z :=
  nth (Z.to_nat (m - 1)) [0; 31; 59; 90; 120; 151; 181; 212; 243; 273; 304; 334; 365] 0.

(** From a day count since 1 January of year 1 to (year, day of the year): the
    cycles of 400, 100, 4 and 1 years, each last one shortened by its leap day. *)
Definition year_yday (d : Z) : Z * Z :=
  let n400 := d / 146097 in
  let d := d - 146097 * n400 in
  let n100 := d / 36524 in
  let n100 := n100 - n100 / 4 in
  let d := d - 36524 * n100 in
  let n4 := d / 1461 in
  let d := d - 1461 * n4 in
  let n1 := d / 365 in
  let n1 := n1 - n1 / 4 in
  (1 + 400 * n400 + 100 * n100 + 4 * n4 + n1, d - 365 * n1).

(** From (leap, day of the year) to (month, day of the month): the month is
    estimated with 31 days each, then corrected by one. *)
Definition month_day (leap : bool) (yday : Z) : Z * Z :=
  if leap && (yday =? 59) then (2, 29)
  else
    let d := if leap && (59 <? yday) then yday - 1 else yday in
    let m := d / 31 in
    let last := daysBefore (m + 2) in
    if last <=? d then (m + 2, d - last + 1) else (m + 1, d - daysBefore (m + 1) + 1).

(** Days from 1 January of year 1 to 1 January 1970. *)
Definition unixEpochDay : Z := 719162.

(** [time.Unix(sec, 0).UTC()], for [sec >= 0]. *)
Definition utc (sec : Z) : date :=
  let days := sec / 86400 in
  let s := sec mod 86400 in
  let '(y, yday) := year_yday (days + unixEpochDay) in
  let '(m, d) := month_day (isLeap y) yday in
  Date y m d (s / 3600) (s mod 3600 / 60) (s mod 60).

(** Sunday is 0; 1 January 1970 was a Thursday. *)
Definition weekday (sec : Z) : Z := (sec / 86400 + 4) mod 7.

(** ** Rendering *)

Definition shortDay (w : Z) : string :=
  nth (Z.to_nat w) ["Sun"; "Mon"; "Tue"; "Wed"; "Thu"; "Fri"; "Sat"] "".
Definition shortMonth (m : Z) : string :=
  nth (Z.to_nat (m - 1)) ["Jan"; "Feb"; "Mar"; "Apr"; "May"; "Jun";
                          "Jul"; "Aug"; "Sep"; "Oct"; "Nov"; "Dec"] "".

(** [n] in [w] columns, padded on the left with [pad]. *)
Definition pad_left (pad : ascii) (w : nat) (n : Z) : string :=
  let s := dec n in
  str (repeat pad (w - String.length s)) +:+ s.

(** The layout "Mon Jan _2 15:04:05 MST 2006", in UTC. *)
Definition Format (w : Z) (t : date) : string :=
  shortDay w +:+ " " +:+ shortMonth (month t) +:+ " " +:+ pad_left " " 2 (day t)
  +:+ " " +:+ pad_left "0" 2 (hour t) +:+ ":" +:+ pad_left "0" 2 (minute t)
  +:+ ":" +:+ pad_left "0" 2 (second t) +:+ " UTC " +:+ pad_left "0" 4 (year t).

(** ** The calendar, declaratively *)

Definition month_length (y m : Z) : Z :=
  if m =? 2 then (if isLeap y then 29 else 28)
  else if (m =? 4) || (m =? 6) || (m =? 9) || (m =? 11) then 30 else 31.

Record valid_date (t : date) : Prop := ValidDate {
  vd_month : 1 <= month t <= 12;
  vd_day : 1 <= day t <= month_length (year t) (month t);
  vd_hour : 0 <= hour t < 24;
  vd_minute : 0 <= minute t < 60;
  vd_second : 0 <= second t < 60
}.

(** Leap years from year 1 up to, not including, year [y]. *)
Definition leaps (y : Z) : Z := (y - 1) / 4 - (y - 1) / 100 + (y - 1) / 400.

Definition days_before_month (y m : Z) : Z :=
  daysBefore m + if isLeap y && (2 <? m) then 1 else 0.

(** Days since 1 January 1970. *)
Definition day_number (y m d : Z) : Z :=
  365 * (y - 1970) + (leaps y - leaps 1970) + days_before_month y m + d - 1.

(** Seconds since the epoch of a UTC date. *)
Definition unix_time (t : date) : Z :=
  86400 * day_number (year t) (month t) (day t)
  + 3600 * hour t + 60 * minute t + second t.

(** ** The date algorithm is the calendar *)

Lemma Zforall_range (P : Z → bool) n x :
  forallb P (map Z.of_nat (seq 0 n)) = true → 0 <= x < Z.of_nat n → P x = true.
Proof.
  intros H Hx. rewrite forallb_forall in H. apply H.
  rewrite <- (Z2Nat.id x) by lia. apply in_map, in_seq. lia.
Qed.

Lemma isLeap_cycles a b c e :
  0 <= b < 4 → 0 <= c < 25 → 0 <= e < 4 →
  isLeap (1 + 400 * a + 100 * b + 4 * c + e) =
  (e =? 3) && (negb (c =? 24) || (b =? 3)).
Proof.
  intros Hb Hc He. unfold isLeap.
  assert ((1 + 400 * a + 100 * b + 4 * c + e) mod 4 = (1 + e) mod 4) as -> by lia.
  assert ((1 + 400 * a + 100 * b + 4 * c + e) mod 100 = (1 + 4 * c + e) mod 100) as -> by lia.
  assert ((1 + 400 * a + 100 * b + 4 * c + e) mod 400
          = (1 + 100 * b + 4 * c + e) mod 400) as -> by lia.
  destruct (Z.eqb_spec e 3); [|lia].
  destruct (Z.eqb_spec c 24); [|lia].
  destruct (Z.eqb_spec b 3); lia.
Qed.

Lemma year_yday_spec d :
  0 <= d →
  let '(y, yday) := year_yday d in
  d = 365 * (y - 1) + leaps y + yday ∧ 1 <= y ∧
  0 <= yday < 365 + (if isLeap y then 1 else 0).
Proof.
  intros Hd. unfold year_yday.
  set (a := d / 146097). set (d1 := d - 146097 * a).
  set (b := d1 / 36524 - d1 / 36524 / 4). set (d2 := d1 - 36524 * b).
  set (c := d2 / 1461). set (d3 := d2 - 1461 * c).
  set (e := d3 / 365 - d3 / 365 / 4).
  assert (0 <= d1 < 146097) as H1 by lia.
  assert (0 <= b < 4 ∧ 0 <= d2 ∧ (b < 3 → d2 < 36524) ∧ d2 <= 36524) as (Hb & H2 & H2' & H2'') by lia.
  assert (0 <= c < 25 ∧ 0 <= d3 < 1461) as [Hc H3] by lia.
  assert (0 <= e < 4) as He by lia.
  rewrite isLeap_cycles by done.
  assert (leaps (1 + 400 * a + 100 * b + 4 * c + e) = 97 * a + 24 * b + c) as Hl.
  { unfold leaps. lia. }
  rewrite Hl. split; [lia|]. split; [lia|].
  destruct (Z.eqb_spec e 3); [|simpl; lia].
  destruct (Z.eqb_spec c 24), (Z.eqb_spec b 3); simpl; lia.
Qed.

(** One year's days, leap or not, checked one by one. *)
Definition month_day_ok (leap : bool) (yday : Z) : bool :=
  let y := if leap then 4 else 1 in
  let '(m, d) := month_day leap yday in
  (1 <=? m) && (m <=? 12) && (1 <=? d) && (d <=? month_length y m)
  && (days_before_month y m + d - 1 =? yday).

Lemma month_length_leap y y' m : isLeap y = isLeap y' → month_length y m = month_length y' m.
Proof. unfold month_length. by intros ->. Qed.

Lemma days_before_month_leap y y' m :
  isLeap y = isLeap y' → days_before_month y m = days_before_month y' m.
Proof. unfold days_before_month. by intros ->. Qed.

Lemma month_day_spec y yday :
  0 <= yday < 365 + (if isLeap y then 1 else 0) →
  let '(m, d) := month_day (isLeap y) yday in
  1 <= m <= 12 ∧ 1 <= d <= month_length y m ∧ days_before_month y m + d - 1 = yday.
Proof.
  intros H.
  assert (month_day_ok (isLeap y) yday = true) as Hok.
  { destruct (isLeap y); [apply (Zforall_range (month_day_ok true) 366)
                         |apply (Zforall_range (month_day_ok false) 365)];
      try lia; by vm_compute. }
  unfold month_day_ok in Hok.
  assert (isLeap y = isLeap (if isLeap y then 4 else 1)) as Hy by by destruct (isLeap y).
  destruct (month_day (isLeap y) yday) as [m d].
  rewrite (month_length_leap _ _ m Hy), (days_before_month_leap _ _ m Hy). lia.
Qed.

(** [utc] yields a valid date, and the date of that very second. *)
Lemma utc_spec sec :
  0 <= sec → valid_date (utc sec) ∧ unix_time (utc sec) = sec ∧ 1 <= year (utc sec).
Proof.
  intros Hs. unfold utc.
  pose proof (year_yday_spec (sec / 86400 + unixEpochDay) ltac:(unfold unixEpochDay; lia)) as Hy.
  destruct (year_yday _) as [y yday]. destruct Hy as (Hd & Hy & Hr).
  pose proof (month_day_spec y yday Hr) as Hm.
  destruct (month_day (isLeap y) yday) as [m d]. destruct Hm as (Hm & Hdd & He).
  split; [constructor; simpl; try lia|]. split; [|done].
  unfold unix_time, day_number. simpl.
  assert (leaps 1970 = 477) as -> by done. unfold unixEpochDay in Hd. lia.
Qed.

Lemma leaps_mono y y' : y <= y' → leaps y <= leaps y'.
Proof. intros. unfold leaps. lia. Qed.

Lemma leaps_succ y : leaps (y + 1) = leaps y + (if isLeap y then 1 else 0).
Proof.
  unfold leaps, isLeap.
  destruct ((y mod 4 =? 0) && (negb (y mod 100 =? 0) || (y mod 400 =? 0))) eqn:H; lia.
Qed.

Lemma month_cases m :
  1 <= m <= 12 →
  m = 1 ∨ m = 2 ∨ m = 3 ∨ m = 4 ∨ m = 5 ∨ m = 6 ∨
  m = 7 ∨ m = 8 ∨ m = 9 ∨ m = 10 ∨ m = 11 ∨ m = 12.
Proof. lia. Qed.

(** The day of the year stays within its year. *)
Lemma yday_bound y m d :
  1 <= m <= 12 → 1 <= d <= month_length y m →
  0 <= days_before_month y m + d - 1 < 365 + (if isLeap y then 1 else 0).
Proof.
  intros Hm Hd. unfold days_before_month, month_length, daysBefore in *.
  pose proof (month_cases m Hm) as Hc.
  destruct (isLeap y); destruct_or! Hc; subst; simpl in *; lia.
Qed.

Lemma month_unique y m d m' d' :
  1 <= m <= 12 → 1 <= d <= month_length y m →
  1 <= m' <= 12 → 1 <= d' <= month_length y m' →
  days_before_month y m + d = days_before_month y m' + d' → m = m' ∧ d = d'.
Proof.
  intros Hm Hd Hm' Hd' He.
  assert (∀ k k', 1 <= k <= 12 → 1 <= k' <= 12 → k < k' →
          days_before_month y k + month_length y k <= days_before_month y k') as Hlt.
  { intros k k' Hk Hk' Hlt. unfold days_before_month, month_length, daysBefore.
    pose proof (month_cases k Hk) as Hc. pose proof (month_cases k' Hk') as Hc'.
    destruct (isLeap y); destruct_or! Hc; destruct_or! Hc'; subst; simpl; lia. }
  destruct (Z.lt_trichotomy m m') as [H|[->|H]]; [|lia|].
  - specialize (Hlt m m' Hm Hm' H). lia.
  - specialize (Hlt m' m Hm' Hm H). lia.
Qed.

Lemma day_number_unique y m d y' m' d' :
  1 <= m <= 12 → 1 <= d <= month_length y m →
  1 <= m' <= 12 → 1 <= d' <= month_length y' m' →
  day_number y m d = day_number y' m' d' → y = y' ∧ m = m' ∧ d = d'.
Proof.
  intros Hm Hd Hm' Hd' He. unfold day_number in He.
  pose proof (yday_bound y m d Hm Hd). pose proof (yday_bound y' m' d' Hm' Hd').
  assert (y = y') as <-.
  { destruct (Z.lt_trichotomy y y') as [Hlt|[|Hlt]]; [exfalso|done|exfalso].
    - pose proof (leaps_mono (y + 1) y' ltac:(lia)). pose proof (leaps_succ y). lia.
    - pose proof (leaps_mono (y' + 1) y ltac:(lia)). pose proof (leaps_succ y'). lia. }
  split; [done|]. apply (month_unique y); auto; lia.
Qed.

(** A second of the epoch has one date. *)
Lemma unix_time_unique t t' :
  valid_date t → valid_date t' → unix_time t = unix_time t' → t = t'.
Proof.
  intros [] []. destruct t as [y m d h mi s], t' as [y' m' d' h' mi' s']. simpl in *.
  unfold unix_time. simpl. intros He.
  assert (day_number y m d = day_number y' m' d') as Hd by lia.
  apply day_number_unique in Hd as (-> & -> & ->); auto. f_equal; lia.
Qed.

(** [utc] inverts [unix_time]. *)
Lemma utc_unix_time t : valid_date t → 0 <= unix_time t → utc (unix_time t) = t.
Proof.
  intros Hv Hs. destruct (utc_spec _ Hs) as (Hv' & He & _). by apply unix_time_unique.
Qed.

(** The last second of the year 9999. *)
Definition maxEpoch : Z := 253402300799.

Lemma year_bound sec : 0 <= sec → 1970 <= year (utc sec) ∧ (year (utc sec) <= 9999 ↔ sec <= maxEpoch).
Proof.
  intros Hs. destruct (utc_spec sec Hs) as ([] & He & Hy). revert He.
  pose proof (yday_bound (year (utc sec)) (month (utc sec)) (day (utc sec))) as Hb.
  specialize (Hb ltac:(auto) ltac:(auto)).
  unfold unix_time, day_number. assert (leaps 1970 = 477) as -> by done.
  set (y := year (utc sec)) in *. intros He. unfold maxEpoch.
  pose proof (leaps_succ y) as Hsucc.
  split.
  - destruct (Z.le_gt_cases 1970 y); [done|].
    pose proof (leaps_mono (y + 1) 1970 ltac:(lia)). assert (leaps 1970 = 477) by done. lia.
  - split; intros H.
    + pose proof (leaps_mono (y + 1) 10000 ltac:(lia)). assert (leaps 10000 = 2424) by done. lia.
    + destruct (Z.le_gt_cases y 9999); [done|].
      pose proof (leaps_mono 10000 y ltac:(lia)). assert (leaps 10000 = 2424) by done. lia.
Qed.

(** ** The layout is injective *)

(** Reads a padded number back. *)
Definition unpad (s : string) : Z :=
  match ParseUint (TrimSpace s) with Ok n => n | Err _ => -1 end.

Definition pad_ok (pad : ascii) (w : nat) (n : Z) : bool :=
  (unpad (pad_left pad w n) =? n) && (String.length (pad_left pad w n) =? w)%nat.

Lemma pad_ok_zero2 n : 0 <= n < 100 → pad_ok "0" 2 n = true.
Proof. apply (Zforall_range (pad_ok "0" 2) 100). by vm_compute. Qed.

Lemma pad_ok_blank2 n : 0 <= n < 100 → pad_ok " " 2 n = true.
Proof. apply (Zforall_range (pad_ok " " 2) 100). by vm_compute. Qed.

Lemma digit_ok d : 0 <= d < 10 → is_digit (digit d) = true ∧ digit_value (digit d) = d.
Proof.
  intros H. pose proof (Zforall_range (λ d, is_digit (digit d) && (digit_value (digit d) =? d))
                          10 d ltac:(by vm_compute) H) as Hd.
  simpl in Hd. apply andb_true_iff in Hd as [? ?%Z.eqb_eq]. done.
Qed.

(** Reading back the digits [dec_go] writes. *)
Lemma parse_dec_go fuel n acc :
  0 <= n < 2 ^ Z.of_nat fuel → n <= maxUint64 →
  parse_digits 0 (dec_go fuel n acc) = parse_digits n acc.
Proof.
  revert n acc. induction fuel as [|fuel IH]; intros n acc Hn Hmax.
  { simpl in *. assert (n = 0) as -> by lia. done. }
  rewrite Nat2Z.inj_succ, Z.pow_succ_r in Hn by lia. cbn [dec_go].
  destruct (digit_ok (n mod 10) ltac:(lia)) as [Hd Hv].
  destruct (Z.ltb_spec n 10).
  - cbn [parse_digits]. rewrite Hd, Hv. assert (n mod 10 = n) as -> by lia.
    destruct (Z.ltb_spec maxUint64 (0 * 10 + n)); [lia|done].
  - rewrite IH by lia. cbn [parse_digits]. rewrite Hd, Hv.
    assert (n / 10 * 10 + n mod 10 = n) as -> by lia.
    destruct (Z.ltb_spec maxUint64 n); [lia|done].
Qed.

Lemma log2_fuel n : 0 <= n → n < 2 ^ Z.of_nat (S (Z.to_nat (Z.log2 n))).
Proof.
  intros H. rewrite Nat2Z.inj_succ, Z2Nat.id by apply Z.log2_nonneg.
  destruct (Z.eq_dec n 0) as [->|]; [done|]. apply Z.log2_spec. lia.
Qed.

(** [%d] and [strconv] are inverse on 64-bit values. *)
Lemma parse_dec n : 0 <= n <= maxUint64 → parse_digits 0 (dec n) = Ok n.
Proof.
  intros Hn. unfold dec. rewrite parse_dec_go; [done| |lia].
  split; [lia|]. apply log2_fuel. lia.
Qed.

Lemma dec_length4 n : 1000 <= n < 10000 → String.length (dec n) = 4%nat.
Proof.
  intros Hn. unfold dec. pose proof (log2_fuel n ltac:(lia)) as Hf. revert Hf.
  generalize (S (Z.to_nat (Z.log2 n))) as fuel. intros fuel Hf.
  do 9 (destruct fuel as [|fuel]; [simpl in Hf; lia|]). clear Hf.
  do 3 (cbn [dec_go]; match goal with |- context [?k <? 10] => destruct (Z.ltb_spec k 10); [lia|] end).
  cbn [dec_go]. match goal with |- context [?k <? 10] => destruct (Z.ltb_spec k 10); [done|lia] end.
Qed.

Lemma pad4_inj n m :
  1000 <= n < 10000 → 1000 <= m < 10000 →
  pad_left "0" 4 n = pad_left "0" 4 m → n = m.
Proof.
  intros Hn Hm. unfold pad_left. rewrite !dec_length4 by done. simpl. intros He.
  assert (Ok (E := NumError) n = Ok m) as [= ->]; [|done].
  rewrite <- (parse_dec n), <- (parse_dec m) by (unfold maxUint64; lia). by f_equal.
Qed.

(** Two padded numbers at the head of equal strings are equal. *)
Lemma pad_app_inj pad w n m s t :
  pad_ok pad w n = true → pad_ok pad w m = true →
  pad_left pad w n +:+ s = pad_left pad w m +:+ t → n = m ∧ s = t.
Proof.
  unfold pad_ok. rewrite !andb_true_iff, !Z.eqb_eq, !Nat.eqb_eq.
  intros [Hn Hln] [Hm Hlm] He. apply str_app_inj_len in He as [He ->]; [|congruence].
  split; [|done]. by rewrite <- Hn, He.
Qed.

Lemma shortDay_length w : 0 <= w < 7 → String.length (shortDay w) = 3%nat.
Proof.
  intros H. apply Nat.eqb_eq.
  apply (Zforall_range (λ w, (String.length (shortDay w) =? 3)%nat) 7); [by vm_compute|done].
Qed.

Lemma shortMonth_length m : 1 <= m <= 12 → String.length (shortMonth m) = 3%nat.
Proof. intros H. pose proof (month_cases m H) as Hc. by destruct_or! Hc; subst. Qed.

Lemma shortMonth_inj m m' : 1 <= m <= 12 → 1 <= m' <= 12 → shortMonth m = shortMonth m' → m = m'.
Proof.
  intros H H'. pose proof (month_cases m H) as Hc. pose proof (month_cases m' H') as Hc'.
  by destruct_or! Hc; destruct_or! Hc'; subst.
Qed.

Lemma Format_inj w w' t t' :
  0 <= w < 7 → 0 <= w' < 7 → valid_date t → valid_date t' →
  1000 <= year t < 10000 → 1000 <= year t' < 10000 →
  Format w t = Format w' t' → t = t'.
Proof.
  intros Hw Hw' [Hm Hd Hh Hi Hs] [Hm' Hd' Hh' Hi' Hs'] Hy Hy'. unfold Format.
  assert (∀ y m, month_length y m <= 31) as Hlen.
  { intros y m. unfold month_length. repeat case_match; lia. }
  pose proof (Hlen (year t) (month t)). pose proof (Hlen (year t') (month t')).
  intros [_ He]%str_app_inj_len; [|by rewrite !shortDay_length].
  apply str_app_inj in He. apply str_app_inj_len in He as [Em He]; [|by rewrite !shortMonth_length].
  apply shortMonth_inj in Em; [|done..].
  apply str_app_inj, pad_app_inj in He as [Ed He]; [|apply pad_ok_blank2; lia..].
  apply str_app_inj, pad_app_inj in He as [Eh He]; [|apply pad_ok_zero2; lia..].
  apply str_app_inj, pad_app_inj in He as [Ei He]; [|apply pad_ok_zero2; lia..].
  apply str_app_inj, pad_app_inj in He as [Es He]; [|apply pad_ok_zero2; lia..].
  apply str_app_inj, pad4_inj in He; [|done..].
  destruct t, t'. simpl in *. congruence.
Qed.

Lemma weekday_range sec : 0 <= weekday sec < 7.
Proof. apply Z.mod_pos_bound. lia. Qed.

(** ** Canonical decimals *)

(** No sign, no leading zero: the spelling [%d] gives. *)
Definition canonical (s : string) : Prop :=
  s = "0" ∨ ∃ c t, s = String c t ∧ in_range "1" "9" c = true ∧ all_bytes is_digit t = true.

Lemma dec_go_acc fuel n acc : dec_go fuel n acc = dec_go fuel n "" +:+ acc.
Proof.
  revert n acc. induction fuel as [|fuel IH]; intros n acc; [done|]. cbn [dec_go].
  destruct (n <? 10); [done|].
  rewrite IH, (IH _ (String _ "")), str_app_assoc. done.
Qed.

Lemma dec_go_fuel fuel fuel' n acc :
  0 <= n < 2 ^ Z.of_nat fuel → 0 <= n < 2 ^ Z.of_nat fuel' → (0 < fuel)%nat → (0 < fuel')%nat →
  dec_go fuel n acc = dec_go fuel' n acc.
Proof.
  revert fuel' n acc. induction fuel as [|fuel IH]; intros [|fuel'] n acc Hn Hn' Hf Hf'; try lia.
  cbn [dec_go]. destruct (Z.ltb_spec n 10); [done|].
  rewrite Nat2Z.inj_succ, Z.pow_succ_r in Hn, Hn' by lia.
  destruct fuel as [|fuel]; [simpl in Hn; lia|]. destruct fuel' as [|fuel']; [simpl in Hn'; lia|].
  apply IH; lia.
Qed.

Lemma dec_small n : 0 <= n < 10 → dec n = String (digit n) "".
Proof.
  intros H. unfold dec. cbn [dec_go]. destruct (Z.ltb_spec n 10); [|lia].
  by rewrite Z.mod_small.
Qed.

Lemma dec_snoc n : 10 <= n → dec n = dec (n / 10) +:+ String (digit (n mod 10)) "".
Proof.
  intros H. unfold dec at 1. cbn [dec_go]. destruct (Z.ltb_spec n 10); [lia|].
  rewrite dec_go_acc. f_equal. unfold dec. pose proof (log2_fuel n ltac:(lia)) as Hf.
  rewrite Nat2Z.inj_succ, Z.pow_succ_r in Hf by lia.
  assert (0 < Z.to_nat (Z.log2 n))%nat.
  { pose proof (Z.log2_le_mono 10 n H). assert (Z.log2 10 = 3) by done. lia. }
  apply dec_go_fuel; [lia| |lia|lia]. split; [lia|]. apply log2_fuel. lia.
Qed.

Lemma dec_canonical n : 0 <= n → canonical (dec n) ∧ (1 <= n → dec n ≠ "0").
Proof.
  intros Hn. revert n Hn. apply (Zlt_0_ind (λ n, canonical (dec n) ∧ (1 <= n → dec n ≠ "0"))).
  intros n IH Hn.
  destruct (Z.ltb_spec n 10).
  - rewrite dec_small by lia. destruct (digit_ok n ltac:(lia)) as [Hd Hv].
    destruct (Z.eq_dec n 0) as [->|Hne]; [split; [by left|lia]|].
    pose proof (Zforall_range (λ n, (n =? 0) || in_range "1" "9" (digit n)) 10 n
                  ltac:(by vm_compute) ltac:(lia)) as Hr.
    simpl in Hr. apply orb_true_iff in Hr as [?|Hr]; [lia|].
    split; [right; eauto|]. intros _ [= He]. by rewrite He in Hr.
  - destruct (IH (n / 10)) as [Hc Hne]; [lia..|]. rewrite dec_snoc by done.
    destruct (digit_ok (n mod 10) ltac:(lia)) as [Hd _].
    destruct Hc as [Hc|(c & t & Hc & Hr & Ht)]; [by destruct Hne; [lia|]|].
    rewrite Hc, app_cons. split.
    + right. exists c, (t +:+ String (digit (n mod 10)) ""). split; [done|]. split; [done|].
      rewrite all_bytes_app, Ht. simpl. by rewrite Hd.
    + intros _ [= -> He]. by destruct t.
Qed.

Lemma parse_digits_snoc n s c :
  parse_digits n (s +:+ String c "") =
  (m ← parse_digits n s; parse_digits m (String c "")).
Proof.
  revert n. induction s as [|d s IH]; intros n; [done|].
  rewrite app_cons. cbn [parse_digits]. destruct (is_digit d); [|done].
  destruct (maxUint64 <? _); [done|]. apply IH.
Qed.

Lemma parse_digits_lower n s m : 0 <= n → parse_digits n s = Ok m → n <= m ∧ (n <= maxUint64 → m <= maxUint64).
Proof.
  revert n. induction s as [|d s IH]; intros n Hn; cbn [parse_digits]; [intros [= ->]; lia|].
  destruct (is_digit d) eqn:Hd; [|done].
  assert (0 <= digit_value d) as Hv.
  { apply Z.leb_le. revert d Hd. apply ascii_impl. by vm_compute. }
  destruct (Z.ltb_spec maxUint64 (n * 10 + digit_value d)); [done|].
  intros Hp. apply IH in Hp; lia.
Qed.

Lemma digit_of_value c : is_digit c = true → digit (digit_value c) = c ∧ 0 <= digit_value c < 10.
Proof.
  intros H.
  pose proof (ascii_impl is_digit
    (λ c, Ascii.eqb (digit (digit_value c)) c && (0 <=? digit_value c) && (digit_value c <? 10))
    ltac:(by vm_compute) c H) as Hp.
  simpl in Hp. apply andb_true_iff in Hp as [[Hd ?]%andb_true_iff ?].
  apply Ascii.eqb_eq in Hd. split; [done|lia].
Qed.

(** A canonical decimal of a 64-bit value is [dec] of that value. *)
Lemma canonical_dec s n : canonical s → parse_digits 0 s = Ok n → s = dec n.
Proof.
  intros [->|(c & t & -> & Hc & Ht)]; [by intros [= <-]|].
  assert (is_digit c = true ∧ 1 <= digit_value c) as [Hcd Hc1].
  { pose proof (ascii_impl (in_range "1" "9") (λ c, is_digit c && (1 <=? digit_value c))
      ltac:(by vm_compute) c Hc) as Hp.
    simpl in Hp. apply andb_true_iff in Hp as [? ?]. split; [done|lia]. }
  apply all_bytes_chars in Ht. rewrite <- (str_chars t). revert n.
  induction (chars t) as [|d l IH] using rev_ind; intros n.
  - cbn [str parse_digits]. rewrite Hcd. destruct (digit_of_value c Hcd) as [Hdv Hr].
    destruct (Z.ltb_spec maxUint64 (0 * 10 + digit_value c)); [done|]. intros [= <-].
    rewrite dec_small by lia. by rewrite Z.add_0_l, Hdv.
  - apply Forall_app in Ht as [Hl [Hd _]%Forall_cons].
    assert (str (l ++ [d]) = str l +:+ String d "") as ->.
    { clear. induction l as [|e l IH]; [done|]. simpl. by rewrite IH, app_cons. }
    rewrite <- app_cons, parse_digits_snoc. intros (m & Hm & Hp)%bind_Ok.
    rewrite (IH Hl _ Hm). cbn [parse_digits] in Hp. rewrite Hd in Hp.
    destruct (digit_of_value d Hd) as [Hdv Hr].
    destruct (Z.ltb_spec maxUint64 (m * 10 + digit_value d)); [done|]. injection Hp as <-.
    cbn [parse_digits] in Hm. rewrite Hcd in Hm.
    destruct (maxUint64 <? 0 * 10 + digit_value c); [done|].
    apply parse_digits_lower in Hm; [|lia].
    rewrite (dec_snoc (m * 10 + digit_value d)) by lia.
    assert ((m * 10 + digit_value d) / 10 = m) as -> by lia.
    assert ((m * 10 + digit_value d) mod 10 = digit_value d) as -> by lia.
    by rewrite Hdv.
Qed.

(** A canonical string has no sign, so [ParseInt] reads its digits. *)
Lemma ParseInt_canonical s :
  canonical s →
  ParseInt s = match parse_digits 0 s with
               | Err e => Err e
               | Ok n => if 2 ^ 63 <=? n then Err ErrRange else Ok n
               end.
Proof.
  intros H. assert (∃ c t, s = String c t ∧ is_digit c = true) as (c & t & -> & Hc).
  { destruct H as [->|(c & t & -> & Hc & _)]; [by exists "0"%char, ""|].
    exists c, t. split; [done|]. revert c Hc. apply ascii_impl. by vm_compute. }
  unfold ParseInt, ParseUint.
  assert (c ≠ "+"%char ∧ c ≠ "-"%char) as [Hp Hm] by by split; intros ->.
  destruct c as [[] [] [] [] [] [] [] []];
    try (by destruct Hp); try (by destruct Hm); cbn [String.eqb];
    destruct (parse_digits 0 _) as [|[]]; done.
Qed.

Lemma canonical_ParseInt s n :
  0 <= n <= maxInt64 → (canonical s ∧ ParseInt s = Ok n ↔ s = dec n).
Proof.
  intros Hn. split.
  - intros [Hc Hp]. rewrite ParseInt_canonical in Hp by done.
    destruct (parse_digits 0 s) as [m|] eqn:Hm; [|done].
    destruct (2 ^ 63 <=? m); [done|]. injection Hp as <-. by apply canonical_dec.
  - intros ->. destruct (dec_canonical n) as [Hc _]; [lia|]. split; [done|].
    rewrite ParseInt_canonical, parse_dec by (done || unfold maxUint64, maxInt64 in *; lia).
    unfold maxInt64 in Hn. destruct (Z.leb_spec (2 ^ 63) n); [lia|done].
Qed.
