(* ===== verification/Sha256.v ===== *)
(** crypto/sha256: [Sum256], executable, over the bytes of a string. *)

From S2P Require Import Prelude GoString.
#[local] Open Scope N_scope.

(** ** 32-bit words *)

Definition w32 (x : N) : N := N.land x 4294967295.
Definition add32 (x y : N) : N := w32 (x + y).
Definition rotr (x : N) (n : N) : N := N.lor (N.shiftr x n) (w32 (N.shiftl x (32 - n))).
Definition not32 (x : N) : N := N.lxor x 4294967295.

Definition Ch (x y z : N) : N := N.lxor (N.land x y) (N.land (not32 x) z).
Definition Maj (x y z : N) : N := N.lxor (N.lxor (N.land x y) (N.land x z)) (N.land y z).
Definition S0 (x : N) : N := N.lxor (N.lxor (rotr x 2) (rotr x 13)) (rotr x 22).
Definition S1 (x : N) : N := N.lxor (N.lxor (rotr x 6) (rotr x 11)) (rotr x 25).
Definition s0 (x : N) : N := N.lxor (N.lxor (rotr x 7) (rotr x 18)) (N.shiftr x 3).
Definition s1 (x : N) : N := N.lxor (N.lxor (rotr x 17) (rotr x 19)) (N.shiftr x 10).

(** The constants are the first 32 fractional bits of the cube roots of the first
    64 primes, and of the square roots of the first eight. *)
Fixpoint is_prime_from (fuel : nat) (d p : N) : bool :=
  match fuel with
  | O => true
  | S fuel => if p <? d * d then true
              else if p mod d =? 0 then false else is_prime_from fuel (d + 1) p
  end.

Definition primes (n : nat) : list N :=
  take n (List.filter (is_prime_from 20 2) (map N.of_nat (seq 2 400))).

(** The largest [r < 2^bits] with [r^3 <= x], bit by bit. *)
Fixpoint cbrt_bits (bits : nat) (r x : N) : N :=
  match bits with
  | O => r
  | S bits =>
      let t := r + N.shiftl 1 (N.of_nat bits) in
      cbrt_bits bits (if t * t * t <=? x then t else r) x
  end.

Definition K : list N :=
  Eval vm_compute in map (λ p, w32 (cbrt_bits 36 0 (N.shiftl p 96))) (primes 64).

Definition H0 : list N :=
  Eval vm_compute in map (λ p, w32 (N.sqrt (N.shiftl p 64))) (primes 8).

(** ** Padding and blocks *)

Definition bytes_of (s : string) : list N := map N_of_ascii (chars s).

(** Big-endian bytes of a [8*n]-bit number. *)
Fixpoint be_bytes (n : nat) (x : N) : list N :=
  match n with
  | O => []
  | S n => N.land (N.shiftr x (8 * N.of_nat n)) 255 :: be_bytes n x
  end.

(** 0x80, zeros up to 56 mod 64, and the bit length in eight bytes. *)
Definition pad (l : list N) : list N :=
  let n := length l in
  l ++ [128] ++ repeat 0 (Nat.modulo (64 + 119 - Nat.modulo n 64) 64) ++ be_bytes 8 (8 * N.of_nat n).

Fixpoint words (l : list N) : list N :=
  match l with
  | a :: b :: c :: d :: l =>
      N.lor (N.lor (N.shiftl a 24) (N.shiftl b 16)) (N.lor (N.shiftl c 8) d) :: words l
  | _ => []
  end.

(** The message schedule, newest word first. *)
Fixpoint schedule (n : nat) (w : list N) : list N :=
  match n with
  | O => w
  | S n =>
      schedule n (add32 (add32 (s1 (nth 1 w 0)) (nth 6 w 0))
                        (add32 (s0 (nth 14 w 0)) (nth 15 w 0)) :: w)
  end.

Definition round (st : list N) (kw : N * N) : list N :=
  match st with
  | [a; b; c; d; e; f; g; h] =>
      let t1 := add32 (add32 h (S1 e)) (add32 (Ch e f g) (add32 kw.1 kw.2)) in
      let t2 := add32 (S0 a) (Maj a b c) in
      [add32 t1 t2; a; b; c; add32 d t1; e; f; g]
  | _ => st
  end.

Definition block (h : list N) (w : list N) : list N :=
  let w := rev (schedule 48 (rev w)) in
  zip_with add32 h (fold_left round (zip K w) h).

Fixpoint blocks (n : nat) (h : list N) (w : list N) : list N :=
  match n with
  | O => h
  | S n => blocks n (block h (take 16 w)) (drop 16 w)
  end.

Definition Sum256 (s : string) : list ascii :=
  let p := pad (bytes_of s) in
  map ascii_of_N (flat_map (be_bytes 4) (blocks (Nat.div (length p) 64) H0 (words p))).

Example Sum256_abc :
  hex (Sum256 "abc") = "ba7816bf8f01cfea414140de5dae2223b00361a396177a9cb410ff61f20015ad".
Proof. by vm_compute. Qed.

Example Sum256_two_blocks :
  hex (Sum256 "abcdbcdecdefdefgefghfghighijhijkijkljklmklmnlmnomnopnopq") =
  "248d6a61d20638b8e5c026930c3e6039a33ce45964ff2167f6ecedd419db06c1".
Proof. by vm_compute. Qed.

(** ** The digest is 32 bytes *)

Lemma block_length h w : length h = 8%nat → length (block h w) = 8%nat.
Proof.
  intros Hh. unfold block. rewrite length_zip_with, Hh.
  assert (∀ kws st, length st = 8%nat → length (fold_left round kws st) = 8%nat) as Hf.
  { intros kws. induction kws as [|kw kws IH]; intros st Hst; [done|]. simpl. apply IH.
    destruct st as [|? [|? [|? [|? [|? [|? [|? [|? [|]]]]]]]]]; done. }
  rewrite Hf by done. done.
Qed.

Lemma blocks_length n h w : length h = 8%nat → length (blocks n h w) = 8%nat.
Proof. revert h w. induction n as [|n IH]; intros h w Hh; [done|]. simpl. by apply IH, block_length. Qed.

Lemma Sum256_length s : length (Sum256 s) = 32%nat.
Proof.
  unfold Sum256. rewrite length_map.
  assert (∀ l, length (flat_map (be_bytes 4) l) = (4 * length l)%nat) as ->.
  { induction l as [|x l IH]; [done|]. cbn [flat_map]. rewrite length_app, IH. simpl. lia. }
  by rewrite blocks_length.
Qed.
