(* ===== verification/Timestamp.v ===== *)
(** step.go, [Timestamp]: SOURCE_DATE_EPOCH rendered the way vmlinux embeds it.
    The function accepts exactly the epochs of the years 1970 to 9999, renders
    the calendar date of that second, and never renders two seconds alike. *)

From S2P Require Import Prelude GoString GoTime.
#[local] Open Scope Z_scope.

Inductive TimestampError :=
  | TsParse (e : NumError)
  | TsRange.

Definition Timestamp (epoch : string) : result TimestampError string :=
  sec ← map_err TsParse (ParseInt epoch);
  if (sec <? 0) || (9999 <? year (utc sec)) then Err TsRange
  else Ok (Format (weekday sec) (utc sec)).

Lemma Timestamp_Ok epoch ts :
  Timestamp epoch = Ok ts ↔
  ∃ sec, ParseInt epoch = Ok sec ∧ 0 <= sec <= maxEpoch ∧ ts = Format (weekday sec) (utc sec).
Proof.
  unfold Timestamp. rewrite bind_Ok. setoid_rewrite map_err_Ok. split.
  - intros (sec & Hp & Ht). exists sec. split; [done|].
    destruct (Z.ltb_spec sec 0); [done|]. destruct (Z.ltb_spec 9999 (year (utc sec))); [done|].
    simpl in Ht. injection Ht as <-. destruct (year_bound sec); [done|]. naive_solver lia.
  - intros (sec & Hp & Hr & ->). exists sec. split; [done|].
    destruct (year_bound sec) as [_ Hy]; [lia|]. destruct Hy as [_ Hy].
    destruct (Z.ltb_spec sec 0); [lia|].
    destruct (Z.ltb_spec 9999 (year (utc sec))); [|done]. specialize (Hy ltac:(lia)). lia.
Qed.

(** [Timestamp] is the calendar: it returns [ts] exactly when the epoch
    parses as the 64-bit count of seconds of a valid UTC date between the years
    1970 and 9999, and [ts] is that date in the layout of
    [date -u '+%a %b %e %T %Z %Y']. The right-hand side mentions no conversion
    algorithm: the date is the only one whose day count, written out from leap
    years and month lengths, is the epoch. Everything else (no number, out of
    64 bits, negative, year 10000 and later) is an error. *)
Theorem Timestamp_calendar (epoch ts : string) :
  Timestamp epoch = Ok ts ↔
  ∃ t, valid_date t ∧ 1970 <= year t <= 9999 ∧
       ParseInt epoch = Ok (unix_time t) ∧ ts = Format (weekday (unix_time t)) t.
Proof.
  rewrite Timestamp_Ok. split.
  - intros (sec & Hp & Hr & ->). destruct (utc_spec sec) as (Hv & He & _); [lia|].
    destruct (year_bound sec) as [Hy1 Hy2]; [lia|].
    exists (utc sec). rewrite He. naive_solver lia.
  - intros (t & Hv & Hy & Hp & ->). exists (unix_time t).
    assert (0 <= unix_time t) as H0.
    { destruct Hv. unfold unix_time, day_number.
      pose proof (leaps_mono 1970 (year t) ltac:(lia)).
      pose proof (yday_bound (year t) (month t) (day t) ltac:(auto) ltac:(auto)). lia. }
    assert (utc (unix_time t) = t) as Hu by by apply utc_unix_time.
    destruct (year_bound _ H0) as [_ Hb]. rewrite Hu in Hb.
    rewrite Hu. split; [done|]. split; [|done]. split; [done|]. apply Hb. lia.
Qed.

(** No two instants share a timestamp: vmlinux embeds a string that
    determines the second it was built for. *)
Theorem Timestamp_injective (e1 e2 ts : string) :
  Timestamp e1 = Ok ts → Timestamp e2 = Ok ts → ParseInt e1 = ParseInt e2.
Proof.
  rewrite !Timestamp_Ok. intros (s1 & H1 & Hr1 & ->) (s2 & H2 & Hr2 & He).
  rewrite H1, H2. f_equal.
  destruct (utc_spec s1) as (Hv1 & Hu1 & _); [lia|].
  destruct (utc_spec s2) as (Hv2 & Hu2 & _); [lia|].
  destruct (year_bound s1) as [Hy1 Hy1']; [lia|]. destruct (year_bound s2) as [Hy2 Hy2']; [lia|].
  assert (year (utc s1) <= 9999) by (apply Hy1'; lia).
  assert (year (utc s2) <= 9999) by (apply Hy2'; lia).
  rewrite <- Hu1, <- Hu2. f_equal.
  eapply Format_inj; [apply weekday_range..|done|done|lia|lia|exact He].
Qed.

Lemma Timestamp_injective_witness :
  Timestamp "0" = Ok "Thu Jan  1 00:00:00 UTC 1970" ∧
  Timestamp "+00" = Ok "Thu Jan  1 00:00:00 UTC 1970" ∧ ParseInt "0" = ParseInt "+00".
Proof.
  split; [reflexivity|]. split; [reflexivity|].
  apply (Timestamp_injective "0" "+00" "Thu Jan  1 00:00:00 UTC 1970"); reflexivity.
Defined.

Example Timestamp_default :
  Timestamp "1785542400" = Ok "Sat Aug  1 00:00:00 UTC 2026".
Proof. reflexivity. Qed.

Example Timestamp_last :
  Timestamp "253402300799" = Ok "Fri Dec 31 23:59:59 UTC 9999" ∧
  Timestamp "253402300800" = Err TsRange.
Proof. by vm_compute. Qed.
