(* ===== verification/Spec.v ===== *)
(** spec.go: the build specification, its defaults and its validation.
    [Validate] is the gate between what a caller wrote and what the graph, the
    step's environment and the seed configuration interpolate. *)

From S2P Require Import Prelude GoString GoRegexp GoTime Timestamp.

(** ** Spec *)

Record Spec := MkSpec {
  Base : string;
  KernelVersion : string;
  SourceURL : string;
  SourceSHA256 : string;
  SourceLocalName : string;
  SourceDateEpoch : string;
  ConfigName : string;
  ExpectName : string;
  BaseMake : string;
  ApplyPatches : bool;
  HTTPSProxy : string;
  HTTPProxy : string;
  NoProxy : string;
  ToolchainReady : bool;
  Arch : string;
  CrossCompile : string;
  Targets : list string;
  ProxyCAFile : string;
  HelperRef : string;
  NetworkHost : bool;
  IgnoreCache : bool;
  SeedURL : string;
  SeedRegion : string;
  SeedPrefix : string;
  SeedPush : bool
}.

(** [s.f = v] as a functional update: the record rebuilt field by field, with
    [f]'s occurrence replaced. *)
Ltac update s f v :=
  let e := constr:(MkSpec (Base s) (KernelVersion s) (SourceURL s) (SourceSHA256 s)
    (SourceLocalName s) (SourceDateEpoch s) (ConfigName s) (ExpectName s) (BaseMake s)
    (ApplyPatches s) (HTTPSProxy s) (HTTPProxy s) (NoProxy s) (ToolchainReady s) (Arch s)
    (CrossCompile s) (Targets s) (ProxyCAFile s) (HelperRef s) (NetworkHost s)
    (IgnoreCache s) (SeedURL s) (SeedRegion s) (SeedPrefix s) (SeedPush s)) in
  let p := constr:(f s) in
  lazymatch eval pattern p in e with
  | ?g _ => let r := eval cbv beta in (g v) in exact r
  end.

Definition set_Base (v : string) (s : Spec) : Spec := ltac:(update s Base v).
Definition set_KernelVersion (v : string) (s : Spec) : Spec := ltac:(update s KernelVersion v).
Definition set_SourceURL (v : string) (s : Spec) : Spec := ltac:(update s SourceURL v).
Definition set_SourceSHA256 (v : string) (s : Spec) : Spec := ltac:(update s SourceSHA256 v).
Definition set_SourceLocalName (v : string) (s : Spec) : Spec := ltac:(update s SourceLocalName v).
Definition set_SourceDateEpoch (v : string) (s : Spec) : Spec := ltac:(update s SourceDateEpoch v).
Definition set_ConfigName (v : string) (s : Spec) : Spec := ltac:(update s ConfigName v).
Definition set_ExpectName (v : string) (s : Spec) : Spec := ltac:(update s ExpectName v).
Definition set_BaseMake (v : string) (s : Spec) : Spec := ltac:(update s BaseMake v).
Definition set_ApplyPatches (v : bool) (s : Spec) : Spec := ltac:(update s ApplyPatches v).
Definition set_HTTPSProxy (v : string) (s : Spec) : Spec := ltac:(update s HTTPSProxy v).
Definition set_HTTPProxy (v : string) (s : Spec) : Spec := ltac:(update s HTTPProxy v).
Definition set_NoProxy (v : string) (s : Spec) : Spec := ltac:(update s NoProxy v).
Definition set_ToolchainReady (v : bool) (s : Spec) : Spec := ltac:(update s ToolchainReady v).
Definition set_Arch (v : string) (s : Spec) : Spec := ltac:(update s Arch v).
Definition set_CrossCompile (v : string) (s : Spec) : Spec := ltac:(update s CrossCompile v).
Definition set_Targets (v : list string) (s : Spec) : Spec := ltac:(update s Targets v).
Definition set_ProxyCAFile (v : string) (s : Spec) : Spec := ltac:(update s ProxyCAFile v).
Definition set_HelperRef (v : string) (s : Spec) : Spec := ltac:(update s HelperRef v).
Definition set_NetworkHost (v : bool) (s : Spec) : Spec := ltac:(update s NetworkHost v).
Definition set_IgnoreCache (v : bool) (s : Spec) : Spec := ltac:(update s IgnoreCache v).
Definition set_SeedURL (v : string) (s : Spec) : Spec := ltac:(update s SeedURL v).
Definition set_SeedRegion (v : string) (s : Spec) : Spec := ltac:(update s SeedRegion v).
Definition set_SeedPrefix (v : string) (s : Spec) : Spec := ltac:(update s SeedPrefix v).
Definition set_SeedPush (v : bool) (s : Spec) : Spec := ltac:(update s SeedPush v).

Lemma Spec_eta s : set_Base (Base s) s = s.
Proof. by destruct s. Qed.

(** Two specifications agree when every field does. *)
Lemma Spec_ext s1 s2 :
  Base s1 = Base s2 → KernelVersion s1 = KernelVersion s2 → SourceURL s1 = SourceURL s2 →
  SourceSHA256 s1 = SourceSHA256 s2 → SourceLocalName s1 = SourceLocalName s2 →
  SourceDateEpoch s1 = SourceDateEpoch s2 → ConfigName s1 = ConfigName s2 →
  ExpectName s1 = ExpectName s2 → BaseMake s1 = BaseMake s2 → ApplyPatches s1 = ApplyPatches s2 →
  HTTPSProxy s1 = HTTPSProxy s2 → HTTPProxy s1 = HTTPProxy s2 → NoProxy s1 = NoProxy s2 →
  ToolchainReady s1 = ToolchainReady s2 → Arch s1 = Arch s2 → CrossCompile s1 = CrossCompile s2 →
  Targets s1 = Targets s2 → ProxyCAFile s1 = ProxyCAFile s2 → HelperRef s1 = HelperRef s2 →
  NetworkHost s1 = NetworkHost s2 → IgnoreCache s1 = IgnoreCache s2 → SeedURL s1 = SeedURL s2 →
  SeedRegion s1 = SeedRegion s2 → SeedPrefix s1 = SeedPrefix s2 → SeedPush s1 = SeedPush s2 → s1 = s2.
Proof. destruct s1, s2. cbn. intros. by subst. Qed.

(** ** Patterns *)

Definition compiled (p : option re) : re := match p with Some r => r | None => Void end.

Definition versionRe : re :=
  Eval vm_compute in compiled (MustCompile "^[0-9]+\.[0-9]+(\.[0-9]+)?(-rc[0-9]+)?$").
Definition fileRe : re :=
  Eval vm_compute in compiled (MustCompile "^[A-Za-z0-9][A-Za-z0-9._/-]*$").
Definition prefixRe : re :=
  Eval vm_compute in compiled (MustCompile "^[A-Za-z0-9][A-Za-z0-9._/-]*$").
Definition sha256Re : re :=
  Eval vm_compute in compiled (MustCompile "^[0-9a-f]{64}$").
Definition baseMakeRe : re :=
  Eval vm_compute in compiled (MustCompile "^[A-Za-z0-9][A-Za-z0-9._-]*$").
Definition crossRe : re :=
  Eval vm_compute in compiled (MustCompile "^[A-Za-z0-9_.-]+-$").
Definition epochRe : re :=
  Eval vm_compute in compiled (MustCompile "^(0|[1-9][0-9]*)$").
Definition seedURLRe : re :=
  Eval vm_compute in compiled (MustCompile "^https://[A-Za-z0-9._~:/?#@!$&'()*+,;=%[\]-]+$").
Definition imageRefRe : re :=
  Eval vm_compute in compiled (MustCompile "^[A-Za-z0-9][A-Za-z0-9._:/@-]*$").
Definition proxyRe : re :=
  Eval vm_compute in compiled (MustCompile "^[a-z][a-z0-9+.-]*://[\x21-\x7e]+$").
Definition noProxyRe : re :=
  Eval vm_compute in compiled (MustCompile "^[\x21-\x7e]*$").
Definition tokenRe : re :=
  Eval vm_compute in compiled (MustCompile "^[\x21-\x7e]+$").

(** ** Helpers *)

Definition archOrDefault (s : Spec) : string :=
  if Arch s =s "" then "x86_64" else Arch s.

(** The map literal {"arm64": ...}: an absent key reads as the empty string. *)
Definition crossOrDefault (s : Spec) : string :=
  if (CrossCompile s <>s "") || (archOrDefault s =s "x86_64") then CrossCompile s
  else if archOrDefault s =s "arm64" then "aarch64-linux-gnu-" else "".

Definition targetsOrDefault (s : Spec) : list string :=
  match Targets s with
  | _ :: _ => Targets s
  | [] => if archOrDefault s =s "arm64" then ["vmlinux"; "image"] else ["vmlinux"]
  end.

Definition SourceURLFor (version : string) : string :=
  if Contains version "-rc" then
    "https://git.kernel.org/torvalds/t/linux-" +:+ version +:+ ".tar.gz"
  else
    let '(major, _, _) := Cut version "." in
    "https://cdn.kernel.org/pub/linux/kernel/v" +:+ major +:+ ".x/linux-" +:+ version +:+ ".tar.gz".

(** The first supported extension; [None] is the unsupported-source error. *)
Definition SourceExt (name : string) : option string :=
  find (λ ext, HasSuffix name (".tar" +:+ ext)) [".gz"; ".xz"; ".zst"].

(** ** Validation *)

Inductive SpecError :=
  | EKernelVersion (v : string)
  | EConfig (v : string)
  | EExpect (v : string)
  | EBaseMake (tok : string)
  | ESrcName (v : string)
  | EEpoch (v : string)
  | ETimestamp (e : TimestampError)
  | ESourceURLScheme (v : string)
  | ESourceURLToken (v : string)
  | ESourceExt (v : string)
  | ESHA256 (v : string)
  | ESeedPushUnpinned
  | ESeedURL (v : string)
  | ESeedPrefix (v : string)
  | ESeedRegion (v : string)
  | EProxy (name v : string)
  | ENoProxy (v : string)
  | EProxyCA (v : string)
  | EHelperRef (v : string)
  | EBase (v : string)
  | EArm64Toolchain
  | EArch (v : string)
  | ECrossCompile (v : string)
  | ETarget (v : string).

(** [!re.MatchString(v) || strings.Contains(v, "..")] *)
Definition bad_name (r : re) (v : string) : bool :=
  negb (MatchString r v) || Contains v "..".

Definition known_target (t : string) : bool :=
  existsb (String.eqb t) ["vmlinux"; "image"; "modules"; "config"; "kconfigs"].

Definition check_ext (name : string) : result SpecError unit :=
  match SourceExt name with Some _ => Ok tt | None => Err (ESourceExt name) end.

Definition Validate (s : Spec) : result SpecError unit :=
  reject (negb (MatchString versionRe (KernelVersion s))) (EKernelVersion (KernelVersion s));;
  reject (bad_name fileRe (ConfigName s)) (EConfig (ConfigName s));;
  reject ((ExpectName s <>s "") && bad_name fileRe (ExpectName s)) (EExpect (ExpectName s));;
  foldR (λ _ tok, reject (bad_name baseMakeRe tok) (EBaseMake tok)) tt (Fields (BaseMake s));;
  reject ((SourceLocalName s <>s "") && bad_name fileRe (SourceLocalName s))
         (ESrcName (SourceLocalName s));;
  reject (negb (MatchString epochRe (SourceDateEpoch s))) (EEpoch (SourceDateEpoch s));;
  map_err ETimestamp (Timestamp (SourceDateEpoch s));;
  (if SourceLocalName s =s "" then
     reject (negb (HasPrefix (SourceURL s) "https://")) (ESourceURLScheme (SourceURL s));;
     reject (negb (MatchString tokenRe (SourceURL s))) (ESourceURLToken (SourceURL s));;
     check_ext (SourceURL s)
   else check_ext (SourceLocalName s));;
  reject ((SourceSHA256 s <>s "") && negb (MatchString sha256Re (SourceSHA256 s)))
         (ESHA256 (SourceSHA256 s));;
  reject (SeedPush s && (SourceLocalName s =s "") && (SourceSHA256 s =s "")) ESeedPushUnpinned;;
  (if SeedURL s <>s "" then
     reject (negb (MatchString seedURLRe (SeedURL s))) (ESeedURL (SeedURL s));;
     reject (bad_name prefixRe (SeedPrefix s)) (ESeedPrefix (SeedPrefix s));;
     reject ((SeedRegion s <>s "") && negb (MatchString fileRe (SeedRegion s)))
            (ESeedRegion (SeedRegion s))
   else Ok tt);;
  foldR (λ _ '(name, val), reject ((val <>s "") && negb (MatchString proxyRe val)) (EProxy name val))
        tt [("https-proxy", HTTPSProxy s); ("http-proxy", HTTPProxy s)];;
  reject (negb (MatchString noProxyRe (NoProxy s))) (ENoProxy (NoProxy s));;
  reject ((ProxyCAFile s <>s "")
          && (bad_name fileRe (ProxyCAFile s) || Contains (ProxyCAFile s) "/"))
         (EProxyCA (ProxyCAFile s));;
  reject ((HelperRef s <>s "") && bad_name imageRefRe (HelperRef s)) (EHelperRef (HelperRef s));;
  reject (bad_name imageRefRe (Base s)) (EBase (Base s));;
  (if archOrDefault s =s "x86_64" then Ok tt
   else if archOrDefault s =s "arm64" then reject (negb (ToolchainReady s)) EArm64Toolchain
   else Err (EArch (Arch s)));;
  reject ((CrossCompile s <>s "") && bad_name crossRe (CrossCompile s))
         (ECrossCompile (CrossCompile s));;
  foldR (λ _ tgt, reject (negb (known_target tgt)) (ETarget tgt)) tt (Targets s).

(** ** Defaults *)

Definition defaultBaseDigest : string :=
  "sha256:33ceb71981b602c1a7443a53469e4dba065f7503eab3078a2d7a57a2ab987517".

Definition DefaultSpec : Spec :=
  let v := "6.18.20" in
  {| Base := "docker.io/library/ubuntu:24.04@" +:+ defaultBaseDigest;
     KernelVersion := v;
     SourceSHA256 := "a1415e257075c2fadf070f44bbb029469efbde5b6cf07d1433fe72207acff03c";
     SourceURL := SourceURLFor v;
     SourceDateEpoch := "1785542400";
     ConfigName := "kernel.config";
     SeedPrefix := "kbuild-seed";
     SourceLocalName := ""; ExpectName := ""; BaseMake := ""; ApplyPatches := false;
     HTTPSProxy := ""; HTTPProxy := ""; NoProxy := ""; ToolchainReady := false; Arch := "";
     CrossCompile := ""; Targets := []; ProxyCAFile := ""; HelperRef := "";
     NetworkHost := false; IgnoreCache := false; SeedURL := ""; SeedRegion := "";
     SeedPush := false |}.

Example DefaultSpec_valid : Validate DefaultSpec = Ok tt.
Proof. by vm_compute. Qed.
