(* ===== verification/SpecValid.v ===== *)
(** What [Validate] accepts (spec.go). The patterns are read back as
    descriptions of strings, the checks as a record of conditions; the theorems
    say that [Validate] is exactly that record, and that a valid specification
    carries nothing that could inject a flag, a path, a line or a second field
    where the program interpolates it. *)

From S2P Require Import Prelude GoString GoRegexp GoTime Timestamp Spec.

(** ** Shapes of strings *)

Definition alnum (c : ascii) : bool :=
  in_range "0" "9" c || in_range "A" "Z" c || in_range "a" "z" c.
Definition one_of (cs : string) (c : ascii) : bool := ContainsByte cs c.

(** A first byte in one set and the others in another. *)
Definition named (first rest : ascii → bool) (v : string) : Prop :=
  ∃ c t, v = String c t ∧ first c = true ∧ all_bytes rest t = true.

Definition lacks (v sub : string) : Prop := ¬ ∃ a b, v = a +:+ sub +:+ b.

Definition path_byte (c : ascii) : bool := alnum c || one_of "._/-" c.
Definition make_byte (c : ascii) : bool := alnum c || one_of "._-" c.
Definition ref_byte (c : ascii) : bool := alnum c || one_of "._:/@-" c.
Definition url_byte (c : ascii) : bool := alnum c || one_of "._~:/?#@!$&'()*+,;=%[]-" c.
Definition cross_byte (c : ascii) : bool := alnum c || one_of "_.-" c.
Definition hex_byte (c : ascii) : bool := is_digit c || in_range "a" "f" c.
Definition scheme_byte (c : ascii) : bool :=
  in_range "a" "z" c || is_digit c || one_of "+.-" c.

(** A relative path that never climbs: alphanumeric first byte, no [..]. *)
Definition safe_path (v : string) : Prop := named alnum path_byte v ∧ lacks v "..".
Definition make_target (v : string) : Prop := named alnum make_byte v ∧ lacks v "..".
Definition image_ref (v : string) : Prop := named alnum ref_byte v ∧ lacks v "..".
Definition digits (v : string) : Prop := named is_digit is_digit v.

Definition is_version (v : string) : Prop :=
  ∃ a b patch rc, v = a +:+ "." +:+ b +:+ patch +:+ rc ∧ digits a ∧ digits b ∧
    (patch = "" ∨ ∃ p, patch = "." +:+ p ∧ digits p) ∧
    (rc = "" ∨ ∃ p, rc = "-rc" +:+ p ∧ digits p).

Definition is_sha256 (v : string) : Prop :=
  String.length v = 64%nat ∧ all_bytes hex_byte v = true.
Definition is_cross_prefix (v : string) : Prop :=
  (∃ a, v = a +:+ "-" ∧ named cross_byte cross_byte a) ∧ lacks v "..".
Definition is_seed_url (v : string) : Prop := ∃ t, v = "https://" +:+ t ∧ named url_byte url_byte t.
Definition is_proxy_url (v : string) : Prop :=
  ∃ s t, v = s +:+ "://" +:+ t ∧ named (in_range "a" "z") scheme_byte s ∧
         named printable printable t.
Definition is_tarball (v : string) : Prop :=
  ∃ t ext, v = t +:+ ".tar" +:+ ext ∧ In ext [".gz"; ".xz"; ".zst"].

(** ** Reading the patterns *)

Lemma lacks_Contains v sub : lacks v sub ↔ Contains v sub = false.
Proof. unfold lacks. rewrite <- Contains_spec. by destruct (Contains v sub). Qed.

Lemma class_bytes (rs : list (ascii * ascii)) (p : ascii → bool) :
  forallb (λ c, Bool.eqb (in_class rs c) (p c)) all_ascii = true →
  ∀ c, in_class rs c = p c.
Proof. intros H c. apply Bool.eqb_prop. by apply (ascii_forall (λ c, Bool.eqb (in_class rs c) (p c))). Qed.

Lemma matches_Star_Cls rs l :
  matches (Star (Cls rs)) l ↔ Forall (λ c, in_class rs c = true) l.
Proof.
  induction l as [|c l IH]; [split; constructor|].
  rewrite matches_Star_cons, Forall_cons. split.
  - intros (l1 & l2 & -> & H1 & H2). inversion H1; subst. split; [done|]. by apply IH.
  - intros [Hc Hl]. exists [], l. split; [done|]. split; [by constructor|]. by apply IH.
Qed.

Lemma matches_Cls rs l : matches (Cls rs) l ↔ ∃ c, l = [c] ∧ in_class rs c = true.
Proof. split; [inversion 1; eauto|intros (c & -> & H); by constructor]. Qed.

Lemma matches_Cat a b l : matches (Cat a b) l ↔ ∃ l1 l2, l = l1 ++ l2 ∧ matches a l1 ∧ matches b l2.
Proof. split; [inversion 1; eauto|intros (? & ? & -> & ? & ?); by constructor]. Qed.

Lemma matches_Alt a b l : matches (Alt a b) l ↔ matches a l ∨ matches b l.
Proof. split; [inversion 1; auto|intros [|]; eauto using matches]. Qed.

Lemma matches_Eps l : matches Eps l ↔ l = [].
Proof. split; [by inversion 1|intros ->; constructor]. Qed.

(** [[first][rest]*] *)
Lemma matches_named rs1 rs2 (p1 p2 : ascii → bool) s :
  (∀ c, in_class rs1 c = p1 c) → (∀ c, in_class rs2 c = p2 c) →
  matches (Cat (Cls rs1) (Star (Cls rs2))) (chars s) ↔ named p1 p2 s.
Proof.
  intros H1 H2. rewrite matches_Cat. unfold named. split.
  - intros (l1 & l2 & He & (c & -> & Hc)%matches_Cls & Hl%matches_Star_Cls).
    destruct s as [|d t]; [done|]. simpl in He. injection He as -> <-.
    exists c, t. split; [done|]. rewrite <- H1. split; [done|].
    apply all_bytes_chars. eapply Forall_impl; [exact Hl|]. intros x; simpl; by rewrite H2.
  - intros (c & t & -> & Hc & Ht). exists [c], (chars t). split; [done|]. split.
    + apply matches_Cls. exists c. by rewrite H1.
    + apply matches_Star_Cls. apply all_bytes_chars in Ht. eapply Forall_impl; [exact Ht|].
      intros x; simpl; by rewrite H2.
Qed.

(** A literal in front. *)
Lemma matches_lit c r s :
  matches (Cat (Cls [(c, c)]) r) (chars s) ↔ ∃ t, s = String c t ∧ matches r (chars t).
Proof.
  assert (∀ d, in_class [(c, c)] d = true ↔ d = c) as Hc.
  { intros d. unfold in_class, in_range. simpl.
    rewrite orb_false_r, andb_true_iff, !Nat.leb_le. split.
    - intros. rewrite <- (ascii_nat_embedding d), <- (ascii_nat_embedding c). f_equal. lia.
    - intros ->. lia. }
  rewrite matches_Cat. split.
  - intros (l1 & l2 & He & (d & -> & Hd)%matches_Cls & Hl). apply Hc in Hd as ->.
    destruct s as [|d t]; [done|]. simpl in He. injection He as -> <-. eauto.
  - intros (t & -> & Ht). exists [c], (chars t). split; [done|]. split; [|done].
    apply matches_Cls. exists c. by rewrite Hc.
Qed.

Lemma str_app l1 l2 : str (l1 ++ l2) = str l1 +:+ str l2.
Proof. induction l1 as [|c l1 IH]; [done|]. simpl. by rewrite IH, app_cons. Qed.

(** A concatenation as a split of the string. *)
Lemma matches_Cat_str a b s :
  matches (Cat a b) (chars s) ↔ ∃ u v, s = u +:+ v ∧ matches a (chars u) ∧ matches b (chars v).
Proof.
  rewrite matches_Cat. split.
  - intros (l1 & l2 & He & H1 & H2). exists (str l1), (str l2).
    rewrite !chars_str. split; [|done]. by rewrite <- (str_chars s), He, str_app.
  - intros (u & v & -> & Hu & Hv). exists (chars u), (chars v). by rewrite chars_app.
Qed.

Lemma matches_Eps_str s : matches Eps (chars s) ↔ s = "".
Proof. rewrite matches_Eps. by destruct s. Qed.

Lemma matches_bytes_str rs (p : ascii → bool) s :
  (∀ c, in_class rs c = p c) → matches (Star (Cls rs)) (chars s) ↔ all_bytes p s = true.
Proof.
  intros H. rewrite matches_Star_Cls, all_bytes_chars.
  split; (intros Hl; eapply Forall_impl; [exact Hl|]; intros x; simpl; by rewrite H).
Qed.

(** Decides [∀ c, in_class rs c = p c] for concrete [rs] and [p]. *)
Ltac class := apply class_bytes; by vm_compute.

Lemma fileRe_spec v : MatchString fileRe v = true ↔ named alnum path_byte v.
Proof. rewrite MatchString_spec. unfold fileRe. apply matches_named; class. Qed.

Lemma prefixRe_spec v : MatchString prefixRe v = true ↔ named alnum path_byte v.
Proof. exact (fileRe_spec v). Qed.

Lemma baseMakeRe_spec v : MatchString baseMakeRe v = true ↔ named alnum make_byte v.
Proof. rewrite MatchString_spec. unfold baseMakeRe. apply matches_named; class. Qed.

Lemma imageRefRe_spec v : MatchString imageRefRe v = true ↔ named alnum ref_byte v.
Proof. rewrite MatchString_spec. unfold imageRefRe. apply matches_named; class. Qed.

Lemma tokenRe_spec v : MatchString tokenRe v = true ↔ named printable printable v.
Proof. rewrite MatchString_spec. unfold tokenRe. apply matches_named; class. Qed.

Lemma noProxyRe_spec v : MatchString noProxyRe v = true ↔ all_bytes printable v = true.
Proof. rewrite MatchString_spec. unfold noProxyRe. apply matches_bytes_str; class. Qed.

Lemma digits_spec v : matches (Cat (Cls [("0", "9")%char]) (Star (Cls [("0", "9")%char]))) (chars v) ↔ digits v.
Proof. apply matches_named; class. Qed.

Lemma versionRe_spec v : MatchString versionRe v = true ↔ is_version v.
Proof.
  rewrite MatchString_spec. unfold versionRe, is_version.
  rewrite matches_Cat_str. setoid_rewrite digits_spec. setoid_rewrite matches_lit.
  setoid_rewrite matches_Cat_str. setoid_rewrite digits_spec.
  setoid_rewrite matches_Cat_str. setoid_rewrite matches_Alt.
  setoid_rewrite matches_lit. setoid_rewrite matches_lit. setoid_rewrite matches_lit.
  setoid_rewrite digits_spec. setoid_rewrite matches_Eps_str. split.
  - intros (a & ? & -> & Ha & ? & -> & b & ? & -> & Hb & patch & rc & -> & Hp & Hr).
    exists a, b, patch, rc. split; [done|]. split; [done|]. split; [done|]. split.
    + destruct Hp as [(t & -> & Ht)|Hn]; [right|left; done]. by exists t.
    + destruct Hr as [(t & -> & t' & -> & t'' & -> & Ht)|Hn]; [right|left; done]. by exists t''.
  - intros (a & b & patch & rc & -> & Ha & Hb & Hp & Hr).
    exists a, ("." +:+ b +:+ patch +:+ rc). split; [done|]. split; [done|].
    exists (b +:+ patch +:+ rc). split; [done|]. exists b, (patch +:+ rc).
    split; [done|]. split; [done|]. exists patch, rc. split; [done|]. split.
    + destruct Hp as [->|(p & -> & Hd)]; [by right|left]. by exists p.
    + destruct Hr as [->|(p & -> & Hd)]; [by right|left].
      exists ("rc" +:+ p). split; [done|]. exists ("c" +:+ p). split; [done|]. by exists p.
Qed.

Lemma epochRe_spec v : MatchString epochRe v = true ↔ canonical v.
Proof.
  rewrite MatchString_spec. unfold epochRe, canonical.
  rewrite matches_Alt, (matches_named _ _ (in_range "1" "9") is_digit) by class.
  rewrite matches_Cls. unfold named. split.
  - intros [(c & Hc & Hin)|Hn]; [left|by right].
    destruct v as [|d [|]]; simplify_eq/=. f_equal.
    revert c Hin. intros c Hin. apply Ascii.eqb_eq. revert c Hin. apply ascii_impl. by vm_compute.
  - intros [->|Hn]; [left|by right]. by exists "0"%char.
Qed.

Lemma matches_str_cls rs (p : ascii → bool) r s :
  (∀ c, in_class rs c = p c) →
  matches (Cat (Cls rs) r) (chars s) ↔ ∃ c t, s = String c t ∧ p c = true ∧ matches r (chars t).
Proof.
  intros H. rewrite matches_Cat. split.
  - intros (l1 & l2 & He & (c & -> & Hc)%matches_Cls & Hr).
    destruct s as [|d t]; [done|]. simpl in He. injection He as -> <-.
    exists c, t. by rewrite <- H.
  - intros (c & t & -> & Hc & Ht). exists [c], (chars t). split; [done|]. split; [|done].
    apply matches_Cls. exists c. by rewrite H.
Qed.

(** [[class]{n}], as [repeat_re] unrolls it. *)
Lemma matches_repeat rs (p : ascii → bool) n s :
  (∀ c, in_class rs c = p c) →
  matches (repeat_re n (Cls rs)) (chars s) ↔ String.length s = n ∧ all_bytes p s = true.
Proof.
  intros H. revert s. induction n as [|n IH]; intros s; simpl repeat_re.
  - rewrite matches_Eps_str. destruct s; naive_solver.
  - assert (matches (cat (Cls rs) (repeat_re n (Cls rs))) (chars s) ↔
            matches (Cat (Cls rs) (repeat_re n (Cls rs))) (chars s)) as ->
      by apply matches_cat.
    rewrite (matches_str_cls _ p) by done. setoid_rewrite IH. split.
    + intros (c & t & -> & Hc & <- & Ht). simpl. by rewrite Hc.
    + intros [Hl Hs]. destruct s as [|c t]; [done|]. simpl in Hs. inv_bool.
      injection Hl as Hl. by exists c, t.
Qed.

Lemma sha256Re_spec v : MatchString sha256Re v = true ↔ is_sha256 v.
Proof.
  rewrite MatchString_spec. unfold is_sha256.
  assert (sha256Re = repeat_re 64 (Cls [("0", "9")%char; ("a", "f")%char])) as -> by by vm_compute.
  apply matches_repeat; class.
Qed.

Lemma crossRe_spec v : MatchString crossRe v = true ↔ ∃ a, v = a +:+ "-" ∧ named cross_byte cross_byte a.
Proof.
  rewrite MatchString_spec. unfold crossRe.
  rewrite matches_Cat_str.
  setoid_rewrite (matches_named _ _ cross_byte cross_byte); [|class..].
  split.
  - intros (a & d & -> & Ha & Hd). exists a. split; [|done].
    apply matches_Cls in Hd as (c & Hc & Hin). destruct d as [|e [|]]; simplify_eq/=.
    assert (c = "-"%char) as ->; [|done].
    apply Ascii.eqb_eq. revert c Hin. apply ascii_impl. by vm_compute.
  - intros (a & -> & Ha). exists a, "-". split; [done|]. split; [done|].
    apply matches_Cls. by exists "-"%char.
Qed.

Lemma seedURLRe_spec v : MatchString seedURLRe v = true ↔ is_seed_url v.
Proof.
  rewrite MatchString_spec. unfold seedURLRe, is_seed_url.
  do 8 setoid_rewrite matches_lit.
  setoid_rewrite (matches_named _ _ url_byte url_byte); [|class..].
  split.
  - intros H. repeat (destruct H as (? & -> & H)). eauto.
  - intros (t & -> & Ht). do 8 (eexists; split; [reflexivity|]). done.
Qed.

Lemma proxyRe_spec v : MatchString proxyRe v = true ↔ is_proxy_url v.
Proof.
  rewrite MatchString_spec. unfold proxyRe, is_proxy_url.
  rewrite (matches_str_cls _ (in_range "a" "z")) by class.
  setoid_rewrite matches_Cat_str.
  setoid_rewrite (matches_bytes_str _ scheme_byte); [|class].
  do 3 setoid_rewrite matches_lit.
  setoid_rewrite (matches_named _ _ printable printable); [|class..].
  split.
  - intros (c & ? & -> & Hc & u & ? & -> & Hu & ? & -> & ? & -> & t & -> & Ht).
    exists (String c u), t. split; [done|]. split; [|done]. by exists c, u.
  - intros (? & t & -> & (c & u & -> & Hc & Hu) & Ht).
    exists c, (u +:+ "://" +:+ t). split; [done|]. split; [done|].
    exists u, ("://" +:+ t). split; [done|]. split; [done|].
    do 3 (eexists; split; [reflexivity|]). done.
Qed.

(** ** The accepted specifications *)

Definition opt (P : string → Prop) (v : string) : Prop := v = "" ∨ P v.

Record valid_spec (s : Spec) : Prop := ValidSpec {
  v_version : is_version (KernelVersion s);
  v_config : safe_path (ConfigName s);
  v_expect : opt safe_path (ExpectName s);
  v_base_make : Forall make_target (Fields (BaseMake s));
  v_src_name : opt safe_path (SourceLocalName s);
  v_epoch : ∃ n, (0 <= n <= maxEpoch)%Z ∧ SourceDateEpoch s = dec n;
  v_source : if SourceLocalName s =s "" then
               HasPrefix (SourceURL s) "https://" = true ∧
               all_bytes printable (SourceURL s) = true ∧ is_tarball (SourceURL s)
             else is_tarball (SourceLocalName s);
  v_sha : opt is_sha256 (SourceSHA256 s);
  v_pinned_push : SeedPush s = true → SourceLocalName s ≠ "" ∨ SourceSHA256 s ≠ "";
  v_seed : opt (λ url, is_seed_url url ∧ safe_path (SeedPrefix s) ∧
                       opt (named alnum path_byte) (SeedRegion s)) (SeedURL s);
  v_https_proxy : opt is_proxy_url (HTTPSProxy s);
  v_http_proxy : opt is_proxy_url (HTTPProxy s);
  v_no_proxy : all_bytes printable (NoProxy s) = true;
  v_proxy_ca : opt (λ f, safe_path f ∧ lacks f "/") (ProxyCAFile s);
  v_helper : opt image_ref (HelperRef s);
  v_base : image_ref (Base s);
  v_arch : archOrDefault s = "x86_64" ∨ (archOrDefault s = "arm64" ∧ ToolchainReady s = true);
  v_cross : opt is_cross_prefix (CrossCompile s);
  v_targets : Forall (λ t, In t ["vmlinux"; "image"; "modules"; "config"; "kconfigs"]) (Targets s)
}.

(** *** One check each *)

Lemma negb_false_true b : negb b = false ↔ b = true.
Proof. by destruct b. Qed.

Lemma bad_name_false r (P : string → Prop) v :
  (MatchString r v = true ↔ P v) → bad_name r v = false ↔ P v ∧ lacks v "..".
Proof. intros H. unfold bad_name. by rewrite orb_false_iff, negb_false_true, H, lacks_Contains. Qed.

Lemma guarded_name r (P : string → Prop) v :
  (MatchString r v = true ↔ P v) →
  ((v <>s "") && bad_name r v)%bool = false ↔ opt (λ v, P v ∧ lacks v "..") v.
Proof. intros H. rewrite guarded_check. unfold opt. by rewrite (bad_name_false _ _ _ H). Qed.

Lemma guarded_match r (P : string → Prop) v :
  (MatchString r v = true ↔ P v) →
  ((v <>s "") && negb (MatchString r v))%bool = false ↔ opt P v.
Proof. intros H. rewrite guarded_check. unfold opt. by rewrite negb_false_true, H. Qed.

Lemma check_ext_Ok v : check_ext v = Ok tt ↔ is_tarball v.
Proof.
  unfold check_ext, is_tarball, SourceExt.
  assert ((∃ e, find (λ ext, HasSuffix v (".tar" +:+ ext)) [".gz"; ".xz"; ".zst"] = Some e) ↔
          ∃ t ext, v = t +:+ ".tar" +:+ ext ∧ In ext [".gz"; ".xz"; ".zst"]) as H.
  { split.
    - intros (e & [Hin Hs]%find_some). apply HasSuffix_spec in Hs as (t & ->). by exists t, e.
    - intros (t & e & -> & Hin). destruct (find _ _) as [e'|] eqn:Hf; [by exists e'|].
      assert (HasSuffix (t +:+ ".tar" +:+ e) (".tar" +:+ e) = true) as Hs
        by (apply HasSuffix_spec; eauto).
      by rewrite (find_none _ _ Hf _ Hin) in Hs. }
  rewrite <- H. destruct (find _ _); naive_solver.
Qed.

Lemma epoch_check v :
  MatchString epochRe v = true ∧ is_ok (map_err ETimestamp (Timestamp v)) = true ↔
  ∃ n, (0 <= n <= maxEpoch)%Z ∧ v = dec n.
Proof.
  rewrite epochRe_spec. split.
  - intros [Hc Ht]. destruct (Timestamp v) as [ts|] eqn:E; [|done].
    apply Timestamp_Ok in E as (n & Hp & Hr & _). exists n. split; [done|].
    apply canonical_ParseInt; [unfold maxInt64, maxEpoch in *; lia|done].
  - intros (n & Hr & Hv).
    apply canonical_ParseInt in Hv as [Hc Hp]; [|unfold maxInt64, maxEpoch in *; lia].
    split; [done|].
    assert (Timestamp v = Ok (Format (weekday n) (utc n))) as -> by (apply Timestamp_Ok; eauto).
    done.
Qed.

Lemma source_check s :
  (if SourceLocalName s =s "" then
     reject (negb (HasPrefix (SourceURL s) "https://")) (ESourceURLScheme (SourceURL s));;
     reject (negb (MatchString tokenRe (SourceURL s))) (ESourceURLToken (SourceURL s));;
     check_ext (SourceURL s)
   else check_ext (SourceLocalName s)) = Ok tt ↔
  if SourceLocalName s =s "" then
    HasPrefix (SourceURL s) "https://" = true ∧
    all_bytes printable (SourceURL s) = true ∧ is_tarball (SourceURL s)
  else is_tarball (SourceLocalName s).
Proof.
  destruct (SourceLocalName s =s ""); [|apply check_ext_Ok].
  rewrite !then_Ok, !reject_Ok, !negb_false_true, check_ext_Ok, tokenRe_spec.
  split; intros (Hp & Ht & He); repeat split; auto.
  - destruct Ht as (c & t & -> & Hc & Ht). simpl. by rewrite Hc.
  - apply HasPrefix_spec in Hp as [t Hp]. rewrite Hp in Ht |- *.
    simpl in Ht. eexists _, _. split; [reflexivity|]. by inv_bool.
Qed.

Lemma seed_check s :
  (if SeedURL s <>s "" then
     reject (negb (MatchString seedURLRe (SeedURL s))) (ESeedURL (SeedURL s));;
     reject (bad_name prefixRe (SeedPrefix s)) (ESeedPrefix (SeedPrefix s));;
     reject ((SeedRegion s <>s "") && negb (MatchString fileRe (SeedRegion s)))
            (ESeedRegion (SeedRegion s))
   else Ok tt) = Ok tt ↔
  opt (λ url, is_seed_url url ∧ safe_path (SeedPrefix s) ∧
              opt (named alnum path_byte) (SeedRegion s)) (SeedURL s).
Proof.
  unfold opt at 1. destruct (String.eqb_spec (SeedURL s) ""); simpl; [naive_solver|].
  rewrite !then_Ok, !reject_Ok, negb_false_true, seedURLRe_spec.
  rewrite (bad_name_false _ _ _ (prefixRe_spec _)), (guarded_match _ _ _ (fileRe_spec _)).
  unfold safe_path. naive_solver.
Qed.

Lemma arch_check s :
  (if archOrDefault s =s "x86_64" then Ok tt
   else if archOrDefault s =s "arm64" then reject (negb (ToolchainReady s)) EArm64Toolchain
   else Err (EArch (Arch s))) = Ok tt ↔
  archOrDefault s = "x86_64" ∨ (archOrDefault s = "arm64" ∧ ToolchainReady s = true).
Proof.
  destruct (String.eqb_spec (archOrDefault s) "x86_64"); [naive_solver|].
  destruct (String.eqb_spec (archOrDefault s) "arm64"); [|naive_solver].
  rewrite reject_Ok, negb_false_true. naive_solver.
Qed.

Lemma proxy_check v : 
  ((v <>s "") && negb (MatchString proxyRe v))%bool = false ↔ opt is_proxy_url v.
Proof. apply guarded_match, proxyRe_spec. Qed.

Lemma proxies_check s :
  foldR (λ _ '(name, val), reject ((val <>s "") && negb (MatchString proxyRe val)) (EProxy name val))
        tt [("https-proxy", HTTPSProxy s); ("http-proxy", HTTPProxy s)] = Ok tt ↔
  opt is_proxy_url (HTTPSProxy s) ∧ opt is_proxy_url (HTTPProxy s).
Proof.
  rewrite <- !proxy_check. cbn [foldR]. unfold reject.
  destruct ((HTTPSProxy s <>s "") && _)%bool, ((HTTPProxy s <>s "") && _)%bool; simpl; naive_solver.
Qed.

Lemma proxy_ca_check v :
  ((v <>s "") && (bad_name fileRe v || Contains v "/"))%bool = false ↔
  opt (λ f, safe_path f ∧ lacks f "/") v.
Proof.
  rewrite guarded_check, orb_false_iff, (bad_name_false _ _ _ (fileRe_spec _)), <- lacks_Contains.
  done.
Qed.

Lemma pinned_check s :
  (SeedPush s && (SourceLocalName s =s "") && (SourceSHA256 s =s ""))%bool = false ↔
  (SeedPush s = true → SourceLocalName s ≠ "" ∨ SourceSHA256 s ≠ "").
Proof.
  destruct (SeedPush s), (String.eqb_spec (SourceLocalName s) ""),
    (String.eqb_spec (SourceSHA256 s) ""); naive_solver.
Qed.

Lemma known_target_spec t :
  negb (known_target t) = false ↔ In t ["vmlinux"; "image"; "modules"; "config"; "kconfigs"].
Proof.
  rewrite negb_false_true. unfold known_target. rewrite existsb_exists. split.
  - intros (x & Hin & ->%String.eqb_eq). done.
  - intros Hin. exists t. by rewrite String.eqb_refl.
Qed.

Lemma Validate_valid s : Validate s = Ok tt ↔ valid_spec s.
Proof.
  unfold Validate.
  rewrite !then_Ok, then_Ok_any, !then_Ok, !reject_Ok, !foldR_check.
  rewrite negb_false_true, versionRe_spec, (bad_name_false _ _ _ (fileRe_spec _)).
  rewrite (guarded_name _ _ (ExpectName s) (fileRe_spec _)).
  rewrite (Forall_iff _ (Fields (BaseMake s)) make_target)
    by (intros t; apply bad_name_false, baseMakeRe_spec).
  rewrite (guarded_name _ _ (SourceLocalName s) (fileRe_spec _)).
  rewrite negb_false_true, (and_assoc (MatchString epochRe _ = true)), epoch_check.
  rewrite source_check, (guarded_match _ _ _ (sha256Re_spec _)), pinned_check, seed_check.
  rewrite negb_false_true, noProxyRe_spec, proxy_ca_check.
  rewrite (guarded_name _ _ (HelperRef s) (imageRefRe_spec _)).
  rewrite (bad_name_false _ _ _ (imageRefRe_spec (Base s))), arch_check.
  rewrite (guarded_name crossRe (λ v, ∃ a, v = a +:+ "-" ∧ named cross_byte cross_byte a)
             (CrossCompile s) (crossRe_spec _)).
  rewrite (Forall_iff (λ t, negb (known_target t) = false) (Targets s) (λ t, In t ["vmlinux"; "image"; "modules"; "config"; "kconfigs"])
             known_target_spec).
  rewrite proxies_check. unfold is_cross_prefix, safe_path, image_ref in *.
  split; [intros H; destruct_and! H; by constructor|intros []; auto 25].
Qed.

(** C1. [Validate] accepts exactly the specifications of [valid_spec]: every
    field is the kind of token it is later used as (a version, a relative path
    that never climbs, a plain make target, a digest, an image reference, ...),
    the epoch is the canonical decimal of a second between 1970 and 9999, and
    the conditions that relate fields hold (pinned push, arm64 with a ready
    toolchain, an extractable source). Every other specification is an error. *)
Theorem Validate_exact (s : Spec) :
  (Validate s = Ok tt ↔ valid_spec s) ∧ (¬ valid_spec s ↔ ∃ e, Validate s = Err e).
Proof.
  rewrite <- Validate_valid. split; [done|].
  destruct (Validate s) as [[]|e]; split; [done|by intros [? ?]|by exists e|done].
Qed.

(** ** Consequences: what a valid field cannot contain *)

Lemma named_bytes (first rest p : ascii → bool) v :
  forallb (λ c, implb (first c) (p c)) all_ascii = true →
  forallb (λ c, implb (rest c) (p c)) all_ascii = true →
  named first rest v → all_bytes p v = true.
Proof.
  intros H1 H2 (c & t & -> & Hc & Ht). simpl. apply andb_true_iff. split.
  - by apply (ascii_impl first p).
  - eapply all_bytes_impl; [|exact Ht]. by apply (ascii_impl rest p).
Qed.

(** Bytes of the names the graph interpolates into paths, keys and ids. *)
Definition name_byte (c : ascii) : bool := alnum c || one_of "._:/@-" c.

Lemma name_byte_printable c : name_byte c = true → printable c = true.
Proof. apply ascii_impl. by vm_compute. Qed.

Lemma name_bytes_printable v : all_bytes name_byte v = true → all_bytes printable v = true.
Proof. apply all_bytes_impl, name_byte_printable. Qed.

Lemma safe_path_bytes v : safe_path v → all_bytes name_byte v = true.
Proof. intros [H _]. eapply named_bytes; [..|exact H]; by vm_compute. Qed.

Lemma image_ref_bytes v : image_ref v → all_bytes name_byte v = true.
Proof. intros [H _]. eapply named_bytes; [..|exact H]; by vm_compute. Qed.

Lemma make_target_bytes v : make_target v → all_bytes name_byte v = true.
Proof. intros [H _]. eapply named_bytes; [..|exact H]; by vm_compute. Qed.

Lemma digits_bytes v : digits v → all_bytes name_byte v = true.
Proof. intros H. eapply named_bytes; [..|exact H]; by vm_compute. Qed.

Lemma version_bytes v : is_version v → all_bytes name_byte v = true.
Proof.
  intros (a & b & p & r & -> & Ha%digits_bytes & Hb%digits_bytes & Hp & Hr).
  rewrite !all_bytes_app, Ha, Hb. simpl.
  destruct Hp as [->|(? & -> & Hp%digits_bytes)], Hr as [->|(? & -> & Hr%digits_bytes)];
    rewrite ?all_bytes_app, ?Hp, ?Hr; done.
Qed.

Lemma sha256_bytes v : is_sha256 v → all_bytes name_byte v = true.
Proof. intros [_ H]. eapply all_bytes_impl; [|exact H]. apply ascii_impl. by vm_compute. Qed.

Lemma cross_bytes v : is_cross_prefix v → all_bytes name_byte v = true.
Proof.
  intros [(a & -> & H) _]. rewrite all_bytes_app. apply andb_true_iff. split; [|done].
  eapply named_bytes; [..|exact H]; by vm_compute.
Qed.

Lemma seed_url_bytes v : is_seed_url v → all_bytes printable v = true.
Proof.
  intros (t & -> & H). rewrite all_bytes_app. apply andb_true_iff. split; [done|].
  eapply named_bytes; [..|exact H]; by vm_compute.
Qed.

Lemma proxy_url_bytes v : is_proxy_url v → all_bytes printable v = true.
Proof.
  intros (a & t & -> & Ha & Ht). rewrite !all_bytes_app, !andb_true_iff. split; [|split; [done|]].
  - eapply named_bytes; [..|exact Ha]; by vm_compute.
  - eapply named_bytes; [..|exact Ht]; by vm_compute.
Qed.

Lemma canonical_bytes v : canonical v → all_bytes name_byte v = true.
Proof.
  intros [->|(c & t & -> & Hc & Ht)]; [done|]. simpl. apply andb_true_iff. split.
  - revert c Hc. apply ascii_impl. by vm_compute.
  - eapply all_bytes_impl; [|exact Ht]. apply ascii_impl. by vm_compute.
Qed.

Lemma opt_bytes (P : string → Prop) p v :
  (P v → all_bytes p v = true) → opt P v → all_bytes p v = true.
Proof. intros H [->|Hv]; auto. Qed.

(** A path without [..] in it has no [..] element and does not start at the root. *)
Lemma safe_path_relative v :
  safe_path v → HasPrefix v "/" = false ∧ ¬ In ".." (Split v "/").
Proof.
  intros [(c & t & -> & Hc & _) Hl]. split.
  - destruct (HasPrefix (String c t) "/") eqn:E; [|done].
    apply HasPrefix_spec in E as [u [= -> _]]. done.
  - intros Hin. apply Hl. rewrite <- (Join_Split (String c t) "/").
    apply in_split in Hin as (l1 & l2 & ->).
    assert (∀ l, ∃ b, Join (".." :: l) "/" = ".." +:+ b) as Hhead.
    { intros [|w l]; [by exists ""|]. rewrite Join_cons by done. eauto. }
    destruct (Hhead l2) as [b Hb]. clear -Hb.
    induction l1 as [|w l1 (a & b' & IH)].
    + exists "", b. by rewrite app_nil_l.
    + exists (w +:+ "/" +:+ a), b'. change ((w :: l1) ++ ".." :: l2) with (w :: (l1 ++ ".." :: l2)).
      rewrite Join_cons by (by destruct l1). rewrite IH. by rewrite !str_app_assoc.
Qed.

(** A make target is neither a flag, nor a variable assignment, nor a path. *)
Lemma make_target_plain t :
  make_target t →
  HasPrefix t "-" = false ∧ ContainsByte t "=" = false ∧ ContainsByte t "/" = false ∧ t ≠ "".
Proof.
  intros [(c & r & -> & Hc & Hr) _].
  split; [destruct (HasPrefix (String c r) "-") eqn:E; [|done];
          apply HasPrefix_spec in E as [u [= -> _]]; done|].
  assert (all_bytes make_byte (String c r) = true) as Hm.
  { simpl. rewrite Hr, andb_true_r. revert c Hc. apply ascii_impl. by vm_compute. }
  split; [|split; [|done]]; eapply all_bytes_lacks; (exact Hm || by vm_compute).
Qed.

Lemma known_target_bytes t :
  In t ["vmlinux"; "image"; "modules"; "config"; "kconfigs"] →
  all_bytes name_byte t = true ∧ t ≠ "" ∧ ContainsByte t "," = false.
Proof. intros H. repeat destruct H as [<-|H]; by vm_compute. Qed.

#[export] Hint Resolve name_bytes_printable safe_path_bytes image_ref_bytes make_target_bytes
  version_bytes sha256_bytes cross_bytes seed_url_bytes proxy_url_bytes canonical_bytes
  opt_bytes : kb.
