(* ===== verification/Kernelfile.v ===== *)
(** step.go, [ParseKernelfile]: the build-description file. The scanner, the
    line lexer and the key switch are modelled as written; then a declarative
    meaning (a map from keys to values applied to a specification, in which no
    order appears) is proved to be what the parser computes. *)

From S2P Require Import Prelude GoString Spec.

(** ** bufio.Scanner over lines *)

Definition maxScanTokenSize : N := 65536.

(** The buffer holds [maxScanTokenSize] bytes, the newline included. *)
Definition too_long (w : string) : bool := (maxScanTokenSize <=? N.of_nat (String.length w))%N.

Definition dropCR (w : string) : string := TrimSuffix w (String CR "").

(** The tokens delivered before end of input or before the scanner fails with
    ErrTooLong, and whether it did fail. *)
Fixpoint scan (raw : list string) : list string * bool :=
  match raw with
  | [] => ([], false)
  | [w] =>
      if w =s "" then ([], false)
      else if too_long w then ([], true) else ([dropCR w], false)
  | w :: raw =>
      if too_long w then ([], true)
      else let '(ls, failed) := scan raw in (dropCR w :: ls, failed)
  end.

Definition scan_lines (r : string) : list string * bool := scan (Split r LF).

(** ** One line *)

Inductive KernelfileError :=
  | KWantKeyValue (line : nat) (t : string)
  | KDuplicateKey (line : nat) (key : string) (first : nat)
  | KPatches (line : nat) (val : string)
  | KNoTarget (line : nat)
  | KToolchain (line : nat) (val : string)
  | KUnknownKey (line : nat) (key : string)
  | KTooLong.

(** U+FEFF in UTF-8. *)
Definition bom : string := str (utf8 [239; 187; 191]).

Definition sep (c : ascii) : bool := Ascii.eqb c " " || Ascii.eqb c TAB.

(** [if i := IndexByte(t, '#'); i >= 0 && (i == 0 || t[i-1] is ' ' or '\t')] *)
Definition strip_comment (t : string) : string :=
  match IndexByte t "#" with
  | Some i =>
      if (i =? 0)%nat || match String.get (i - 1) t with Some c => sep c | None => false end
      then str_take i t else t
  | None => t
  end.

Inductive lexed :=
  | LBlank
  | LBad (t : string)
  | LPair (key val : string).

Definition lex (line : nat) (t : string) : lexed :=
  let t := if (line =? 1)%nat then TrimPrefix t bom else t in
  let t := TrimSpace (strip_comment t) in
  if t =s "" then LBlank
  else match IndexAny t (String " " (String TAB "")) with
       | None => LBad t
       | Some i =>
           let key := str_take i t in
           let val := TrimSpace (str_drop (S i) t) in
           if val =s "" then LBad t else LPair key val
       end.

(** ** The key switch *)

(** What the loop carries besides the line counter and the seen map. *)
Record core := Core {
  spec : Spec;
  sawKernel : bool;
  sawURL : bool;
  sawSHA : bool
}.

Definition with_spec (f : Spec → Spec) (c : core) : core :=
  Core (f (spec c)) (sawKernel c) (sawURL c) (sawSHA c).

Definition target_sep (c : ascii) : bool :=
  Ascii.eqb c " " || Ascii.eqb c TAB || Ascii.eqb c ",".

Definition switch_key (line : nat) (key val : string) (c : core) : result KernelfileError core :=
  if key =s "KERNEL" then
    Ok (Core (set_KernelVersion val (spec c)) true (sawURL c) (sawSHA c))
  else if key =s "SOURCE_URL" then
    Ok (Core (set_SourceURL val (spec c)) (sawKernel c) true (sawSHA c))
  else if key =s "SHA256" then
    Ok (Core (set_SourceSHA256 val (spec c)) (sawKernel c) (sawURL c) true)
  else if key =s "EPOCH" then Ok (with_spec (set_SourceDateEpoch val) c)
  else if key =s "CONFIG" then Ok (with_spec (set_ConfigName val) c)
  else if key =s "EXPECT" then Ok (with_spec (set_ExpectName val) c)
  else if key =s "BASE_MAKE" then Ok (with_spec (set_BaseMake val) c)
  else if key =s "PATCHES" then
    if val =s "on" then Ok (with_spec (set_ApplyPatches true) c)
    else if val =s "off" then Ok (with_spec (set_ApplyPatches false) c)
    else Err (KPatches line val)
  else if key =s "ARCH" then Ok (with_spec (set_Arch val) c)
  else if key =s "CROSS_COMPILE" then Ok (with_spec (set_CrossCompile val) c)
  else if key =s "TARGETS" then
    let tgts := FieldsFunc val target_sep in
    match tgts with
    | [] => Err (KNoTarget line)
    | _ => Ok (with_spec (set_Targets tgts) c)
    end
  else if key =s "PROXY_CA" then Ok (with_spec (set_ProxyCAFile val) c)
  else if key =s "BASE" then Ok (with_spec (set_Base val) c)
  else if key =s "TOOLCHAIN" then
    if val =s "ready" then Ok (with_spec (set_ToolchainReady true) c)
    else if val =s "apt" then Ok (with_spec (set_ToolchainReady false) c)
    else Err (KToolchain line val)
  else Err (KUnknownKey line key).

(** ** The parser *)

Record parser := Parser {
  pcore : core;
  pline : nat;
  seen : gmap string nat
}.

Definition parse_line (p : parser) (t : string) : result KernelfileError parser :=
  let line := S (pline p) in
  match lex line t with
  | LBlank => Ok (Parser (pcore p) line (seen p))
  | LBad t => Err (KWantKeyValue line t)
  | LPair key val =>
      match seen p !! key with
      | Some first => Err (KDuplicateKey line key first)
      | None =>
          c ← switch_key line key val (pcore p);
          Ok (Parser c line (<[key := line]> (seen p)))
      end
  end.

(** After end of input: a KERNEL without SOURCE_URL derives the URL, and a new
    source without SHA256 drops the inherited pin. *)
Definition finish (c : core) : Spec :=
  let s := if sawKernel c && negb (sawURL c)
           then set_SourceURL (SourceURLFor (KernelVersion (spec c))) (spec c) else spec c in
  if (sawKernel c || sawURL c) && negb (sawSHA c) then set_SourceSHA256 "" s else s.

Definition ParseKernelfile (r : string) (s : Spec) : result KernelfileError Spec :=
  let '(lines, failed) := scan_lines r in
  p ← foldR parse_line (Parser (Core s false false false) 0 ∅) lines;
  if failed then Err KTooLong else Ok (finish (pcore p)).

(** The #syntax= example of the documentation. *)
Definition example_file : string :=
  foldr (λ l r, l +:+ String LF r) ""
    ["#syntax=ghcr.io/emirb/kernelbuild-buildkit"; "KERNEL   6.18.20";
     "CONFIG   kernel.config # the config"; ""; "EPOCH    1785542400";
     "TARGETS  vmlinux, image config"].

Example example_parses :
  ParseKernelfile example_file DefaultSpec =
  Ok (set_Targets ["vmlinux"; "image"; "config"] (set_SourceSHA256 "" DefaultSpec)).
Proof. by vm_compute. Qed.

(** ** The declarative meaning *)

Definition keys : list string :=
  ["KERNEL"; "SOURCE_URL"; "SHA256"; "EPOCH"; "CONFIG"; "EXPECT"; "BASE_MAKE"; "PATCHES";
   "ARCH"; "CROSS_COMPILE"; "TARGETS"; "PROXY_CA"; "BASE"; "TOOLCHAIN"].

(** A directive the switch accepts, whatever came before it. *)
Definition directive_ok (kv : string * string) : Prop :=
  let '(k, v) := kv in
  In k keys ∧
  (k = "PATCHES" → v = "on" ∨ v = "off") ∧
  (k = "TOOLCHAIN" → v = "ready" ∨ v = "apt") ∧
  (k = "TARGETS" → FieldsFunc v target_sep ≠ []).

Section meaning.
Context (m : gmap string string).

Definition given (k : string) : bool := match m !! k with Some _ => true | None => false end.
Definition value (k old : string) : string := default old (m !! k).
Definition switch (k on : string) (old : bool) : bool :=
  match m !! k with Some v => v =s on | None => old end.

(** The fields as the directives of [m] set them, before the end-of-file rules. *)
Definition fields (s : Spec) : Spec := {|
  Base := value "BASE" (Base s);
  KernelVersion := value "KERNEL" (KernelVersion s);
  SourceURL := value "SOURCE_URL" (SourceURL s);
  SourceSHA256 := value "SHA256" (SourceSHA256 s);
  SourceLocalName := SourceLocalName s;
  SourceDateEpoch := value "EPOCH" (SourceDateEpoch s);
  ConfigName := value "CONFIG" (ConfigName s);
  ExpectName := value "EXPECT" (ExpectName s);
  BaseMake := value "BASE_MAKE" (BaseMake s);
  ApplyPatches := switch "PATCHES" "on" (ApplyPatches s);
  HTTPSProxy := HTTPSProxy s;
  HTTPProxy := HTTPProxy s;
  NoProxy := NoProxy s;
  ToolchainReady := switch "TOOLCHAIN" "ready" (ToolchainReady s);
  Arch := value "ARCH" (Arch s);
  CrossCompile := value "CROSS_COMPILE" (CrossCompile s);
  Targets := match m !! "TARGETS" with Some v => FieldsFunc v target_sep | None => Targets s end;
  ProxyCAFile := value "PROXY_CA" (ProxyCAFile s);
  HelperRef := HelperRef s;
  NetworkHost := NetworkHost s;
  IgnoreCache := IgnoreCache s;
  SeedURL := SeedURL s;
  SeedRegion := SeedRegion s;
  SeedPrefix := SeedPrefix s;
  SeedPush := SeedPush s
|}.

(** The source and the pin of the file: an explicit SOURCE_URL or SHA256 wins
    wherever it stands; a new source without SHA256 is unpinned. *)
Definition source_url (s : Spec) : string :=
  match m !! "SOURCE_URL", m !! "KERNEL" with
  | Some url, _ => url
  | None, Some v => SourceURLFor v
  | None, None => SourceURL s
  end.

Definition source_pin (s : Spec) : string :=
  match m !! "SHA256" with
  | Some sha => sha
  | None => if given "KERNEL" || given "SOURCE_URL" then "" else SourceSHA256 s
  end.

Definition meaning (s : Spec) : Spec :=
  set_SourceURL (source_url s) (set_SourceSHA256 (source_pin s) (fields s)).

Definition core_of (s : Spec) : core :=
  Core (fields s) (given "KERNEL") (given "SOURCE_URL") (given "SHA256").
End meaning.

Lemma finish_core_of m s : finish (core_of m s) = meaning m s.
Proof.
  unfold finish, meaning, core_of, source_url, source_pin, given, value. simpl.
  destruct (m !! "KERNEL") eqn:E1, (m !! "SOURCE_URL") eqn:E2, (m !! "SHA256") eqn:E3;
    unfold set_SourceURL, set_SourceSHA256, fields, value; simpl; by rewrite ?E1, ?E2, ?E3.
Qed.

Lemma core_of_empty s : core_of ∅ s = Core s false false false.
Proof. by destruct s. Qed.

(** The switch adds the directive to the map the core stands for. *)
Lemma switch_key_ok line k v m s :
  directive_ok (k, v) → switch_key line k v (core_of m s) = Ok (core_of (<[k:=v]> m) s).
Proof.
  intros (Hk & Hp & Ht & Hg). unfold keys in Hk. simpl in Hk.
  repeat destruct Hk as [<-|Hk]; try done; unfold switch_key; cbn [String.eqb Ascii.eqb Bool.eqb];
    unfold core_of, with_spec, fields, value, given, switch; cbn [spec sawKernel sawURL sawSHA].
  all: try (destruct Hp as [-> | ->]; [done|..]); try (destruct Ht as [-> | ->]; [done|..]).
  all: try (destruct (FieldsFunc v target_sep) eqn:Hf; [by destruct Hg|]).
  all: cbn [String.eqb Ascii.eqb Bool.eqb]; f_equal;
    repeat (rewrite lookup_insert_eq || rewrite lookup_insert_ne by done); rewrite ?Hf; done.
Qed.

Lemma switch_key_inv line k v c c' : switch_key line k v c = Ok c' → directive_ok (k, v).
Proof.
  unfold switch_key, directive_ok, keys. intros H.
  repeat match type of H with
  | (if ?k =s ?l then _ else _) = _ => destruct (String.eqb_spec k l); subst
  end; try discriminate; split_and!; simpl; try tauto; try (intros ?; congruence || tauto).
  all: try (intros _). all: try (destruct (FieldsFunc _ _); [discriminate|done]).
Qed.

(** The directives of a list of lines, [None] when a line is malformed. *)
Fixpoint lex_all (line : nat) (ls : list string) : option (list (string * string)) :=
  match ls with
  | [] => Some []
  | t :: ls =>
      match lex (S line) t with
      | LBlank => lex_all (S line) ls
      | LBad _ => None
      | LPair k v => cons (k, v) <$> lex_all (S line) ls
      end
  end.

Definition directives (r : string) : option (list (string * string)) :=
  let '(lines, failed) := scan_lines r in
  if failed then None else lex_all 0 lines.

(** A directive file: accepted keys, each once, and none already set in [m]. *)
Definition fresh_ok (m : gmap string string) (ds : list (string * string)) : Prop :=
  NoDup (ds.*1) ∧ Forall (λ kv, m !! kv.1 = None) ds ∧ Forall directive_ok ds.

Lemma fresh_ok_cons m k v ds :
  fresh_ok m ((k, v) :: ds) ↔ m !! k = None ∧ directive_ok (k, v) ∧ fresh_ok (<[k:=v]> m) ds.
Proof.
  unfold fresh_ok. rewrite fmap_cons, NoDup_cons, !Forall_cons. simpl.
  assert (Forall (λ kv, <[k:=v]> m !! kv.1 = None) ds ↔
          (k ∉ (ds.*1)) ∧ Forall (λ kv : string * string, m !! kv.1 = None) ds) as ->; [|tauto].
  induction ds as [|[k' v'] ds IH]; simpl.
  - split; [intros _; split; [set_solver|constructor]|intros _; constructor].
  - rewrite !Forall_cons, IH, not_elem_of_cons. simpl.
    destruct (decide (k = k')) as [->|Hne].
    + rewrite lookup_insert_eq. naive_solver.
    + rewrite lookup_insert_ne by done. naive_solver.
Qed.

Lemma foldR_parse_cons p t ls :
  foldR parse_line p (t :: ls) =
  match lex (S (pline p)) t with
  | LBlank => foldR parse_line (Parser (pcore p) (S (pline p)) (seen p)) ls
  | LBad b => Err (KWantKeyValue (S (pline p)) b)
  | LPair k v =>
      match seen p !! k with
      | Some first => Err (KDuplicateKey (S (pline p)) k first)
      | None =>
          c ← switch_key (S (pline p)) k v (pcore p);
          foldR parse_line (Parser c (S (pline p)) (<[k := S (pline p)]> (seen p))) ls
      end
  end.
Proof.
  change (foldR parse_line p (t :: ls)) with (p' ← parse_line p t; foldR parse_line p' ls).
  generalize (foldR parse_line) as loop. intros loop. unfold parse_line.
  destruct (lex (S (pline p)) t) as [|b|k v]; [reflexivity..|].
  destruct (seen p !! k); [reflexivity|]. by destruct (switch_key _ _ _ _).
Qed.

(** The line loop and the lexed directives agree. *)
Lemma parse_lines_spec s m p ls c' :
  pcore p = core_of m s → (∀ k, is_Some (seen p !! k) ↔ is_Some (m !! k)) →
  (∃ p', foldR parse_line p ls = Ok p' ∧ pcore p' = c') ↔
  ∃ ds, lex_all (pline p) ls = Some ds ∧ fresh_ok m ds ∧ c' = core_of (insert_all m ds) s.
Proof.
  revert m p. induction ls as [|t ls IH]; intros m p Hc Hseen.
  { cbn. split.
    - intros (p' & [= <-] & <-). exists []. split; [done|]. split; [|done].
      split; [constructor|by split].
    - intros (ds & [= <-] & _ & ->). by exists p. }
  rewrite foldR_parse_cons. cbn [lex_all].
  destruct (lex (S (pline p)) t) as [|b|k v] eqn:Hl.
  - by apply (IH m (Parser (pcore p) (S (pline p)) (seen p))).
  - split; [by intros (? & ? & _)|by intros (? & ? & _)].
  - cbn [pline pcore seen]. destruct (seen p !! k) as [first|] eqn:Hk.
    + split; [by intros (? & ? & _)|]. intros (ds & (ds' & _ & ->)%fmap_Some & Hf & _).
      apply fresh_ok_cons in Hf as [Hn _].
      destruct (proj1 (Hseen k)) as [x Hx]; [by eexists|congruence].
    + assert (m !! k = None) as Hm.
      { destruct (m !! k) eqn:E; [|done].
        destruct (proj2 (Hseen k)) as [x Hx]; [by eexists|congruence]. }
      assert (∀ k', is_Some (<[k := S (pline p)]> (seen p) !! k') ↔ is_Some (<[k:=v]> m !! k')) as Hs'.
      { intros k'. rewrite !lookup_insert_is_Some, Hseen. tauto. }
      rewrite Hc. split.
      * intros (p' & Hp & <-). destruct (switch_key _ _ _ _) as [c|] eqn:Hs; [|discriminate].
        pose proof (switch_key_inv _ _ _ _ _ Hs) as Hok.
        rewrite (switch_key_ok _ _ _ _ _ Hok) in Hs. injection Hs as <-.
        destruct (proj1 (IH (<[k:=v]> m) (Parser (core_of (<[k:=v]> m) s) (S (pline p)) _) eq_refl Hs'))
          as (ds & Hds & Hf & He); [by exists p'|].
        cbn [pline] in Hds. exists ((k, v) :: ds). rewrite Hds.
        split; [reflexivity|]. split; [|exact He]. apply fresh_ok_cons. auto.
      * intros (ds & (ds' & Hds & ->)%fmap_Some & Hf & ->).
        apply fresh_ok_cons in Hf as (_ & Hok & Hf).
        rewrite (switch_key_ok _ _ _ _ _ Hok).
        apply (IH (<[k:=v]> m) (Parser (core_of (<[k:=v]> m) s) (S (pline p)) _) eq_refl Hs').
        exists ds'. auto.
Qed.

Lemma insert_all_list_to_map (ds : list (string * string)) :
  NoDup (ds.*1) → insert_all ∅ ds = list_to_map ds.
Proof. intros Hd. by rewrite insert_all_union, map_union_empty. Qed.

Lemma ParseKernelfile_Ok r s s' :
  ParseKernelfile r s = Ok s' ↔
  ∃ ds, directives r = Some ds ∧ NoDup (ds.*1) ∧ Forall directive_ok ds ∧
        s' = meaning (list_to_map ds) s.
Proof.
  unfold ParseKernelfile, directives. destruct (scan_lines r) as [ls failed].
  pose proof (parse_lines_spec s ∅ (Parser (Core s false false false) 0 ∅) ls) as H.
  simpl in H. rewrite bind_Ok. destruct failed.
  { split; [by intros (? & _ & ?)|by intros (? & ? & _)]. }
  split.
  - intros (p & Hp & [= <-]).
    destruct (proj1 (H (pcore p) (eq_sym (core_of_empty s)) ltac:(intros k; by rewrite !lookup_empty)))
      as (ds & Hds & (Hd & _ & Hok) & He); [by exists p|].
    exists ds. split; [done|]. split; [done|]. split; [done|].
    by rewrite He, finish_core_of, insert_all_list_to_map.
  - intros (ds & Hds & Hd & Hok & ->).
    destruct (proj2 (H (core_of (insert_all ∅ ds) s) (eq_sym (core_of_empty s))
                ltac:(intros k; by rewrite !lookup_empty))) as (p & Hp & He).
    { exists ds. split; [done|]. split; [|done]. split; [done|]. split; [|done].
      apply Forall_true. intros. apply lookup_empty. }
    exists p. split; [done|]. by rewrite He, finish_core_of, insert_all_list_to_map.
Qed.
