(* ===== verification/KernelfileLaws.v ===== *)
(** The laws of the build-description parser (step.go, [ParseKernelfile]): what a
    file means, that a laid-out list of directives reads back as those
    directives, that line order never matters, that a pin never outlives the
    source it was for, and what each error says. *)

From S2P Require Import Prelude GoString Spec Kernelfile.

(** ** Writing a file *)

(** A line as an author writes it: indentation, key, blanks, value, blanks, and a
    comment; or a line with no directive. *)
Inductive layout :=
  | Line (pad key : string) (sp : ascii) (gap val tail : string) (comment : option string)
  | Note (pad : string) (comment : option string).

Definition comment_text (c : option string) : string :=
  match c with Some t => String "#" t | None => "" end.

Definition text (l : layout) : string :=
  match l with
  | Line pad key sp gap val tail c =>
      pad +:+ key +:+ String sp gap +:+ val +:+ tail +:+ comment_text c
  | Note pad c => pad +:+ comment_text c
  end.

Definition directive_of (l : layout) : option (string * string) :=
  match l with Line _ key _ _ val _ _ => Some (key, val) | Note _ _ => None end.

(** A comment is set off by a blank, values do not contain [#], and the line
    fits the scanner with a mark before it and a carriage return after it. *)
Definition layout_ok (l : layout) : Prop :=
  match l with
  | Line pad key sp gap val tail c =>
      all_bytes sep pad = true ∧ sep sp = true ∧ all_bytes sep gap = true ∧
      all_bytes sep tail = true ∧ (c ≠ None → tail ≠ "") ∧
      trimmed val = true ∧ ContainsByte val "#" = false ∧ directive_ok (key, val)
  | Note pad c => all_bytes sep pad = true
  end ∧
  ContainsByte (text l) LF = false ∧ ContainsByte (text l) CR = false ∧
  too_long (bom +:+ text l +:+ String CR "") = false.

(** Each line ends in a newline, [true] for a carriage return before it. *)
Definition line_text (l : layout * bool) : string :=
  text l.1 +:+ (if l.2 then String CR "" else "").

Definition unlines (ls : list string) : string :=
  foldr (λ w r, w +:+ String LF r) "" ls.

Definition render (with_bom : bool) (ls : list (layout * bool)) : string :=
  (if with_bom then bom else "") +:+ unlines (map line_text ls).

(** ** Lexing a laid-out line *)

Lemma sep_blank s : all_bytes sep s = true → all_bytes blank s = true.
Proof. apply all_bytes_impl, ascii_impl. by vm_compute. Qed.

Lemma sep_lacks c s : sep c = false → all_bytes sep s = true → ContainsByte s c = false.
Proof. intros ? ?. by apply (all_bytes_lacks sep). Qed.

Definition key_byte (c : ascii) : bool := in_range "A" "Z" c || in_range "0" "9" c || Ascii.eqb c "_".

Lemma keys_bytes k : In k keys → all_bytes key_byte k = true ∧ k ≠ "".
Proof. unfold keys. intros H. repeat destruct H as [<-|H]; done. Qed.

Lemma key_plain k : In k keys →
  trimmed k = true ∧ ContainsByte k "#" = false ∧ all_bytes (λ c, negb (sep c)) k = true.
Proof.
  intros [Hb Hne]%keys_bytes. split; [|split].
  - apply trimmed_printable; [done|]. eapply all_bytes_impl; [|exact Hb].
    apply ascii_impl. by vm_compute.
  - by apply (all_bytes_lacks key_byte).
  - eapply all_bytes_impl; [|exact Hb]. apply ascii_impl. by vm_compute.
Qed.

Lemma strip_comment_none t : ContainsByte t "#" = false → strip_comment t = t.
Proof.
  intros H. unfold strip_comment, IndexByte.
  assert (IndexFunc t (Ascii.eqb "#") = None) as ->; [|done].
  apply IndexFunc_None. apply ContainsByte_false in H. eapply all_bytes_impl; [|exact H].
  intros c. by rewrite Ascii.eqb_sym.
Qed.

Lemma get_app_last a c b :
  String.get (String.length a) (a +:+ String c b) = Some c.
Proof. induction a as [|d a IH]; [done|]. rewrite app_cons. exact IH. Qed.

(** The first [#] of a line starts a comment when it opens the line or follows a
    blank. *)
Lemma strip_comment_app t c :
  ContainsByte t "#" = false →
  t = "" ∨ (∃ a d, t = a +:+ String d "" ∧ sep d = true) →
  strip_comment (t +:+ String "#" c) = t.
Proof.
  intros Hl Ht. unfold strip_comment, IndexByte.
  rewrite IndexFunc_app; [|by apply ContainsByte_false in Hl; eapply all_bytes_impl;
    [|exact Hl]; intros x; rewrite Ascii.eqb_sym|done].
  destruct Ht as [->|(a & d & -> & Hd)]; [done|].
  rewrite str_length_app. simpl String.length. rewrite Nat.add_1_r. simpl Nat.eqb.
  rewrite orb_false_l. rewrite Nat.sub_succ, Nat.sub_0_r.
  rewrite str_app_assoc at 1. rewrite app_cons, get_app_last, Hd.
  replace (S (String.length a)) with (String.length (a +:+ String d ""))
    by (rewrite str_length_app; simpl; lia).
  apply str_take_app.
Qed.

Lemma sep_ends t : all_bytes sep t = true → t = "" ∨ ∃ a d, t = a +:+ String d "" ∧ sep d = true.
Proof.
  induction t as [|c t IH]; [by left|]. simpl. intros [Hc Ht]%andb_true_iff. right.
  destruct (IH Ht) as [->|(a & d & -> & Hd)]; [by exists "", c|].
  exists (String c a), d. by rewrite app_cons.
Qed.

Lemma ContainsByte_app_false s t c :
  ContainsByte (s +:+ t) c = false ↔ ContainsByte s c = false ∧ ContainsByte t c = false.
Proof. rewrite ContainsByte_app. apply orb_false_iff. Qed.

(** Past the byte order mark, the lexer reads a laid-out line as its directive. *)
Definition lex_body (t : string) : lexed :=
  let t := TrimSpace (strip_comment t) in
  if t =s "" then LBlank
  else match IndexAny t (String " " (String TAB "")) with
       | None => LBad t
       | Some i =>
           let val := TrimSpace (str_drop (S i) t) in
           if val =s "" then LBad t else LPair (str_take i t) val
       end.

Lemma lex_lex_body n t :
  lex n t = lex_body (if (n =? 1)%nat then TrimPrefix t bom else t).
Proof. reflexivity. Qed.

Lemma strip_comment_line pre tail c :
  ContainsByte pre "#" = false → all_bytes sep tail = true → (c ≠ None → tail ≠ "") →
  strip_comment (pre +:+ tail +:+ comment_text c) = pre +:+ tail.
Proof.
  intros Hp Ht Hc. assert (ContainsByte (pre +:+ tail) "#" = false) as Hl.
  { apply ContainsByte_app_false. split; [done|]. by apply sep_lacks. }
  rewrite <- str_app_assoc. destruct c as [c|]; simpl comment_text.
  - apply strip_comment_app; [done|]. right.
    destruct (sep_ends tail Ht) as [->|(a & d & -> & Hd)]; [by destruct Hc|].
    exists (pre +:+ a), d. by rewrite str_app_assoc.
  - rewrite str_app_nil_r. by apply strip_comment_none.
Qed.

Lemma lex_body_line key sp gap val :
  In key keys → sep sp = true → all_bytes sep gap = true → trimmed val = true →
  let t := key +:+ String sp gap +:+ val in
  IndexAny t (String " " (String TAB "")) = Some (String.length key) ∧
  TrimSpace (str_drop (S (String.length key)) t) = val ∧ str_take (String.length key) t = key.
Proof.
  intros Hk Hsp Hg Hv t. subst t. rewrite app_cons.
  apply key_plain in Hk as (_ & _ & Hk). split; [|split].
  - apply IndexFunc_app; [|revert sp Hsp; apply ascii_impl; by vm_compute].
    eapply all_bytes_impl; [|exact Hk]. apply ascii_impl. by vm_compute.
  - replace (S (String.length key)) with (String.length (key +:+ String sp ""))
      by (rewrite str_length_app; simpl; lia).
    replace (key +:+ String sp (gap +:+ val)) with ((key +:+ String sp "") +:+ (gap +:+ val))
      by (by rewrite str_app_assoc).
    rewrite str_drop_app. rewrite <- (str_app_nil_r val) at 1.
    apply TrimSpace_pad; [by apply sep_blank|done|done].
  - apply str_take_app.
Qed.

Lemma lex_text l :
  layout_ok l →
  lex_body (text l) = match directive_of l with Some (k, v) => LPair k v | None => LBlank end.
Proof.
  destruct l as [pad key sp gap val tail c|pad c]; intros [H _]; simpl.
  - destruct H as (Hp & Hsp & Hg & Ht & Hc & Hv & Hh & Hk & _).
    destruct (key_plain _ Hk) as (Hkt & Hkh & _).
    unfold lex_body.
    replace (pad +:+ key +:+ String sp gap +:+ val +:+ tail +:+ comment_text c)
      with ((pad +:+ key +:+ String sp gap +:+ val) +:+ tail +:+ comment_text c)
      by (rewrite !str_app_assoc; done).
    rewrite strip_comment_line; [|rewrite !ContainsByte_app_false|done|done].
    2: { split_and!; [by apply sep_lacks|done| |done].
         apply (sep_lacks "#" (String sp gap)); [done|]. simpl. by rewrite Hsp. }
    replace ((pad +:+ key +:+ String sp gap +:+ val) +:+ tail)
      with (pad +:+ (key +:+ String sp gap +:+ val) +:+ tail)
      by (rewrite !str_app_assoc; done).
    rewrite TrimSpace_pad; [|by apply sep_blank|by apply sep_blank|by apply trimmed_app3].
    destruct (lex_body_line key sp gap val) as (Hi & Hd & Hk'); [done..|].
    rewrite Hi, Hd, Hk'.
    destruct (String.eqb_spec (key +:+ String sp gap +:+ val) "") as [E|_].
    { destruct key; [by destruct (keys_bytes "")|done]. }
    destruct (String.eqb_spec val "") as [->|_]; done.
  - unfold lex_body. assert (strip_comment (pad +:+ comment_text c) = pad) as ->.
    { destruct c as [c|]; simpl.
      - apply strip_comment_app; [by apply sep_lacks|by apply sep_ends].
      - rewrite str_app_nil_r. apply strip_comment_none. by apply sep_lacks. }
    by rewrite TrimSpace_blank by (by apply sep_blank).
Qed.

(** ** Scanning a list of lines *)

Lemma scan_snoc ls :
  Forall (λ w, too_long w = false) ls → scan (ls ++ [""]) = (map dropCR ls, false).
Proof.
  induction ls as [|w ls IH]; [done|]. rewrite Forall_cons. intros [Hw Hls].
  specialize (IH Hls). rewrite <- app_comm_cons.
  change (scan (w :: (ls ++ [""]))) with
    (match ls ++ [""] with
     | [] => if w =s "" then ([], false) else if too_long w then ([], true) else ([dropCR w], false)
     | _ :: _ => if too_long w then ([], true)
                 else let '(l, f) := scan (ls ++ [""]) in (dropCR w :: l, f)
     end).
  rewrite IH, Hw. by destruct ls.
Qed.

Lemma scan_unlines ls :
  Forall (λ w, ContainsByte w LF = false ∧ too_long w = false) ls →
  scan_lines (unlines ls) = (map dropCR ls, false).
Proof.
  intros H. unfold scan_lines, unlines. rewrite Split_lines.
  - apply scan_snoc. eapply Forall_impl; [exact H|]. by intros w [_ ?].
  - eapply Forall_impl; [exact H|]. by intros w [? _].
Qed.

Lemma dropCR_CR w : dropCR (w +:+ String CR "") = w.
Proof.
  unfold dropCR, TrimSuffix.
  assert (HasSuffix (w +:+ String CR "") (String CR "") = true) as ->
    by (apply HasSuffix_spec; eauto).
  rewrite str_length_app, Nat.add_sub. apply str_take_app.
Qed.

Lemma dropCR_id w : ContainsByte w CR = false → dropCR w = w.
Proof.
  intros H. unfold dropCR, TrimSuffix. destruct (HasSuffix w _) eqn:E; [|done].
  apply HasSuffix_spec in E as [t ->]. apply ContainsByte_app_false in H as [_ H]. done.
Qed.

Lemma too_long_app w v : too_long (w +:+ v) = false → too_long w = false.
Proof. unfold too_long. rewrite !N.leb_gt, str_length_app. lia. Qed.

(** A line that does not open with the mark is lexed alike at every position. *)
Lemma lex_no_bom n t : HasPrefix t bom = false → lex n t = lex_body t.
Proof. intros H. rewrite lex_lex_body. unfold TrimPrefix. rewrite H. by destruct (n =? 1)%nat. Qed.

Lemma lex_late n t : lex (S (S n)) t = lex_body t.
Proof. by rewrite lex_lex_body. Qed.

(** The directives of lines, when no line is malformed. *)
Fixpoint pairs (ls : list string) : option (list (string * string)) :=
  match ls with
  | [] => Some []
  | t :: ls =>
      match lex_body t with
      | LBlank => pairs ls
      | LBad _ => None
      | LPair k v => cons (k, v) <$> pairs ls
      end
  end.

Lemma lex_all_pairs n ls : lex_all (S n) ls = pairs ls.
Proof.
  revert n. induction ls as [|t ls IH]; intros n; [done|].
  cbn [lex_all pairs]. rewrite lex_late. destruct (lex_body t); by rewrite ?IH.
Qed.

Lemma lex_all_first t ls :
  lex_all 0 (t :: ls) = pairs (TrimPrefix t bom :: ls).
Proof.
  cbn [lex_all pairs]. rewrite lex_lex_body. cbn [Nat.eqb].
  by destruct (lex_body _); rewrite ?lex_all_pairs.
Qed.

Lemma pairs_layout ls :
  Forall layout_ok ls → pairs (map text ls) = Some (omap directive_of ls).
Proof.
  induction ls as [|l ls IH]; [done|]. rewrite Forall_cons. intros [Hl Hls].
  cbn [map pairs]. rewrite lex_text, IH by done.
  unfold omap. cbn [list_omap]. by destruct (directive_of l) as [[k v]|].
Qed.

Lemma bom_CR : ContainsByte bom CR = false ∧ ContainsByte bom LF = false.
Proof. by vm_compute. Qed.

Lemma HasPrefix_app_bom s t : HasPrefix s bom = true → s = t → ∃ u, t = bom +:+ u.
Proof. intros [u ->]%HasPrefix_spec <-. by exists u. Qed.

(** The text of a line never opens with the mark: it opens with a blank, a key
    or a comment sign. *)
Lemma text_no_bom l : layout_ok l → HasPrefix (text l) bom = false.
Proof.
  intros [H _]. destruct (HasPrefix (text l) bom) eqn:E; [|done].
  apply HasPrefix_spec in E as [u E]. exfalso.
  assert (bom = String (byte 239) (str (utf8 [187; 191]))) as Hb by done.
  rewrite Hb, app_cons in E. clear Hb.
  destruct l as [pad key sp gap val tail c|pad c]; simpl in E.
  - destruct H as (Hp & _ & _ & _ & _ & _ & _ & Hk & _). apply keys_bytes in Hk as [Hk Hne].
    destruct pad as [|d pad].
    + destruct key as [|d key]; [done|]. rewrite app_nil_l, app_cons in E. injection E as -> _. done.
    + rewrite app_cons in E. injection E as -> _. done.
  - destruct pad as [|d pad].
    + by destruct c.
    + rewrite app_cons in E. injection E as -> _. done.
Qed.

Lemma line_text_ok l :
  layout_ok l.1 →
  ContainsByte (line_text l) LF = false ∧ too_long (bom +:+ line_text l) = false ∧
  dropCR (line_text l) = text l.1 ∧ dropCR (bom +:+ line_text l) = bom +:+ text l.1.
Proof.
  destruct l as [l cr]. intros (_ & Hlf & Hcr & Hlong). unfold line_text. simpl fst in *. simpl snd.
  destruct cr.
  - rewrite ContainsByte_app_false, dropCR_CR, <- str_app_assoc, dropCR_CR.
    rewrite str_app_assoc. done.
  - rewrite str_app_nil_r, dropCR_id by done. rewrite dropCR_id.
    + split; [done|]. split; [|done]. rewrite <- str_app_assoc in Hlong. by apply too_long_app in Hlong.
    + apply ContainsByte_app_false. split; [apply bom_CR|done].
Qed.

Lemma map_dropCR ls :
  Forall (λ l, layout_ok l.1) ls → map dropCR (map line_text ls) = map text (ls.*1).
Proof.
  induction 1 as [|l ls Hl _ IH]; [done|]. cbn. rewrite IH.
  by destruct (line_text_ok l Hl) as (_ & _ & -> & _).
Qed.

Lemma lines_ok ls :
  Forall (λ l, layout_ok l.1) ls →
  Forall (λ w, ContainsByte w LF = false ∧ too_long w = false) (map line_text ls).
Proof.
  induction 1 as [|l ls Hl _ IH]; [by constructor|]. constructor; [|done].
  destruct (line_text_ok l Hl) as (? & Ht & _). split; [done|].
  revert Ht. unfold too_long. rewrite !N.leb_gt, str_length_app. lia.
Qed.

Lemma directives_render b ls :
  Forall (λ l, layout_ok l.1) ls →
  directives (render b ls) = Some (omap directive_of (ls.*1)).
Proof.
  intros Hok. destruct Hok as [|l ls Hl Hls]; [destruct b; by vm_compute|].
  pose proof (pairs_layout ((l :: ls).*1) ltac:(by apply Forall_fmap; constructor)) as Hp.
  destruct (line_text_ok l Hl) as (Hlf & Hlong & Hd & Hdb).
  unfold directives, render. destruct b.
  - change (bom +:+ unlines (map line_text (l :: ls)))
      with (bom +:+ (line_text l +:+ String LF (unlines (map line_text ls)))).
    rewrite <- str_app_assoc.
    change (_ +:+ String LF _) with (unlines ((bom +:+ line_text l) :: map line_text ls)).
    rewrite scan_unlines.
    + cbn [map]. rewrite Hdb, map_dropCR, lex_all_first, TrimPrefix_app by done. exact Hp.
    + constructor; [|by apply lines_ok]. split; [|done].
      apply ContainsByte_app_false. split; [apply bom_CR|done].
  - rewrite app_nil_l, scan_unlines by (apply lines_ok; by constructor).
    cbn [map]. rewrite Hd, map_dropCR, lex_all_first by done.
    rewrite TrimPrefix_none by (by apply text_no_bom). exact Hp.
Qed.

(** C14. A written file reads back as what was written: for any list of lines that
    lays out accepted directives with distinct keys - any indentation, blanks
    between key and value, trailing comments, comment lines, LF or CRLF ends, a
    byte order mark or none - the parser succeeds, and the specification is the
    declarative meaning of the map from keys to values, in which neither layout
    nor order survives. *)
Theorem ParseKernelfile_roundtrip (mark : bool) (ls : list (layout * bool)) (s : Spec) :
  let ds := omap directive_of (ls.*1) in
  Forall (λ l, layout_ok l.1) ls → NoDup (ds.*1) →
  ParseKernelfile (render mark ls) s = Ok (meaning (list_to_map ds) s).
Proof.
  intros ds Hok Hd. apply ParseKernelfile_Ok. exists ds.
  split; [by apply directives_render|]. split; [done|]. split; [|done].
  subst ds. clear Hd. induction Hok as [|[l cr] ls [Hl _] _ IH]; [done|].
  destruct l; cbn; [|exact IH]. constructor; [apply Hl|exact IH].
Qed.

Definition example_lines : list (layout * bool) :=
  [(Note "" (Some "syntax=kbuild"), true); (Line "" "KERNEL" " " "  " "6.12.1" "" None, true);
   (Note " " None, false); (Line (String TAB "") "TARGETS" TAB "" "vmlinux, config" " " (Some " #2"), false);
   (Line "" "SHA256" " " "" "00ff" "  " None, true)].

Lemma ParseKernelfile_roundtrip_witness :
  ParseKernelfile (render true example_lines) DefaultSpec =
  Ok (meaning (list_to_map [("KERNEL", "6.12.1"); ("TARGETS", "vmlinux, config"); ("SHA256", "00ff")])
              DefaultSpec).
Proof.
  apply (ParseKernelfile_roundtrip true example_lines DefaultSpec).
  - repeat (apply Forall_cons; split); [..|by apply Forall_nil];
      unfold layout_ok, directive_ok, keys; simpl fst; split_and!;
      first [vm_compute; reflexivity | simpl; tauto | discriminate | intros; vm_compute; discriminate].
  - by apply (bool_decide_unpack _); vm_compute.
Defined.

(** ** Order *)

(** A complete line with no mark. *)
Definition plain_line (w : string) : Prop :=
  ContainsByte w LF = false ∧ too_long w = false ∧ HasPrefix (dropCR w) bom = false.

Lemma lex_all_plain n ls :
  Forall plain_line ls → lex_all n (map dropCR ls) = pairs (map dropCR ls).
Proof.
  intros H. revert n. induction H as [|w ls (_ & _ & Hw) _ IH]; intros n; [done|].
  cbn [map lex_all pairs]. rewrite lex_no_bom by done. destruct (lex_body _); by rewrite ?IH.
Qed.

Lemma directives_plain ls :
  Forall plain_line ls → directives (unlines ls) = pairs (map dropCR ls).
Proof.
  intros H. unfold directives. rewrite scan_unlines; [by apply lex_all_plain|].
  eapply Forall_impl; [exact H|]. by intros w (? & ? & _).
Qed.

Lemma pairs_perm ls1 ls2 ds1 :
  Permutation ls1 ls2 → pairs ls1 = Some ds1 → ∃ ds2, pairs ls2 = Some ds2 ∧ Permutation ds1 ds2.
Proof.
  intros H. revert ds1.
  induction H as [|t ls1 ls2 _ IH|t1 t2 ls|ls1 ls2 ls3 _ IH1 _ IH2]; intros ds; cbn [pairs].
  - intros [= <-]. by exists [].
  - destruct (lex_body t) as [|b|k v]; [by apply IH|done|].
    intros (ds' & Hds & ->)%fmap_Some. destruct (IH _ Hds) as (ds2 & -> & Hp).
    exists ((k, v) :: ds2). by rewrite Hp.
  - destruct (lex_body t1), (lex_body t2), (pairs ls); cbn; try done;
      intros [= <-]; eexists; split; try reflexivity. apply Permutation_swap.
  - intros Hd. destruct (IH1 _ Hd) as (ds2 & Hd2 & Hp). destruct (IH2 _ Hd2) as (ds3 & Hd3 & Hp3).
    exists ds3. split; [done|]. by rewrite Hp.
Qed.

(** Line order never matters: reordering the lines of a file (none opening
    with a byte order mark) that parses gives a file that parses to the same
    specification. In particular an explicit SOURCE_URL or SHA256 wins whether it
    stands before or after KERNEL. *)
Theorem ParseKernelfile_order (ls1 ls2 : list string) (s s' : Spec) :
  Permutation ls1 ls2 → Forall plain_line ls1 →
  ParseKernelfile (unlines ls1) s = Ok s' → ParseKernelfile (unlines ls2) s = Ok s'.
Proof.
  intros Hp Hls. assert (Forall plain_line ls2) as Hls2 by (by rewrite <- Hp).
  rewrite !ParseKernelfile_Ok, !directives_plain by done.
  intros (ds & Hds & Hd & Hok & ->).
  destruct (pairs_perm _ (map dropCR ls2) _ (Permutation_map _ Hp) Hds) as (ds2 & Hds2 & Hpd).
  exists ds2. split; [done|]. split; [by rewrite <- Hpd|]. split; [by rewrite <- Hpd|].
  by rewrite (list_to_map_proper ds ds2).
Qed.

Lemma ParseKernelfile_order_witness :
  ParseKernelfile (unlines ["SHA256 00ff"; "SOURCE_URL https://m/x.tar.gz"; "KERNEL 7.1"]) DefaultSpec =
  Ok (set_KernelVersion "7.1" (set_SourceURL "https://m/x.tar.gz" (set_SourceSHA256 "00ff" DefaultSpec))).
Proof.
  apply (ParseKernelfile_order ["KERNEL 7.1"; "SHA256 00ff"; "SOURCE_URL https://m/x.tar.gz"]).
  - apply (Permutation_app_comm ["KERNEL 7.1"] ["SHA256 00ff"; "SOURCE_URL https://m/x.tar.gz"]).
  - repeat constructor; by vm_compute.
  - by vm_compute.
Defined.

(** ** The pin *)

Lemma meaning_pin m s :
  SourceSHA256 (meaning m s) ≠ "" →
  m !! "SHA256" = Some (SourceSHA256 (meaning m s)) ∨
  (SourceSHA256 (meaning m s) = SourceSHA256 s ∧ SourceURL (meaning m s) = SourceURL s ∧
   KernelVersion (meaning m s) = KernelVersion s).
Proof.
  cbn. unfold source_pin, source_url, value, given.
  destruct (m !! "SHA256") as [sha|]; [by left|].
  destruct (m !! "KERNEL"), (m !! "SOURCE_URL"); simpl; auto; done.
Qed.

(** A pin never outlives the source it was for. After a successful parse, a
    non-empty checksum is either one the file itself states, or the inherited one
    with the version and the URL it was inherited with. *)
Theorem ParseKernelfile_pin (r : string) (s s' : Spec) :
  ParseKernelfile r s = Ok s' → SourceSHA256 s' ≠ "" →
  (∃ ds, directives r = Some ds ∧ In ("SHA256", SourceSHA256 s') ds) ∨
  (SourceSHA256 s' = SourceSHA256 s ∧ SourceURL s' = SourceURL s ∧
   KernelVersion s' = KernelVersion s).
Proof.
  intros (ds & Hds & Hd & _ & ->)%ParseKernelfile_Ok [H|H]%meaning_pin; [|by right].
  left. exists ds. split; [done|]. apply list_elem_of_In. by apply elem_of_list_to_map_2.
Qed.

Lemma ParseKernelfile_pin_witness :
  let s' := set_Base "tuxmake/x86_64_gcc@sha256:00" DefaultSpec in
  ParseKernelfile "BASE tuxmake/x86_64_gcc@sha256:00" DefaultSpec = Ok s' ∧
  ((∃ ds, directives "BASE tuxmake/x86_64_gcc@sha256:00" = Some ds ∧ In ("SHA256", SourceSHA256 s') ds) ∨
   (SourceSHA256 s' = SourceSHA256 DefaultSpec ∧ SourceURL s' = SourceURL DefaultSpec ∧
    KernelVersion s' = KernelVersion DefaultSpec)).
Proof.
  intros s'. assert (ParseKernelfile "BASE tuxmake/x86_64_gcc@sha256:00" DefaultSpec = Ok s') as H
    by (by vm_compute).
  split; [exact H|]. apply (ParseKernelfile_pin _ _ _ H). by vm_compute.
Defined.

(** ** Errors *)

(** Line [n] of [ls] (counted from 1) is [t]. *)
Definition line_at (ls : list string) (n : nat) (t : string) : Prop :=
  ∃ j, n = S j ∧ ls !! j = Some t.

Definition lexes_to (ls : list string) (n : nat) (k v : string) : Prop :=
  ∃ t, line_at ls n t ∧ lex n t = LPair k v.

(** What an error says of the lines. *)
Definition diagnosis (ls : list string) (failed : bool) (e : KernelfileError) : Prop :=
  match e with
  | KWantKeyValue n b => ∃ t, line_at ls n t ∧ lex n t = LBad b
  | KDuplicateKey n k first =>
      (first < n)%nat ∧ (∃ v, lexes_to ls first k v) ∧ ∃ v, lexes_to ls n k v
  | KPatches n v => lexes_to ls n "PATCHES" v ∧ v ≠ "on" ∧ v ≠ "off"
  | KNoTarget n => ∃ v, lexes_to ls n "TARGETS" v ∧ FieldsFunc v target_sep = []
  | KToolchain n v => lexes_to ls n "TOOLCHAIN" v ∧ v ≠ "ready" ∧ v ≠ "apt"
  | KUnknownKey n k => (∃ v, lexes_to ls n k v) ∧ ¬ In k keys
  | KTooLong => failed = true
  end.

Definition error_line (e : KernelfileError) : option nat :=
  match e with
  | KWantKeyValue n _ | KDuplicateKey n _ _ | KPatches n _ | KNoTarget n
  | KToolchain n _ | KUnknownKey n _ => Some n
  | KTooLong => None
  end.

Definition start (s : Spec) : parser := Parser (Core s false false false) 0 ∅.

(** The line counter and the keys seen describe the lines read. *)
Definition reads (pre : list string) (p : parser) : Prop :=
  pline p = length pre ∧
  ∀ k f, seen p !! k = Some f → (f <= length pre)%nat ∧ ∃ v, lexes_to pre f k v.

Lemma line_at_app ls ls' n t : line_at ls n t → line_at (ls ++ ls') n t.
Proof. intros (j & -> & H). exists j. split; [done|]. by apply lookup_app_l_Some. Qed.

Lemma lexes_to_app ls ls' n k v : lexes_to ls n k v → lexes_to (ls ++ ls') n k v.
Proof. intros (t & H & Hl). exists t. split; [by apply line_at_app|done]. Qed.

Lemma line_at_here pre t post : line_at (pre ++ t :: post) (S (length pre)) t.
Proof. exists (length pre). split; [done|]. by apply list_lookup_middle. Qed.

Lemma reads_step pre p t p' : reads pre p → parse_line p t = Ok p' → reads (pre ++ [t]) p'.
Proof.
  intros [Hn Hs]. unfold parse_line. rewrite Hn.
  assert (∀ k f, seen p !! k = Some f →
            (f <= length (pre ++ [t]))%nat ∧ ∃ v, lexes_to (pre ++ [t]) f k v) as Hold.
  { intros k f (Hle & v & Hv)%Hs. rewrite length_app. simpl. split; [lia|].
    exists v. by apply lexes_to_app. }
  destruct (lex (S (length pre)) t) as [|b|k v] eqn:Hl; intros H; inv_ok.
  - split; simpl; [rewrite length_app; simpl; lia|exact Hold].
  - destruct (seen p !! k); inv_ok. split; simpl; [rewrite length_app; simpl; lia|].
    intros k' f [[<- <-]|[_ Hf]]%lookup_insert_Some; [|by apply Hold].
    rewrite length_app. simpl. split; [lia|]. exists v, t. split; [|done]. apply line_at_here.
Qed.

Lemma switch_key_err line k v c e :
  switch_key line k v c = Err e →
  (e = KPatches line v ∧ k = "PATCHES" ∧ v ≠ "on" ∧ v ≠ "off") ∨
  (e = KNoTarget line ∧ k = "TARGETS" ∧ FieldsFunc v target_sep = []) ∨
  (e = KToolchain line v ∧ k = "TOOLCHAIN" ∧ v ≠ "ready" ∧ v ≠ "apt") ∨
  (e = KUnknownKey line k ∧ ¬ In k keys).
Proof.
  unfold switch_key. intros H.
  repeat match type of H with
  | (if ?x =s ?l then Ok _ else _) = _ => destruct (String.eqb_spec x l); [discriminate|]
  | (if k =s ?l then _ else _) = _ => destruct (String.eqb_spec k l)
  | (if ?x =s ?l then _ else _) = _ => destruct (String.eqb_spec x l)
  | match ?l with [] => _ | _ => _ end = _ => destruct l eqn:?; [|discriminate]
  end; injection H as <-; [tauto..|].
  do 3 right. split; [done|]. unfold keys. simpl. intuition congruence.
Qed.

Lemma parse_line_err pre p t post e failed :
  reads pre p → parse_line p t = Err e →
  error_line e = Some (S (length pre)) ∧ diagnosis (pre ++ t :: post) failed e.
Proof.
  intros [Hn Hs]. unfold parse_line. rewrite Hn. pose proof (line_at_here pre t post) as Hat.
  destruct (lex (S (length pre)) t) as [|b|k v] eqn:Hl; [done|intros [= <-]; split; simpl; eauto|].
  assert (lexes_to (pre ++ t :: post) (S (length pre)) k v) as Hto by (by exists t).
  destruct (seen p !! k) as [f|] eqn:Hk.
  - intros [= <-]. split; [done|]. destruct (Hs _ _ Hk) as (Hle & v' & Hv'). simpl.
    split; [lia|]. split; [exists v'; by apply lexes_to_app|by exists v].
  - intros [H|(? & _ & ?)]%bind_Err; [|done].
    apply switch_key_err in H
      as [(-> & -> & ?)|[(-> & -> & ?)|[(-> & -> & ?)|(-> & ?)]]]; simpl; eauto 6.
Qed.

Lemma parse_lines_err pre p ls e failed :
  reads pre p → foldR parse_line p ls = Err e →
  (∃ n, error_line e = Some n ∧
        is_ok (foldR parse_line p (take (n - 1 - length pre) ls)) = true ∧ (length pre < n)%nat) ∧
  diagnosis (pre ++ ls) failed e.
Proof.
  revert pre p. induction ls as [|t ls IH]; intros pre p Hr; [done|].
  cbn [foldR]. intros [H|(p' & Hp & H)]%bind_Err.
  - destruct (parse_line_err pre p t ls e failed Hr H) as [He Hd]. split; [|done].
    exists (S (length pre)). split; [done|]. split; [|lia].
    by replace (S (length pre) - 1 - length pre)%nat with 0%nat by lia.
  - pose proof (reads_step _ _ _ _ Hr Hp) as Hr'.
    destruct (IH (pre ++ [t]) p' Hr' H) as [(n & He & Hok & Hlt) Hd].
    rewrite length_app in Hok, Hlt. simpl in Hok, Hlt. rewrite <- app_assoc in Hd. split; [|done].
    exists n. split; [done|]. split; [|lia].
    replace (n - 1 - length pre)%nat with (S (n - 1 - (length pre + 1)))%nat by lia.
    cbn [take foldR]. rewrite Hp. exact Hok.
Qed.

(** C40. An error is about the first line that deserves it, and says the truth of
    it: every line before the one it names parses, and the named line is a key
    without a value, a key given before (at the line the error says), a bad
    PATCHES, TARGETS or TOOLCHAIN value, or a key that is none of the fourteen; an
    error without a line number is a line beyond the scanner's limit after lines
    that all parse. *)
Theorem ParseKernelfile_error (r : string) (s : Spec) (e : KernelfileError) :
  ParseKernelfile r s = Err e →
  let '(ls, failed) := scan_lines r in
  diagnosis ls failed e ∧
  match error_line e with
  | Some n => is_ok (foldR parse_line (start s) (take (n - 1) ls)) = true
  | None => is_ok (foldR parse_line (start s) ls) = true
  end.
Proof.
  unfold ParseKernelfile. fold (start s). destruct (scan_lines r) as [ls failed].
  intros [H|(p & Hp & H)]%bind_Err.
  - destruct (parse_lines_err [] (start s) ls e failed) as [(n & He & Hok & _) Hd]; [|done|].
    { split; [done|]. intros k f. simpl. by rewrite lookup_empty. }
    split; [exact Hd|]. rewrite He. by rewrite Nat.sub_0_r in Hok.
  - destruct failed; [|done]. injection H as <-. simpl. by rewrite Hp.
Qed.

Lemma ParseKernelfile_error_witness :
  let r := unlines ["KERNEL 6.1"; ""; "KERNEL 6.2"] in
  let '(ls, failed) := scan_lines r in
  diagnosis ls failed (KDuplicateKey 3 "KERNEL" 1) ∧
  is_ok (foldR parse_line (start DefaultSpec) (take 2 ls)) = true.
Proof.
  apply (ParseKernelfile_error (unlines ["KERNEL 6.1"; ""; "KERNEL 6.2"]) DefaultSpec
           (KDuplicateKey 3 "KERNEL" 1)).
  by vm_compute.
Defined.

(** Only the first [#] of a line can open a comment: in a line whose value
    contains a [#] after a non-blank, a later [" # ..."] is not stripped and stays
    in the value. *)
Theorem ParseKernelfile_hash_value :
  ParseKernelfile "SOURCE_URL https://m/l.tar.gz#f # mirror" DefaultSpec =
  Ok (set_SourceSHA256 "" (set_SourceURL "https://m/l.tar.gz#f # mirror" DefaultSpec)).
Proof. by vm_compute. Qed.
