(* ===== verification/LLB.v ===== *)
(** llb.go: the build graph. BuildKit's llb package is not part of the program,
    so the graph is the sequence of llb calls the code makes, kept as data: one
    constructor per constructor function, run option and mount option that
    llb.go uses, with its arguments. [KernelLLB] builds that data. *)

From S2P Require Import Prelude GoString Sha256 Spec.

(** ** The llb calls *)

Inductive MountOption :=
  | Readonly
  | SourcePath (path : string)
  | AsPersistentCacheDir (id : string)   (* CacheMountLocked *)
.

Inductive RunOption (S : Type) :=
  | Args (argv : list string)
  | AddEnv (key value : string)
  | Dir (path : string)
  | WithCustomName (name : string)
  | WithProxy (http https no : string)
  | IgnoreCacheOpt
  | AddMount (target : string) (source : S) (opts : list MountOption)
  | AddSecret (target id : string) (optional : bool).
Arguments Args {S} _.
Arguments AddEnv {S} _ _.
Arguments Dir {S} _.
Arguments WithCustomName {S} _.
Arguments WithProxy {S} _ _ _.
Arguments IgnoreCacheOpt {S}.
Arguments AddMount {S} _ _ _.
Arguments AddSecret {S} _ _ _.

Inductive State :=
  | Scratch
  | Image (ref : string)
  | NetworkHostOf (s : State)                        (* s.Network(llb.NetModeHost) *)
  | Local (name : string) (followPaths : list string) (sharedKeyHint customName : string)
  | FileCopy (base src : State) (from to customName : string)
                                                     (* base.File(llb.Copy(src, from, to)) *)
  | RunRoot (base : State) (opts : list (RunOption State))      (* base.Run(opts...).Root() *)
  | RunMount (base : State) (opts : list (RunOption State)) (target : string) (source : State)
                                                     (* base.Run(opts...).AddMount(target, source) *)
.

(** ** Identities *)

Definition toolchainInput (s : Spec) : string :=
  let mode := if ToolchainReady s then "ready" else "apt" in
  Base s +:+ String NUL (crossOrDefault s) +:+ String NUL mode.

Definition toolchainHash (s : Spec) : list ascii := Sum256 (toolchainInput s).

(** [%.8x] of the digest: its first eight bytes. *)
Definition toolchainKey (s : Spec) : string := hex (take 8 (toolchainHash s)).

Definition patchedSuffix (s : Spec) : string := if ApplyPatches s then "-patched" else "".

Definition tree_id (s : Spec) : string :=
  KernelVersion s +:+ "-" +:+ archOrDefault s +:+ "-" +:+ toolchainKey s +:+ patchedSuffix s.

Definition cache_mount_id (s : Spec) : string := "kernel-build-" +:+ tree_id s.
Definition seed_key (s : Spec) : string := SeedPrefix s +:+ "/linux-" +:+ tree_id s +:+ ".tzst".

(** [None] is the nil result: seeding disabled. *)
Definition SeedCfg (s : Spec) : option string :=
  if SeedURL s =s "" then None
  else
    let push := if SeedPush s then "1" else "0" in
    let region := if SeedRegion s =s "" then "auto" else SeedRegion s in
    let nl := String LF in
    Some ("SEED_URL=" +:+ SeedURL s +:+ nl ("SEED_KEY=" +:+ seed_key s +:+
          nl ("SEED_REGION=" +:+ region +:+ nl ("SEED_PUSH=" +:+ push +:+ nl "")))).

(** ** Toolchain scripts *)

Definition HelperPath : string := "/helper/kbuild-step".

Definition aptDeps : string :=
  "bc bison build-essential dwarves flex libelf-dev " +:+ "libssl-dev ca-certificates cpio kmod".

(** A Go double quote and a script as a list of lines. *)
Definition q : string := String (byte 34) "".
Definition script (ls : list string) : string := foldr (λ l r, l +:+ String LF r) "" ls.
Definition ca_test : string :=
  "if [ -n " +:+ q +:+ "${CA_FILE:-}" +:+ q +:+ " ] && [ -f " +:+ q +:+ "/certs/${CA_FILE}" +:+ q +:+
  " ]; then".
Definition append_ca : string :=
  "  cat " +:+ q +:+ "/certs/${CA_FILE}" +:+ q +:+ " >> /etc/ssl/certs/ca-certificates.crt".

Definition toolchainScript : string := script
  ["set -eux";
   ca_test;
   "  apt-get update -qq";
   "  apt-get install -y --no-install-recommends ca-certificates";
   append_ca;
   "  sed -i 's|http://|https://|g' /etc/apt/sources.list.d/ubuntu.sources";
   "fi";
   "apt-get update -qq";
   "apt-get install -y --no-install-recommends " +:+ aptDeps;
   ca_test;
   "  mkdir -p /usr/local/share/ca-certificates";
   "  cp " +:+ q +:+ "/certs/${CA_FILE}" +:+ q +:+ " /usr/local/share/ca-certificates/kbuild-proxy-ca.crt";
   "  update-ca-certificates";
   "fi";
   "rm -rf /var/lib/apt/lists/*"].

Definition caOnlyScript : string := script
  ["set -eux";
   ca_test;
   "  mkdir -p /etc/ssl/certs";
   append_ca;
   "fi"].

Definition sh (script : string) : RunOption State := Args ["bash"; "-c"; script].

(** ** KernelLLB *)

Inductive LLBError :=
  | LSpec (e : SpecError)
  | LUnpinned (base : string).

Definition when {A} (b : bool) (l : list A) : list A := if b then l else [].

Definition proxy_opts (s : Spec) : list (RunOption State) :=
  when ((HTTPSProxy s <>s "") || (HTTPProxy s <>s "") || (NoProxy s <>s ""))
    (let noProxy := "localhost,127.0.0.1" +:+ (if NoProxy s =s "" then "" else "," +:+ NoProxy s) in
     [WithProxy (HTTPProxy s) (HTTPSProxy s) noProxy]).

Definition base_state (s : Spec) : State :=
  let base := Image (Base s) in
  if NetworkHost s then NetworkHostOf base else base.

Definition toolchain_opts (s : Spec) : list (RunOption State) :=
  [sh (if ToolchainReady s then caOnlyScript else toolchainScript);
   AddEnv "DEBIAN_FRONTEND" "noninteractive";
   WithCustomName "[toolchain] install build deps"]
  ++ proxy_opts s
  ++ when (IgnoreCache s) [IgnoreCacheOpt]
  ++ when (ProxyCAFile s <>s "")
       [AddMount "/certs" (Local "context" [ProxyCAFile s] "kbuild-ca"
                             ("[internal] load " +:+ ProxyCAFile s)) [Readonly];
        AddEnv "CA_FILE" (ProxyCAFile s)].

Definition toolchain_state (s : Spec) : State :=
  if negb (ToolchainReady s) || (ProxyCAFile s <>s "")
  then RunRoot (base_state s) (toolchain_opts s) else base_state s.

(** SRC_ID, SRC_URL, SRC_SHA256. *)
Definition source_identity (s : Spec) : string * string * string :=
  if SourceLocalName s <>s "" then ("local:" +:+ SourceLocalName s, "", "")
  else (if SourceSHA256 s =s "" then SourceURL s else SourceSHA256 s, SourceURL s, SourceSHA256 s).

Definition context_state (s : Spec) : State :=
  let follow := [ConfigName s] ++ when (ExpectName s <>s "") [ExpectName s]
                ++ when (ApplyPatches s) ["patches"] in
  Local "context" follow "kbuild-context" ("[internal] load " +:+ Join follow ", ").

Definition helper_state (s : Spec) : State :=
  if HelperRef s <>s "" then
    FileCopy Scratch (Image (HelperRef s)) "/kbuild-step" "/kbuild-step"
      ("[internal] load kbuild-step from " +:+ HelperRef s)
  else Local "helper" ["kbuild-step"] "kbuild-helper" "[internal] load kbuild-step".

(** [nonce] is what rand.Text() returns in this call. *)
Definition run_opts (nonce : string) (s : Spec) : list (RunOption State) :=
  let '(srcID, srcURL, srcSHA) := source_identity s in
  let ctx := context_state s in
  [Args [HelperPath];
   WithCustomName ("[compile] linux-" +:+ KernelVersion s +:+ " " +:+ archOrDefault s +:+ " -> " +:+
                   Join (targetsOrDefault s) ",");
   AddEnv "SOURCE_DATE_EPOCH" (SourceDateEpoch s);
   AddEnv "KBUILD_BUILD_USER" "builder";
   AddEnv "KBUILD_BUILD_HOST" "linux";
   AddEnv "TZ" "UTC";
   AddEnv "SRC_ID" srcID;
   AddEnv "SRC_URL" srcURL;
   AddEnv "SRC_SHA256" srcSHA;
   AddEnv "SRC_LOCAL" (SourceLocalName s);
   AddEnv "KARCH" (archOrDefault s);
   AddEnv "CROSS_COMPILE" (crossOrDefault s);
   AddEnv "TARGETS" (Join (targetsOrDefault s) ",");
   AddEnv "APPLY_PATCHES" (if ApplyPatches s then "1" else "0");
   AddEnv "BASE_MAKE" (BaseMake s);
   Dir "/build";
   AddMount "/helper" (helper_state s) [Readonly];
   AddMount "/kernel.config" ctx [SourcePath (ConfigName s); Readonly];
   AddMount "/build" Scratch [AsPersistentCacheDir (cache_mount_id s)];
   AddSecret "/run/secrets/seed_access_key" "seed_access_key" true;
   AddSecret "/run/secrets/seed_secret_key" "seed_secret_key" true;
   AddSecret "/run/secrets/seed_cfg" "seed_cfg" true]
  ++ when (ApplyPatches s) [AddMount "/patches" ctx [SourcePath "patches"; Readonly]]
  ++ when (ExpectName s <>s "") [AddMount "/kernel.expect" ctx [SourcePath (ExpectName s); Readonly]]
  ++ when (SourceLocalName s <>s "")
       [AddMount "/src" (Local "src" [SourceLocalName s] "kbuild-src"
                           ("[internal] load " +:+ SourceLocalName s)) [Readonly]]
  ++ proxy_opts s
  ++ when (IgnoreCache s) [IgnoreCacheOpt]
  ++ when (SeedPush s) [AddEnv "SEED_PUSH" "1"; AddEnv "SEED_ACTION" nonce].

Definition KernelLLB (nonce : string) (s : Spec) : result LLBError State :=
  map_err LSpec (Validate s);;
  reject (negb (Contains (Base s) "@")) (LUnpinned (Base s));;
  Ok (RunMount (toolchain_state s) (run_opts nonce s) "/out" Scratch).

Example default_builds : is_ok (KernelLLB "" DefaultSpec) = true.
Proof. by vm_compute. Qed.

Lemma KernelLLB_Ok nonce s g :
  KernelLLB nonce s = Ok g ↔
  Validate s = Ok tt ∧ Contains (Base s) "@" = true ∧
  g = RunMount (toolchain_state s) (run_opts nonce s) "/out" Scratch.
Proof.
  unfold KernelLLB. rewrite then_Ok, map_err_Ok, then_Ok, reject_Ok, negb_false_iff. naive_solver.
Qed.
