(* ===== verification/LLBLaws.v ===== *)
(** The laws of the build graph (llb.go, [KernelLLB]): which builds may share an
    object tree, what the cache key depends on, and what the validated fields are
    interpolated into. *)

From S2P Require Import Prelude GoString GoTime Sha256 Spec SpecValid LLB.

(** ** Digests in identifiers *)

Lemma hex_digit_inj_byte (n : N) : (n < 16)%N → hex_byte (hex_digit n) = true.
Proof.
  intros H. assert (∃ k, (k < 16)%nat ∧ n = N.of_nat k) as (k & Hk & ->).
  { exists (N.to_nat n). lia. }
  do 16 (destruct k as [|k]; [by vm_compute|]). lia.
Qed.

Lemma hex_bytes l : all_bytes hex_byte (hex l) = true.
Proof.
  induction l as [|c l IH]; [done|]. cbn [hex all_bytes].
  rewrite !hex_digit_inj_byte, IH; [done| |].
  - apply N.mod_lt. done.
  - apply N.Div0.div_lt_upper_bound. pose proof (N_ascii_bounded c). lia.
Qed.

Lemma hex_length l : String.length (hex l) = (2 * length l)%nat.
Proof. induction l as [|c l IH]; [done|]. cbn [hex String.length length]. lia. Qed.

Lemma hex_digit_inj (m n : N) : (m < 16)%N → (n < 16)%N → hex_digit m = hex_digit n → m = n.
Proof.
  intros Hm Hn. unfold hex_digit. intros H. apply (f_equal N_of_ascii) in H.
  destruct (N.ltb_spec m 10), (N.ltb_spec n 10);
    rewrite !N_ascii_embedding in H by lia; lia.
Qed.

Lemma hex_inj l1 l2 : hex l1 = hex l2 → l1 = l2.
Proof.
  revert l2. induction l1 as [|c l1 IH]; intros [|d l2]; [done..|].
  cbn [hex]. intros [= H1 H2 H3]. f_equal; [|by apply IH].
  assert (N_of_ascii c / 16 < 16 ∧ N_of_ascii d / 16 < 16)%N as [Hc Hd].
  { split; apply N.Div0.div_lt_upper_bound; [pose proof (N_ascii_bounded c)|pose proof (N_ascii_bounded d)]; lia. }
  apply hex_digit_inj in H1; [|done..].
  apply hex_digit_inj in H2; [|by apply N.mod_lt..].
  rewrite <- (ascii_N_embedding c), <- (ascii_N_embedding d). f_equal.
  rewrite (N.div_mod (N_of_ascii c) 16), (N.div_mod (N_of_ascii d) 16) by done. congruence.
Qed.

Lemma toolchainKey_hex s :
  all_bytes hex_byte (toolchainKey s) = true ∧ String.length (toolchainKey s) = 16%nat.
Proof.
  unfold toolchainKey. split; [apply hex_bytes|]. rewrite hex_length, length_take.
  unfold toolchainHash. by rewrite Sum256_length.
Qed.

(** ** Reading identifiers from the right *)

Lemma str_app_inj_r s1 t1 s2 t2 :
  String.length t1 = String.length t2 → s1 +:+ t1 = s2 +:+ t2 → s1 = s2 ∧ t1 = t2.
Proof.
  intros Hl He. apply str_app_inj_len; [|done].
  apply (f_equal String.length) in He. rewrite !str_length_app in He. lia.
Qed.

Lemma Split_app_gen a b c : Split (a +:+ String c b) c = Split a c ++ Split b c.
Proof.
  induction a as [|d a IH].
  - rewrite app_nil_l. cbn [Split]. by rewrite Ascii.eqb_refl.
  - rewrite app_cons. cbn [Split]. rewrite IH. destruct (Ascii.eqb d c); [done|].
    destruct (Split a c) as [|w ws] eqn:E; [by apply Split_cons_ne in E|done].
Qed.

Lemma last_sep_inj c a1 b1 a2 b2 :
  ContainsByte b1 c = false → ContainsByte b2 c = false →
  a1 +:+ String c b1 = a2 +:+ String c b2 → a1 = a2 ∧ b1 = b2.
Proof.
  intros H1 H2 He. apply (f_equal (λ s, Split s c)) in He.
  rewrite !Split_app_gen, (Split_none b1), (Split_none b2) in He by done.
  apply app_inj_tail in He as [Ha ->]. split; [|done].
  by rewrite <- (Join_Split a1 c), Ha, Join_Split.
Qed.

Definition known_arch (a : string) : Prop := a = "x86_64" ∨ a = "arm64".

Lemma arch_suffix_inj v1 a1 v2 a2 :
  known_arch a1 → known_arch a2 → v1 +:+ "-" +:+ a1 = v2 +:+ "-" +:+ a2 → v1 = v2 ∧ a1 = a2.
Proof.
  intros [->| ->] [->| ->] He.
  - by apply str_app_inj_r in He as [-> _].
  - change (v1 +:+ "-x8" +:+ "6_64" = v2 +:+ "-a" +:+ "rm64") in He.
    rewrite <- !str_app_assoc in He. by apply str_app_inj_r in He as [_ ?].
  - change (v1 +:+ "-a" +:+ "rm64" = v2 +:+ "-x8" +:+ "6_64") in He.
    rewrite <- !str_app_assoc in He. by apply str_app_inj_r in He as [_ ?].
  - by apply str_app_inj_r in He as [-> _].
Qed.

Lemma hex_not_patched v h w :
  all_bytes hex_byte h = true → String.length h = 16%nat → v +:+ h ≠ w +:+ "-patched".
Proof.
  intros Hh Hl He. rewrite <- (str_take_drop 8 h), <- str_app_assoc in He.
  assert (String.length (str_drop 8 h) = 8%nat) as Hd.
  { clear He Hh. do 9 (destruct h as [|? h]; [done|]). simpl in *. lia. }
  apply str_app_inj_r in He as [_ He]; [|done].
  assert (all_bytes hex_byte (str_drop 8 h) = true) as Hp.
  { rewrite <- (str_take_drop 8 h), all_bytes_app in Hh. by inv_bool. }
  by rewrite He in Hp.
Qed.

Lemma valid_arch s : valid_spec s → known_arch (archOrDefault s).
Proof. intros [? ? ? ? ? ? ? ? ? ? ? ? ? ? ? ? [H|[H _]] _ _]; [by left|by right]. Qed.

(** The tree identifier determines what it was made of. *)
Lemma tree_id_inj s1 s2 :
  known_arch (archOrDefault s1) → known_arch (archOrDefault s2) →
  tree_id s1 = tree_id s2 →
  KernelVersion s1 = KernelVersion s2 ∧ archOrDefault s1 = archOrDefault s2 ∧
  toolchainKey s1 = toolchainKey s2 ∧ ApplyPatches s1 = ApplyPatches s2.
Proof.
  intros Ha1 Ha2. unfold tree_id, patchedSuffix.
  destruct (toolchainKey_hex s1) as [Hh1 Hl1], (toolchainKey_hex s2) as [Hh2 Hl2].
  set (h1 := toolchainKey s1) in *. set (h2 := toolchainKey s2) in *.
  rewrite <- !str_app_assoc.
  destruct (ApplyPatches s1), (ApplyPatches s2); intros He.
  - apply str_app_inj_r in He as [He _]; [|done].
    apply str_app_inj_r in He as [He ->]; [|congruence].
    apply str_app_inj_r in He as [He _]; [|done]. rewrite !str_app_assoc in He.
    by apply arch_suffix_inj in He as [-> ->].
  - exfalso. symmetry in He. rewrite str_app_nil_r in He. revert He. by apply hex_not_patched.
  - exfalso. rewrite str_app_nil_r in He. revert He. by apply hex_not_patched.
  - apply str_app_inj_r in He as [He _]; [|done].
    apply str_app_inj_r in He as [He ->]; [|congruence].
    apply str_app_inj_r in He as [He _]; [|done]. rewrite !str_app_assoc in He.
    by apply arch_suffix_inj in He as [-> ->].
Qed.

(** The hashed toolchain identity is injective on fields without NUL. *)
Lemma toolchainInput_inj s1 s2 :
  valid_spec s1 → valid_spec s2 → toolchainInput s1 = toolchainInput s2 →
  Base s1 = Base s2 ∧ crossOrDefault s1 = crossOrDefault s2 ∧ ToolchainReady s1 = ToolchainReady s2.
Proof.
  intros H1 H2. unfold toolchainInput.
  assert (∀ s, valid_spec s → ContainsByte (Base s) NUL = false ∧
                              ContainsByte (crossOrDefault s) NUL = false) as Hn.
  { intros s Hs. split.
    - eapply all_bytes_lacks; [apply image_ref_bytes, Hs|done].
    - unfold crossOrDefault. destruct Hs. destruct ((CrossCompile s <>s "") || _).
      + eapply all_bytes_lacks; [by apply (opt_bytes is_cross_prefix), v_cross; apply cross_bytes|done].
      + by destruct (archOrDefault s =s "arm64"). }
  destruct (Hn s1 H1) as [Hb1 Hc1], (Hn s2 H2) as [Hb2 Hc2]. rewrite !app_cons. intros He.
  pose proof (f_equal (λ s, Cut s NUL) He) as Hcut. cbv beta in Hcut.
  rewrite !Cut_app in Hcut by done. injection Hcut as Hb Hrest.
  apply (f_equal (λ s, Cut s NUL)) in Hrest. rewrite !Cut_app in Hrest by done.
  injection Hrest as Hc Hm. split; [done|]. split; [done|].
  by destruct (ToolchainReady s1), (ToolchainReady s2).
Qed.

(** The digests of two different toolchains agree on the eight bytes the
    identifiers keep. *)
Definition truncated_collision (s1 s2 : Spec) : Prop :=
  toolchainInput s1 ≠ toolchainInput s2 ∧
  take 8 (toolchainHash s1) = take 8 (toolchainHash s2).

Definition same_toolchain (s1 s2 : Spec) : Prop :=
  Base s1 = Base s2 ∧ crossOrDefault s1 = crossOrDefault s2 ∧
  ToolchainReady s1 = ToolchainReady s2.

Lemma toolchainKey_eq s1 s2 :
  valid_spec s1 → valid_spec s2 → toolchainKey s1 = toolchainKey s2 →
  same_toolchain s1 s2 ∨ truncated_collision s1 s2.
Proof.
  intros H1 H2 Hk%hex_inj.
  destruct (String.eqb_spec (toolchainInput s1) (toolchainInput s2)) as [He|Hne].
  - left. by apply toolchainInput_inj.
  - right. by split.
Qed.

(** C13. Two builds share the persistent object tree only if nothing that changes
    which compiler runs or which tree it compiles differs: equal cache-mount ids
    mean the same kernel version, architecture, base image, cross prefix,
    toolchain mode and patched bit - short of two toolchains whose SHA-256
    digests collide on 64 bits. *)
Theorem cache_mount_separates (s1 s2 : Spec) :
  valid_spec s1 → valid_spec s2 → cache_mount_id s1 = cache_mount_id s2 →
  KernelVersion s1 = KernelVersion s2 ∧ archOrDefault s1 = archOrDefault s2 ∧
  ApplyPatches s1 = ApplyPatches s2 ∧
  (same_toolchain s1 s2 ∨ truncated_collision s1 s2).
Proof.
  intros H1 H2 He. apply str_app_inj in He.
  apply tree_id_inj in He as (Hv & Ha & Hk & Hp); [|by apply valid_arch..].
  split_and!; [done..|]. by apply toolchainKey_eq.
Qed.

Lemma DefaultSpec_valid_spec : valid_spec DefaultSpec.
Proof. apply Validate_valid. by vm_compute. Qed.

Lemma cache_mount_separates_witness :
  let s := set_Arch "x86_64" DefaultSpec in
  cache_mount_id DefaultSpec = cache_mount_id s ∧
  (same_toolchain DefaultSpec s ∨ truncated_collision DefaultSpec s).
Proof.
  intros s. assert (cache_mount_id DefaultSpec = cache_mount_id s) as He by (vm_compute; reflexivity).
  split; [exact He|].
  refine (proj2 (proj2 (proj2 (cache_mount_separates DefaultSpec s DefaultSpec_valid_spec _ He)))).
  apply Validate_valid. vm_compute. reflexivity.
Defined.

Lemma version_no_slash s : valid_spec s → ContainsByte (tree_id s +:+ ".tzst") "/" = false.
Proof.
  intros H. set (p := λ c, name_byte c && negb (Ascii.eqb c "/")).
  apply (all_bytes_lacks p); [|done]. unfold tree_id. rewrite !all_bytes_app, !andb_true_iff.
  destruct (toolchainKey_hex s) as [Hh _].
  assert (all_bytes p (KernelVersion s) = true) as Hv.
  { destruct (v_version _ H) as (a & b & c & d & -> & Ha & Hb & Hc & Hd).
    assert (∀ x, digits x → all_bytes p x = true) as Hdig
      by (intros x Hx; eapply named_bytes; [..|exact Hx]; by vm_compute).
    rewrite !all_bytes_app, (Hdig a Ha), (Hdig b Hb).
    destruct Hc as [->|(? & -> & Hc%Hdig)], Hd as [->|(? & -> & Hd%Hdig)];
      by rewrite ?all_bytes_app, ?Hc, ?Hd. }
  split_and!; [done|done| |done| |by unfold patchedSuffix; destruct (ApplyPatches s)|done].
  - by destruct (valid_arch _ H) as [-> | ->].
  - eapply all_bytes_impl; [|exact Hh]. apply ascii_impl. by vm_compute.
Qed.

(** The object key of the remote seed separates the same way, for any two
    prefixes, so a shared bucket never hands one build the tree of another
    version, architecture, toolchain or patch state. *)
Theorem seed_key_separates (s1 s2 : Spec) :
  valid_spec s1 → valid_spec s2 → seed_key s1 = seed_key s2 →
  SeedPrefix s1 = SeedPrefix s2 ∧
  KernelVersion s1 = KernelVersion s2 ∧ archOrDefault s1 = archOrDefault s2 ∧
  ApplyPatches s1 = ApplyPatches s2 ∧
  (same_toolchain s1 s2 ∨ truncated_collision s1 s2).
Proof.
  intros H1 H2 He. unfold seed_key in He.
  apply (last_sep_inj "/" _ ("linux-" +:+ tree_id s1 +:+ ".tzst") _ ("linux-" +:+ tree_id s2 +:+ ".tzst"))
    in He as [Hpre He].
  2,3: rewrite ContainsByte_app; by rewrite version_no_slash.
  apply str_app_inj in He. apply str_app_inj_r in He as [He _]; [|done].
  apply tree_id_inj in He as (Hv & Ha & Hk & Hp); [|by apply valid_arch..].
  split_and!; [done..|]. by apply toolchainKey_eq.
Qed.

Lemma seed_key_separates_witness :
  let s := set_SourceSHA256 "" DefaultSpec in
  seed_key DefaultSpec = seed_key s ∧ (same_toolchain DefaultSpec s ∨ truncated_collision DefaultSpec s).
Proof.
  intros s. assert (seed_key DefaultSpec = seed_key s) as He by (vm_compute; reflexivity).
  split; [exact He|].
  refine (proj2 (proj2 (proj2 (proj2 (seed_key_separates DefaultSpec s DefaultSpec_valid_spec _ He))))).
  apply Validate_valid. vm_compute. reflexivity.
Defined.

(** ** What determines the graph *)

(** The choices a graph states: defaults filled in, the source fields local mode
    ignores and the seed destination cleared. *)
Definition stated (s : Spec) : Spec :=
  let local := SourceLocalName s <>s "" in
  let s := set_Arch (archOrDefault s) (set_CrossCompile (crossOrDefault s)
             (set_Targets (targetsOrDefault s) s)) in
  let s := if local then set_SourceURL "" (set_SourceSHA256 "" s) else s in
  set_SeedURL "" (set_SeedRegion "" (set_SeedPrefix "" s)).

Lemma Join_inj_sep c (l1 l2 : list string) :
  l1 ≠ [] → l2 ≠ [] →
  Forall (λ w, ContainsByte w c = false) l1 → Forall (λ w, ContainsByte w c = false) l2 →
  Join l1 (String c "") = Join l2 (String c "") → l1 = l2.
Proof.
  destruct l1 as [|w1 l1], l2 as [|w2 l2]; try done. intros _ _ H1 H2 He.
  rewrite <- (Split_Join w1 l1 c), <- (Split_Join w2 l2 c) by done. by rewrite He.
Qed.

Lemma targetsOrDefault_plain s :
  valid_spec s → targetsOrDefault s ≠ [] ∧
  Forall (λ t, In t ["vmlinux"; "image"; "modules"; "config"; "kconfigs"]) (targetsOrDefault s).
Proof.
  intros H. unfold targetsOrDefault. pose proof (v_targets _ H) as Ht.
  destruct (Targets s); [|done].
  destruct (archOrDefault s =s "arm64"); (split; [done|]); repeat constructor; simpl; tauto.
Qed.

Lemma targets_join_inj s1 s2 :
  valid_spec s1 → valid_spec s2 →
  Join (targetsOrDefault s1) "," = Join (targetsOrDefault s2) "," →
  targetsOrDefault s1 = targetsOrDefault s2.
Proof.
  intros H1 H2 He. destruct (targetsOrDefault_plain _ H1) as [Hn1 Hf1].
  destruct (targetsOrDefault_plain _ H2) as [Hn2 Hf2].
  apply (Join_inj_sep ","); try done; (eapply Forall_impl; [eassumption|]);
    intros t Ht; by apply known_target_bytes in Ht as (_ & _ & ?).
Qed.

(** *** The choices, field by field *)

Record same_choices (s1 s2 : Spec) : Prop := SameChoices {
  sc_base : Base s1 = Base s2;
  sc_version : KernelVersion s1 = KernelVersion s2;
  sc_local : SourceLocalName s1 = SourceLocalName s2;
  sc_source : source_identity s1 = source_identity s2;
  sc_epoch : SourceDateEpoch s1 = SourceDateEpoch s2;
  sc_config : ConfigName s1 = ConfigName s2;
  sc_expect : ExpectName s1 = ExpectName s2;
  sc_base_make : BaseMake s1 = BaseMake s2;
  sc_patches : ApplyPatches s1 = ApplyPatches s2;
  sc_ready : ToolchainReady s1 = ToolchainReady s2;
  sc_arch : archOrDefault s1 = archOrDefault s2;
  sc_cross : crossOrDefault s1 = crossOrDefault s2;
  sc_targets : targetsOrDefault s1 = targetsOrDefault s2;
  sc_ca : ProxyCAFile s1 = ProxyCAFile s2;
  sc_helper : HelperRef s1 = HelperRef s2;
  sc_network : NetworkHost s1 = NetworkHost s2;
  sc_https : HTTPSProxy s1 = HTTPSProxy s2;
  sc_http : HTTPProxy s1 = HTTPProxy s2;
  sc_no_proxy : NoProxy s1 = NoProxy s2;
  sc_no_cache : IgnoreCache s1 = IgnoreCache s2;
  sc_push : SeedPush s1 = SeedPush s2
}.

Lemma source_identity_eq s1 s2 :
  SourceLocalName s1 = SourceLocalName s2 →
  (source_identity s1 = source_identity s2 ↔
   SourceLocalName s1 ≠ "" ∨ (SourceURL s1 = SourceURL s2 ∧ SourceSHA256 s1 = SourceSHA256 s2)).
Proof.
  intros Hl. unfold source_identity. rewrite Hl.
  destruct (String.eqb_spec (SourceLocalName s2) ""); simpl; [|naive_solver].
  split; [intros [= _ Hu Hs]; auto|intros [?|[-> ->]]; done].
Qed.

Lemma stated_eq s1 s2 : stated s1 = stated s2 ↔ same_choices s1 s2.
Proof.
  split.
  - intros H. pose proof (λ f : Spec → string, f_equal f H) as Hs.
    pose proof (λ f : Spec → bool, f_equal f H) as Hb.
    pose proof (f_equal Targets H) as Ht. clear H.
    assert (SourceLocalName s1 = SourceLocalName s2) as Hl.
    { specialize (Hs SourceLocalName). unfold stated in Hs.
      by destruct (SourceLocalName s1 <>s ""), (SourceLocalName s2 <>s ""). }
    assert (source_identity s1 = source_identity s2) as Hid.
    { apply source_identity_eq; [done|]. pose proof (Hs SourceURL) as Hu.
      pose proof (Hs SourceSHA256) as Hh. unfold stated in Hu, Hh.
      rewrite Hl in *. destruct (String.eqb_spec (SourceLocalName s2) ""); auto. }
    unfold stated in *. rewrite Hl in *.
    destruct (SourceLocalName s2 <>s "");
      (constructor; [exact (Hs Base)|exact (Hs KernelVersion)|done|done|exact (Hs SourceDateEpoch)
       |exact (Hs ConfigName)|exact (Hs ExpectName)|exact (Hs BaseMake)|exact (Hb ApplyPatches)
       |exact (Hb ToolchainReady)|exact (Hs Arch)|exact (Hs CrossCompile)|exact Ht
       |exact (Hs ProxyCAFile)|exact (Hs HelperRef)|exact (Hb NetworkHost)
       |exact (Hs HTTPSProxy)|exact (Hs HTTPProxy)|exact (Hs NoProxy)|exact (Hb IgnoreCache)
       |exact (Hb SeedPush)]).
  - intros []. apply source_identity_eq in sc_source0 as Hsrc; [|done].
    unfold stated. rewrite sc_local0 in *.
    destruct (String.eqb_spec (SourceLocalName s2) ""); cbn [negb].
    + destruct Hsrc as [?|[? ?]]; [done|]. apply Spec_ext; cbn; done.
    + apply Spec_ext; cbn; done.
Qed.

(** *** The graph, choice by choice *)

Lemma proxy_opts_inj s1 s2 :
  proxy_opts s1 = proxy_opts s2 →
  HTTPSProxy s1 = HTTPSProxy s2 ∧ HTTPProxy s1 = HTTPProxy s2 ∧ NoProxy s1 = NoProxy s2.
Proof.
  unfold proxy_opts. intros H.
  destruct ((HTTPSProxy s1 <>s "") || _ || _) eqn:E1, ((HTTPSProxy s2 <>s "") || _ || _) eqn:E2; try done.
  - injection H as H1 H2 H3%str_app_inj. split; [done|]. split; [done|].
    destruct (String.eqb_spec (NoProxy s1) ""), (String.eqb_spec (NoProxy s2) ""); try done; [congruence|].
    by apply str_app_inj in H3.
  - rewrite !orb_false_iff, !negb_false_iff, !eqb_true in E1, E2. destruct E1 as [[-> ->] ->], E2 as [[-> ->] ->]. done.
Qed.

Lemma toolchain_opts_ca s f :
  In (AddEnv "CA_FILE" f) (toolchain_opts s) ↔ f = ProxyCAFile s ∧ ProxyCAFile s ≠ "".
Proof.
  unfold toolchain_opts, proxy_opts. rewrite !in_app_iff.
  destruct (_ || _), (IgnoreCache s), (String.eqb_spec (ProxyCAFile s) ""); cbn; naive_solver.
Qed.

Lemma base_state_inj s1 s2 :
  base_state s1 = base_state s2 → Base s1 = Base s2 ∧ NetworkHost s1 = NetworkHost s2.
Proof. unfold base_state. destruct (NetworkHost s1), (NetworkHost s2); by intros [= ->]. Qed.

Lemma base_not_run s b l : base_state s ≠ RunRoot b l.
Proof. unfold base_state. by destruct (NetworkHost s). Qed.

Lemma toolchain_state_inj s1 s2 :
  toolchain_state s1 = toolchain_state s2 →
  Base s1 = Base s2 ∧ NetworkHost s1 = NetworkHost s2 ∧
  ToolchainReady s1 = ToolchainReady s2 ∧ ProxyCAFile s1 = ProxyCAFile s2.
Proof.
  unfold toolchain_state.
  destruct (negb (ToolchainReady s1) || _) eqn:E1, (negb (ToolchainReady s2) || _) eqn:E2; intros H.
  - assert (base_state s1 = base_state s2 ∧ toolchain_opts s1 = toolchain_opts s2) as [Hb Ho] by (split; congruence).
    apply base_state_inj in Hb as [Hbase Hnet]. split; [done|]. split; [done|].
    pose proof (toolchain_opts_ca s1) as I1. pose proof (toolchain_opts_ca s2) as I2. rewrite Ho in I1.
    assert (ProxyCAFile s1 = ProxyCAFile s2) as Hc.
    { destruct (decide (ProxyCAFile s1 = "")) as [H1|H1]; [|by apply I2, I1].
      destruct (decide (ProxyCAFile s2 = "")) as [H2|H2]; [congruence|]. symmetry. by apply I1, I2. }
    clear I1 I2 E1 E2. split; [|done].
    assert (head (toolchain_opts s1) = head (toolchain_opts s2)) as Hsh by (by rewrite Ho).
    unfold toolchain_opts in Hsh. cbn [head app] in Hsh. by destruct (ToolchainReady s1), (ToolchainReady s2).
  - by symmetry in H; apply base_not_run in H.
  - by apply base_not_run in H.
  - apply base_state_inj in H as [? ?]. apply orb_false_iff in E1 as [R1%negb_false_iff C1], E2 as [R2%negb_false_iff C2].
    apply negb_false_iff, eqb_true in C1, C2. split_and!; congruence.
Qed.

Lemma helper_inj s1 s2 : helper_state s1 = helper_state s2 → HelperRef s1 = HelperRef s2.
Proof.
  unfold helper_state.
  destruct (String.eqb_spec (HelperRef s1) ""), (String.eqb_spec (HelperRef s2) "");
    intros H; try discriminate H; [congruence|].
  by injection H.
Qed.

(** The optional tail of the exec determines the optional choices. *)
Lemma run_tail_inj nonce e1 e2 (p l q1 q2 i1 i2 h1 h2 : bool) x1 x2 y1 y2 z1 z2 ctx1 ctx2 loc :
  let tail e ctx (q : bool) x y z (i h : bool) :=
    when p [AddMount "/patches" ctx [SourcePath "patches"; Readonly]]
    ++ when (e <>s "") [AddMount "/kernel.expect" ctx [SourcePath e; Readonly]]
    ++ when l [AddMount "/src" loc [Readonly]]
    ++ when q [WithProxy x y z]
    ++ when i [IgnoreCacheOpt]
    ++ when h [AddEnv "SEED_PUSH" "1"; AddEnv "SEED_ACTION" nonce] : list (RunOption State) in
  tail e1 ctx1 q1 x1 y1 z1 i1 h1 = tail e2 ctx2 q2 x2 y2 z2 i2 h2 →
  e1 = e2 ∧ i1 = i2 ∧ h1 = h2 ∧ when q1 [@WithProxy State x1 y1 z1] = when q2 [WithProxy x2 y2 z2].
Proof.
  cbv zeta. intros H.
  destruct p; [cbn [when app] in H; injection H as _ H|cbn [when app] in H];
  (destruct (String.eqb_spec e1 ""), (String.eqb_spec e2 ""); cbn [negb when app] in H;
   [subst|destruct l, q1, i1, h1; discriminate|destruct l, q2, i2, h2; discriminate|injection H as _ ? H; subst]);
  (split; [done|]);
  (destruct l; cbn [when app] in H; [injection H as H|]);
  (destruct q1, q2; cbn [when app] in H;
   [injection H as -> -> -> H|destruct i2, h2; discriminate|destruct i1, h1; discriminate|]);
  destruct i1, h1, i2, h2; done.
Qed.

Lemma run_opts_inj nonce s1 s2 :
  valid_spec s1 → valid_spec s2 →
  Base s1 = Base s2 → NetworkHost s1 = NetworkHost s2 → ToolchainReady s1 = ToolchainReady s2 →
  ProxyCAFile s1 = ProxyCAFile s2 →
  run_opts nonce s1 = run_opts nonce s2 → same_choices s1 s2.
Proof.
  intros V1 V2 Hbase Hnet Hready Hca. unfold run_opts.
  destruct (source_identity s1) as [[id1 url1] sha1] eqn:E1.
  destruct (source_identity s2) as [[id2 url2] sha2] eqn:E2. cbv zeta.
  generalize (context_state s1), (context_state s2). intros ctx1 ctx2 H.
  injection H as _ Hepoch Hid Hurl Hsha Hloc Harch Hcross Htgt Hpatch Hbm Hhelp Hctx Hcfg Hmnt Htail.
  apply helper_inj in Hhelp. apply targets_join_inj in Htgt; [|done..].
  apply str_app_inj, tree_id_inj in Hmnt as (Hver & _ & _ & Hp); [|by apply valid_arch..].
  rewrite Hp, Hloc in Htail. apply run_tail_inj in Htail as (Hexp & Hic & Hpush & Hproxy).
  apply (proxy_opts_inj s1 s2) in Hproxy as (? & ? & ?).
  constructor; congruence.
Qed.

Lemma toolchainKey_choices s1 s2 :
  Base s1 = Base s2 → crossOrDefault s1 = crossOrDefault s2 → ToolchainReady s1 = ToolchainReady s2 →
  toolchainKey s1 = toolchainKey s2.
Proof. intros Hb Hc Hr. unfold toolchainKey, toolchainHash, toolchainInput. by rewrite Hb, Hc, Hr. Qed.

Lemma choices_graph nonce s1 s2 :
  same_choices s1 s2 → toolchain_state s1 = toolchain_state s2 ∧ run_opts nonce s1 = run_opts nonce s2.
Proof.
  intros []. assert (proxy_opts s1 = proxy_opts s2) as Hp
    by (unfold proxy_opts; by rewrite sc_https0, sc_http0, sc_no_proxy0). split.
  - unfold toolchain_state, toolchain_opts, base_state.
    by rewrite Hp, sc_base0, sc_ready0, sc_ca0, sc_network0, sc_no_cache0.
  - unfold run_opts. rewrite Hp, sc_source0. destruct (source_identity s2) as [[id url] sha].
    unfold context_state, helper_state, cache_mount_id, tree_id, patchedSuffix.
    by rewrite (toolchainKey_choices s1 s2), sc_version0, sc_local0, sc_epoch0, sc_config0, sc_expect0,
      sc_base_make0, sc_patches0, sc_arch0, sc_cross0, sc_targets0, sc_helper0, sc_no_cache0,
      sc_push0 by done.
Qed.

(** C12. A graph states exactly the choices of its request. Two accepted specifications
    have the same graph if and only if they agree after defaults are filled in and the
    seed destination and - in local mode - the unused URL and checksum are dropped. So
    moving a seed leaves the graph as it is, spelling out a default does too, and no
    change of base, version, source, epoch, config, expectations, make base, patches,
    toolchain mode, architecture, cross prefix, targets, proxies, CA file, helper image,
    network mode, cache bypass or push request is lost. (What of a graph BuildKit then
    hashes is BuildKit's affair.) *)
Theorem KernelLLB_determined (nonce : string) (s1 s2 : Spec) (g1 g2 : State) :
  KernelLLB nonce s1 = Ok g1 → KernelLLB nonce s2 = Ok g2 →
  (g1 = g2 ↔ stated s1 = stated s2).
Proof.
  intros (V1%Validate_valid & _ & ->)%KernelLLB_Ok (V2%Validate_valid & _ & ->)%KernelLLB_Ok.
  rewrite stated_eq. split.
  - intros H. injection H as Ht Hr. apply toolchain_state_inj in Ht as (? & ? & ? & ?).
    by eapply run_opts_inj.
  - intros H. by destruct (choices_graph nonce s1 s2 H) as [-> ->].
Qed.

Lemma KernelLLB_determined_witness :
  let s := set_Arch "x86_64" (set_SeedURL "https://s3.example.com/b" DefaultSpec) in
  ∃ g, KernelLLB "" DefaultSpec = Ok g ∧ KernelLLB "" s = Ok g.
Proof.
  intros s.
  set (g := λ s, RunMount (toolchain_state s) (run_opts "" s) "/out" Scratch).
  assert (∀ s, Validate s = Ok tt → Contains (Base s) "@" = true → KernelLLB "" s = Ok (g s)) as Hok
    by (intros; by apply KernelLLB_Ok).
  assert (KernelLLB "" DefaultSpec = Ok (g DefaultSpec)) as H1
    by (apply Hok; vm_compute; reflexivity).
  assert (KernelLLB "" s = Ok (g s)) as H2 by (apply Hok; vm_compute; reflexivity).
  exists (g DefaultSpec). split; [exact H1|].
  assert (g DefaultSpec = g s) as ->; [|exact H2].
  apply (KernelLLB_determined "" DefaultSpec s _ _ H1 H2). reflexivity.
Defined.

(** ** What the graph interpolates *)

Definition safe_mount (m : MountOption) : Prop :=
  match m with
  | Readonly => True
  | SourcePath p => safe_path p
  | AsPersistentCacheDir id => all_bytes make_byte id = true
  end.

(** Every value that reaches BuildKit is a token of its kind: one printable word
    per variable (BASE_MAKE, which the step splits on blanks, a list of plain make
    targets), image references, relative paths that never climb, a cache id that
    is one path element. *)
Fixpoint safe_graph (g : State) : Prop :=
  let fix safe_opts (l : list (RunOption State)) : Prop :=
    match l with
    | [] => True
    | o :: l =>
        match o with
        | AddEnv k v => if k =s "BASE_MAKE" then Forall make_target (Fields v)
                        else all_bytes printable v = true
        | WithProxy a b c => all_bytes printable a = true ∧ all_bytes printable b = true ∧
                             all_bytes printable c = true
        | AddMount t s m => safe_graph s ∧ Forall safe_mount m
        | _ => True
        end ∧ safe_opts l
    end in
  match g with
  | Scratch => True
  | Image r => image_ref r
  | NetworkHostOf s => safe_graph s
  | Local _ follow _ _ => Forall safe_path follow
  | FileCopy b s _ _ _ => safe_graph b ∧ safe_graph s
  | RunRoot b opts => safe_graph b ∧ safe_opts opts
  | RunMount b opts _ s => safe_graph b ∧ safe_opts opts ∧ safe_graph s
  end.

Definition safe_opt (o : RunOption State) : Prop :=
  match o with
  | AddEnv k v => if k =s "BASE_MAKE" then Forall make_target (Fields v)
                  else all_bytes printable v = true
  | WithProxy a b c => all_bytes printable a = true ∧ all_bytes printable b = true ∧
                       all_bytes printable c = true
  | AddMount t s m => safe_graph s ∧ Forall safe_mount m
  | _ => True
  end.

Lemma safe_opts_Forall b opts : safe_graph (RunRoot b opts) ↔ safe_graph b ∧ Forall safe_opt opts.
Proof.
  cbn [safe_graph]. apply and_iff_compat_l. induction opts as [|o opts IH]; [by split|].
  rewrite Forall_cons, <- IH. done.
Qed.

Lemma safe_RunMount b opts t s :
  safe_graph (RunMount b opts t s) ↔ safe_graph (RunRoot b opts) ∧ safe_graph s.
Proof. cbn [safe_graph]. tauto. Qed.

Lemma Forall_when {A} (P : A → Prop) b l : (b = true → Forall P l) → Forall P (when b l).
Proof. destruct b; simpl; auto. Qed.

Section safe.
Context (s : Spec) (V : valid_spec s).

Lemma opt_set (P : string → Prop) v : opt P v → (v <>s "") = true → P v.
Proof. intros [->|H]; [done|auto]. Qed.

Lemma safe_proxy : Forall safe_opt (proxy_opts s).
Proof using V.
  apply Forall_when. intros _. repeat constructor; cbn.
  - eapply opt_bytes; [apply proxy_url_bytes|apply V].
  - eapply opt_bytes; [apply proxy_url_bytes|apply V].
  - rewrite all_bytes_app. destruct (NoProxy s =s ""); [done|].
    rewrite all_bytes_app, (v_no_proxy _ V). done.
Qed.

Lemma safe_base : safe_graph (base_state s).
Proof using V. unfold base_state. destruct (NetworkHost s); apply V. Qed.

Lemma safe_toolchain : safe_graph (toolchain_state s).
Proof using V.
  unfold toolchain_state. destruct (negb _ || _); [|apply safe_base].
  apply safe_opts_Forall. split; [apply safe_base|]. unfold toolchain_opts.
  apply Forall_app. split; [by repeat constructor|].
  apply Forall_app. split; [apply safe_proxy|].
  apply Forall_app. split; [apply Forall_when; by repeat constructor|].
  apply Forall_when. intros Hca. apply (opt_set _ _ (v_proxy_ca _ V)) in Hca as [Hca _].
  apply Forall_cons. split; [|apply Forall_singleton; cbn; auto with kb].
  split; [by apply Forall_singleton|by repeat constructor].
Qed.

Lemma safe_source :
  let '(id, url, sha) := source_identity s in
  all_bytes printable id = true ∧ all_bytes printable url = true ∧ all_bytes printable sha = true.
Proof using V.
  unfold source_identity. pose proof (v_source _ V) as Hs. pose proof (v_src_name _ V) as Hn.
  destruct (String.eqb_spec (SourceLocalName s) "") as [|Hne]; simpl.
  - destruct Hs as (_ & Hu & _).
    assert (all_bytes printable (SourceSHA256 s) = true) as Hh.
    { apply name_bytes_printable. eapply opt_bytes; [apply sha256_bytes|apply V]. }
    by destruct (SourceSHA256 s =s "").
  - split; [|done]. destruct Hn as [|Hn]; [done|]. auto with kb.
Qed.

Lemma patches_safe : safe_path "patches".
Proof using. split; [by exists "p"%char, "atches"|]. rewrite lacks_Contains. by vm_compute. Qed.

Lemma safe_context : safe_graph (context_state s).
Proof using V.
  cbn. apply Forall_cons. split; [apply V|]. apply Forall_app. split; apply Forall_when.
  - intros He. apply Forall_singleton. by apply (opt_set _ _ (v_expect _ V)).
  - intros _. apply Forall_singleton, patches_safe.
Qed.

Lemma safe_helper : safe_graph (helper_state s).
Proof using V.
  unfold helper_state. destruct (HelperRef s <>s "") eqn:E.
  - split; [done|]. by apply (opt_set _ _ (v_helper _ V)).
  - apply Forall_singleton. split; [by exists "k"%char, "build-step"|].
    rewrite lacks_Contains. by vm_compute.
Qed.

Lemma safe_arch : all_bytes make_byte (archOrDefault s) = true.
Proof using V. by destruct (valid_arch _ V) as [-> | ->]. Qed.

Lemma printable_make v : all_bytes make_byte v = true → all_bytes printable v = true.
Proof using. apply all_bytes_impl, ascii_impl. by vm_compute. Qed.

Lemma safe_targets : all_bytes printable (Join (targetsOrDefault s) ",") = true.
Proof using V.
  destruct (targetsOrDefault_plain _ V) as [_ Hf].
  induction Hf as [|t l Ht _ IH]; [done|].
  apply known_target_bytes in Ht as (Ht & _ & _). apply name_bytes_printable in Ht.
  destruct l; [done|]. rewrite Join_cons, !all_bytes_app, Ht by done. exact IH.
Qed.

Lemma safe_cache_id : all_bytes make_byte (cache_mount_id s) = true.
Proof using V.
  unfold cache_mount_id, tree_id. rewrite !all_bytes_app, safe_arch, !andb_true_iff.
  destruct (toolchainKey_hex s) as [Hh _]. split_and!; try done.
  - destruct (v_version _ V) as (a & b & c & d & -> & Ha & Hb & Hc & Hd).
    assert (∀ x, digits x → all_bytes make_byte x = true) as Hdig
      by (intros x Hx; eapply named_bytes; [..|exact Hx]; by vm_compute).
    rewrite !all_bytes_app, (Hdig a Ha), (Hdig b Hb).
    destruct Hc as [->|(? & -> & Hc%Hdig)], Hd as [->|(? & -> & Hd%Hdig)];
      by rewrite ?all_bytes_app, ?Hc, ?Hd.
  - eapply all_bytes_impl; [|exact Hh]. apply ascii_impl. by vm_compute.
  - unfold patchedSuffix. by destruct (ApplyPatches s).
Qed.

Lemma safe_cross : all_bytes printable (crossOrDefault s) = true.
Proof using V.
  unfold crossOrDefault. destruct (_ || _); [|by destruct (_ =s _)].
  apply name_bytes_printable. eapply opt_bytes; [apply cross_bytes|apply V].
Qed.

Lemma safe_epoch : all_bytes printable (SourceDateEpoch s) = true.
Proof using V.
  destruct (v_epoch _ V) as (n & Hn & He). rewrite He. apply name_bytes_printable, canonical_bytes.
  rewrite <- He. apply canonical_ParseInt in He as [Hc _]; [done|].
  unfold maxEpoch, maxInt64 in *. lia.
Qed.
End safe.

Lemma safe_run nonce s :
  valid_spec s → all_bytes printable nonce = true → Forall safe_opt (run_opts nonce s).
Proof.
  intros V Hn. pose proof (safe_source s V) as Hs. unfold run_opts.
  destruct (source_identity s) as [[id url] sha]. destruct Hs as (Hid & Hurl & Hsha).
  apply Forall_app. split; [|repeat (apply Forall_app; split)]; try apply Forall_when.
  - pose proof (safe_context s V) as Hctx. pose proof (v_config _ V) as Hcfg.
    do 2 (apply Forall_cons_2; [exact I|]).
    apply Forall_cons_2; [exact (safe_epoch s V)|].
    do 3 (apply Forall_cons_2; [exact eq_refl|]).
    apply Forall_cons_2; [exact Hid|]. apply Forall_cons_2; [exact Hurl|].
    apply Forall_cons_2; [exact Hsha|].
    apply Forall_cons_2; [eapply (opt_bytes safe_path); [auto with kb|apply V]|].
    apply Forall_cons_2; [apply printable_make, safe_arch, V|].
    apply Forall_cons_2; [exact (safe_cross s V)|].
    apply Forall_cons_2; [exact (safe_targets s V)|].
    apply Forall_cons_2; [by destruct (ApplyPatches s)|].
    apply Forall_cons_2; [exact (v_base_make _ V)|].
    apply Forall_cons_2; [exact I|].
    apply Forall_cons_2; [split; [exact (safe_helper s V)|by apply Forall_singleton]|].
    apply Forall_cons_2; [split; [exact Hctx|by repeat (apply Forall_cons; split)]|].
    apply Forall_cons_2; [split; [exact I|apply Forall_singleton; exact (safe_cache_id s V)]|].
    do 3 (apply Forall_cons_2; [exact I|]). apply Forall_nil_2.
  - intros _. apply Forall_singleton. split; [exact (safe_context s V)|].
    repeat (apply Forall_cons; split); [apply patches_safe|exact I|apply Forall_nil].
    exact I.
  - intros He. apply (opt_set _ _ (v_expect _ V)) in He. apply Forall_singleton.
    split; [exact (safe_context s V)|]. repeat (apply Forall_cons; split); done.
  - intros Hl. apply (opt_set _ _ (v_src_name _ V)) in Hl. apply Forall_singleton.
    split; [by apply Forall_singleton|by apply Forall_singleton].
  - intros E. pose proof (safe_proxy s V) as Hp. unfold proxy_opts in Hp. by rewrite E in Hp.
  - intros _. by apply Forall_singleton.
  - intros _. by repeat (apply Forall_cons; split).
Qed.

(** C10. Nothing a caller wrote can inject: in every graph the frontend builds,
    each environment value is one printable word without blanks or line breaks
    (BASE_MAKE, which is split on blanks, a list of make targets that are neither
    flags, assignments nor paths), each proxy value is printable, each path
    followed in a context or selected in a mount is relative and never climbs,
    each image is a plain reference, and the cache-mount id is a single path
    element. ([rand.Text] returns letters and digits, so its value is printable.) *)
Theorem KernelLLB_injection_free (nonce : string) (s : Spec) (g : State) :
  all_bytes alnum nonce = true → KernelLLB nonce s = Ok g → safe_graph g.
Proof.
  intros Hn (V%Validate_valid & _ & ->)%KernelLLB_Ok.
  apply safe_RunMount. split; [|done]. apply safe_opts_Forall.
  split; [by apply safe_toolchain|]. apply safe_run; [done|].
  eapply all_bytes_impl; [|exact Hn]. apply ascii_impl. by vm_compute.
Qed.

Lemma KernelLLB_injection_free_witness :
  let s := set_BaseMake "x86_64_defconfig kvm_guest.config" DefaultSpec in
  let g := RunMount (toolchain_state s) (run_opts "ABC" s) "/out" Scratch in
  KernelLLB "ABC" s = Ok g ∧ safe_graph g.
Proof.
  intros s g. assert (KernelLLB "ABC" s = Ok g) as H.
  { apply KernelLLB_Ok. split; [vm_compute; reflexivity|]. split; [vm_compute; reflexivity|done]. }
  split; [exact H|]. apply (KernelLLB_injection_free "ABC" s g); [reflexivity|exact H].
Defined.

(** The graph exists exactly for the valid specifications whose base is
    pinned; a validation error is reported before the pin, and each error names
    its reason. *)
Theorem KernelLLB_accepts (nonce : string) (s : Spec) :
  match KernelLLB nonce s with
  | Ok g => valid_spec s ∧ Contains (Base s) "@" = true
  | Err (LSpec e) => Validate s = Err e ∧ ¬ valid_spec s
  | Err (LUnpinned b) => valid_spec s ∧ b = Base s ∧ Contains (Base s) "@" = false
  end.
Proof.
  unfold KernelLLB. pose proof (Validate_valid s) as Hv.
  destruct (Validate s) as [[]|e]; cbn.
  - assert (valid_spec s) by by apply Hv.
    destruct (Contains (Base s) "@") eqn:E; cbn; done.
  - split; [done|]. intros H. by apply Hv in H.
Qed.

(** A push is an action, not a cached result: whenever a push is requested, two
    requests with different nonces have different graphs; without a push request the
    nonce appears nowhere and identical requests give identical graphs. *)
Theorem KernelLLB_push_action (n1 n2 : string) (s : Spec) (g1 g2 : State) :
  KernelLLB n1 s = Ok g1 → KernelLLB n2 s = Ok g2 →
  if SeedPush s then n1 ≠ n2 → g1 ≠ g2 else g1 = g2.
Proof.
  intros (_ & _ & ->)%KernelLLB_Ok (_ & _ & ->)%KernelLLB_Ok. unfold run_opts.
  destruct (source_identity s) as [[id url] sha], (SeedPush s); [|done].
  intros Hne H. injection H as H. do 5 apply app_inv_head in H. by injection H.
Qed.

Lemma KernelLLB_push_action_witness :
  let s := set_SeedPush true DefaultSpec in
  let g n := RunMount (toolchain_state s) (run_opts n s) "/out" Scratch in
  KernelLLB "A" s = Ok (g "A") ∧ g "A" ≠ g "B".
Proof.
  intros s g. assert (∀ n, KernelLLB n s = Ok (g n)) as H.
  { intros n. apply KernelLLB_Ok. split; [vm_compute; reflexivity|].
    split; [vm_compute; reflexivity|done]. }
  split; [exact (H "A")|].
  exact (KernelLLB_push_action "A" "B" s (g "A") (g "B") (H "A") (H "B") ltac:(discriminate)).
Defined.
