(* ===== verification/GraphLaws.v ===== *)
(** The graph of llb.go is well-formed: what BuildKit would refuse or silently take
    another way - a variable set twice, a mount inside a mount, a selector the transfer
    does not carry, one sharing key for two transfers - cannot come out of [KernelLLB]. *)

From S2P Require Import Prelude GoString GoTime Sha256 Spec SpecValid LLB LLBLaws.

(** ** The parts of an exec *)

Definition opts : Type := list (RunOption State).

Definition argvs (os : opts) : list (list string) :=
  flat_map (λ o, match o with Args a => [a] | _ => [] end) os.
Definition env_keys (os : opts) : list string :=
  flat_map (λ o, match o with AddEnv k _ => [k] | _ => [] end) os.
Definition dirs (os : opts) : list string :=
  flat_map (λ o, match o with Dir d => [d] | _ => [] end) os.
Definition proxies (os : opts) : nat :=
  length (flat_map (λ o, match o with WithProxy _ _ _ => [tt] | _ => [] end) os).
Definition targets_of (os : opts) : list string :=
  flat_map (λ o, match o with AddMount t _ _ => [t] | AddSecret t _ _ => [t] | _ => [] end) os.
Definition secret_ids (os : opts) : list string :=
  flat_map (λ o, match o with AddSecret _ i _ => [i] | _ => [] end) os.
Definition caches_of (os : opts) : list (string * string) :=
  flat_map (λ o, match o with AddMount t _ [AsPersistentCacheDir i] => [(t, i)] | _ => [] end) os.
Definition mounts_of (os : opts) : list (string * State * list MountOption) :=
  flat_map (λ o, match o with AddMount t s m => [(t, s, m)] | _ => [] end) os.

(** An absolute path in its shortest form. *)
Definition abs_clean (t : string) : bool :=
  match Split t "/" with
  | "" :: w :: ws => forallb (λ w, (w <>s "") && (w <>s ".") && (w <>s "..")) (w :: ws)
  | _ => false
  end.

(** Neither is the other, nor inside it. *)
Definition outside (a b : string) : bool :=
  negb (HasPrefix (a +:+ "/") (b +:+ "/")) && negb (HasPrefix (b +:+ "/") (a +:+ "/")).
Fixpoint pairwise {A} (r : A → A → bool) (l : list A) : bool :=
  match l with [] => true | a :: l => forallb (r a) l && pairwise r l end.

(** BuildKit's own variables for a proxied exec. *)
Definition proxy_vars : list string :=
  ["HTTP_PROXY"; "http_proxy"; "HTTPS_PROXY"; "https_proxy"; "FTP_PROXY"; "ftp_proxy";
   "NO_PROXY"; "no_proxy"; "ALL_PROXY"; "all_proxy"].

(** [outs] are the mounts added to the exec after the options. *)
Definition exec_ok (outs : list string) (os : opts) : bool :=
  match argvs os with [w :: _] => w <>s "" | _ => false end &&
  bool_decide (NoDup (env_keys os)) &&
  forallb (λ k, bool_decide (k ∉ proxy_vars)) (env_keys os) &&
  forallb abs_clean (outs ++ targets_of os) && pairwise outside (outs ++ targets_of os) &&
  bool_decide (NoDup (secret_ids os)) && (length (caches_of os) <=? 1)%nat &&
  match dirs os with [] => true | [d] => bool_decide (d ∈ targets_of os) | _ => false end &&
  (proxies os <=? 1)%nat.

(** A mount is a persistent cache over nothing, or a read-only view of what it carries;
    a selector picks a path the transfer follows. *)
Definition mount_ok (src : State) (m : list MountOption) : Prop :=
  match m with
  | [AsPersistentCacheDir id] => src = Scratch ∧ id ≠ ""
  | [Readonly] => match src with Local _ _ _ _ | FileCopy _ _ _ _ _ => True | _ => False end
  | [SourcePath p; Readonly] => match src with Local _ follow _ _ => p ∈ follow | _ => False end
  | _ => False
  end.

(** ** Well-formed graphs *)

Inductive well_formed : State → Prop :=
  | wf_scratch : well_formed Scratch
  | wf_image r : r ≠ "" → well_formed (Image r)
  | wf_network s : well_formed s → well_formed (NetworkHostOf s)
  | wf_local n follow h c :
      (** No transfer is of a whole directory. *)
      n ≠ "" → h ≠ "" → follow ≠ [] → Forall safe_path follow → well_formed (Local n follow h c)
  | wf_copy b s f t c :
      well_formed b → well_formed s → abs_clean f = true → abs_clean t = true →
      well_formed (FileCopy b s f t c)
  | wf_root b os :
      well_formed b → exec_ok [] os = true →
      (∀ t src m, In (t, src, m) (mounts_of os) → well_formed src) →
      Forall (λ x, mount_ok x.1.2 x.2) (mounts_of os) →
      well_formed (RunRoot b os)
  | wf_mount b os t src :
      well_formed b → exec_ok [t] os = true →
      (∀ t src m, In (t, src, m) (mounts_of os) → well_formed src) →
      Forall (λ x, mount_ok x.1.2 x.2) (mounts_of os) →
      well_formed src → well_formed (RunMount b os t src).

Definition mount_wf (x : string * State * list MountOption) : Prop :=
  well_formed x.1.2 ∧ mount_ok x.1.2 x.2.

Lemma mounts_split ms :
  Forall mount_wf ms →
  (∀ t src m, In (t, src, m) ms → well_formed src) ∧ Forall (λ x, mount_ok x.1.2 x.2) ms.
Proof.
  intros H. split; [|by eapply Forall_impl; [exact H|intros ? []]].
  intros t src m Hi. rewrite <- list_elem_of_In in Hi. rewrite Forall_forall in H. by apply (H _ Hi).
Qed.

(** ** What a graph transfers *)

Fixpoint locals (g : State) : list (string * list string * string) :=
  let opt_locals (o : RunOption State) :=
    match o with AddMount _ s _ => locals s | _ => [] end in
  match g with
  | Scratch | Image _ => []
  | NetworkHostOf s => locals s
  | Local n f h _ => [(n, f, h)]
  | FileCopy b s _ _ _ => locals b ++ locals s
  | RunRoot b os => locals b ++ flat_map opt_locals os
  | RunMount b os _ s => locals b ++ flat_map opt_locals os ++ locals s
  end.

Definition local_names (g : State) : list string := map (λ l, l.1.1) (locals g).

Section parts.
Context {B : Type} (f : RunOption State → list B).

Lemma parts_when' {A} (h : A → list B) (c : bool) l : flat_map h (when c l) = when c (flat_map h l).
Proof using. by destruct c. Qed.
Lemma parts_when (c : bool) (l : opts) : flat_map f (when c l) = when c (flat_map f l).
Proof using. by destruct c. Qed.
Lemma parts_proxy s : (∀ a b c, f (WithProxy a b c) = []) → flat_map f (proxy_opts s) = [].
Proof using. intros H. unfold proxy_opts. destruct (_ || _); cbn; by rewrite ?H. Qed.
End parts.

(** Read a part off an option list, segment by segment. *)
Ltac parts := rewrite ?flat_map_app, ?parts_when, ?parts_proxy by done; cbn [flat_map app].

Lemma proxies_app a b : proxies (a ++ b) = (proxies a + proxies b)%nat.
Proof. unfold proxies. by rewrite flat_map_app, length_app. Qed.
Lemma proxies_proxy s : (proxies (proxy_opts s) ≤ 1)%nat.
Proof. unfold proxy_opts. destruct (_ || _); cbn; lia. Qed.

(** ** The compile vertex *)

Section run.
Context (nonce : string) (s : Spec).

Lemma run_argvs : argvs (run_opts nonce s) = [[HelperPath]].
Proof using.
  unfold run_opts, argvs. destruct (source_identity s) as [[id url] sha]. parts.
  by destruct (ApplyPatches s), (ExpectName s <>s ""), (SourceLocalName s <>s ""), (IgnoreCache s), (SeedPush s).
Qed.

Lemma run_env_keys :
  env_keys (run_opts nonce s) =
  ["SOURCE_DATE_EPOCH"; "KBUILD_BUILD_USER"; "KBUILD_BUILD_HOST"; "TZ"; "SRC_ID"; "SRC_URL"; "SRC_SHA256";
   "SRC_LOCAL"; "KARCH"; "CROSS_COMPILE"; "TARGETS"; "APPLY_PATCHES"; "BASE_MAKE"]
  ++ when (SeedPush s) ["SEED_PUSH"; "SEED_ACTION"].
Proof using.
  unfold run_opts, env_keys. destruct (source_identity s) as [[id url] sha]. parts.
  by destruct (ApplyPatches s), (ExpectName s <>s ""), (SourceLocalName s <>s ""), (IgnoreCache s), (SeedPush s).
Qed.

Lemma run_targets :
  targets_of (run_opts nonce s) =
  ["/helper"; "/kernel.config"; "/build"; "/run/secrets/seed_access_key"; "/run/secrets/seed_secret_key";
   "/run/secrets/seed_cfg"]
  ++ when (ApplyPatches s) ["/patches"] ++ when (ExpectName s <>s "") ["/kernel.expect"]
  ++ when (SourceLocalName s <>s "") ["/src"].
Proof using.
  unfold run_opts, targets_of. destruct (source_identity s) as [[id url] sha]. parts.
  by destruct (ApplyPatches s), (ExpectName s <>s ""), (SourceLocalName s <>s ""), (IgnoreCache s), (SeedPush s).
Qed.

Lemma run_rest :
  secret_ids (run_opts nonce s) = ["seed_access_key"; "seed_secret_key"; "seed_cfg"] ∧
  caches_of (run_opts nonce s) = [("/build", cache_mount_id s)] ∧
  dirs (run_opts nonce s) = ["/build"] ∧ (proxies (run_opts nonce s) ≤ 1)%nat.
Proof using.
  unfold run_opts, secret_ids, caches_of, dirs. destruct (source_identity s) as [[id url] sha].
  rewrite !proxies_app. parts. pose proof (proxies_proxy s).
  destruct (ApplyPatches s), (ExpectName s <>s ""), (SourceLocalName s <>s ""), (IgnoreCache s), (SeedPush s);
    split_and!; try done; cbn in *; lia.
Qed.

Lemma run_mounts :
  mounts_of (run_opts nonce s) =
  [("/helper", helper_state s, [Readonly]);
   ("/kernel.config", context_state s, [SourcePath (ConfigName s); Readonly]);
   ("/build", Scratch, [AsPersistentCacheDir (cache_mount_id s)])]
  ++ when (ApplyPatches s) [("/patches", context_state s, [SourcePath "patches"; Readonly])]
  ++ when (ExpectName s <>s "") [("/kernel.expect", context_state s, [SourcePath (ExpectName s); Readonly])]
  ++ when (SourceLocalName s <>s "")
       [("/src", Local "src" [SourceLocalName s] "kbuild-src" ("[internal] load " +:+ SourceLocalName s),
         [Readonly])].
Proof using.
  unfold run_opts, mounts_of. destruct (source_identity s) as [[id url] sha]. parts.
  by destruct (ApplyPatches s), (ExpectName s <>s ""), (SourceLocalName s <>s ""), (IgnoreCache s), (SeedPush s).
Qed.

Lemma run_exec_ok : exec_ok ["/out"] (run_opts nonce s) = true.
Proof using.
  unfold exec_ok. rewrite run_argvs, run_env_keys, run_targets. destruct run_rest as (-> & -> & -> & Hp).
  apply Nat.leb_le in Hp. rewrite Hp, andb_true_r.
  by destruct (SeedPush s), (ApplyPatches s), (ExpectName s <>s ""), (SourceLocalName s <>s ""); vm_compute.
Qed.
End run.

(** ** The toolchain vertex *)

Lemma toolchain_exec_ok s : exec_ok [] (toolchain_opts s) = true.
Proof.
  assert (proxies (toolchain_opts s) ≤ 1)%nat as Hp%Nat.leb_le.
  { unfold toolchain_opts. rewrite !proxies_app. pose proof (proxies_proxy s).
    destruct (IgnoreCache s), (ProxyCAFile s <>s ""); cbn in *; lia. }
  unfold exec_ok. rewrite Hp, andb_true_r.
  unfold toolchain_opts, argvs, env_keys, targets_of, secret_ids, caches_of, dirs. parts.
  by destruct (IgnoreCache s), (ProxyCAFile s <>s ""); vm_compute.
Qed.

Lemma toolchain_mounts s :
  mounts_of (toolchain_opts s) =
  when (ProxyCAFile s <>s "")
    [("/certs", Local "context" [ProxyCAFile s] "kbuild-ca" ("[internal] load " +:+ ProxyCAFile s), [Readonly])].
Proof.
  unfold toolchain_opts, mounts_of. parts. by destruct (IgnoreCache s), (ProxyCAFile s <>s "").
Qed.

(** ** Well-formedness *)

Section wf.
Context (s : Spec) (V : valid_spec s).

Lemma image_ref_ne v : image_ref v → v ≠ "".
Proof using. by intros [(c & t & -> & _) _]. Qed.

Lemma wf_base : well_formed (base_state s).
Proof using V.
  assert (well_formed (Image (Base s))) by (constructor; apply image_ref_ne, V).
  unfold base_state. destruct (NetworkHost s); [by constructor|done].
Qed.

Lemma wf_context : well_formed (context_state s).
Proof using V. constructor; [done|done|done|]. exact (safe_context s V). Qed.

Lemma wf_helper : well_formed (helper_state s).
Proof using V.
  pose proof (safe_helper s V) as H. unfold helper_state in *. destruct (HelperRef s <>s "").
  - constructor; [constructor| |done..]. constructor. by apply image_ref_ne, H.
  - by constructor.
Qed.

Lemma wf_file n p h c : n ≠ "" → h ≠ "" → safe_path p → well_formed (Local n [p] h c).
Proof using. intros. constructor; [done..|]. by apply Forall_singleton. Qed.

Lemma toolchain_mounts_ok : Forall mount_wf (mounts_of (toolchain_opts s)).
Proof using V.
  rewrite toolchain_mounts. apply Forall_when. intros Hca. apply Forall_singleton.
  apply (opt_set _ _ (v_proxy_ca _ V)) in Hca as [Hca _]. split; [by apply wf_file|done].
Qed.

Lemma run_mounts_ok nonce : Forall mount_wf (mounts_of (run_opts nonce s)).
Proof using V.
  pose proof wf_context as Hctx. rewrite run_mounts.
  assert (∀ p, p ∈ [ConfigName s] ++ when (ExpectName s <>s "") [ExpectName s] ++ when (ApplyPatches s) ["patches"] →
          ∀ t, mount_wf (t, context_state s, [SourcePath p; Readonly])) as Hsel by done.
  rewrite !Forall_app, !Forall_cons, !Forall_nil. split; [split_and!; [| | |done]|split_and!; apply Forall_when].
  - split; [apply wf_helper|]. unfold helper_state. by destruct (HelperRef s <>s "").
  - apply Hsel. set_solver.
  - split; [constructor|done].
  - intros E. apply Forall_singleton, Hsel. rewrite E. cbn. set_solver.
  - intros E. apply Forall_singleton, Hsel. rewrite E. cbn. set_solver.
  - intros Hl. apply (opt_set _ _ (v_src_name _ V)) in Hl. apply Forall_singleton. split; [by apply wf_file|done].
Qed.

Lemma wf_toolchain : well_formed (toolchain_state s).
Proof using V.
  unfold toolchain_state. destruct (negb _ || _); [|apply wf_base].
  destruct (mounts_split _ toolchain_mounts_ok) as [? ?]. constructor; [apply wf_base|apply toolchain_exec_ok|done..].
Qed.

Lemma wf_graph nonce : well_formed (RunMount (toolchain_state s) (run_opts nonce s) "/out" Scratch).
Proof using V.
  destruct (mounts_split _ (run_mounts_ok nonce)) as [? ?].
  constructor; [apply wf_toolchain|apply run_exec_ok|done..|constructor].
Qed.
End wf.

(** ** Transfers *)

Definition context_local (s : Spec) : string * list string * string :=
  ("context", [ConfigName s] ++ when (ExpectName s <>s "") [ExpectName s] ++ when (ApplyPatches s) ["patches"],
   "kbuild-context").

Lemma opt_locals_mounts (os : opts) :
  flat_map (λ o, match o with AddMount _ s _ => locals s | _ => [] end) os =
  flat_map (λ x, locals x.1.2) (mounts_of os).
Proof. induction os as [|[] os IH]; cbn; try done. by rewrite IH. Qed.

Lemma locals_base s : locals (base_state s) = [].
Proof. unfold base_state. by destruct (NetworkHost s). Qed.

Lemma locals_graph nonce s :
  locals (RunMount (toolchain_state s) (run_opts nonce s) "/out" Scratch) =
  when (ProxyCAFile s <>s "") [("context", [ProxyCAFile s], "kbuild-ca")]
  ++ when (HelperRef s =s "") [("helper", ["kbuild-step"], "kbuild-helper")]
  ++ [context_local s]
  ++ when (ApplyPatches s) [context_local s] ++ when (ExpectName s <>s "") [context_local s]
  ++ when (SourceLocalName s <>s "") [("src", [SourceLocalName s], "kbuild-src")].
Proof.
  cbn [locals]. rewrite opt_locals_mounts, run_mounts, !flat_map_app, !parts_when', app_nil_r.
  f_equal.
  - unfold toolchain_state. destruct (ProxyCAFile s <>s "") eqn:E.
    + rewrite orb_true_r. cbn [locals]. by rewrite opt_locals_mounts, toolchain_mounts, E, locals_base.
    + rewrite orb_false_r. destruct (ToolchainReady s); cbn [negb locals]; [apply locals_base|].
      by rewrite opt_locals_mounts, toolchain_mounts, E, locals_base.
  - unfold helper_state. by destruct (HelperRef s =s "").
Qed.

(** One sharing key, one transfer. *)
Definition keys_apart (g : State) : Prop :=
  ∀ a b, In a (locals g) → In b (locals g) → a.2 = b.2 → a = b.

Lemma in_when {A} (x : A) b l : In x (when b l) ↔ b = true ∧ In x l.
Proof. destruct b; cbn; naive_solver. Qed.

Lemma locals_are nonce s a :
  In a (locals (RunMount (toolchain_state s) (run_opts nonce s) "/out" Scratch)) ↔
  (ProxyCAFile s ≠ "" ∧ a = ("context", [ProxyCAFile s], "kbuild-ca")) ∨
  (HelperRef s = "" ∧ a = ("helper", ["kbuild-step"], "kbuild-helper")) ∨
  a = context_local s ∨
  (SourceLocalName s ≠ "" ∧ a = ("src", [SourceLocalName s], "kbuild-src")).
Proof.
  rewrite locals_graph, !in_app_iff, !in_when. cbn [In].
  rewrite !negb_true_iff, !String.eqb_neq, String.eqb_eq. naive_solver.
Qed.

Lemma graph_keys nonce s : keys_apart (RunMount (toolchain_state s) (run_opts nonce s) "/out" Scratch).
Proof.
  intros a b Ha%locals_are Hb%locals_are.
  destruct Ha as [[_ ->]|[[_ ->]|[->|[_ ->]]]], Hb as [[_ ->]|[[_ ->]|[->|[_ ->]]]]; done.
Qed.

Lemma graph_names nonce s n :
  In n (local_names (RunMount (toolchain_state s) (run_opts nonce s) "/out" Scratch)) ↔
  n = "context" ∨ (n = "helper" ∧ HelperRef s = "") ∨ (n = "src" ∧ SourceLocalName s ≠ "").
Proof.
  unfold local_names. rewrite in_map_iff. setoid_rewrite locals_are. split.
  - intros (a & <- & [[_ ->]|[[? ->]|[->|[? ->]]]]); cbn; auto.
  - intros [->|[[-> ?]|[-> ?]]];
      [exists (context_local s)|exists ("helper", ["kbuild-step"], "kbuild-helper")
      |exists ("src", [SourceLocalName s], "kbuild-src")]; naive_solver.
Qed.

(** C11. Every graph the program builds is well-formed. Each exec has one non-empty
    argument vector, no variable set twice and none that BuildKit's proxy sets, mounts
    at absolute places none of which lies in another - the output mount included - and
    its working directory among them; each mount is the one persistent cache or a
    read-only view, and a selector picks a path its transfer carries. No transfer takes
    a whole directory, two transfers never share a sharing key, and those a graph asks
    for are the context, the helper unless an image supplies it, and the source tree in
    local mode. *)
Theorem KernelLLB_well_formed (nonce : string) (s : Spec) (g : State) :
  KernelLLB nonce s = Ok g →
  well_formed g ∧ keys_apart g ∧
  (∀ n, In n (local_names g) ↔
     n = "context" ∨ (n = "helper" ∧ HelperRef s = "") ∨ (n = "src" ∧ SourceLocalName s ≠ "")).
Proof.
  intros (V%Validate_valid & _ & ->)%KernelLLB_Ok.
  split_and!; [by apply wf_graph|apply graph_keys|apply graph_names].
Qed.

Lemma KernelLLB_well_formed_witness :
  let s := set_SourceLocalName "linux.tar.xz" (set_SourceURL "" (set_SourceSHA256 "" DefaultSpec)) in
  let g := RunMount (toolchain_state s) (run_opts "ABC" s) "/out" Scratch in
  KernelLLB "ABC" s = Ok g ∧ well_formed g ∧ In "src" (local_names g).
Proof.
  intros s g. assert (KernelLLB "ABC" s = Ok g) as H.
  { apply KernelLLB_Ok. split; [vm_compute; reflexivity|]. split; [vm_compute; reflexivity|done]. }
  destruct (KernelLLB_well_formed "ABC" s g H) as (Hw & _ & Hn).
  split; [exact H|]. split; [exact Hw|]. apply Hn. right. right. split; [reflexivity|discriminate].
Defined.
