(* ===== verification/LLBDump.v ===== *)
(** cmd/llbdump/main.go: the graph of a sample specification, marshalled and printed op
    by op. Marshalling, the protobuf decoding and the digest are buildkit's and
    go-digest's and are parameters; a line is kept as the values it prints. *)

From S2P Require Import Prelude GoString Spec LLB.

(** ** The protobuf ops, as far as they are read *)

Record pb_input := MkInput { in_digest : string; in_index : Z }.

Record pb_mount := MkMount {
  Dest : string;
  Input : Z;
  MountType : string;
  MountReadonly : bool;
  CacheOpt : option string;   (* its ID *)
  Selector : string
}.

Inductive pb_kind :=
  | Op_Source (identifier : string) (attrs : gmap string string)
  | Op_Exec (argv : list string) (network : string) (mounts : list pb_mount)
  | Op_File (actions : list (option (string * string) * Z))
      (* the copy's source and destination when the action is one; SecondaryInput *)
  | Op_Other.

Record Op := MkOp { Inputs : list pb_input; kind : pb_kind; marshalled : string }.

Inductive line :=
  | LVertex (short : string) (bytes : nat)
  | LInput (short : string) (index : Z)
  | LSource (identifier : string) (attrs : list string)
  | LExec (argv : list string) (network : string)
  | LMount (dest : string) (input : Z) (type : string) (ro : bool) (cacheID selector : string)
  | LCopy (src dest : string) (secondary : Z)
  | LTotal (n : nat).

Section dump.
(** [state.Marshal], [op.Unmarshal], [digest.FromBytes], a map range. *)
Context (Marshal : State → option (list string)) (Unmarshal : string → option Op)
        (FromBytes : string → string) (range : gmap string string → list (string * string)).

Definition dump_spec : Spec :=
  set_ProxyCAFile "ca-bundle.crt" (set_HTTPSProxy "http://127.0.0.1:1"
    (set_SourceSHA256 "a1415e257075c2fadf070f44bbb029469efbde5b6cf07d1433fe72207acff03c" DefaultSpec)).

Definition opSize (op : Op) : nat := String.length (marshalled op).
Definition keys (m : gmap string string) : list string := map fst (range m).
Definition cid (m : pb_mount) : string := default "" (CacheOpt m).

(** The three tables the first loop fills: short names, digests in order, ops. *)
Record tables := Tables {
  short : gmap string string;
  order : list string;
  ops : gmap string Op
}.

(** The first loop, from the op with number [i] on; [None] is a panic. *)
Fixpoint index_ops (i : nat) (def : list string) (t : tables) : option tables :=
  match def with
  | [] => Some t
  | dt :: def =>
      op ← Unmarshal dt;
      let d := FromBytes dt in
      index_ops (S i) def
        (Tables (<[d := "v" +:+ dec (Z.of_nat i)]> (short t)) (order t ++ [d]) (<[d := op]> (ops t)))
  end.

(** A missing key reads as the zero value. *)
Definition short_of (t : tables) (d : string) : string := default "" (short t !! d).

Definition kind_lines (k : pb_kind) : list line :=
  match k with
  | Op_Source identifier attrs => [LSource identifier (keys attrs)]
  | Op_Exec argv network mounts =>
      LExec argv network ::
      map (λ m, LMount (Dest m) (Input m) (MountType m) (MountReadonly m) (cid m) (Selector m)) mounts
  | Op_File actions =>
      omap (λ '(c, secondary), match c with Some (src, dest) => Some (LCopy src dest secondary) | None => None end) actions
  | Op_Other => []
  end.

Definition op_lines (t : tables) (d : string) : list line :=
  match ops t !! d with
  | None => []
  | Some op =>
      LVertex (short_of t d) (opSize op) ::
      map (λ i, LInput (short_of t (in_digest i)) (in_index i)) (Inputs op) ++ kind_lines (kind op)
  end.

(** main; [None] is a panic. *)
Definition llbdump (nonce : string) : option (list line) :=
  st ← match KernelLLB nonce dump_spec with Ok st => Some st | Err _ => None end;
  def ← Marshal st;
  t ← index_ops 0 def (Tables ∅ [] ∅);
  Some (concat (map (op_lines t) (order t)) ++ [LTotal (length (order t))]).

(** ** What is printed *)

Lemma dump_spec_builds nonce : is_ok (KernelLLB nonce dump_spec) = true.
Proof using.
  unfold KernelLLB. assert (Validate dump_spec = Ok tt) as -> by (vm_compute; reflexivity).
  assert (Contains (Base dump_spec) "@" = true) as -> by (vm_compute; reflexivity). done.
Qed.

Lemma index_ops_spec i def t t' :
  index_ops i def t = Some t' → NoDup (map FromBytes def) →
  order t' = order t ++ map FromBytes def ∧
  (∀ d, ¬ In d (map FromBytes def) → short t' !! d = short t !! d ∧ ops t' !! d = ops t !! d) ∧
  (∀ k dt, def !! k = Some dt → short t' !! FromBytes dt = Some ("v" +:+ dec (Z.of_nat (i + k))) ∧
                                ops t' !! FromBytes dt = Unmarshal dt).
Proof using.
  revert i t. induction def as [|dt def IH]; intros i t; cbn [index_ops map].
  - intros [= <-] _. rewrite app_nil_r. split_and!; [done|done|]. intros k dt. by rewrite lookup_nil.
  - destruct (Unmarshal dt) as [op|] eqn:Hu; [|intros [=]]. cbn [mbind option_bind]. intros Hi [Hn Hd]%NoDup_cons.
    rewrite list_elem_of_In in Hn. apply IH in Hi as (Ho & Hk & Hv); [|done]. split_and!.
    + rewrite Ho. cbn [order]. by rewrite <- app_assoc.
    + intros d Hnd. destruct (Hk d) as [-> ->]; [by intros ?; apply Hnd; right|]. cbn [short ops].
      rewrite !lookup_insert_ne; [done|..]; intros <-; apply Hnd; by left.
    + intros [|k] dt' Hdt; cbn in Hdt.
      * injection Hdt as <-. destruct (Hk _ Hn) as [-> ->]. cbn [short ops].
        by rewrite !lookup_insert_eq, Hu, Nat.add_0_r.
      * apply Hv in Hdt as [-> ->]. split; [|done]. do 3 f_equal. lia.
Qed.

Lemma index_ops_total def i t ps :
  mapM Unmarshal def = Some ps → ∃ t', index_ops i def t = Some t'.
Proof using.
  intros H%mapM_Some_1. revert i t. induction H as [|dt op def ps Hu _ IH]; intros i t; cbn [index_ops]; [eauto|].
  rewrite Hu. cbn [mbind option_bind]. apply IH.
Qed.

(** The lines of the op with number [k], its inputs numbered by [number]. *)
Definition vertex (number : string → nat) (k : nat) (op : Op) : list line :=
  let v n := "v" +:+ dec (Z.of_nat n) in
  LVertex (v k) (opSize op) ::
  map (λ i, LInput (v (number (in_digest i))) (in_index i)) (Inputs op) ++ kind_lines (kind op).

Lemma op_lines_numbered t number def ps i :
  Forall2 (λ dt op, Unmarshal dt = Some op) def ps →
  (∀ k dt, def !! k = Some dt → short t !! FromBytes dt = Some ("v" +:+ dec (Z.of_nat (i + k))) ∧
                                ops t !! FromBytes dt = Unmarshal dt) →
  (∀ op j, In op ps → In j (Inputs op) →
     short t !! in_digest j = Some ("v" +:+ dec (Z.of_nat (number (in_digest j))))) →
  map (op_lines t) (map FromBytes def) = imap (λ k, vertex number (i + k)) ps.
Proof using.
  intros Hf. revert i. induction Hf as [|dt op def ps Hu _ IH]; intros i Hk Hin; [done|].
  cbn [map]. rewrite imap_cons. destruct (Hk 0%nat dt eq_refl) as [Hs Ho]. f_equal.
  - unfold op_lines, short_of. rewrite Ho, Hu, Hs, Nat.add_0_r. cbn [default]. unfold vertex. do 2 f_equal.
    apply map_ext_in. intros j Hj. by rewrite (Hin op j) by (by left || done).
  - rewrite (IH (S i)).
    + apply imap_ext. intros k op' _. cbn. by rewrite Nat.add_succ_r.
    + intros k dt' Hdt. specialize (Hk (S k) dt' Hdt). by rewrite Nat.add_succ_r in Hk.
    + intros op' j Ho' Hj. by apply (Hin op'); [right|].
Qed.

(** Where a digest stands. *)
Definition number_in (ds : list string) (d : string) : nat := default 0%nat (fst <$> list_find (d =.) ds).

Lemma number_in_lookup ds k d : NoDup ds → ds !! k = Some d → number_in ds d = k.
Proof using.
  intros Hn Hk. unfold number_in.
  assert (list_find (d =.) ds = Some (k, d)) as ->; [|done].
  apply list_find_Some. split_and!; [done|done|]. intros j y Hj Hlt <-.
  pose proof (NoDup_lookup _ _ _ _ Hn Hj Hk). lia.
Qed.

(** What llbdump prints is the graph: it does not panic on a graph that marshals to
    ops it can decode, prints one vertex per op, in order, under the number of its
    place, and every input under the number of the op whose digest it names. *)
Theorem llbdump_prints (nonce : string) (st : State) (def : list string) (ps : list Op) :
  KernelLLB nonce dump_spec = Ok st → Marshal st = Some def → NoDup (map FromBytes def) →
  mapM Unmarshal def = Some ps →
  (∀ op j, In op ps → In j (Inputs op) → In (in_digest j) (map FromBytes def)) →
  llbdump nonce = Some (concat (imap (vertex (number_in (map FromBytes def))) ps) ++ [LTotal (length ps)]) ∧
  ∀ op j k, In op ps → In j (Inputs op) → number_in (map FromBytes def) (in_digest j) = k →
    ∃ dt, def !! k = Some dt ∧ FromBytes dt = in_digest j.
Proof using.
  intros Hst Hdef Hnd Hun Hin. pose proof Hun as Hf%mapM_Some_1.
  assert (∀ d, In d (map FromBytes def) →
    ∃ dt, def !! number_in (map FromBytes def) d = Some dt ∧ FromBytes dt = d) as Hat.
  { intros d Hd. rewrite <- list_elem_of_In in Hd. apply list_elem_of_lookup in Hd as [k Hk].
    rewrite (number_in_lookup _ k d) by done. change (map FromBytes def) with (FromBytes <$> def) in Hk.
    rewrite list_lookup_fmap in Hk. destruct (def !! k) as [dt|]; [|done]. injection Hk as Hk. exists dt. exact (conj eq_refl Hk). }
  split; [|intros op j k Ho Hj <-; by apply Hat, (Hin op)].
  unfold llbdump. rewrite Hst. cbn [mbind option_bind]. rewrite Hdef. cbn [mbind option_bind].
  destruct (index_ops_total def 0 (Tables ∅ [] ∅) ps Hun) as [t Ht]. rewrite Ht. cbn [mbind option_bind].
  apply index_ops_spec in Ht as (Ho & _ & Hk); [|done]. cbn [order app] in Ho. rewrite Ho. do 2 f_equal.
  - f_equal. rewrite (op_lines_numbered t (number_in (map FromBytes def)) def ps 0); [done|done|done|].
    intros op j Hop Hj. destruct (Hat _ (Hin _ _ Hop Hj)) as (dt & Hdt & He).
    destruct (Hk _ _ Hdt) as [Hs _]. by rewrite He in Hs.
  - rewrite length_map. apply Forall2_length in Hf. by rewrite Hf.
Qed.
End dump.

(** A graph of two ops, an image and the exec over it. *)
Lemma llbdump_prints_witness :
  let ops dt := if dt =s "image"
    then Some (MkOp [] (Op_Source "docker-image://gcc" ∅) "image")
    else Some (MkOp [MkInput "sha:image" 0] (Op_Exec ["/helper/kbuild-step"] "UNSET" []) "exec") in
  llbdump (λ _, Some ["image"; "exec"]) ops (λ dt, "sha:" +:+ dt) map_to_list "" =
  Some [LVertex "v0" 5; LSource "docker-image://gcc" []; LVertex "v1" 4; LInput "v0" 0;
        LExec ["/helper/kbuild-step"] "UNSET"; LTotal 2].
Proof.
  intros ops. pose proof (dump_spec_builds "") as Hb.
  destruct (KernelLLB "" dump_spec) as [st|] eqn:Hst; [|discriminate Hb].
  refine (proj1 (llbdump_prints (λ _, Some ["image"; "exec"]) ops (λ dt, "sha:" +:+ dt) map_to_list ""
    st ["image"; "exec"] _ Hst eq_refl _ eq_refl _)).
  - apply (bool_decide_unpack _). vm_compute. exact I.
  - intros op j [<-|[<-|[]]]; cbn; [intros []|]. intros [<-|[]]. left. reflexivity.
Defined.
