(* ===== verification/StepEnv.v ===== *)
(** cmd/kbuild-step/main.go, the contract with the graph: the environment and the
    secrets the step reads, [resolveTargets], [modulesEnabled], [loadSeedCfg],
    [checkSeedPush], the seed endpoint of [s3Client] and the arguments of the
    compile [make]. The step runs in the environment [KernelLLB] declared, and the
    theorems are about that environment. *)

From S2P Require Import Prelude GoString GoTime Sha256 Spec SpecValid LLB LLBLaws.

(** ** The process environment *)

(** [os.Getenv]: the empty string when unset. *)
Definition getenv (env : gmap string string) (k : string) : string := default "" (env !! k).

Definition env_of (opts : list (RunOption State)) : gmap string string :=
  foldl (λ m o, match o with AddEnv k v => <[k := v]> m | _ => m end) ∅ opts.

(** The environment of the compile vertex of [s]. *)
Definition compile_env (nonce : string) (s : Spec) : gmap string string :=
  env_of (run_opts nonce s).

(** ** Targets *)

Definition hasLine (config line : string) : bool :=
  HasPrefix config (line +:+ String LF "") || Contains config (String LF (line +:+ String LF "")).

Definition modulesEnabled (config : string) : bool := hasLine config "CONFIG_MODULES=y".

Inductive TargetError :=
  | TEmpty
  | TUnknown (tok : string).

Record targets := Resolved {
  makeTargets : list string;
  artifacts : gmap string string;
  wantModules : bool;
  wantConfig : bool;
  wantKconfigs : bool
}.

Definition resolve1 (arch : string) (r : targets) (tgt : string) : result TargetError targets :=
  let '(Resolved mk ar mo co kc) := r in
  if tgt =s "vmlinux" then
    Ok (Resolved (mk ++ ["vmlinux"]) (<["vmlinux" := "/out/vmlinux"]> ar) mo co kc)
  else if tgt =s "image" then
    if arch =s "arm64" then
      Ok (Resolved (mk ++ ["Image"]) (<["arch/arm64/boot/Image" := "/out/Image"]> ar) mo co kc)
    else
      Ok (Resolved (mk ++ ["bzImage"]) (<["arch/x86/boot/bzImage" := "/out/bzImage"]> ar) mo co kc)
  else if tgt =s "modules" then Ok (Resolved (mk ++ ["modules"]) ar true co kc)
  else if tgt =s "config" then Ok (Resolved mk ar mo true kc)
  else if tgt =s "kconfigs" then Ok (Resolved mk ar mo co true)
  else Err (TUnknown tgt).

Definition resolveTargets (env : gmap string string) : result TargetError targets :=
  let arch := getenv env "KARCH" in
  let raw := getenv env "TARGETS" in
  if raw =s "" then Err TEmpty
  else foldR (resolve1 arch) (Resolved [] ∅ false false false) (Split raw ",").

(** ** The compile command *)

Definition when_set (v : string) (arg : string) : list string :=
  if v <>s "" then [arg +:+ v] else [].

Definition archArgs (env : gmap string string) : list string :=
  when_set (getenv env "KARCH") "ARCH=" ++ when_set (getenv env "CROSS_COMPILE") "CROSS_COMPILE=".

(** make's -j; GOMAXPROCS(0) is a parameter of the run, and so is [jobs] from here on. *)
Definition jobs (GOMAXPROCS : Z) : Z := if (0 <? GOMAXPROCS)%Z then GOMAXPROCS else 1.

Definition makeArgs (jobs : Z) (env : gmap string string) (makeTargets : list string) : list string :=
  let arch := getenv env "KARCH" in
  ["-j" +:+ dec jobs]
  ++ (if (arch =s "") || (arch =s "x86_64") then ["KCFLAGS=-Wa,-mx86-used-note=no"] else [])
  ++ makeTargets ++ archArgs env.

(** ** Seed configuration *)

Record seedCfg := MkSeedCfg {
  url : string;
  key : string;
  region : string;
  push : bool
}.

Definition seed_line (c : seedCfg) (line : string) : seedCfg :=
  let '(k, v, _) := Cut (TrimSpace line) "=" in
  if k =s "SEED_URL" then MkSeedCfg v (key c) (region c) (push c)
  else if k =s "SEED_KEY" then MkSeedCfg (url c) v (region c) (push c)
  else if k =s "SEED_REGION" then MkSeedCfg (url c) (key c) v (push c)
  else if k =s "SEED_PUSH" then MkSeedCfg (url c) (key c) (region c) (v =s "1")
  else c.

(** [secrets] is the content of the files under /run/secrets. *)
Definition loadSeedCfg (secrets : gmap string string) : option seedCfg :=
  raw ← secrets !! "seed_cfg";
  let c := foldl seed_line (MkSeedCfg "" "" "" false) (Split raw LF) in
  if (url c =s "") || (key c =s "") then None
  else if forallb (λ name, bool_decide (is_Some (secrets !! name)))
                  ["seed_access_key"; "seed_secret_key"]
  then Some c else None.

Inductive SeedPushError := SPMissing | SPNoPush.

Definition checkSeedPush (env : gmap string string) (seed : option seedCfg) :
    result SeedPushError unit :=
  if getenv env "SEED_PUSH" <>s "1" then Ok tt
  else match seed with
       | None => Err SPMissing
       | Some c => if push c then Ok tt else Err SPNoPush
       end.

(** The endpoint and bucket [s3Client] talks to, and the signing region; [None]
    is the [want https://host/bucket] error. *)
Definition s3Target (c : seedCfg) : option (string * string * string) :=
  let '(endpoint, bucket, ok) := Cut (TrimPrefix (url c) "https://") "/" in
  if negb ok || (bucket =s "") then None
  else Some ("https://" +:+ endpoint, bucket, if region c =s "" then "auto" else region c).

(** What the S3 library is configured with, and the bucket; [None] is an error, of the
    URL or of a secret that cannot be read. LoadDefaultConfig itself is the library's. *)
Record S3Client := MkS3Client {
  BaseEndpoint : string;
  WithRegion : string;
  AccessKeyID : string;
  SecretAccessKey : string;
  UsePathStyle : bool
}.

Definition s3Client (secrets : gmap string string) (c : seedCfg) : option (S3Client * string) :=
  '(endpoint, bucket, region) ← s3Target c;
  ak ← secrets !! "seed_access_key";
  sk ← secrets !! "seed_secret_key";
  Some (MkS3Client endpoint region (TrimSpace ak) (TrimSpace sk) true, bucket).

Example resolve_default :
  resolveTargets (compile_env "" DefaultSpec) =
  Ok (Resolved ["vmlinux"] {["vmlinux" := "/out/vmlinux"]} false false false).
Proof. by vm_compute. Qed.

(** ** Reading the environment of the graph *)

Definition sets (k : string) (o : RunOption State) : bool :=
  match o with AddEnv k' _ => k' =s k | _ => false end.

Definition add_env (m : gmap string string) (o : RunOption State) : gmap string string :=
  match o with AddEnv k v => <[k := v]> m | _ => m end.

Lemma env_skip k m opts :
  Forall (λ o, sets k o = false) opts → foldl add_env m opts !! k = m !! k.
Proof.
  revert m. induction opts as [|o opts IH]; intros m; [done|].
  rewrite Forall_cons. intros [Ho H]. cbn [foldl]. rewrite IH by done.
  destruct o; try done. cbn in *. apply lookup_insert_ne. by apply eqb_false in Ho.
Qed.

(** The options after the fixed ones set SEED_PUSH and SEED_ACTION at most. *)
Lemma run_opts_env nonce s k :
  k ≠ "SEED_PUSH" → k ≠ "SEED_ACTION" →
  compile_env nonce s !! k = foldl add_env ∅ (take 22 (run_opts nonce s)) !! k.
Proof.
  intros H1 H2. unfold compile_env, env_of. fold add_env.
  rewrite <- (take_drop 22 (run_opts nonce s)) at 1. rewrite foldl_app.
  change (foldl (λ m o, match o with AddEnv k v => <[k := v]> m | _ => m end)) with (foldl add_env).
  rewrite env_skip; [done|].
  unfold run_opts, proxy_opts. destruct (source_identity s) as [[id u] sha].
  cbn [app drop]. repeat (apply Forall_app; split); apply Forall_when; intros _;
    repeat (apply Forall_cons; split); try apply Forall_nil; try done;
    unfold sets; by apply eqb_false.
Qed.

Lemma lookup_compile nonce s k v :
  In (k, v) [("KARCH", archOrDefault s); ("CROSS_COMPILE", crossOrDefault s);
             ("TARGETS", Join (targetsOrDefault s) ","); ("BASE_MAKE", BaseMake s);
             ("SRC_LOCAL", SourceLocalName s); ("SOURCE_DATE_EPOCH", SourceDateEpoch s);
             ("APPLY_PATCHES", if ApplyPatches s then "1" else "0");
             ("SRC_ID", (source_identity s).1.1); ("SRC_URL", (source_identity s).1.2);
             ("SRC_SHA256", (source_identity s).2)] →
  compile_env nonce s !! k = Some v.
Proof.
  intros H. rewrite run_opts_env.
  - unfold run_opts. destruct (source_identity s) as [[id u] sha]. cbn [app take foldl add_env].
    repeat destruct H as [[= <- <-]|H]; try done;
      repeat (rewrite lookup_insert_eq || rewrite lookup_insert_ne by done); done.
  - intros ->. repeat destruct H as [[=]|H]; done.
  - intros ->. repeat destruct H as [[=]|H]; done.
Qed.

Lemma getenv_compile nonce s k v :
  In (k, v) [("KARCH", archOrDefault s); ("CROSS_COMPILE", crossOrDefault s);
             ("TARGETS", Join (targetsOrDefault s) ","); ("BASE_MAKE", BaseMake s);
             ("SRC_LOCAL", SourceLocalName s); ("SOURCE_DATE_EPOCH", SourceDateEpoch s);
             ("APPLY_PATCHES", if ApplyPatches s then "1" else "0")] →
  getenv (compile_env nonce s) k = v.
Proof.
  intros H. unfold getenv. rewrite (lookup_compile nonce s k v); [done|].
  repeat destruct H as [<-|H]; try done; simpl; tauto.
Qed.

(** The step's own environment holds the graph's. *)
Lemma getenv_within nonce s env k v :
  compile_env nonce s ⊆ env →
  In (k, v) [("KARCH", archOrDefault s); ("CROSS_COMPILE", crossOrDefault s);
             ("TARGETS", Join (targetsOrDefault s) ","); ("BASE_MAKE", BaseMake s);
             ("SRC_LOCAL", SourceLocalName s); ("SOURCE_DATE_EPOCH", SourceDateEpoch s);
             ("APPLY_PATCHES", if ApplyPatches s then "1" else "0");
             ("SRC_ID", (source_identity s).1.1); ("SRC_URL", (source_identity s).1.2);
             ("SRC_SHA256", (source_identity s).2)] →
  getenv env k = v.
Proof.
  intros Hsub Hin. unfold getenv. by rewrite (lookup_weaken _ _ _ _ (lookup_compile nonce s k v Hin) Hsub).
Qed.

Lemma getenv_push nonce s :
  getenv (compile_env nonce s) "SEED_PUSH" = if SeedPush s then "1" else "".
Proof.
  unfold getenv, compile_env, env_of.
  change (foldl (λ m o, match o with AddEnv k v => <[k := v]> m | _ => m end)) with (foldl add_env).
  assert (∀ m l, Forall (λ o, sets "SEED_PUSH" o = false) l →
            foldl add_env m (l ++ when (SeedPush s) [AddEnv "SEED_PUSH" "1"; AddEnv "SEED_ACTION" nonce])
              !! "SEED_PUSH" = if SeedPush s then Some "1" else m !! "SEED_PUSH") as Hl.
  { intros m l Hl. rewrite foldl_app. destruct (SeedPush s); cbn [when foldl add_env].
    - by rewrite lookup_insert_ne, lookup_insert_eq by done.
    - by apply env_skip. }
  unfold run_opts, proxy_opts. destruct (source_identity s) as [[id u] sha].
  rewrite !app_assoc, Hl; [by destruct (SeedPush s)|].
  repeat (apply Forall_app; split); [|apply Forall_when..];
    repeat (apply Forall_cons; split); try apply Forall_nil; try done; intros _; by apply Forall_singleton.
Qed.

(** ** Targets, declaratively *)

Definition make_target_of (arch t : string) : option string :=
  if t =s "vmlinux" then Some "vmlinux"
  else if t =s "image" then Some (if arch =s "arm64" then "Image" else "bzImage")
  else if t =s "modules" then Some "modules" else None.

Definition artifact_of (arch t : string) : option (string * string) :=
  if t =s "vmlinux" then Some ("vmlinux", "/out/vmlinux")
  else if t =s "image" then
    Some (if arch =s "arm64" then ("arch/arm64/boot/Image", "/out/Image")
          else ("arch/x86/boot/bzImage", "/out/bzImage"))
  else None.

Definition listed (t : string) (ts : list string) : bool := existsb (String.eqb t) ts.

(** What resolving a list of known tokens yields. *)
Definition resolved (arch : string) (ts : list string) (r : targets) : Prop :=
  makeTargets r = omap (make_target_of arch) ts ∧
  (∀ src dst, artifacts r !! src = Some dst ↔ ∃ t, In t ts ∧ artifact_of arch t = Some (src, dst)) ∧
  wantModules r = listed "modules" ts ∧ wantConfig r = listed "config" ts ∧
  wantKconfigs r = listed "kconfigs" ts.

Lemma listed_snoc t ts x : listed t (ts ++ [x]) = listed t ts || (t =s x).
Proof. unfold listed. rewrite existsb_app. cbn [existsb]. by rewrite orb_false_r. Qed.

Lemma artifacts_snoc arch (ar : gmap string string) ts x :
  (∀ src dst, ar !! src = Some dst ↔ ∃ t, In t ts ∧ artifact_of arch t = Some (src, dst)) →
  ∀ src dst,
    (match artifact_of arch x with Some (a, b) => <[a := b]> ar | None => ar end) !! src = Some dst ↔
    ∃ t, In t (ts ++ [x]) ∧ artifact_of arch t = Some (src, dst).
Proof.
  intros H src dst. assert ((∃ t, In t (ts ++ [x]) ∧ artifact_of arch t = Some (src, dst)) ↔
    (∃ t, In t ts ∧ artifact_of arch t = Some (src, dst)) ∨ artifact_of arch x = Some (src, dst)) as ->.
  { setoid_rewrite in_app_iff. simpl. naive_solver. }
  rewrite <- H. destruct (artifact_of arch x) as [[a b]|] eqn:E; [|naive_solver].
  destruct (decide (a = src)) as [->|Hne].
  - rewrite lookup_insert_eq. split; [naive_solver|]. intros [Hs|[= ->]]; [|done].
    apply H in Hs as (t & _ & Ht). revert E Ht. unfold artifact_of.
    destruct (t =s "vmlinux"), (x =s "vmlinux"), (t =s "image"), (x =s "image"), (arch =s "arm64");
      intros; simplify_eq; done.
  - rewrite lookup_insert_ne by done. naive_solver.
Qed.

Lemma resolve1_known arch ts r x :
  resolved arch ts r → In x ["vmlinux"; "image"; "modules"; "config"; "kconfigs"] →
  ∃ r', resolve1 arch r x = Ok r' ∧ resolved arch (ts ++ [x]) r'.
Proof.
  intros (Hm & Ha & Hmo & Hco & Hk) Hx. pose proof (artifacts_snoc arch _ ts x Ha) as Ha'.
  destruct r as [mk ar mo co kc]. cbn in Hm, Hmo, Hco, Hk, Ha'. subst.
  unfold resolved. setoid_rewrite omap_app. rewrite !listed_snoc.
  repeat destruct Hx as [<-|Hx]; try done; unfold resolve1, artifact_of, make_target_of in *;
    cbn -[omap app] in *; try destruct (arch =s "arm64"); eexists; (split; [reflexivity|]); cbn -[omap app];
    rewrite ?orb_false_r, ?orb_true_r, ?app_nil_r; split_and!; done.
Qed.

Lemma resolve_known arch ts0 ts r :
  resolved arch ts0 r → Forall (λ t, In t ["vmlinux"; "image"; "modules"; "config"; "kconfigs"]) ts →
  ∃ r', foldR (resolve1 arch) r ts = Ok r' ∧ resolved arch (ts0 ++ ts) r'.
Proof.
  intros Hr Hts. revert ts0 r Hr. induction Hts as [|x ts Hx _ IH]; intros ts0 r Hr.
  - exists r. by rewrite app_nil_r.
  - destruct (resolve1_known _ _ _ _ Hr Hx) as (r1 & H1 & Hr1).
    destruct (IH _ _ Hr1) as (r2 & H2 & Hr2). exists r2. cbn [foldR]. rewrite H1.
    split; [exact H2|]. by rewrite <- app_assoc in Hr2.
Qed.

Lemma resolved_nil arch : resolved arch [] (Resolved [] ∅ false false false).
Proof. split_and!; try done. intros src dst. cbn [artifacts]. rewrite lookup_empty. naive_solver. Qed.

(** In any environment with the specification's architecture and targets. *)
Lemma resolveTargets_known (env : gmap string string) (s : Spec) :
  valid_spec s → getenv env "KARCH" = archOrDefault s →
  getenv env "TARGETS" = Join (targetsOrDefault s) "," →
  ∃ r, resolveTargets env = Ok r ∧ resolved (archOrDefault s) (targetsOrDefault s) r.
Proof.
  intros V Ha Ht. destruct (targetsOrDefault_plain s V) as [Hne Hts].
  unfold resolveTargets. rewrite Ha, Ht.
  destruct (targetsOrDefault s) as [|t ts] eqn:E; [done|].
  rewrite Split_Join by (eapply Forall_impl; [exact Hts|]; intros x Hx; by apply known_target_bytes in Hx as (_ & _ & ?)).
  destruct (String.eqb_spec (Join (t :: ts) ",") "") as [Ej|_].
  - exfalso. apply Forall_cons in Hts as [Htt _]. apply known_target_bytes in Htt as (_ & Htt & _).
    destruct ts as [|u ts]; [done|]. rewrite Join_cons in Ej by done. by destruct t.
  - destruct (resolve_known (archOrDefault s) [] (t :: ts) _ (resolved_nil _) Hts) as (r & Hr & Hres).
    by exists r.
Qed.

(** The frontend and the step agree on targets: in the environment of any
    valid specification [resolveTargets] succeeds, and asks make for exactly the
    listed targets in order, lifts exactly their artifacts to /out (the boot image
    of the specification's architecture), and packs modules, copies the config or
    bundles Kconfigs exactly when listed. *)
Theorem resolveTargets_contract (nonce : string) (s : Spec) :
  valid_spec s →
  ∃ r, resolveTargets (compile_env nonce s) = Ok r ∧
       resolved (archOrDefault s) (targetsOrDefault s) r.
Proof. intros V. apply resolveTargets_known; [done|apply getenv_compile; simpl; tauto..]. Qed.

Lemma resolveTargets_contract_witness :
  let s := set_Targets ["image"; "modules"; "config"] DefaultSpec in
  ∃ r, resolveTargets (compile_env "" s) = Ok r ∧ resolved "x86_64" ["image"; "modules"; "config"] r.
Proof.
  intros s. apply (resolveTargets_contract "" s). apply Validate_valid. vm_compute. reflexivity.
Defined.

(** ** Make's command lines *)

(** [configure]: the make base and the final resolution. *)
Definition baseMakeArgs (env : gmap string string) : list string :=
  Fields (getenv env "BASE_MAKE") ++ archArgs env.
Definition olddefconfigArgs (env : gmap string string) : list string :=
  ["olddefconfig"] ++ archArgs env.

(** An argument make reads as a target: no flag, no assignment, no path. *)
Definition plain_target (a : string) : Prop :=
  HasPrefix a "-" = false ∧ ContainsByte a "=" = false ∧ ContainsByte a "/" = false ∧ a ≠ "".

(** The assignments the step itself makes. *)
Definition step_assignment (s : Spec) (a : string) : Prop :=
  a = "ARCH=" +:+ archOrDefault s ∨
  (a = "CROSS_COMPILE=" +:+ crossOrDefault s ∧ crossOrDefault s ≠ "") ∨
  (a = "KCFLAGS=-Wa,-mx86-used-note=no" ∧ archOrDefault s = "x86_64").

Lemma archArgs_spec nonce s :
  valid_spec s → Forall (step_assignment s) (archArgs (compile_env nonce s)).
Proof.
  intros V. unfold archArgs, when_set.
  rewrite (getenv_compile nonce s "KARCH" (archOrDefault s)) by (simpl; tauto).
  rewrite (getenv_compile nonce s "CROSS_COMPILE" (crossOrDefault s)) by (simpl; tauto).
  apply Forall_app. split.
  - destruct (archOrDefault s <>s ""); [|done]. apply Forall_singleton. by left.
  - destruct (String.eqb_spec (crossOrDefault s) ""); [done|]. apply Forall_singleton. right. by left.
Qed.

Lemma archArgs_no_flags env : Forall (λ a, HasPrefix a "KCFLAGS" = false) (archArgs env).
Proof.
  apply Forall_app. split; unfold when_set; destruct (_ <>s ""); try apply Forall_nil_2;
    apply Forall_singleton; reflexivity.
Qed.

Lemma make_target_of_plain arch t x : make_target_of arch t = Some x → plain_target x.
Proof.
  unfold make_target_of. intros H.
  destruct (t =s "vmlinux"); [injection H as <-; by vm_compute|].
  destruct (t =s "image"); [injection H as <-; destruct (arch =s "arm64"); by vm_compute|].
  destruct (t =s "modules"); [injection H as <-; by vm_compute|done].
Qed.

(** C21. No specification reaches make as anything but targets: every word of the
    three command lines - base configs, olddefconfig, compile - is a plain target
    name (not a flag, not a variable assignment, not a path), one of the step's own
    assignments with the specification's architecture and cross prefix, or, on the
    compile line only, the leading job count; the x86-only assembler flag is passed
    for x86_64 alone. *)
Theorem make_argv_safe (nonce : string) (jobs : Z) (s : Spec) (r : targets) :
  valid_spec s → resolveTargets (compile_env nonce s) = Ok r →
  let env := compile_env nonce s in
  let ok a := plain_target a ∨ step_assignment s a in
  Forall ok (baseMakeArgs env) ∧ Forall ok (olddefconfigArgs env) ∧
  ∃ rest, makeArgs jobs env (makeTargets r) = ("-j" +:+ dec jobs) :: rest ∧ Forall ok rest ∧
          (In "KCFLAGS=-Wa,-mx86-used-note=no" rest ↔ archOrDefault s = "x86_64").
Proof.
  intros V Hr env ok. pose proof (archArgs_spec nonce s V) as Harch.
  assert (Forall ok (archArgs env)) as Harch'
    by (eapply Forall_impl; [exact Harch|]; intros a Ha; by right).
  assert (Forall plain_target (makeTargets r)) as Hmk.
  { destruct (targetsOrDefault_plain s V) as [Hne Hts].
    unfold resolveTargets in Hr.
    rewrite (getenv_compile nonce s "KARCH" (archOrDefault s)) in Hr by (simpl; tauto).
    rewrite (getenv_compile nonce s "TARGETS" (Join (targetsOrDefault s) ",")) in Hr by (simpl; tauto).
    destruct (targetsOrDefault s) as [|t ts] eqn:E; [done|].
    rewrite Split_Join in Hr
      by (eapply Forall_impl; [exact Hts|]; intros x Hx; by apply known_target_bytes in Hx as (_ & _ & ?)).
    destruct (_ =s ""); [done|].
    destruct (resolve_known (archOrDefault s) [] (t :: ts) _ (resolved_nil _) Hts)
      as (r' & Hr' & (Hm & _)).
    rewrite Hr' in Hr. injection Hr as <-. rewrite Hm. apply Forall_forall.
    intros x (y & _ & Hy)%list_elem_of_omap. by eapply make_target_of_plain. }
  split; [|split].
  - apply Forall_app. split; [|done]. unfold env.
    rewrite (getenv_compile nonce s "BASE_MAKE" (BaseMake s)) by (simpl; tauto).
    eapply Forall_impl; [exact (v_base_make _ V)|]. intros a Ha. left. by apply make_target_plain.
  - apply Forall_cons. split; [left; by vm_compute|done].
  - unfold makeArgs. unfold env at 1 2.
    rewrite (getenv_compile nonce s "KARCH" (archOrDefault s)) by (simpl; tauto).
    eexists. split; [reflexivity|].
    assert (¬ In "KCFLAGS=-Wa,-mx86-used-note=no" (makeTargets r ++ archArgs env)) as Hno.
    { rewrite in_app_iff, <- !list_elem_of_In. intros [Hin|Hin].
      - rewrite Forall_forall in Hmk. apply Hmk in Hin as (_ & Hin & _). by vm_compute in Hin.
      - pose proof (archArgs_no_flags env) as Hf. rewrite Forall_forall in Hf. by apply Hf in Hin. }
    assert (Forall ok (makeTargets r ++ archArgs env)) as Hall.
    { apply Forall_app. split; [|done]. eapply Forall_impl; [exact Hmk|]. intros a Ha. by left. }
    destruct (valid_arch _ V) as [Ha|Ha]; rewrite Ha; cbn -[In archArgs].
    + split; [|split; [done|]]; [|intros _; by left].
      apply Forall_cons. split; [|done]. right. right. by right.
    + split; [done|]. split; [intros Hin; by apply Hno in Hin|done].
Qed.

Lemma make_argv_safe_witness :
  let s := set_BaseMake "defconfig kvm_guest.config" DefaultSpec in
  let r := Resolved ["vmlinux"] {["vmlinux" := "/out/vmlinux"]} false false false in
  resolveTargets (compile_env "" s) = Ok r ∧
  Forall (λ a, plain_target a ∨ step_assignment s a) (baseMakeArgs (compile_env "" s)).
Proof.
  intros s r.
  assert (resolveTargets (compile_env "" s) = Ok r) as H by (vm_compute; reflexivity).
  split; [exact H|]. refine (proj1 (make_argv_safe "" 4 s r _ H)).
  apply Validate_valid. vm_compute. reflexivity.
Defined.

(** ** The seed configuration survives the trip *)

Lemma seed_key_printable s : valid_spec s → safe_path (SeedPrefix s) →
  all_bytes printable (seed_key s) = true.
Proof.
  intros V Hp. pose proof (safe_cache_id s V) as Hid. unfold cache_mount_id in Hid.
  rewrite all_bytes_app in Hid. apply andb_true_iff in Hid as [_ Hid].
  apply printable_make in Hid. unfold seed_key. rewrite !all_bytes_app, Hid.
  assert (all_bytes printable (SeedPrefix s) = true) as -> by auto with kb. done.
Qed.

Lemma seed_line_value c k v :
  all_bytes printable v = true → all_bytes (λ b, printable b && negb (Ascii.eqb b "=")) k = true →
  seed_line c (k +:+ String "=" v) =
  if k =s "SEED_URL" then MkSeedCfg v (key c) (region c) (push c)
  else if k =s "SEED_KEY" then MkSeedCfg (url c) v (region c) (push c)
  else if k =s "SEED_REGION" then MkSeedCfg (url c) (key c) v (push c)
  else if k =s "SEED_PUSH" then MkSeedCfg (url c) (key c) (region c) (v =s "1")
  else c.
Proof.
  intros Hv Hk. unfold seed_line. rewrite TrimSpace_trimmed.
  - rewrite Cut_app; [done|]. by apply (all_bytes_lacks _ _ _ Hk).
  - apply trimmed_printable; [by destruct k|]. rewrite all_bytes_app.
    apply andb_true_iff. split; [|exact Hv].
    eapply all_bytes_impl; [|exact Hk]. intros b Hb. by apply andb_true_iff in Hb as [? _].
Qed.

Lemma line_plain k v :
  all_bytes printable k = true → all_bytes printable v = true →
  ContainsByte (k +:+ String "=" v) LF = false.
Proof.
  intros Hk Hv. apply (all_bytes_lacks printable); [|done].
  rewrite all_bytes_app, Hk. exact Hv.
Qed.

Lemma loadSeedCfg_SeedCfg (s : Spec) (secrets : gmap string string) :
  valid_spec s → SeedURL s ≠ "" →
  secrets !! "seed_cfg" = SeedCfg s →
  loadSeedCfg secrets =
  if bool_decide (is_Some (secrets !! "seed_access_key")) &&
     bool_decide (is_Some (secrets !! "seed_secret_key"))
  then Some (MkSeedCfg (SeedURL s) (seed_key s)
               (if SeedRegion s =s "" then "auto" else SeedRegion s) (SeedPush s))
  else None.
Proof.
  intros V Hne Hs. unfold loadSeedCfg. rewrite Hs. unfold SeedCfg.
  destruct (v_seed _ V) as [?|(Hu%seed_url_bytes & Hp & Hreg)]; [done|].
  destruct (String.eqb_spec (SeedURL s) "") as [|_]; [done|].
  set (reg := if SeedRegion s =s "" then "auto" else SeedRegion s).
  assert (all_bytes printable reg = true) as Hr.
  { unfold reg. destruct Hreg as [->|Hreg]; [done|].
    destruct (SeedRegion s =s ""); [done|]. eapply named_bytes; [..|exact Hreg]; by vm_compute. }
  pose proof (seed_key_printable s V Hp) as Hk.
  assert (seed_key s ≠ "") as Hkne by (unfold seed_key; by destruct (SeedPrefix s)).
  clearbody reg. revert Hk Hkne. generalize (seed_key s). intros k Hk Hkne.
  set (p := if SeedPush s then "1" else "0").
  assert (all_bytes printable p = true ∧ (p =s "1") = SeedPush s) as [Hpp Hp1]
    by (unfold p; by destruct (SeedPush s)).
  cbn [mbind option_bind].
  change (Split _ LF) with (Split (foldr (λ w r, w +:+ String LF r) ""
    ["SEED_URL" +:+ String "=" (SeedURL s); "SEED_KEY" +:+ String "=" k;
     "SEED_REGION" +:+ String "=" reg; "SEED_PUSH" +:+ String "=" p]) LF).
  rewrite Split_lines by (repeat (apply Forall_cons; split); try apply Forall_nil_2; by apply line_plain).
  clearbody p. cbn [app foldl].
  do 4 (rewrite (seed_line_value (MkSeedCfg _ _ _ _)) by first [assumption | vm_compute; reflexivity];
        cbn [String.eqb Ascii.eqb Bool.eqb url key region push]).
  change (seed_line ?c "") with c. rewrite Hp1. cbn [url key].
  destruct (String.eqb_spec (SeedURL s) ""), (String.eqb_spec k ""); try done.
  cbn [orb forallb]. rewrite andb_true_r. reflexivity.
Qed.

(** The seed configuration round-trips through the secret: what the client
    renders from a valid specification, the step reads back field for field - the
    URL, the object key, the region ([auto] when none was given) and the push flag -
    whatever those fields are, provided both credentials are mounted; with either
    credential or the secret missing the step does not seed. *)
Theorem seed_cfg_roundtrip (s : Spec) (secrets : gmap string string) :
  valid_spec s → SeedURL s ≠ "" →
  secrets !! "seed_cfg" = SeedCfg s →
  loadSeedCfg secrets =
  if bool_decide (is_Some (secrets !! "seed_access_key")) &&
     bool_decide (is_Some (secrets !! "seed_secret_key"))
  then Some (MkSeedCfg (SeedURL s) (seed_key s)
               (if SeedRegion s =s "" then "auto" else SeedRegion s) (SeedPush s))
  else None.
Proof. apply loadSeedCfg_SeedCfg. Qed.

Lemma seed_cfg_roundtrip_witness :
  let s := set_SeedURL "https://s3.example.com/bucket" DefaultSpec in
  let secrets := <["seed_cfg" := default "" (SeedCfg s)]>
                   (<["seed_access_key" := "a"]> (<["seed_secret_key" := "b"]> ∅)) in
  loadSeedCfg secrets = Some (MkSeedCfg "https://s3.example.com/bucket" (seed_key s) "auto" false).
Proof.
  intros s secrets. refine (seed_cfg_roundtrip s secrets _ _ _).
  - apply Validate_valid. vm_compute. reflexivity.
  - discriminate.
  - reflexivity.
Defined.

(** A requested push never silently publishes nothing: the step of a
    specification that asks for a push refuses to run unless the seed configuration
    and both credentials are mounted, and a step that was not asked never refuses. *)
Theorem checkSeedPush_contract (nonce : string) (s : Spec) (secrets : gmap string string) :
  valid_spec s → SeedURL s ≠ "" → secrets !! "seed_cfg" = SeedCfg s →
  let creds := is_Some (secrets !! "seed_access_key") ∧ is_Some (secrets !! "seed_secret_key") in
  let r := checkSeedPush (compile_env nonce s) (loadSeedCfg secrets) in
  if SeedPush s
  then (r = Ok tt ↔ creds) ∧ (r = Err SPMissing ↔ ¬ creds)
  else r = Ok tt.
Proof.
  intros V Hne Hs creds r.
  assert (loadSeedCfg secrets = if bool_decide creds
    then Some (MkSeedCfg (SeedURL s) (seed_key s)
                 (if SeedRegion s =s "" then "auto" else SeedRegion s) (SeedPush s)) else None) as Hl.
  { rewrite (loadSeedCfg_SeedCfg s secrets) by done. subst creds. rewrite bool_decide_and. done. }
  subst r. rewrite Hl. unfold checkSeedPush. rewrite getenv_push.
  destruct (SeedPush s); [|done]. cbn.
  destruct (bool_decide_reflect creds); cbn; naive_solver.
Qed.

Lemma checkSeedPush_contract_witness :
  let s := set_SeedPush true (set_SeedURL "https://s3.example.com/bucket" DefaultSpec) in
  let secrets := {["seed_cfg" := default "" (SeedCfg s)]} : gmap string string in
  checkSeedPush (compile_env "" s) (loadSeedCfg secrets) = Err SPMissing.
Proof.
  intros s secrets.
  refine (proj2 (proj2 (checkSeedPush_contract "" s secrets _ _ _)) _).
  - apply Validate_valid. vm_compute. reflexivity.
  - discriminate.
  - reflexivity.
  - intros [[x Hx] _]. discriminate Hx.
Defined.

Lemma hasLine_iff config line :
  ContainsByte line LF = false →
  hasLine config line = true ↔ In line (removelast (Split config LF)).
Proof.
  intros Hl. unfold hasLine. rewrite orb_true_iff, HasPrefix_spec, Contains_spec. split.
  - intros [[t ->]|(a & b & ->)].
    + rewrite str_app_assoc. cbn [String.append]. rewrite app_cons, app_nil_l, Split_app by done.
      cbn [removelast]. destruct (Split t LF) eqn:E; [by apply Split_cons_ne in E|]. by left.
    + rewrite app_cons, Split_app_gen, str_app_assoc, app_cons, app_nil_l, Split_app by done.
      destruct (Split b LF) as [|w ws] eqn:E; [by apply Split_cons_ne in E|].
      rewrite removelast_app by done. apply in_or_app. right. by left.
  - intros Hin.
    assert (Split config LF = removelast (Split config LF) ++ [List.last (Split config LF) ""]) as Hs
      by (apply app_removelast_last; apply Split_cons_ne).
    apply in_split in Hin as (l1 & l2 & Hin). rewrite Hin in Hs.
    rewrite <- (Join_Split config LF), Hs. set (e := List.last _ _). clearbody e. clear Hs Hin.
    assert (∀ w l, l ≠ [] → ∃ t, Join (w :: l) (String LF "") = w +:+ String LF t) as Hh.
    { intros w l Hne. rewrite Join_cons by done. by eexists. }
    rewrite <- app_assoc. cbn [app].
    destruct l1 as [|w l1].
    + left. cbn [app]. destruct (Hh line (l2 ++ [e])) as [t Ht]; [by destruct l2|].
      exists t. rewrite Ht, str_app_assoc. done.
    + right. destruct (Hh line (l2 ++ [e])) as [t Ht]; [by destruct l2|].
      revert w. induction l1 as [|v l1 IH]; intros w.
      * exists w, t. cbn [app]. rewrite Join_cons by done. rewrite Ht.
        by rewrite !app_cons, !app_nil_l, str_app_assoc, app_cons, app_nil_l.
      * destruct (IH v) as (a & b & Hab). exists (w +:+ String LF a), b.
        change ((w :: v :: l1) ++ line :: l2 ++ [e]) with (w :: ((v :: l1) ++ line :: l2 ++ [e])).
        rewrite Join_cons by done. rewrite Hab.
        by rewrite !app_cons, !app_nil_l, !str_app_assoc, !app_cons, !app_nil_l.
Qed.

(** [modulesEnabled] reads lines: it is true exactly when CONFIG_MODULES=y is
    a complete (newline-terminated) line of the config, the first line included,
    so neither a comment, a longer symbol, another value nor an unterminated last
    line counts. *)
Theorem modulesEnabled_line (config : string) :
  modulesEnabled config = true ↔ In "CONFIG_MODULES=y" (removelast (Split config LF)).
Proof. apply hasLine_iff. by vm_compute. Qed.
