(* ===== verification/Expect.v ===== *)
(** cmd/kbuild-step/expect.go, [validateExpectations]: the gate between
    olddefconfig and the compile. The loop is modelled with the marker lines it
    prints; an expectation language with a meaning on configs is its contract. *)

From S2P Require Import Prelude GoString GoRegexp Spec SpecValid.

(** ** The gate *)

(** What [os.ReadFile] finds. *)
Inductive file := Missing | Unreadable | Content (s : string).

Definition expectSymRe : re := Eval vm_compute in compiled (MustCompile "^CONFIG_[A-Z0-9_]+$").

Inductive ExpectError :=
  | XRead                                   (* the expectation file itself *)
  | XNoConfig
  | XSyntax (line : nat) (l : string)
  | XSymbol (line : nat) (arg : string)
  | XOp (line : nat) (op : string)
  | XFailed (failures n : nat).

(** [set] and [lines] of the resolved config. *)
Definition config_line (m : gset string * gset string) (l : string) : gset string * gset string :=
  let '(on, lines) := m in
  let lines := {[l]} ∪ lines in
  let '(sym, val, ok) := Cut l "=" in
  if ok && HasPrefix sym "CONFIG_" && ((val =s "y") || (val =s "m"))
  then ({[sym]} ∪ on, lines) else (on, lines).

Definition config_index (cfg : string) : gset string * gset string :=
  foldl config_line (∅, ∅) (Split cfg LF).

(** The loop state: expectations counted, failures counted, markers printed. *)
Record gate := Gate { checked : nat; failures : nat; markers : list string }.

Definition marker (op arg : string) : string := "KBF-EXPECT-FAIL " +:+ op +:+ " " +:+ arg.

(** One line; an error leaves the loop, with the markers printed so far. *)
Definition expect_line (on lines : gset string) (i : nat) (g : gate) (l : string) :
    gate * option ExpectError :=
  let l := TrimSpace l in
  if (l =s "") || HasPrefix l "#" then (g, None)
  else
    let '(op, arg, ok) := Cut l " " in
    let arg := TrimSpace arg in
    if negb ok || (arg =s "") then (g, Some (XSyntax (S i) l))
    else
      let count (bad : bool) :=
        (Gate (S (checked g)) (if bad then S (failures g) else failures g)
              (if bad then markers g ++ [marker op arg] else markers g), None : option ExpectError) in
      if (op =s "y") || (op =s "n") then
        if negb (MatchString expectSymRe arg) then (g, Some (XSymbol (S i) arg))
        else count (negb (Bool.eqb (bool_decide (arg ∈ on)) (op =s "y")))
      else if op =s "=" then count (negb (bool_decide (arg ∈ lines)))
      else (g, Some (XOp (S i) op)).

Fixpoint expect_lines (on lines : gset string) (i : nat) (g : gate) (ls : list string) :
    gate * option ExpectError :=
  match ls with
  | [] => (g, None)
  | l :: ls =>
      match expect_line on lines i g l with
      | (g, Some e) => (g, Some e)
      | (g, None) => expect_lines on lines (S i) g ls
      end
  end.

(** The markers printed and the error returned. *)
Definition validateExpectations (expect config : file) : list string * option ExpectError :=
  match expect with
  | Missing => ([], None)
  | Unreadable => ([], Some XRead)
  | Content raw =>
      match config with
      | Content cfg =>
          let '(on, lines) := config_index cfg in
          let '(g, e) := expect_lines on lines 0 (Gate 0 0 []) (Split raw LF) in
          match e with
          | Some e => (markers g, Some e)
          | None => (markers g, if (0 <? failures g)%nat then Some (XFailed (failures g) (checked g))
                                else None)
          end
      | _ => ([], Some XNoConfig)
      end
  end.

Example gate_example :
  validateExpectations
    (Content ("y CONFIG_KVM_GUEST" +:+ String LF ("# note" +:+ String LF "n CONFIG_DRM")))
    (Content ("CONFIG_KVM_GUEST=m" +:+ String LF "CONFIG_DRM=y")) =
  (["KBF-EXPECT-FAIL n CONFIG_DRM"], Some (XFailed 1 2)).
Proof. by vm_compute. Qed.

(** ** The expectation language *)

Inductive expectation :=
  | On (sym : string)
  | Off (sym : string)
  | Verbatim (l : string).

(** What an expectation says of a config text. *)
Definition enabled (cfg sym : string) : Prop :=
  In (sym +:+ "=y") (Split cfg LF) ∨ In (sym +:+ "=m") (Split cfg LF).

Definition holds (cfg : string) (e : expectation) : Prop :=
  match e with
  | On sym => enabled cfg sym
  | Off sym => ¬ enabled cfg sym
  | Verbatim l => In l (Split cfg LF)
  end.

#[export] Instance holds_dec cfg e : Decision (holds cfg e).
Proof. destruct e; unfold holds, enabled; apply _. Defined.

Definition sym_byte (c : ascii) : bool := in_range "A" "Z" c || is_digit c || Ascii.eqb c "_".
Definition is_symbol (v : string) : Prop := ∃ t, v = "CONFIG_" +:+ t ∧ named sym_byte sym_byte t.

(** A line: nothing, an expectation, or malformed. *)
Definition read_line (i : nat) (l : string) : option expectation + ExpectError :=
  let l := TrimSpace l in
  if (l =s "") || HasPrefix l "#" then inl None
  else
    let '(op, arg, ok) := Cut l " " in
    let arg := TrimSpace arg in
    if negb ok || (arg =s "") then inr (XSyntax (S i) l)
    else if (op =s "y") || (op =s "n") then
      if negb (MatchString expectSymRe arg) then inr (XSymbol (S i) arg)
      else inl (Some (if op =s "y" then On arg else Off arg))
    else if op =s "=" then inl (Some (Verbatim arg))
    else inr (XOp (S i) op).

Definition complaint (e : expectation) : string :=
  match e with
  | On sym => marker "y" sym
  | Off sym => marker "n" sym
  | Verbatim l => marker "=" l
  end.

(** The expectations up to the first malformed line, and its error. *)
Fixpoint read_lines (i : nat) (ls : list string) : list expectation * option ExpectError :=
  match ls with
  | [] => ([], None)
  | l :: ls =>
      match read_line i l with
      | inl o => let '(es, err) := read_lines (S i) ls in (option_list o ++ es, err)
      | inr e => ([], Some e)
      end
  end.

(** ** The index and the config *)

Lemma expectSymRe_spec v : MatchString expectSymRe v = true ↔ is_symbol v.
Proof.
  rewrite MatchString_spec. unfold expectSymRe, is_symbol.
  do 7 setoid_rewrite matches_lit.
  setoid_rewrite (matches_named _ _ sym_byte sym_byte); [|class..].
  split.
  - intros H. repeat (destruct H as (? & -> & H)). eauto.
  - intros (t & -> & Ht). do 7 (eexists; split; [reflexivity|]). done.
Qed.

Lemma symbol_shape v : is_symbol v → HasPrefix v "CONFIG_" = true ∧ ContainsByte v "=" = false.
Proof.
  intros (t & -> & Ht). split; [apply HasPrefix_app|].
  rewrite ContainsByte_app. apply orb_false_iff. split; [done|].
  apply (all_bytes_lacks sym_byte); [|done]. eapply named_bytes; [..|exact Ht]; by vm_compute.
Qed.

(** A line that puts [x] in the set. *)
Definition sets_on (l x : string) : Prop :=
  ∃ val, Cut l "=" = (x, val, true) ∧ HasPrefix x "CONFIG_" = true ∧ (val = "y" ∨ val = "m").

Lemma config_line_spec on lines l :
  let '(on', lines') := config_line (on, lines) l in
  (∀ x, x ∈ on' ↔ x ∈ on ∨ sets_on l x) ∧ (∀ x, x ∈ lines' ↔ x ∈ lines ∨ x = l).
Proof.
  unfold config_line, sets_on. destruct (Cut l "=") as [[sym val] ok].
  destruct (ok && HasPrefix sym "CONFIG_" && ((val =s "y") || (val =s "m")))%bool eqn:E;
    (split; [|set_solver]); intros x; rewrite ?elem_of_union, ?elem_of_singleton.
  - apply andb_true_iff in E as [[-> Hp]%andb_true_iff Hv].
    rewrite orb_true_iff, !eqb_true in Hv. split.
    + intros [->|?]; [right; by exists val|by left].
    + intros [?|(v & [= -> ->] & _)]; auto.
  - split; [by left|]. intros [?|(v & [= -> -> ->] & Hp & Hv)]; [done|].
    rewrite Hp in E. destruct Hv as [-> | ->]; done.
Qed.

Lemma config_index_spec ls on lines :
  let '(on', lines') := foldl config_line (on, lines) ls in
  (∀ x, x ∈ on' ↔ x ∈ on ∨ ∃ l, In l ls ∧ sets_on l x) ∧
  (∀ x, x ∈ lines' ↔ x ∈ lines ∨ In x ls).
Proof.
  revert on lines. induction ls as [|l ls IH]; intros on lines.
  - cbn. naive_solver.
  - cbn [foldl]. pose proof (config_line_spec on lines l) as Hl.
    destruct (config_line (on, lines) l) as [on1 lines1]. destruct Hl as [Ho Hli].
    specialize (IH on1 lines1). destruct (foldl config_line (on1, lines1) ls) as [on' lines'].
    destruct IH as [Ho' Hl']. cbn [In]. split; intros x.
    + rewrite Ho', Ho. naive_solver.
    + rewrite Hl', Hli. naive_solver.
Qed.

Lemma sets_on_symbol l x : is_symbol x → (sets_on l x ↔ l = x +:+ "=y" ∨ l = x +:+ "=m").
Proof.
  intros [Hp He]%symbol_shape. unfold sets_on. split.
  - intros (val & [Hl _]%Cut_true & _ & [-> | ->]); auto.
  - intros [-> | ->]; (eexists; split; [by apply (Cut_app x)|]); auto.
Qed.

Lemma index_holds cfg on lines :
  config_index cfg = (on, lines) →
  (∀ sym, is_symbol sym → (sym ∈ on ↔ enabled cfg sym)) ∧
  (∀ l, l ∈ lines ↔ In l (Split cfg LF)).
Proof.
  unfold config_index. pose proof (config_index_spec (Split cfg LF) ∅ ∅) as H.
  intros E. rewrite E in H. destruct H as [Ho Hl]. split.
  - intros sym Hs. rewrite Ho. unfold enabled. setoid_rewrite (λ l, sets_on_symbol l sym Hs).
    split; [intros [?|?]; [set_solver|naive_solver]|naive_solver].
  - intros l. rewrite Hl. set_solver.
Qed.

(** ** The loop is the language *)

Lemma expect_line_spec cfg on lines i g l :
  config_index cfg = (on, lines) →
  expect_line on lines i g l =
  match read_line i l with
  | inr e => (g, Some e)
  | inl None => (g, None)
  | inl (Some x) =>
      (Gate (S (checked g)) (failures g + if decide (holds cfg x) then 0 else 1)
            (markers g ++ if decide (holds cfg x) then [] else [complaint x]), None)
  end.
Proof.
  intros Hi. apply index_holds in Hi as [Hon Hl]. unfold expect_line, read_line.
  destruct (_ || _); [done|]. destruct (Cut _ " ") as [[op arg] ok]. destruct (negb ok || _); [done|].
  set (a := TrimSpace arg). clearbody a.
  destruct (String.eqb_spec op "y") as [->|Hy]; [|destruct (String.eqb_spec op "n") as [->|Hn]]; cbn [orb].
  - destruct (MatchString expectSymRe a) eqn:E; cbn [negb]; [|done].
    apply expectSymRe_spec in E. pose proof (Hon a E) as Ha. cbn [String.eqb Ascii.eqb Bool.eqb].
    destruct (decide (holds cfg (On a))) as [H|H]; cbn in H;
      [rewrite bool_decide_true by (by apply Ha)|rewrite bool_decide_false by (by rewrite Ha)]; cbn;
      rewrite ?app_nil_r, ?Nat.add_0_r, ?Nat.add_1_r; done.
  - destruct (MatchString expectSymRe a) eqn:E; cbn [negb]; [|done].
    apply expectSymRe_spec in E. pose proof (Hon a E) as Ha. cbn [String.eqb Ascii.eqb Bool.eqb].
    destruct (decide (holds cfg (Off a))) as [H|H]; cbn in H;
      [rewrite bool_decide_false by (by rewrite Ha)
      |rewrite bool_decide_true by (apply Ha; by destruct (decide (enabled cfg a)))]; cbn;
      rewrite ?app_nil_r, ?Nat.add_0_r, ?Nat.add_1_r; done.
  - destruct (String.eqb_spec op "=") as [->|]; [|done].
    destruct (decide (holds cfg (Verbatim a))) as [H|H]; cbn in H;
      [rewrite bool_decide_true by (by apply Hl)|rewrite bool_decide_false by (by rewrite Hl)]; cbn;
      rewrite ?app_nil_r, ?Nat.add_0_r, ?Nat.add_1_r; done.
Qed.

Definition unmet (cfg : string) (es : list expectation) : list expectation :=
  filter (λ e, ¬ holds cfg e) es.

Lemma unmet_nil cfg es : unmet cfg es = [] ↔ Forall (holds cfg) es.
Proof.
  unfold unmet. induction es as [|e es IH]; [done|].
  rewrite filter_cons, Forall_cons. destruct (decide (holds cfg e)) as [H|H].
  - rewrite decide_False by tauto. tauto.
  - rewrite decide_True by done. split; [done|tauto].
Qed.

Lemma expect_lines_spec cfg on lines i g ls :
  config_index cfg = (on, lines) →
  expect_lines on lines i g ls =
  let '(es, err) := read_lines i ls in
  (Gate (checked g + length es) (failures g + length (unmet cfg es))
        (markers g ++ map complaint (unmet cfg es)), err).
Proof.
  intros Hi. revert i g. induction ls as [|l ls IH]; intros i g.
  - cbn. rewrite app_nil_r, !Nat.add_0_r. by destruct g.
  - cbn [expect_lines read_lines]. rewrite (expect_line_spec cfg) by done.
    destruct (read_line i l) as [[x|]|e].
    + rewrite IH. destruct (read_lines (S i) ls) as [es err]. cbn [checked failures markers].
      cbn [option_list option_rect app length]. unfold unmet. rewrite filter_cons.
      f_equal. destruct (decide (holds cfg x)) as [H|H].
      * rewrite decide_False by tauto. f_equal; [lia|lia|by rewrite app_nil_r].
      * rewrite decide_True by done. cbn [length map]. f_equal; [lia|lia|by rewrite <- app_assoc].
    + rewrite IH. by destruct (read_lines (S i) ls).
    + cbn. rewrite app_nil_r, !Nat.add_0_r. by destruct g.
Qed.

(** The gate on any file, read line by line as the code reads it. *)
Lemma validateExpectations_reads (raw cfg : string) :
  let '(es, err) := read_lines 0 (Split raw LF) in
  validateExpectations (Content raw) (Content cfg) =
  (map complaint (unmet cfg es),
   match err, unmet cfg es with
   | Some e, _ => Some e
   | None, [] => None
   | None, bad => Some (XFailed (length bad) (length es))
   end).
Proof.
  unfold validateExpectations. destruct (config_index cfg) as [on lines] eqn:Hi.
  rewrite (expect_lines_spec cfg) by done.
  destruct (read_lines 0 (Split raw LF)) as [es [e|]]; [done|].
  cbn [checked failures markers app Nat.add]. by destruct (unmet cfg es).
Qed.

(** The documentation also shows comments behind an expectation, which the code takes
    for part of it ([validateExpectations_no_trailing_comment]): the files both read
    alike have a # only where it begins a line. *)
Definition no_trailing_comment (raw : string) : Prop :=
  Forall (λ l, HasPrefix (TrimSpace l) "#" = true ∨ ContainsByte l "#" = false) (Split raw LF).

(** C22. The gate says exactly what is wrong. On any resolved config and any
    expectation file without a comment behind an expectation (there the documentation
    and the code part) it prints one marker per unmet expectation, in order, and
    returns the error of the first malformed line (before which every unmet
    expectation has been reported), else the count of unmet expectations out of all of
    them, else success. A symbol is enabled when the config holds its =y or =m line, a
    verbatim expectation when the config holds that line. *)
Theorem validateExpectations_report (raw cfg : string) :
  no_trailing_comment raw →
  let '(es, err) := read_lines 0 (Split raw LF) in
  validateExpectations (Content raw) (Content cfg) =
  (map complaint (unmet cfg es),
   match err, unmet cfg es with
   | Some e, _ => Some e
   | None, [] => None
   | None, bad => Some (XFailed (length bad) (length es))
   end).
Proof. intros _. apply validateExpectations_reads. Qed.

Lemma validateExpectations_report_witness :
  let raw := "# gate" +:+ String LF ("y CONFIG_KVM_GUEST" +:+ String LF "n CONFIG_DRM") in
  no_trailing_comment raw ∧
  validateExpectations (Content raw) (Content ("CONFIG_DRM=m" +:+ String LF "")) =
  (["KBF-EXPECT-FAIL y CONFIG_KVM_GUEST"; "KBF-EXPECT-FAIL n CONFIG_DRM"], Some (XFailed 2 2)).
Proof.
  intros raw. assert (no_trailing_comment raw) as H.
  { repeat constructor; (left; vm_compute; reflexivity) || (right; vm_compute; reflexivity). }
  split; [exact H|]. rewrite (validateExpectations_report raw _ H). vm_compute. reflexivity.
Defined.

(** The gate fails closed: the step goes on to compile only if there is no
    expectation file, or a readable one whose every line is blank, a comment or a
    well-formed expectation that the resolved config meets. *)
Theorem validateExpectations_gate (expect config : file) :
  (validateExpectations expect config).2 = None ↔
  expect = Missing ∨
  ∃ raw cfg es, expect = Content raw ∧ config = Content cfg ∧
    read_lines 0 (Split raw LF) = (es, None) ∧ Forall (holds cfg) es.
Proof.
  destruct expect as [| |raw]; [cbn; split; auto|split; [done|naive_solver]|].
  destruct config as [| |cfg]; [split; [done|naive_solver]..|].
  unfold validateExpectations. destruct (config_index cfg) as [on lines] eqn:Hi.
  rewrite (expect_lines_spec cfg) by done.
  destruct (read_lines 0 (Split raw LF)) as [es [e|]] eqn:Hr.
  { split; [done|]. intros [?|(? & ? & ? & [= <-] & _ & He & _)]; [done|congruence]. }
  cbn [checked failures markers app Nat.add]. split.
  - intros H. right. exists raw, cfg, es. split_and!; try done. apply unmet_nil.
    by destruct (unmet cfg es).
  - intros [?|(? & ? & ? & [= <-] & [= <-] & Hes & Hall)]; [done|].
    rewrite Hr in Hes. injection Hes as <-. apply unmet_nil in Hall. by rewrite Hall.
Qed.

(** The example lines of the documentation do not pass the gate: a trailing
    comment is part of the argument, so the first line is rejected as not a symbol
    and the last is looked for verbatim, comment included. *)
Theorem validateExpectations_no_trailing_comment (cfg : string) :
  validateExpectations (Content "y CONFIG_KVM_GUEST      # must be y or m") (Content cfg) =
    ([], Some (XSymbol 1 "CONFIG_KVM_GUEST      # must be y or m")) ∧
  validateExpectations (Content "= CONFIG_HZ=100         # exact config line must be present")
    (Content ("CONFIG_HZ=100" +:+ String LF "")) =
    (["KBF-EXPECT-FAIL = CONFIG_HZ=100         # exact config line must be present"],
     Some (XFailed 1 1)).
Proof.
  split; [|by vm_compute]. unfold validateExpectations.
  destruct (config_index cfg) as [on lines]. reflexivity.
Qed.
