(* ===== verification/Download.v ===== *)
(** cmd/kbuild-step/main.go, the source fetch: [parseRetryAfter] and the resuming
    retry loop of [download]. The server, the network and the context are
    parameters: what each attempt meets is a response. *)

From S2P Require Import Prelude GoString GoTime.

(** ** Retry-After *)

Definition Second : Z := 1000000000.

(** A time.Duration in nanoseconds. *)
Definition parseRetryAfter (v : string) : Z :=
  if v =s "" then 0
  else match Atoi (TrimSpace v) with
       | Ok n => if (n <=? 0)%Z then 0 else (if (30 <? n)%Z then 30 else n) * Second
       | Err _ => 0
       end.

Definition retryBase : Z := 2 * Second.

(** ** The loop *)

(** What [client.Do] and the body copy meet in one attempt. *)
Inductive response :=
  | NoResponse (permanent : bool)      (* an error; [isPermanent] of it *)
  | Response (status : Z) (retry_after : string) (body : string) (clean : bool).
                                        (* body bytes read, and whether EOF was clean *)

Inductive DownloadError :=
  | DPermanent
  | DStatus (status : Z)
  | DCancelled
  | DExhausted.

(** The file at [dst] and what was asked of the outside, oldest first. *)
Record transfer := Transfer {
  dst : option string;
  retryAfter : Z;
  requests : list (option Z);   (* Range start of each request *)
  waits : list Z;               (* backoff before each retry *)
  contents : list (option string) (* every content [dst] has had *)
}.

Definition with_dst (d : option string) (t : transfer) : transfer :=
  Transfer d (retryAfter t) (requests t) (waits t) (contents t ++ [d]).

Inductive next := Done | Again | Stop (e : DownloadError).

Section download.
(** [server k range]: what attempt [k] meets; [cancelled k]: the context ends during
    the backoff before attempt [k]. *)
Context (server : nat → option Z → response) (cancelled : nat → bool).

Definition maxAttempts : nat := 5.

(** The backoff before attempt [attempt > 1]. *)
Definition backoff (attempt : nat) (t : transfer) : transfer :=
  let wait := Z.max (retryAfter t) (Z.of_nat attempt * retryBase) in
  Transfer (dst t) 0 (requests t) (waits t ++ [wait]) (contents t).

(** The body appended chunk by chunk to what [dst] held. *)
Definition appended (old body : string) : list (option string) :=
  map (λ k, Some (old +:+ str_take k body)) (seq 0 (S (String.length body))).

Definition copied (old body : string) (t : transfer) : transfer :=
  Transfer (Some (old +:+ body)) (retryAfter t) (requests t) (waits t)
           (contents t ++ appended old body).

Definition attempt_once (attempt : nat) (t : transfer) : transfer * next :=
  let have := Z.of_nat (String.length (default "" (dst t))) in
  let range := if (0 <? have)%Z then Some have else None in
  let t := Transfer (dst t) (retryAfter t) (requests t ++ [range]) (waits t) (contents t) in
  match server attempt range with
  | NoResponse true => (t, Stop DPermanent)
  | NoResponse false => (t, Again)
  | Response status ra body clean =>
      let after old :=
        (copied old body t, if clean then Done else Again) in
      if (status =? 200)%Z then after ""
      else if (status =? 206)%Z then after (default "" (dst t))
      else if (status =? 416)%Z && (0 <? have)%Z then (with_dst None t, Again)
      else if (status =? 429)%Z || (500 <=? status)%Z then
        let ra := parseRetryAfter ra in
        (Transfer (dst t) (if (retryAfter t <? ra)%Z then ra else retryAfter t)
                  (requests t) (waits t) (contents t), Again)
      else (t, Stop (DStatus status))
  end.

(** [tries] attempts remain, the next being number [attempt]. *)
Fixpoint attempts (tries attempt : nat) (t : transfer) : transfer * result DownloadError unit :=
  match tries with
  | O => (t, Err DExhausted)
  | S tries =>
      let waiting := (1 <? attempt)%nat in
      let t := if waiting then backoff attempt t else t in
      if waiting && cancelled attempt then (t, Err DCancelled)
      else match attempt_once attempt t with
           | (t, Done) => (t, Ok tt)
           | (t, Again) => attempts tries (S attempt) t
           | (t, Stop e) => (t, Err e)
           end
  end.

(** A stale [dst] is removed first. *)
Definition download : transfer * result DownloadError unit :=
  attempts maxAttempts 1 (Transfer None 0 [] [] [None]).

End download.

(** An interrupted transfer, resumed. *)
Example resume_example :
  let server k (r : option Z) :=
    if (k =? 1)%nat then Response 200 "" "lin" false
    else if (k =? 2)%nat then Response 503 "7" "" true
    else Response 206 "" "ux" true in
  let '(t, r) := download server (λ _, false) in
  (dst t, requests t, waits t, r) =
  (Some "linux", [None; Some 3%Z; Some 3%Z], [4 * Second; 7 * Second]%Z, Ok tt).
Proof. by vm_compute. Qed.

(** ** Bounds *)

Lemma parseRetryAfter_range v : (0 <= parseRetryAfter v <= 30 * Second)%Z.
Proof.
  unfold parseRetryAfter, Second. destruct (v =s ""); [lia|].
  destruct (Atoi (TrimSpace v)) as [n|]; [|lia].
  destruct (Z.leb_spec n 0); [lia|]. destruct (Z.ltb_spec 30 n); lia.
Qed.

(** A Retry-After value never stalls the build: whatever the header holds,
    the delay is between zero and thirty seconds; a number of seconds up to
    thirty is honoured exactly, a larger one capped, anything else ignored. *)
Theorem parseRetryAfter_capped (v : string) :
  (0 <= parseRetryAfter v <= 30 * Second)%Z ∧
  (∀ n, (1 <= n)%Z → v ≠ "" → Atoi (TrimSpace v) = Ok n →
        parseRetryAfter v = (Z.min n 30 * Second)%Z) ∧
  ((∀ n, Atoi (TrimSpace v) = Ok n → (n <= 0)%Z) → parseRetryAfter v = 0%Z).
Proof.
  split; [apply parseRetryAfter_range|]. unfold parseRetryAfter. split.
  - intros n Hn Hv ->. destruct (String.eqb_spec v ""); [done|].
    unfold Second. destruct (Z.leb_spec n 0); [lia|]. destruct (Z.ltb_spec 30 n); lia.
  - intros H. destruct (v =s ""); [done|]. destruct (Atoi _) as [n|]; [|done].
    specialize (H n eq_refl). destruct (Z.leb_spec n 0); [done|lia].
Qed.

Section laws.
Context (server : nat → option Z → response) (cancelled : nat → bool).

Lemma attempt_once_log attempt t :
  let '(t', n) := attempt_once server attempt t in
  waits t' = waits t ∧ length (requests t') = S (length (requests t)) ∧
  ((0 <= retryAfter t <= 30 * Second) → 0 <= retryAfter t' <= 30 * Second)%Z.
Proof.
  unfold attempt_once. destruct (server attempt _) as [[]|st ra body clean];
    [cbn; rewrite ?length_app; cbn; split; [done|split; [lia|done]]..|].
  assert (∀ rs : list (option Z), length (rs ++ [if (0 <? Z.of_nat (String.length (default "" (dst t))))%Z
    then Some (Z.of_nat (String.length (default "" (dst t)))) else None]) = S (length rs)) as Hl
    by (intros; rewrite length_app; simpl; lia).
  pose proof (parseRetryAfter_range ra).
  destruct (st =? 200)%Z; [cbn; by rewrite Hl|]. destruct (st =? 206)%Z; [cbn; by rewrite Hl|].
  destruct (_ && _); [cbn; by rewrite Hl|]. destruct (_ || _); [|cbn; by rewrite Hl].
  cbn. split; [done|]. split; [apply Hl|]. destruct (retryAfter t <? parseRetryAfter ra)%Z; lia.
Qed.

(** Backoffs between one retry and the next. *)
Definition wait_ok (attempt : nat) (w : Z) : Prop :=
  (Z.of_nat attempt * retryBase <= w <= 30 * Second)%Z.

Lemma attempts_log tries attempt t :
  (1 <= attempt)%nat → (attempt + tries <= 6)%nat → (0 <= retryAfter t <= 30 * Second)%Z →
  let '(t', r) := attempts server cancelled tries attempt t in
  (length (requests t') <= length (requests t) + tries)%nat ∧
  ∃ ws, waits t' = waits t ++ ws ∧ (length ws <= tries)%nat ∧
        (attempt = 1 → length ws <= tries - 1)%nat ∧ Forall (λ w, 2 * retryBase <= w <= 30 * Second)%Z ws.
Proof.
  revert attempt t. induction tries as [|tries IH]; intros attempt t Ha Ht Hr.
  { cbn. split; [lia|]. exists []. rewrite app_nil_r. done. }
  cbn [attempts]. set (t0 := if (1 <? attempt)%nat then backoff attempt t else t).
  assert (∃ w, waits t0 = waits t ++ w ∧ (length w <= 1)%nat ∧ (attempt = 1%nat → w = []) ∧
               Forall (λ w, 2 * retryBase <= w <= 30 * Second)%Z w ∧
               requests t0 = requests t ∧ (0 <= retryAfter t0 <= 30 * Second)%Z) as
    (w & Hw & Hwl & Hw1 & Hwf & Hrq & Hr0).
  { subst t0. destruct (Nat.ltb_spec 1 attempt).
    - exists [Z.max (retryAfter t) (Z.of_nat attempt * retryBase)].
      unfold backoff, retryBase, Second in *. cbn.
      split; [done|]. split; [done|]. split; [intros; exfalso; lia|].
      split; [apply Forall_singleton; lia|]. split; [done|lia].
    - exists []. rewrite app_nil_r. split; [done|]. split; [simpl; lia|]. split; [done|].
      split; [constructor|]. done. }
  clearbody t0.
  destruct (_ && cancelled attempt) eqn:Hc.
  { rewrite Hrq. split; [lia|]. exists w. split; [done|]. split; [lia|]. split; [|done].
    intros ->. rewrite Hw1 by done. simpl. lia. }
  pose proof (attempt_once_log attempt t0) as Hlog.
  destruct (attempt_once server attempt t0) as [t1 nx]. destruct Hlog as (Hw' & Hl' & Hr').
  assert (length (requests t1) ≤ length (requests t) + 1)%nat as Hl1 by (rewrite Hl', Hrq; lia).
  assert (waits t1 = waits t ++ w) as Hwt by congruence.
  destruct nx.
  1,3: split; [lia|]; exists w; split; [done|]; split; [lia|]; split; [|done];
       intros ->; rewrite Hw1 by done; simpl; lia.
  specialize (IH (S attempt) t1 ltac:(lia) ltac:(lia) (Hr' Hr0)).
  destruct (attempts server cancelled tries (S attempt) t1) as [t2 r].
  destruct IH as (Hlen & ws & Hws & Hlw & _ & Hf). split; [lia|].
  exists (w ++ ws). rewrite Hws, Hwt, app_assoc, length_app. split; [done|]. split; [lia|].
  split; [|by apply Forall_app]. intros ->. rewrite Hw1 by done. simpl. lia.
Qed.

(** ** An honest server *)

(** A server of the file [f]: a full response starts at its beginning, a partial
    one at the offset asked for, a body that ends cleanly ends with the file. *)
Definition honest (f : string) : Prop :=
  ∀ k range st ra body clean,
    server k range = Response st ra body clean →
    (st = 200%Z → ∃ rest, f = body +:+ rest ∧ (clean = true → rest = "")) ∧
    (st = 206%Z → ∃ rest, str_drop (Z.to_nat (default 0%Z range)) f = body +:+ rest ∧
                          (clean = true → rest = "")).

(** Whatever [dst] holds is the beginning of the file. *)
Definition prefix_of (f : string) (d : option string) : Prop :=
  ∃ rest, f = default "" d +:+ rest.

Lemma prefix_of_take f old body rest k :
  f = old +:+ body +:+ rest → prefix_of f (Some (old +:+ str_take k body)).
Proof.
  intros ->. exists (str_drop k body +:+ rest). simpl.
  by rewrite !str_app_assoc, <- (str_app_assoc (str_take k body)), str_take_drop.
Qed.

Lemma copied_prefix f old body rest t :
  f = old +:+ body +:+ rest → Forall (prefix_of f) (contents t) →
  Forall (prefix_of f) (contents (copied old body t)).
Proof.
  intros Hf Ht. apply Forall_app. split; [done|]. unfold appended.
  apply Forall_forall. intros d (k & -> & _)%list_elem_of_fmap. by eapply prefix_of_take.
Qed.

Lemma attempt_once_honest f attempt t :
  honest f → prefix_of f (dst t) → Forall (prefix_of f) (contents t) →
  let '(t', n) := attempt_once server attempt t in
  prefix_of f (dst t') ∧ Forall (prefix_of f) (contents t') ∧ (n = Done → dst t' = Some f).
Proof.
  intros Hh Hd Hc. unfold attempt_once. set (have := Z.of_nat _).
  destruct (server attempt _) as [[]|st ra body clean] eqn:Hs; [done..|].
  apply Hh in Hs as [H200 H206].
  assert (∀ old rest u, f = old +:+ body +:+ rest → (clean = true → rest = "") →
            contents u = contents t →
            prefix_of f (Some (old +:+ body)) ∧ Forall (prefix_of f) (contents (copied old body u)) ∧
            ((if clean then Done else Again) = Done → Some (old +:+ body) = Some f)) as Hcopy.
  { intros old rest u Hf Hr Hu. split; [exists rest; simpl; by rewrite str_app_assoc|].
    split; [eapply copied_prefix; [done|by rewrite Hu]|].
    destruct clean; [|done]. intros _. rewrite Hf, Hr by done. by rewrite str_app_nil_r. }
  destruct (Z.eqb_spec st 200) as [->|].
  { destruct (H200 eq_refl) as (rest & Hf & Hr). by apply (Hcopy "" rest). }
  destruct (Z.eqb_spec st 206) as [->|].
  { destruct (H206 eq_refl) as (rest & Hf & Hr). apply (Hcopy _ rest); [|done|done].
    destruct Hd as [r Hd].
    assert (str_drop (Z.to_nat (default 0%Z (if (0 <? have)%Z then Some have else None))) f = r) as Hdrop.
    { subst have. rewrite Hd. destruct (Z.ltb_spec 0 (Z.of_nat (String.length (default "" (dst t))))).
      - simpl. rewrite Nat2Z.id. apply str_drop_app.
      - destruct (default "" (dst t)); [done|]. simpl in *. lia. }
    rewrite Hdrop in Hf. by rewrite <- Hf. }
  destruct (_ && _).
  { cbn. split; [by exists f|]. split; [|done]. apply Forall_app. split; [done|].
    apply Forall_singleton. by exists f. }
  destruct (_ || _); done.
Qed.

Lemma attempts_honest f tries attempt t :
  honest f → prefix_of f (dst t) → Forall (prefix_of f) (contents t) →
  let '(t', r) := attempts server cancelled tries attempt t in
  Forall (prefix_of f) (contents t') ∧ (r = Ok tt → dst t' = Some f).
Proof.
  intros Hh. revert attempt t. induction tries as [|tries IH]; intros attempt t Hd Hc; [done|].
  cbn [attempts]. set (t0 := if (1 <? attempt)%nat then backoff attempt t else t).
  assert (dst t0 = dst t ∧ contents t0 = contents t) as [Hd0 Hc0]
    by (subst t0; by destruct (1 <? attempt)%nat).
  clearbody t0. destruct (_ && cancelled attempt); [by rewrite Hc0|].
  pose proof (attempt_once_honest f attempt t0 Hh ltac:(by rewrite Hd0) ltac:(by rewrite Hc0)) as H.
  destruct (attempt_once server attempt t0) as [t1 nx]. destruct H as (Hd1 & Hc1 & Hdone).
  destruct nx; [by auto|by apply IH|done].
Qed.
End laws.

(** The retry loop is bounded: at most five requests and four backoffs, each
    at least twice the base delay and at most thirty seconds, whatever the server
    answers. *)
Theorem download_bounded (server : nat → option Z → response) (cancelled : nat → bool) :
  let t := (download server cancelled).1 in
  (length (requests t) <= 5)%nat ∧ (length (waits t) <= 4)%nat ∧
  Forall (λ w, 2 * retryBase <= w <= 30 * Second)%Z (waits t).
Proof.
  unfold download. pose proof (attempts_log server cancelled 5 1 (Transfer None 0 [] [] [None])) as H.
  specialize (H ltac:(lia) ltac:(lia) ltac:(unfold Second; cbn; lia)).
  change maxAttempts with 5%nat.
  destruct (attempts server cancelled 5 1 (Transfer None 0 [] [] [None])) as [t r].
  destruct H as (Hl & ws & Hw & _ & Hl1 & Hf). cbn in *. specialize (Hl1 eq_refl). subst ws. auto.
Qed.

(** C16. Resuming is sound: against a server that serves one file - however often it
    truncates, refuses, rate-limits or restarts the transfer - every content the
    destination ever has is a prefix of that file, and success means the whole
    file, no byte lost or doubled across resumed ranges. *)
Theorem download_resumes (server : nat → option Z → response) (cancelled : nat → bool) (f : string) :
  honest server f →
  let '(t, r) := download server cancelled in
  Forall (prefix_of f) (contents t) ∧ (r = Ok tt → dst t = Some f).
Proof.
  intros Hh. unfold download. apply attempts_honest; [done|by exists f|].
  apply Forall_singleton. by exists f.
Qed.

(** Serves [f] with every other transfer cut in the middle. *)
Definition flaky (f : string) (k : nat) (range : option Z) : response :=
  let rest := str_drop (Z.to_nat (default 0%Z range)) f in
  let st := match range with None => 200%Z | Some _ => 206%Z end in
  if Nat.even k then Response st "" rest true
  else Response st "" (str_take 3 rest) false.

Lemma download_resumes_witness :
  let '(t, r) := download (flaky "linux-6.18") (λ _, false) in
  r = Ok tt ∧ requests t = [None; Some 3%Z] ∧ (r = Ok tt → dst t = Some "linux-6.18").
Proof.
  assert (honest (flaky "linux-6.18") "linux-6.18") as H.
  { intros k range st ra body clean. unfold flaky. intros Hs. split; intros ->.
    - destruct range; [by destruct (Nat.even k)|]. destruct (Nat.even k); injection Hs as <- <- <-.
      + exists "". done.
      + exists "ux-6.18". done.
    - destruct range as [n|]; [|by destruct (Nat.even k)].
      destruct (Nat.even k); injection Hs as <- <- <-.
      + exists "". by rewrite str_app_nil_r.
      + exists (str_drop 3 (str_drop (Z.to_nat n) "linux-6.18")).
        split; [exact (eq_sym (str_take_drop 3 (str_drop (Z.to_nat n) "linux-6.18")))|done]. }
  pose proof (download_resumes (flaky "linux-6.18") (λ _, false) "linux-6.18" H) as Hd.
  vm_compute in Hd |- *. tauto.
Defined.

(** ** Success *)

(** Answers worth a retry, and an answer that finishes the transfer. *)
Definition transient (r : response) : Prop :=
  match r with
  | NoResponse permanent => permanent = false
  | Response st _ _ clean =>
      (st = 200%Z ∧ clean = false) ∨ (st = 206%Z ∧ clean = false) ∨ st = 429%Z ∨ (500 <= st)%Z
  end.

Definition finishing (r : response) : Prop :=
  match r with
  | NoResponse _ => False
  | Response st _ _ clean => (st = 200%Z ∨ st = 206%Z) ∧ clean = true
  end.

Lemma attempt_once_transient server attempt t :
  (∀ r, transient (server attempt r)) → (attempt_once server attempt t).2 = Again.
Proof.
  intros H. unfold attempt_once.
  match goal with |- context [server attempt ?r] => specialize (H r); destruct (server attempt r) as [p|st ra body clean] end. all: cbn in H.
  - by subst p.
  - destruct H as [[-> ->]|[[-> ->]|[->|H]]]; cbn; try done.
    destruct (Z.eqb_spec st 200); [lia|]. destruct (Z.eqb_spec st 206); [lia|].
    destruct (Z.eqb_spec st 416); [lia|]. cbn.
    destruct (Z.leb_spec 500 st); [|lia]. by rewrite orb_true_r.
Qed.

Lemma attempt_once_finishing server attempt t :
  (∀ r, finishing (server attempt r)) → (attempt_once server attempt t).2 = Done.
Proof.
  intros H. unfold attempt_once.
  match goal with |- context [server attempt ?r] => specialize (H r); destruct (server attempt r) as [p|st ra body clean] end;
    cbn in H; [done|].
  destruct H as [[-> | ->] ->]; done.
Qed.

(** A fetch survives what it is meant to survive: if the first attempts meet
    dropped connections, truncated bodies, rate limits or server errors and one of
    the five attempts ends cleanly, the download succeeds. *)
Theorem download_succeeds (server : nat → option Z → response) (cancelled : nat → bool) (k : nat) :
  (1 <= k <= 5)%nat → (∀ j, cancelled j = false) →
  (∀ j r, (1 <= j < k)%nat → transient (server j r)) → (∀ r, finishing (server k r)) →
  (download server cancelled).2 = Ok tt.
Proof.
  intros Hk Hc Ht Hf. unfold download.
  assert (∀ tries attempt t, (1 <= attempt <= k)%nat → (k < attempt + tries)%nat →
            (attempts server cancelled tries attempt t).2 = Ok tt) as H.
  { induction tries as [|tries IH]; intros attempt t Ha Hlt; [lia|].
    cbn [attempts]. rewrite Hc, andb_false_r. set (t0 := if (1 <? attempt)%nat then backoff attempt t else t).
    destruct (decide (attempt = k)) as [->|Hne].
    - pose proof (attempt_once_finishing server k t0 Hf) as Hd.
      destruct (attempt_once server k t0) as [t1 n]. cbn in Hd. by subst n.
    - pose proof (attempt_once_transient server attempt t0 ltac:(intros; apply Ht; lia)) as Hd.
      destruct (attempt_once server attempt t0) as [t1 n]. cbn in Hd. subst n. apply IH; lia. }
  apply H; unfold maxAttempts; lia.
Qed.

Lemma download_succeeds_witness :
  let server k (r : option Z) :=
    if (k =? 1)%nat then NoResponse false
    else if (k =? 2)%nat then Response 503 "5" "" true
    else Response 200 "" "linux" true in
  (download server (λ _, false)).2 = Ok tt.
Proof.
  intros server. apply (download_succeeds server (λ _, false) 3); [lia|done| |].
  - intros j r Hj. destruct j as [|[|[|j]]]; [lia|reflexivity|cbn; right; right; right; lia|lia].
  - intros r. cbn. auto.
Defined.
