(* ===== verification/Policy.v ===== *)
(** cmd/kbuild-step/main.go, [downloadClient]: which addresses the source fetch may
    dial, which redirects it follows and which errors are final ([isPermanent]). The
    resolver, the network, the proxy settings and the servers are a [Network] with
    arbitrary answers; addresses are net.IP's bytes, and client.Do's redirect loop is
    a recursion bounded by [CheckRedirect]. *)

From S2P Require Import Prelude GoString GoTime Download.

(** ** net.IP *)

(** Four or sixteen bytes. *)
Definition IP := list Z.

Definition v4InV6Prefix : IP := [0; 0; 0; 0; 0; 0; 0; 0; 0; 0; 255; 255]%Z.

Definition To4 (ip : IP) : option IP :=
  if (length ip =? 4)%nat then Some ip
  else if (length ip =? 16)%nat && bool_decide (take 12 ip = v4InV6Prefix) then Some (drop 12 ip)
  else None.

Definition IsLinkLocalUnicast (ip : IP) : bool :=
  match To4 ip with
  | Some (a :: b :: _) => (a =? 169)%Z && (b =? 254)%Z
  | Some _ => false
  | None => match ip with
            | a :: b :: _ => (length ip =? 16)%nat && (a =? 254)%Z && (Z.land b 192 =? 128)%Z
            | _ => false
            end
  end.

Definition IsLinkLocalMulticast (ip : IP) : bool :=
  match To4 ip with
  | Some (a :: b :: c :: _) => (a =? 224)%Z && (b =? 0)%Z && (c =? 0)%Z
  | Some _ => false
  | None => match ip with
            | a :: b :: _ => (length ip =? 16)%nat && (a =? 255)%Z && (Z.land b 15 =? 2)%Z
            | _ => false
            end
  end.

(** An IPv4 address and its mapped form are equal. *)
Definition IP_Equal (ip x : IP) : bool :=
  if (length ip =? length x)%nat then bool_decide (ip = x)
  else if (length ip =? 4)%nat && (length x =? 16)%nat then
    bool_decide (take 12 x = v4InV6Prefix) && bool_decide (ip = drop 12 x)
  else if (length ip =? 16)%nat && (length x =? 4)%nat then
    bool_decide (take 12 ip = v4InV6Prefix) && bool_decide (drop 12 ip = x)
  else false.

(** fd00:ec2::254 *)
Definition awsIMDSv6 : IP := [253; 0; 14; 194; 0; 0; 0; 0; 0; 0; 0; 0; 0; 0; 2; 84]%Z.

(** The dialer's guard. *)
Definition refused (ip : IP) : bool :=
  IsLinkLocalUnicast ip || IsLinkLocalMulticast ip || IP_Equal ip awsIMDSv6.

(** ** Errors *)

(** An error with the chain it wraps; [Wrapped] is url.Error, net.OpError and the like. *)
Inductive refusal := LinkLocal (ip : IP) | TooManyRedirects | NonHTTPS.

Inductive goerror :=
  | policyError (r : refusal)
  | DNSError (IsNotFound : bool)
  | OtherError
  | Wrapped (e : goerror).

Fixpoint isPermanent (e : goerror) : bool :=
  match e with
  | policyError _ => true
  | DNSError nf => nf
  | OtherError => false
  | Wrapped e => isPermanent e
  end.

(** ** Addresses as text *)

(** net.SplitHostPort; [None] is its AddrError. *)
Definition SplitHostPort (hostport : string) : option (string * string) :=
  if HasPrefix hostport "[" then
    let '(host, rest, closed) := Cut (str_drop 1 hostport) "]" in
    let port := str_drop 1 rest in
    if closed && HasPrefix rest ":" && negb (ContainsByte port ":")
       && negb (ContainsByte host "[" || ContainsByte port "[") && negb (ContainsByte port "]")
    then Some (host, port) else None
  else
    let '(host, port, found) := Cut hostport ":" in
    if found && negb (ContainsByte port ":") && negb (ContainsByte hostport "[")
       && negb (ContainsByte hostport "]")
    then Some (host, port) else None.

(** net.JoinHostPort *)
Definition JoinHostPort (host port : string) : string :=
  if ContainsByte host ":" then "[" +:+ host +:+ "]:" +:+ port else host +:+ ":" +:+ port.

(** ** The client *)

(** A parsed URL, as far as the client looks at it. *)
Record URL := MkURL {
  Scheme : string;
  Hostname : string;
  Port : string;        (* "" if there is none *)
  Resource : string     (* path and query *)
}.

(** What a request meets once its connection stands. *)
Inductive answer :=
  | Redirect (location : option URL)     (* a 3xx status; [None]: the Location does not parse *)
  | Reply (status : Z) (retry_after body : string) (clean : bool)
  | Broken (e : goerror).

(** The outside, at the [hop]-th request of an [attempt]. *)
Record Network := MkNetwork {
  ProxyFromEnvironment : URL → option string;    (* the address of the proxy to use *)
  lookupIP : nat → nat → string → result goerror (list IP);
  Dialer : nat → nat → IP → string → option goerror;   (* [None]: connected *)
  serve : nat → nat → URL → option Z → answer
}.

(** What one call of DialContext did. *)
Record dialled := Dialled {
  looked : option string;         (* the name looked up *)
  answers : list IP;              (* the addresses it has *)
  tried : list IP;                (* the addresses a connection was opened to *)
  conn : result goerror IP
}.

Section client.
Context (N : Network).

(** The second loop of DialContext, [lastErr] being its error so far. *)
Fixpoint dial_each (attempt hop : nat) (port : string) (lastErr : option goerror) (ips : list IP) :
    list IP * result goerror IP :=
  match ips with
  | [] => ([], Err (default OtherError lastErr))
  | ip :: ips =>
      match Dialer N attempt hop ip port with
      | None => ([ip], Ok ip)
      | Some e => let '(t, r) := dial_each attempt hop port (Some e) ips in (ip :: t, r)
      end
  end.

Definition DialContext (attempt hop : nat) (addr : string) : dialled :=
  match SplitHostPort addr with
  | None => Dialled None [] [] (Err OtherError)
  | Some (host, port) =>
      match lookupIP N attempt hop host with
      | Err e => Dialled (Some host) [] [] (Err e)
      | Ok ips =>
          match find refused ips with
          | Some ip => Dialled (Some host) ips [] (Err (policyError (LinkLocal ip)))
          | None => let '(t, r) := dial_each attempt hop port None ips in
                    Dialled (Some host) ips t r
          end
      end
  end.

Definition CheckRedirect (req : URL) (via : list URL) : option goerror :=
  if (5 <=? length via)%nat then Some (policyError TooManyRedirects)
  else if Scheme req <>s "https" then Some (policyError NonHTTPS)
  else None.

(** The address net/http dials for a URL. *)
Definition canonicalAddr (u : URL) : string :=
  JoinHostPort (Hostname u)
    (if Port u <>s "" then Port u else if Scheme u =s "https" then "443" else "80").

(** One round trip of the transport. *)
Record hop := Hop {
  to : URL;
  via_proxy : bool;
  connection : option dialled;     (* [None]: a scheme the transport does not speak *)
  sent : bool                      (* the request went out *)
}.

Definition send (attempt n : nat) (u : URL) (range : option Z) : hop * answer :=
  let proxy := ProxyFromEnvironment N u in
  let p := bool_decide (is_Some proxy) in
  if negb ((Scheme u =s "https") || (Scheme u =s "http")) then
    (Hop u p None false, Broken OtherError)
  else
    let d := DialContext attempt n (default (canonicalAddr u) proxy) in
    match conn d with
    | Err e => (Hop u p (Some d) false, Broken e)
    | Ok _ => (Hop u p (Some d) true, serve N attempt n u range)
    end.

(** client.Do: the request, then its redirects. [CheckRedirect] ends the recursion
    before the fuel does. *)
Fixpoint follow (fuel attempt : nat) (via : list URL) (u : URL) (range : option Z) :
    list hop * result goerror (Z * string * string * bool) :=
  let '(h, a) := send attempt (length via) u range in
  match a with
  | Broken e => ([h], Err (Wrapped e))
  | Reply st ra body clean => ([h], Ok (st, ra, body, clean))
  | Redirect None => ([h], Err (Wrapped OtherError))
  | Redirect (Some u') =>
      let via := via ++ [u] in
      match CheckRedirect u' via, fuel with
      | Some e, _ => ([h], Err (Wrapped e))
      | None, O => ([h], Err OtherError)
      | None, S fuel => let '(hs, r) := follow fuel attempt via u' range in (h :: hs, r)
      end
  end.

Definition Do (u : URL) (attempt : nat) (range : option Z) := follow 4 attempt [] u range.

(** What an attempt of [download] meets through this client. *)
Definition source (u : URL) (attempt : nat) (range : option Z) : response :=
  match (Do u attempt range).2 with
  | Ok (st, ra, body, clean) => Response st ra body clean
  | Err e => NoResponse (isPermanent e)
  end.

(** [download] with this client, and the round trips of each of its attempts. *)
Definition fetch (u : URL) (cancelled : nat → bool) : transfer * result DownloadError unit :=
  download (source u) cancelled.

Definition round_trips (u : URL) (t : transfer) : list (list hop) :=
  imap (λ i range, (Do u (S i) range).1) (requests t).

End client.

(** A public mirror that redirects to a metadata address: refused, and final. *)
Definition mirror : URL := MkURL "https" "cdn.kernel.org" "" "/linux-6.18.tar.xz".
Definition rebound : Network :=
  MkNetwork (λ _, None)
    (λ _ _ host, if host =s "cdn.kernel.org" then Ok [[151; 101; 1; 176]%Z]
                 else Ok [[1; 1; 1; 1]; [169; 254; 169; 254]]%Z)
    (λ _ _ _ _, None)
    (λ _ _ u _, if Hostname u =s "cdn.kernel.org"
                then Redirect (Some (MkURL "https" "mirror.test" "8443" "/x")) else Reply 200 "" "secret" true).

Example metadata_refused :
  let '(t, r) := fetch rebound mirror (λ _, false) in
  (requests t, r, map (map (λ h, (Hostname (to h), tried <$> connection h))) (round_trips rebound mirror t)) =
  ([None], Err DPermanent,
   [[("cdn.kernel.org", Some [[151; 101; 1; 176]%Z]); ("mirror.test", Some [])]]).
Proof. by vm_compute. Qed.

(** The guard vets whatever is dialled, the proxy's own address included. *)
Example proxy_vetted :
  let N := MkNetwork (λ _, Some "proxy.test:3128") (λ _ _ _, Ok [[169; 254; 1; 1]%Z]) (λ _ _ _ _, None)
             (λ _ _ _ _, Reply 200 "" "linux" true) in
  (fetch N mirror (λ _, false)).2 = Err DPermanent.
Proof. by vm_compute. Qed.
