(* ===== verification/PolicyLaws.v ===== *)
(** What the download client promises (Policy.v): the addresses its guard refuses are a
    list of networks, and a whole download, whatever its network answers, stays on https,
    on vetted addresses and within five requests per attempt, a refusal being final. *)

From S2P Require Import Prelude GoString GoTime Download Policy.

(** ** The networks it refuses *)

Definition ip_ok (ip : IP) : Prop :=
  (length ip = 4 ∨ length ip = 16)%nat ∧ Forall (λ b, (0 <= b < 256)%Z) ip.

(** The address as a number of 128 bits, an IPv4 address in its mapped form. *)
Definition be (l : list Z) : Z := foldl (λ v b, v * 256 + b)%Z 0%Z l.
Definition as16 (ip : IP) : IP := if (length ip =? 4)%nat then v4InV6Prefix ++ ip else ip.
Definition address (ip : IP) : Z := be (as16 ip).

(** A prefix of [bits] bits in CIDR notation. *)
Record network := Net { base_of : Z; bits : Z }.
Definition in_net (v : Z) (n : network) : Prop :=
  Z.shiftr v (128 - bits n) = Z.shiftr (base_of n) (128 - bits n).

Definition mapped (a b c d : Z) : Z := be (v4InV6Prefix ++ [a; b; c; d]).

(** 169.254.0.0/16, fe80::/10, 224.0.0.0/24, ff?2::/16 for every flag nibble, and the
    one address of the metadata service. *)
Definition refused_nets : list network :=
  [Net (mapped 169 254 0 0) 112; Net (Z.shiftl 0xfe80 112) 10; Net (mapped 224 0 0 0) 120;
   Net 0xfd000ec2000000000000000000000254 128]
  ++ map (λ k, Net (Z.shiftl (0xff02 + 16 * Z.of_nat k) 112) 16) (seq 0 16).

Lemma be_snoc l b : be (l ++ [b]) = (be l * 256 + b)%Z.
Proof. unfold be. by rewrite foldl_app. Qed.

Lemma be_range l : Forall (λ b, (0 <= b < 256)%Z) l → (0 <= be l < 2 ^ (8 * Z.of_nat (length l)))%Z.
Proof.
  induction l as [|b l IH] using rev_ind; [done|]. rewrite Forall_app, Forall_singleton, be_snoc, length_app.
  intros [Hl Hb]. specialize (IH Hl). cbn [length].
  replace (8 * Z.of_nat (length l + 1))%Z with (8 * Z.of_nat (length l) + 8)%Z by lia.
  rewrite Z.pow_add_r by lia. change (2 ^ 8)%Z with 256%Z. lia.
Qed.

Lemma be_app l r :
  be (l ++ r) = (be l * 2 ^ (8 * Z.of_nat (length r)) + be r)%Z.
Proof.
  induction r as [|b r IH] using rev_ind; [rewrite app_nil_r; cbn; lia|].
  rewrite app_assoc, !be_snoc, IH, length_app. cbn [length].
  replace (8 * Z.of_nat (length r + 1))%Z with (8 * Z.of_nat (length r) + 8)%Z by lia.
  rewrite Z.pow_add_r by lia. change (2 ^ 8)%Z with 256%Z. lia.
Qed.

Lemma be_inj l r :
  Forall (λ b, (0 <= b < 256)%Z) l → Forall (λ b, (0 <= b < 256)%Z) r →
  length l = length r → be l = be r → l = r.
Proof.
  revert r. induction l as [|b l IH] using rev_ind; intros r Hl Hr Hlen He.
  { by destruct r. }
  destruct r as [|c r _] using rev_ind; [by rewrite length_app in Hlen; simpl in Hlen; lia|].
  rewrite Forall_app, Forall_singleton in Hl, Hr. rewrite !be_snoc in He. rewrite !length_app in Hlen.
  destruct Hl as [Hl Hb], Hr as [Hr Hc]. cbn in Hlen.
  assert (be l = be r ∧ b = c) as [E ->] by lia. by rewrite (IH r Hl Hr ltac:(lia) E).
Qed.

(** Being in a network is a matter of the leading bytes and bits. *)
Lemma in_net_bytes l r v k :
  Forall (λ b, (0 <= b < 256)%Z) r → (0 <= k)%Z →
  Z.shiftr (be (l ++ r)) (8 * Z.of_nat (length r) + k) = v ↔ Z.shiftr (be l) k = v.
Proof.
  intros Hr Hk. rewrite be_app, <- Z.shiftr_shiftr by lia.
  pose proof (be_range r Hr). rewrite (Z.shiftr_div_pow2 _ (8 * _)) by lia.
  by rewrite Z.div_add_l, Z.div_small, Z.add_0_r by lia.
Qed.

Lemma in_net_aligned x b n :
  Forall (λ b, (0 <= b < 256)%Z) x → Forall (λ b, (0 <= b < 256)%Z) b →
  length x = 16%nat → length b = 16%nat → (n <= 16)%nat →
  in_net (be x) (Net (be b) (8 * Z.of_nat n)) ↔ take n x = take n b.
Proof.
  intros Hx Hb Lx Lb Hn. unfold in_net. cbn [bits base_of].
  assert (∀ l, Forall (λ b, (0 <= b < 256)%Z) l → length l = 16%nat →
            Z.shiftr (be l) (128 - 8 * Z.of_nat n) = be (take n l)) as Hs.
  { intros l Hl Ll. rewrite <- (take_drop n l) at 1.
    replace (128 - 8 * Z.of_nat n)%Z with (8 * Z.of_nat (length (drop n l)) + 0)%Z by (rewrite length_drop; lia).
    apply in_net_bytes; [by apply Forall_drop|done|by rewrite Z.shiftr_0_r]. }
  rewrite !Hs by done. split; [|congruence]. apply be_inj; [by apply Forall_take..|].
  rewrite !length_take. lia.
Qed.

(** fe80::/10 is a byte and two bits. *)
Lemma in_link_local a b r :
  (0 <= a < 256)%Z → (0 <= b < 256)%Z → Forall (λ b, (0 <= b < 256)%Z) r → length r = 14%nat →
  in_net (be (a :: b :: r)) (Net (Z.shiftl 0xfe80 112) 10) ↔ a = 254%Z ∧ Z.land b 192 = 128%Z.
Proof.
  intros Ha Hb Hr Lr. unfold in_net. cbn [bits base_of].
  change (Z.shiftr (Z.shiftl 0xfe80 112) (128 - 10)) with 1018%Z.
  change (a :: b :: r) with ([a; b] ++ r).
  replace (128 - 10)%Z with (8 * Z.of_nat (length r) + 6)%Z by (rewrite Lr; done).
  rewrite in_net_bytes by (done || lia). cbn [be foldl].
  assert (∀ c, (0 <= c < 256)%Z → (Z.land c 192 =? 128)%Z = (Z.shiftr c 6 =? 2)%Z) as Hc.
  { intros c Hc. apply eqb_prop, (Zforall_range (λ c, Bool.eqb (Z.land c 192 =? 128) (Z.shiftr c 6 =? 2))%Z 256);
      [by vm_compute|lia]. }
  rewrite <- (Z.eqb_eq (Z.land b 192)), Hc, Z.eqb_eq by done.
  rewrite !Z.shiftr_div_pow2 by lia. change (2 ^ 6)%Z with 64%Z.
  Z.div_mod_to_equations. lia.
Qed.

Lemma address_range ip : ip_ok ip → length (as16 ip) = 16%nat ∧ Forall (λ b, (0 <= b < 256)%Z) (as16 ip).
Proof.
  intros [Hl Hf]. unfold as16. destruct (Nat.eqb_spec (length ip) 4) as [E|E].
  - split; [by rewrite length_app, E|]. apply Forall_app. split; [|done].
    repeat (constructor; [lia|]). constructor.
  - split; [tauto|done].
Qed.

(** The guard does not tell an IPv4 address from its mapped form. *)
Lemma refused_as16 ip : ip_ok ip → refused ip = refused (as16 ip).
Proof.
  intros [Hl _]. unfold as16. destruct (Nat.eqb_spec (length ip) 4) as [E|E]; [|done].
  do 4 (destruct ip as [|? ip]; [done|]). by destruct ip.
Qed.

Lemma refused16 x :
  length x = 16%nat →
  refused x = true ↔
  take 14 x = v4InV6Prefix ++ [169; 254]%Z ∨ (∃ b r, x = 254%Z :: b :: r ∧ Z.land b 192 = 128%Z) ∨
  take 15 x = v4InV6Prefix ++ [224; 0; 0]%Z ∨ (∃ b r, x = 255%Z :: b :: r ∧ Z.land b 15 = 2%Z) ∨
  x = awsIMDSv6.
Proof.
  intros Hl. do 16 (destruct x as [|? x]; [done|]). destruct x; [|done]. clear Hl.
  unfold refused, IsLinkLocalUnicast, IsLinkLocalMulticast, IP_Equal, To4, awsIMDSv6, v4InV6Prefix.
  cbn [length Nat.eqb andb take drop app]. rewrite !orb_true_iff, (bool_decide_eq_true (_ = [253; _; _; _; _; _; _; _; _; _; _; _; _; _; _; _]%Z)).
  case_bool_decide as Hp; rewrite ?andb_true_iff, ?Z.eqb_eq.
  - simplify_list_eq. naive_solver.
  - naive_solver.
Qed.

Ltac bytes := repeat (constructor; [lia|]); constructor.

Lemma in_net_of x b n v :
  Forall (λ b, (0 <= b < 256)%Z) x → length x = 16%nat →
  Forall (λ b, (0 <= b < 256)%Z) b → length b = 16%nat → (n <= 16)%nat → v = Net (be b) (8 * Z.of_nat n) →
  in_net (be x) v ↔ take n x = take n b.
Proof. intros Hx Lx Hb Lb Hn ->. by apply in_net_aligned. Qed.

(** ff?2::/16, the flag nibble being free. *)
Lemma in_multicast a b r :
  (0 <= a < 256)%Z → (0 <= b < 256)%Z → Forall (λ b, (0 <= b < 256)%Z) r → length r = 14%nat →
  Exists (in_net (be (a :: b :: r))) (map (λ k, Net (Z.shiftl (0xff02 + 16 * Z.of_nat k) 112) 16) (seq 0 16)) ↔
  a = 255%Z ∧ Z.land b 15 = 2%Z.
Proof.
  intros Ha Hb Hr Lr.
  assert (∀ k, (k < 16)%nat → in_net (be (a :: b :: r)) (Net (Z.shiftl (0xff02 + 16 * Z.of_nat k) 112) 16) ↔
            a = 255%Z ∧ b = (2 + 16 * Z.of_nat k)%Z) as Hk.
  { intros k Hk.
    rewrite (in_net_of _ ([255; 2 + 16 * Z.of_nat k]%Z ++ repeat 0%Z 14) 2).
    - cbn. naive_solver.
    - repeat constructor; try lia. done.
    - by rewrite <- Lr.
    - repeat (constructor; [lia|]). constructor.
    - done.
    - lia.
    - change (8 * Z.of_nat 2)%Z with 16%Z. f_equal.
      rewrite be_app, Z.shiftl_mul_pow2 by lia. cbn. lia. }
  rewrite Exists_exists. setoid_rewrite list_elem_of_In. setoid_rewrite in_map_iff. setoid_rewrite in_seq. split.
  - intros (n & (k & <- & Hk') & Hin). apply Hk in Hin as [-> ->]; [|lia]. split; [done|].
    apply Z.eqb_eq, (Zforall_range (λ k, Z.land (2 + 16 * k) 15 =? 2)%Z 16); [by vm_compute|lia].
  - intros [-> Hl].
    assert ((b =? 2 + 16 * (b / 16))%Z = true) as Hd%Z.eqb_eq.
    { pose proof (Zforall_range (λ b, negb (Z.land b 15 =? 2) || (b =? 2 + 16 * (b / 16)))%Z 256 b
        ltac:(by vm_compute) ltac:(lia)) as H. cbn beta in H. by rewrite Hl in H. }
    pose proof (Z.div_lt_upper_bound b 16 16 ltac:(lia) ltac:(lia)). pose proof (Z.div_pos b 16 ltac:(lia) ltac:(lia)).
    exists (Net (Z.shiftl (0xff02 + 16 * Z.of_nat (Z.to_nat (b / 16))) 112) 16). split.
    + exists (Z.to_nat (b / 16)). split; [done|lia].
    + apply Hk; [lia|]. split; [done|]. rewrite Z2Nat.id by lia. done.
Qed.

(** C27. The dialer's guard is exactly a list of networks. Of the well-formed addresses
    it refuses those of 169.254.0.0/16 and 224.0.0.0/24, in either form of an IPv4
    address, of fe80::/10, of ff02::/16 under any flags, and the address of AWS's
    metadata service - by byte tests in the code, by prefix here - and no other. *)
Theorem refused_exact (ip : IP) :
  ip_ok ip → refused ip = true ↔ Exists (in_net (address ip)) refused_nets.
Proof.
  intros Hok. rewrite refused_as16 by done. unfold address.
  destruct (address_range ip Hok) as [Hl Hf]. revert Hl Hf. generalize (as16 ip). clear ip Hok.
  intros x Hl Hf. rewrite refused16 by done. unfold refused_nets.
  destruct x as [|a [|b r]]; [done..|]. rewrite Exists_app, !Exists_cons, Exists_nil.
  apply Forall_cons in Hf as Ha. destruct Ha as [Ha Hb]. apply Forall_cons in Hb as [Hb Hr].
  assert (length r = 14%nat) as Lr by (cbn in Hl; lia).
  rewrite in_multicast, in_link_local by done.
  assert (Forall (λ b, (0 <= b < 256)%Z) (v4InV6Prefix ++ [169; 254; 0; 0]%Z)) by (cbn [v4InV6Prefix app]; bytes).
  assert (Forall (λ b, (0 <= b < 256)%Z) (v4InV6Prefix ++ [224; 0; 0; 0]%Z)) by (cbn [v4InV6Prefix app]; bytes).
  assert (Forall (λ b, (0 <= b < 256)%Z) awsIMDSv6) by bytes.
  rewrite (in_net_of _ (v4InV6Prefix ++ [169; 254; 0; 0]%Z) 14), (in_net_of _ (v4InV6Prefix ++ [224; 0; 0; 0]%Z) 15),
    (in_net_of _ awsIMDSv6 16) by (done || lia).
  rewrite (take_ge _ 16), (take_ge awsIMDSv6 16) by (rewrite ?Hl; done).
  change (take 14 (v4InV6Prefix ++ _)) with (v4InV6Prefix ++ [169; 254]%Z).
  change (take 15 (v4InV6Prefix ++ _)) with (v4InV6Prefix ++ [224; 0; 0]%Z).
  assert (∀ (c : Z) (P : Z → Prop), (∃ b0 r0, a :: b :: r = c :: b0 :: r0 ∧ P b0) ↔ a = c ∧ P b) as Hx.
  { intros c P. split; [by intros (? & ? & [= -> -> ->] & ?)|intros [-> ?]; by exists b, r]. }
  rewrite !Hx. tauto.
Qed.

Lemma refused_exact_witness :
  let metadata := [169; 254; 169; 254]%Z in
  ip_ok metadata ∧ refused metadata = true ∧ Exists (in_net (address metadata)) refused_nets.
Proof.
  assert (ip_ok [169; 254; 169; 254]%Z) as H by (split; [by left|bytes]).
  split; [exact H|]. split; [reflexivity|]. by apply (refused_exact _ H).
Defined.

(** ** One round trip *)

(** A host and port whose joined form reads back. *)
Definition tidy (u : URL) : Prop :=
  ContainsByte (Hostname u) "[" = false ∧ ContainsByte (Hostname u) "]" = false ∧
  ContainsByte (Port u) ":" = false ∧ ContainsByte (Port u) "[" = false ∧ ContainsByte (Port u) "]" = false.

Lemma SplitHostPort_Join host port :
  ContainsByte host "[" = false → ContainsByte host "]" = false →
  ContainsByte port ":" = false → ContainsByte port "[" = false → ContainsByte port "]" = false →
  SplitHostPort (JoinHostPort host port) = Some (host, port).
Proof.
  intros Ho Hc Pc Po Pb. unfold SplitHostPort, JoinHostPort. destruct (ContainsByte host ":") eqn:Eh.
  - assert (∀ s, HasPrefix ("[" +:+ s) "[" = true) as -> by (intros s; apply HasPrefix_app).
    change (str_drop 1 ("[" +:+ host +:+ "]:" +:+ port)) with (host +:+ String "]" (String ":" port)).
    rewrite Cut_app by done. change (str_drop 1 (String ":" port)) with port.
    assert (HasPrefix (String ":" port) ":" = true) as -> by apply (HasPrefix_app ":" port).
    by rewrite Pc, Ho, Po, Pb.
  - assert (HasPrefix (host +:+ ":" +:+ port) "[" = false) as ->.
    { destruct (HasPrefix _ "[") eqn:E; [|done]. apply HasPrefix_spec in E as [s E]. destruct host as [|c host]; [done|].
      injection E as -> _. by rewrite ContainsByte_cons, Ascii.eqb_refl in Ho. }
    change (":" +:+ port) with (String ":" port). rewrite Cut_app by done.
    rewrite !ContainsByte_app, !ContainsByte_cons. by rewrite Pc, Ho, Hc, Po, Pb.
Qed.

Lemma canonicalAddr_split u :
  tidy u → ∃ port, SplitHostPort (canonicalAddr u) = Some (Hostname u, port).
Proof.
  intros (Ho & Hc & Pc & Po & Pb). unfold canonicalAddr.
  destruct (Port u <>s ""); [eexists; by apply SplitHostPort_Join|].
  destruct (Scheme u =s "https"); eexists; by apply SplitHostPort_Join.
Qed.

(** What the dialer owes: it opens connections to addresses of one answer, and only if
    every address of that answer passed the guard. *)
Definition vetted (d : dialled) : Prop :=
  (∀ ip, In ip (tried d) → In ip (answers d)) ∧
  (tried d ≠ [] → Forall (λ ip, refused ip = false) (answers d)) ∧
  (∀ ip, conn d = Ok ip → In ip (tried d)).

(** A round trip over https, and - unless it goes through a proxy, which resolves the
    destination itself - to the URL's own host by a vetted connection. *)
Definition confined (h : hop) : Prop :=
  Scheme (to h) = "https" ∧
  (via_proxy h = false →
   ∃ d, connection h = Some d ∧ vetted d ∧ (sent h = true → is_ok (conn d) = true) ∧
        (tidy (to h) → looked d = Some (Hostname (to h)))).

Section client.
Context (N : Network).

Lemma dial_each_spec attempt hop port last ips :
  let '(t, r) := dial_each N attempt hop port last ips in
  (∀ ip, In ip t → In ip ips) ∧ (∀ ip, r = Ok ip → In ip t).
Proof.
  revert last. induction ips as [|ip ips IH]; intros last; cbn [dial_each]; [done|].
  destruct (Dialer N attempt hop ip port) as [e|].
  - specialize (IH (Some e)). destruct (dial_each N attempt hop port (Some e) ips) as [t r].
    destruct IH as [H1 H2]. split; [intros x [<-|Hx]; [by left|right; auto]|intros x Hx; right; auto].
  - split; [intros x [<-|[]]; by left|intros x [= <-]; by left].
Qed.

Lemma find_none_Forall {A} (p : A → bool) l : find p l = None → Forall (λ a, p a = false) l.
Proof. intros H. apply Forall_forall. intros x Hx. apply (find_none p l H). by apply list_elem_of_In. Qed.

Lemma DialContext_vetted attempt hop addr : vetted (DialContext N attempt hop addr).
Proof.
  unfold DialContext. destruct (SplitHostPort addr) as [[host port]|]; [|done].
  destruct (lookupIP N attempt hop host) as [ips|e]; [|done].
  destruct (find refused ips) eqn:E; [done|]. pose proof (dial_each_spec attempt hop port None ips) as H.
  destruct (dial_each N attempt hop port None ips) as [t r]. destruct H as [H1 H2].
  split; [done|]. split; [|done]. intros _. by apply find_none_Forall.
Qed.

Lemma DialContext_looked attempt hop addr host port :
  SplitHostPort addr = Some (host, port) → looked (DialContext N attempt hop addr) = Some host.
Proof.
  unfold DialContext. intros ->. destruct (lookupIP N attempt hop host) as [ips|]; [|done].
  destruct (find refused ips); [done|]. by destruct (dial_each N attempt hop port None ips).
Qed.

Lemma send_confined attempt n u range :
  Scheme u = "https" → let h := (send N attempt n u range).1 in confined h ∧ to h = u.
Proof.
  intros Hs. unfold send. rewrite Hs. cbn [String.eqb Ascii.eqb Bool.eqb orb negb].
  set (d := DialContext N attempt n (default (canonicalAddr u) (ProxyFromEnvironment N u))).
  assert (∀ b, (b = true → is_ok (conn d) = true) →
    confined (Hop u (bool_decide (is_Some (ProxyFromEnvironment N u))) (Some d) b)) as H.
  { intros b Hb. split; [done|]. cbn [via_proxy to]. intros Hp. exists d. split; [done|].
    split; [apply DialContext_vetted|]. split; [done|]. intros Ht.
    subst d. destruct (ProxyFromEnvironment N u) as [p|]; [done|].
    destruct (canonicalAddr_split u Ht) as [port Hc]. by eapply DialContext_looked. }
  destruct (conn d) eqn:E; (split; [|done]); apply H; by rewrite ?E.
Qed.

Lemma CheckRedirect_https u via : CheckRedirect u via = None → (length via < 5)%nat ∧ Scheme u = "https".
Proof.
  unfold CheckRedirect. destruct (Nat.leb_spec 5 (length via)); [done|].
  destruct (String.eqb_spec (Scheme u) "https"); [done|done].
Qed.

Lemma follow_confined fuel attempt via u range :
  Scheme u = "https" → (length via < 5)%nat →
  let hs := (follow N fuel attempt via u range).1 in
  (∀ h, In h hs → confined h) ∧ (1 <= length hs <= 5 - length via)%nat ∧ to <$> head hs = Some u.
Proof.
  revert via u. induction fuel as [|fuel IH]; intros via u Hs Hv; cbn [follow];
    pose proof (send_confined attempt (length via) u range Hs) as [Hc Ht];
    destruct (send N attempt (length via) u range) as [h a]; cbn [fst] in Hc, Ht;
    assert ((∀ h', In h' [h] → confined h') ∧ (1 <= length [h] <= 5 - length via)%nat ∧ to <$> head [h] = Some u)
      as Hone by (split; [by intros ? [<-|[]]|]; split; [cbn; lia|cbn; by f_equal]);
    destruct a as [[u'|]| |]; try exact Hone;
    destruct (CheckRedirect u' (via ++ [u])) eqn:E; try exact Hone.
  apply CheckRedirect_https in E as [Hl Hs']. specialize (IH (via ++ [u]) u' Hs' Hl).
  destruct (follow N fuel attempt (via ++ [u]) u' range) as [hs r]. cbn [fst] in *.
  destruct IH as (H1 & H2 & _). rewrite length_app in H2. cbn in H2. split; [|split; [cbn; lia|cbn; by f_equal]].
  intros h' [<-|Hin]; [done|by apply H1].
Qed.

(** Four is fuel enough: the redirect policy ends every chain first. *)
Lemma follow_fuel fuel attempt via u range :
  (length via < 5)%nat → (4 <= fuel + length via)%nat →
  follow N (S fuel) attempt via u range = follow N fuel attempt via u range.
Proof.
  revert via u. induction fuel as [|fuel IH]; intros via u Hv Hf; cbn [follow];
    destruct (send N attempt (length via) u range) as [h [[u'|]| |]]; try done;
    destruct (CheckRedirect u' (via ++ [u])) eqn:E; try done;
    apply CheckRedirect_https in E as [Hl _]; rewrite length_app in Hl; cbn in Hl; [lia|].
  assert ((length (via ++ [u]) < 5)%nat) by (rewrite length_app; cbn; lia).
  pose proof (IH (via ++ [u]) u' ltac:(done) ltac:(rewrite length_app; cbn; lia)) as Hi.
  cbn [follow] in Hi. by rewrite Hi.
Qed.

End client.

(** ** The whole download *)

(** A permanent error ends the loop with the attempt that met it. *)
Lemma attempts_permanent server cancelled tries attempt t :
  let '(t', r) := attempts server cancelled tries attempt t in
  ∃ rs, requests t' = requests t ++ rs ∧
    ∀ k range, rs !! k = Some range → server (attempt + k) range = NoResponse true →
               S k = length rs ∧ r = Err DPermanent.
Proof.
  revert attempt t. induction tries as [|tries IH]; intros attempt t; cbn [attempts].
  { exists []. by rewrite app_nil_r. }
  set (t0 := if (1 <? attempt)%nat then backoff attempt t else t).
  assert (requests t0 = requests t) as <- by (subst t0; by destruct (1 <? attempt)%nat). clearbody t0.
  destruct (_ && cancelled attempt); [exists []; by rewrite app_nil_r|].
  unfold attempt_once. set (range := if (0 <? _)%Z then _ else None).
  assert (∀ t' (r : result DownloadError unit), requests t' = requests t0 ++ [range] →
    (server attempt range = NoResponse true → r = Err DPermanent) →
    ∃ rs, requests t' = requests t0 ++ rs ∧
      ∀ k range, rs !! k = Some range → server (attempt + k) range = NoResponse true →
                 S k = length rs ∧ r = Err DPermanent) as Hlast.
  { intros t' r Hr Hp. exists [range]. split; [done|]. intros [|k] rg Hk Hs; [|done].
    injection Hk as <-. rewrite Nat.add_0_r in Hs. auto. }
  assert (∀ t', requests t' = requests t0 ++ [range] → server attempt range ≠ NoResponse true →
    let '(t'', r) := attempts server cancelled tries (S attempt) t' in
    ∃ rs, requests t'' = requests t0 ++ rs ∧
      ∀ k range, rs !! k = Some range → server (attempt + k) range = NoResponse true →
                 S k = length rs ∧ r = Err DPermanent) as Hmore.
  { intros t' Hr Hp. specialize (IH (S attempt) t').
    destruct (attempts server cancelled tries (S attempt) t') as [t'' r].
    destruct IH as (rs & Hrs & Hk). exists (range :: rs). split; [by rewrite Hrs, Hr, <- app_assoc|].
    intros [|k] rg Hl Hs; [injection Hl as <-; by rewrite Nat.add_0_r in Hs|].
    rewrite Nat.add_succ_r in Hs. destruct (Hk k rg Hl Hs) as [? ?]. split; [cbn; lia|done]. }
  destruct (server attempt range) as [[]|st ra body clean] eqn:Hs; [by apply Hlast|by apply Hmore|].
  destruct (st =? 200)%Z; [destruct clean; [by apply Hlast|by apply Hmore]|].
  destruct (st =? 206)%Z; [destruct clean; [by apply Hlast|by apply Hmore]|].
  destruct (_ && _); [by apply Hmore|]. destruct (_ || _); [by apply Hmore|by apply Hlast].
Qed.

(** C19. A source fetch stays where the policy confines it, whatever the resolver and the
    servers answer. Every round trip of every attempt is over https, redirects included.
    On a round trip that goes through no proxy a connection is opened only to addresses
    of one lookup of the URL's own host, all of which passed the guard, so a second
    answer from the resolver is never dialled unvetted. (Through a proxy nothing is
    claimed of addresses: the proxy resolves the destination, and the policy is its
    own.) An attempt makes at most five round trips; and a final error (a refusal, a
    name that does not exist) is met in the last attempt and is the result. *)
Theorem download_confined (N : Network) (u : URL) (cancelled : nat → bool) :
  Scheme u = "https" →
  let '(t, r) := fetch N u cancelled in
  (∀ hops, In hops (round_trips N u t) →
     (∀ h, In h hops → confined h) ∧ (1 <= length hops <= 5)%nat ∧ to <$> head hops = Some u) ∧
  (∀ k range e, requests t !! k = Some range → (Do N u (S k) range).2 = Err e → isPermanent e = true →
     S k = length (requests t) ∧ r = Err DPermanent).
Proof.
  intros Hs. unfold fetch, download.
  pose proof (attempts_permanent (source N u) cancelled maxAttempts 1 (Transfer None 0 [] [] [None])) as H.
  destruct (attempts (source N u) cancelled maxAttempts 1 _) as [t r]. destruct H as (rs & Hrs & Hp).
  cbn in Hrs. split.
  - intros hops Hin. apply list_elem_of_In, elem_of_lookup_imap in Hin as (k & range & -> & _).
    by apply (follow_confined N 4 (S k) [] u range Hs ltac:(cbn; lia)).
  - intros k range e Hk He Hper. rewrite Hrs in *. apply (Hp k range Hk).
    unfold source. cbn [Nat.add]. by rewrite He, Hper.
Qed.

Lemma download_confined_witness :
  let '(t, r) := fetch rebound mirror (λ _, false) in
  Scheme mirror = "https" ∧ r = Err DPermanent ∧
  ∀ hops, In hops (round_trips rebound mirror t) →
    (1 <= length hops <= 5)%nat ∧ ∀ h, In h hops → ∃ d, connection h = Some d ∧ vetted d.
Proof.
  pose proof (download_confined rebound mirror (λ _, false) eq_refl) as H.
  assert ((fetch rebound mirror (λ _, false)).2 = Err DPermanent) as Hr by reflexivity.
  destruct (fetch rebound mirror (λ _, false)) as [t r]. destruct H as [H _].
  split; [reflexivity|]. split; [exact Hr|]. intros hops Hin.
  destruct (H hops Hin) as (Hc & Hl & _). split; [exact Hl|]. intros h Hh. destruct (Hc h Hh) as [_ Hd].
  destruct Hd as (d & Hd & Hv & _); [|by exists d].
  apply list_elem_of_In, elem_of_lookup_imap in Hin as (k & range & -> & _).
  revert Hh. clear.
  assert (∀ h, In h (Do rebound mirror (S k) range).1 → via_proxy h = false) as Hall; [|apply Hall].
  unfold Do. intros x. cbn. naive_solver.
Defined.
