(* ===== verification/GoURL.v ===== *)
(** net/url: [url.Parse] and [URL.String]. What a host may look like - brackets, zones,
    ports, how many colons - differs from one Go release to the next and is a
    parameter, [parseHost]; errors carry no text. *)

From S2P Require Import Prelude GoString.

Definition letter (c : ascii) : bool := in_range "a" "z" c || in_range "A" "Z" c.
Definition is_alnum (c : ascii) : bool := letter c || is_digit c.

(** [stringContainsCTLByte] *)
Definition ctl (c : ascii) : bool := (N_of_ascii c <? 32)%N || (N_of_ascii c =? 127)%N.

(** The scheme is ASCII by then. *)
Fixpoint ToLower (s : string) : string :=
  match s with
  | "" => ""
  | String c s => String (if in_range "A" "Z" c then byte (nat_of_ascii c + 32) else c) (ToLower s)
  end.

(** A cut at the last separator. *)
Fixpoint CutLast (s : string) (sep : ascii) : option (string * string) :=
  match s with
  | "" => None
  | String c s' =>
      match CutLast s' sep with
      | Some (a, b) => Some (String c a, b)
      | None => if Ascii.eqb c sep then Some ("", s') else None
      end
  end.

(** ** Escaping *)

Inductive encoding := encodePath | encodeHost | encodeUserPassword | encodeFragment.

Definition shouldEscape (c : ascii) (mode : encoding) : bool :=
  if is_alnum c then false
  else if match mode with encodeHost => ContainsByte ("!$&'()*+,;=:[]<>" +:+ String (byte 34) "") c | _ => false end
  then false
  else if ContainsByte "-_.~" c then false
  else if ContainsByte "$&+,/:;=?@" c then
    match mode with
    | encodePath => Ascii.eqb c "?"
    | encodeUserPassword => ContainsByte "@/?:" c
    | encodeFragment => false
    | encodeHost => true
    end
  else match mode with encodeFragment => negb (ContainsByte "!()*" c) | _ => true end.

Definition upperhex (n : nat) : ascii := if (n <? 10)%nat then byte (48 + n) else byte (55 + n).

Fixpoint escape (s : string) (mode : encoding) : string :=
  match s with
  | "" => ""
  | String c s =>
      if shouldEscape c mode
      then String "%" (String (upperhex (nat_of_ascii c / 16)) (String (upperhex (nat_of_ascii c mod 16)) (escape s mode)))
      else String c (escape s mode)
  end.

Definition unhex (c : ascii) : option nat :=
  if is_digit c then Some (nat_of_ascii c - 48)%nat
  else if in_range "a" "f" c then Some (nat_of_ascii c - 87)%nat
  else if in_range "A" "F" c then Some (nat_of_ascii c - 55)%nat
  else None.

(** In the modes for paths, fragments and user names. *)
Fixpoint unescape (s : string) : option string :=
  match s with
  | "" => Some ""
  | String c s =>
      if Ascii.eqb c "%" then
        match s with
        | String a (String b s) => h ← unhex a; l ← unhex b; String (byte (16 * h + l)) <$> unescape s
        | _ => None
        end
      else String c <$> unescape s
  end.

Definition validEncoded (s : string) (mode : encoding) : bool :=
  all_bytes (λ c, ContainsByte "!$&'()*+,;=:@[]%" c || negb (shouldEscape c mode)) s.

(** [setPath] and [setFragment] keep the text as written when the default encoding of
    what it means is another one; [EscapedPath] and [EscapedFragment] read it back. *)
Definition set_encoded (p : string) (mode : encoding) : option (string * string) :=
  path ← unescape p;
  Some (path, if p =s escape path mode then "" else p).

Definition get_encoded (path raw : string) (mode : encoding) : string :=
  if (raw <>s "") && validEncoded raw mode && bool_decide (unescape raw = Some path) then raw
  else if match mode with encodePath => path =s "*" | _ => false end then "*"
  else escape path mode.

(** ** The URL *)

Record Userinfo := MkUserinfo {
  username : string;
  password : option string
}.

Record URL := MkURL {
  Scheme : string;
  Opaque : string;
  User : option Userinfo;
  Host : string;
  Path : string;
  RawPath : string;
  OmitHost : bool;
  ForceQuery : bool;
  RawQuery : string;
  Fragment : string;
  RawFragment : string
}.

Section url.
(** The host of an authority, of this scheme. *)
Context (parseHost : string → string → option string).

(** The scheme and what follows its colon. *)
Fixpoint scheme_of (s : string) : option (string * string) :=
  match s with
  | "" => None
  | String c s =>
      if Ascii.eqb c ":" then Some ("", s)
      else if is_alnum c || ContainsByte "+-." c then
        '(a, b) ← scheme_of s; Some (String c a, b)
      else None
  end.

Definition getScheme (raw : string) : option (string * string) :=
  match raw with
  | "" => Some ("", raw)
  | String c _ =>
      if Ascii.eqb c ":" then None
      else if letter c then Some (default ("", raw) (scheme_of raw))
      else Some ("", raw)
  end.

Definition validUserinfo (s : string) : bool := all_bytes (λ c, is_alnum c || ContainsByte "-._:~!$&'()*+,;=%@" c) s.

Definition parseUser (s : string) : option Userinfo :=
  if negb (validUserinfo s) then None
  else
    let '(u, p, ok) := Cut s ":" in
    u ← unescape u;
    if ok : bool then p ← unescape p; Some (MkUserinfo u (Some p)) else Some (MkUserinfo u None).

Definition parseAuthority (scheme authority : string) : option (option Userinfo * string) :=
  match CutLast authority "@" with
  | None => h ← parseHost scheme authority; Some (None, h)
  | Some (user, host) => h ← parseHost scheme host; u ← parseUser user; Some (Some u, h)
  end.

(** The query off the end: ForceQuery, the rest, RawQuery. *)
Definition cut_query (rest : string) : bool * string * string :=
  let '(a, q, ok) := Cut rest "?" in
  if ok && (q =s "") then (true, a, "") else (false, a, q).

(** [parse], without the fragment. *)
Definition parse (raw : string) : option URL :=
  if negb (all_bytes (negb ∘ ctl) raw) then None
  else if raw =s "*" then Some (MkURL "" "" None "" "*" "" false false "" "" "")
  else
    '(scheme, rest) ← getScheme raw;
    let scheme := ToLower scheme in
    let '(force, rest, query) := cut_query rest in
    if negb (HasPrefix rest "/") && (scheme <>s "")
    then Some (MkURL scheme rest None "" "" "" false force query "" "")
    else if negb (HasPrefix rest "/") && ContainsByte (Cut rest "/").1.1 ":" then None
    else
      '(user, host, omit, rest) ← (
        if ((scheme <>s "") || negb (HasPrefix rest "///")) && HasPrefix rest "//" then
          let '(authority, path, ok) := Cut (str_drop 2 rest) "/" in
          '(user, host) ← parseAuthority scheme authority;
          Some (user, host, false, if ok : bool then String "/" path else "")
        else Some (None, "", (scheme <>s "") && HasPrefix rest "/", rest));
      '(path, rawpath) ← set_encoded rest encodePath;
      Some (MkURL scheme "" user host path rawpath omit force query "" "").

Definition Parse (raw : string) : option URL :=
  let '(u, frag, _) := Cut raw "#" in
  url ← parse u;
  if frag =s "" then Some url
  else
    '(f, rawf) ← set_encoded frag encodeFragment;
    Some (MkURL (Scheme url) (Opaque url) (User url) (Host url) (Path url) (RawPath url) (OmitHost url)
                (ForceQuery url) (RawQuery url) f rawf).
End url.

Definition user_string (u : Userinfo) : string :=
  match password u with
  | Some p => if (username u <>s "") || (p <>s "")
              then escape (username u) encodeUserPassword +:+ ":" +:+ escape p encodeUserPassword else ""
  | None => escape (username u) encodeUserPassword
  end.

(** The authority. *)
Definition authority_string (u : URL) : string :=
  let user := bool_decide (is_Some (User u)) in
  if (Scheme u <>s "") || (Host u <>s "") || user then
    if OmitHost u && (Host u =s "") && negb user then ""
    else
      (if (Host u <>s "") || (Path u <>s "") || user then "//" else "")
      +:+ match User u with Some i => user_string i +:+ "@" | None => "" end
      +:+ escape (Host u) encodeHost
  else "".

Definition URL_String (u : URL) : string :=
  let scheme := if Scheme u <>s "" then Scheme u +:+ ":" else "" in
  (if Opaque u <>s "" then scheme +:+ Opaque u
   else
     let buf := scheme +:+ authority_string u in
     let path := get_encoded (Path u) (RawPath u) encodePath in
     let buf := buf +:+ (if (path <>s "") && negb (HasPrefix path "/") && (Host u <>s "") then "/" else "") in
     let buf := if (buf =s "") && ContainsByte (Cut path "/").1.1 ":" then "./" else buf in
     buf +:+ path)
  +:+ (if ForceQuery u || (RawQuery u <>s "") then "?" +:+ RawQuery u else "")
  +:+ (if Fragment u <>s "" then "#" +:+ get_encoded (Fragment u) (RawFragment u) encodeFragment else "").
