(* ===== verification/GoSort.v ===== *)
(** sort.Strings and the order os.ReadDir and filepath.Glob list names in: bytes,
    then length. *)

From S2P Require Import Prelude GoString.
From stdpp Require Import sorting.

Definition str_le (a b : string) : Prop := String.leb a b = true.
#[export] Instance str_le_dec : RelDecision str_le := λ a b, decide (String.leb a b = true).

Definition sort_strings (l : list string) : list string := merge_sort str_le l.

Lemma ascii_compare_trans a b c o : Ascii.compare a b = o → Ascii.compare b c = o → Ascii.compare a c = o.
Proof.
  unfold Ascii.compare. destruct o.
  - rewrite !N.compare_eq_iff. congruence.
  - rewrite !N.compare_lt_iff. lia.
  - rewrite !N.compare_gt_iff. lia.
Qed.

Lemma compare_lt_trans a b c :
  String.compare a b ≠ Gt → String.compare b c ≠ Gt → String.compare a c ≠ Gt.
Proof.
  revert b c. induction a as [|x a IH]; intros [|y b] [|z c]; cbn; try done.
  destruct (Ascii.compare x y) eqn:E1, (Ascii.compare y z) eqn:E2; try done; intros H1 H2.
  - rewrite (ascii_compare_trans _ _ _ _ E1 E2). by apply (IH b).
  - apply Ascii.compare_eq_iff in E1 as ->. by rewrite E2.
  - apply Ascii.compare_eq_iff in E2 as <-. by rewrite E1.
  - by rewrite (ascii_compare_trans _ _ _ _ E1 E2).
Qed.

Lemma str_le_compare a b : str_le a b ↔ String.compare a b ≠ Gt.
Proof. unfold str_le, String.leb. by destruct (String.compare a b). Qed.

#[export] Instance str_le_trans : Transitive str_le.
Proof. intros a b c. rewrite !str_le_compare. apply compare_lt_trans. Qed.

#[export] Instance str_le_total : Total str_le.
Proof. intros a b. apply String.leb_total. Qed.

Lemma str_le_antisym a b : str_le a b → str_le b a → a = b.
Proof. apply String.leb_antisym. Qed.

Lemma str_le_refl a : str_le a a.
Proof. by destruct (str_le_total a a). Qed.

Lemma sort_strings_perm l : Permutation (sort_strings l) l.
Proof. apply merge_sort_Permutation. Qed.

Lemma sort_strings_sorted l : StronglySorted str_le (sort_strings l).
Proof. apply StronglySorted_merge_sort; apply _. Qed.

Example sort_example : sort_strings ["b"; ".kbf"; "Makefile"; ".config"] = [".config"; ".kbf"; "Makefile"; "b"].
Proof. by vm_compute. Qed.
