(* ===== verification/Mount.v ===== *)
(** The persistent mount of the step, and programs over it with crashes.
    A program is a function from the mount to the states it passes through, the
    state it ends in and its result: a build killed at any point leaves one of the
    states passed through. Crash triples ([triple P c Q C]) compose along the
    program: [C] holds of every state passed through and of every state an error
    leaves, [Q] of the result. *)

From S2P Require Import Prelude GoString.

(** ** The mount *)

(** Regular files by cleaned relative path; directories are implied by the paths. *)
Abbreviation mount := (gmap string string).

(** The entry of the mount's own directory a path is under. *)
Definition top (p : string) : string := let '(a, _, _) := Cut p "/" in a.

Record outcome (E A : Type) := Outcome {
  passed : list mount;
  final : mount;
  ret : result E A
}.
Arguments Outcome {E A} _ _ _.
Arguments passed {E A} _.
Arguments final {E A} _.
Arguments ret {E A} _.

Definition M (E A : Type) := mount → outcome E A.

#[export] Instance M_ret {E} : MRet (M E) := λ A a m, Outcome [] m (Ok a).
#[export] Instance M_bind {E} : MBind (M E) := λ A B f c m,
  let o := c m in
  match ret o with
  | Ok a => let o' := f a (final o) in Outcome (passed o ++ passed o') (final o') (ret o')
  | Err e => Outcome (passed o) (final o) (Err e)
  end.

(** ** Primitive operations *)

Section ops.
Context {E : Type}.

Definition get : M E mount := λ m, Outcome [] m (Ok m).
Definition fail {A} (e : E) : M E A := λ m, Outcome [] m (Err e).
Definition lift {F A} (inj : F → E) (r : result F A) : M E A :=
  λ m, Outcome [] m (map_err inj r).

(** [os.ReadFile] *)
Definition read (p : string) : M E (option string) := λ m, Outcome [] m (Ok (m !! p)).

(** [os.WriteFile]: truncation, then the bytes; a crash leaves any prefix. *)
Definition write_states (p c : string) (m : mount) : list mount :=
  map (λ k, <[p := str_take k c]> m) (seq 0 (S (String.length c))).
Definition write (p c : string) : M E unit :=
  λ m, Outcome (write_states p c m) (<[p := c]> m) (Ok tt).

(** [os.Remove], an absent file not being an error. *)
Definition remove (p : string) : M E unit :=
  λ m, Outcome [delete p m] (delete p m) (Ok tt).

(** [os.Rename] *)
Definition rename (p q : string) (e : E) : M E unit := λ m,
  match m !! p with
  | Some c => let m' := <[q := c]> (delete p m) in Outcome [m'] m' (Ok tt)
  | None => Outcome [] m (Err e)
  end.

(** The paths removed one after the other. *)
Fixpoint removals (ps : list string) (m : mount) : list mount :=
  match ps with
  | [] => []
  | p :: ps => delete p m :: removals ps (delete p m)
  end.
Definition remove_list (ps : list string) : M E unit :=
  λ m, Outcome (removals ps m) (foldl (λ m p, delete p m) m ps) (Ok tt).

(** An external program: the states it passes through, where it ends, success. *)
Definition external (f : mount → list mount * mount * bool) (e : E) : M E unit :=
  λ m, let '(ms, m', ok) := f m in Outcome (ms ++ [m']) m' (if ok then Ok tt else Err e).

(** [_ = c()]: the error is dropped. *)
Definition ignore {F} (c : M F unit) : M E unit :=
  λ m, let o := c m in Outcome (passed o) (final o) (Ok tt).

(** [fmt.Errorf("...: %w", err)] around a call. *)
Definition wrap {F A} (f : F → E) (c : M F A) : M E A :=
  λ m, let o := c m in Outcome (passed o) (final o) (map_err f (ret o)).

Fixpoint each {A} (f : A → M E unit) (l : list A) : M E unit :=
  match l with
  | [] => mret tt
  | a :: l => f a;; each f l
  end.

(** *** Running a sequence *)

Lemma bind_quiet {A B} (c : M E A) (f : A → M E B) a m :
  c m = Outcome [] m (Ok a) → (c ≫= f) m = f a m.
Proof. intros H. unfold mbind, M_bind. rewrite H. cbn. by destruct (f a m). Qed.

Lemma bind_get {B} (f : mount → M E B) m : (get ≫= f) m = f m m.
Proof. by apply bind_quiet. Qed.

Lemma bind_read {B} p (f : option string → M E B) m : (read p ≫= f) m = f (m !! p) m.
Proof. by apply bind_quiet. Qed.

Lemma bind_ret {A B} (a : A) (f : A → M E B) m : (mret a ≫= f) m = f a m.
Proof. by apply bind_quiet. Qed.

Lemma bind_lift {F A B} (inj : F → E) (r : result F A) (f : A → M E B) a m :
  r = Ok a → (lift inj r ≫= f) m = f a m.
Proof. intros ->. by apply bind_quiet. Qed.

Lemma bind_fails {A B} (c : M E A) (f : A → M E B) e m :
  ret (c m) = Err e → (c ≫= f) m = Outcome (passed (c m)) (final (c m)) (Err e).
Proof. intros H. unfold mbind, M_bind. by rewrite H. Qed.

(** A run to the end: what it returns and where it leaves the mount. *)
Definition runs {A} (c : M E A) (m : mount) (a : A) (m' : mount) : Prop :=
  ret (c m) = Ok a ∧ final (c m) = m'.

Lemma runs_bind {A B} (c : M E A) (f : A → M E B) m b m' :
  runs (c ≫= f) m b m' ↔ ∃ a m1, runs c m a m1 ∧ runs (f a) m1 b m'.
Proof.
  unfold runs, mbind, M_bind. destruct (c m) as [ps m1 [a|e]]; cbn.
  - split; [intros Hr; by exists a, m1|].
    intros (a' & m1' & [Ha Hm] & Hr). injection Ha as <-. by subst m1'.
  - split; [by intros [? _]|]. by intros (a' & m1' & ([=] & _) & _).
Qed.

Lemma runs_ret {A} (a b : A) m m' : runs (mret a) m b m' ↔ b = a ∧ m' = m.
Proof. unfold runs. cbn. split; [by intros [[= ->] ->]|by intros [-> ->]]. Qed.

Lemma runs_get m a m' : runs get m a m' ↔ a = m ∧ m' = m.
Proof. unfold runs. cbn. split; [by intros [[= ->] ->]|by intros [-> ->]]. Qed.

Lemma runs_read p m a m' : runs (read p) m a m' ↔ a = m !! p ∧ m' = m.
Proof. unfold runs. cbn. split; [by intros [[= <-] ->]|by intros [-> ->]]. Qed.

Lemma runs_fail {A} (e : E) m (a : A) m' : runs (fail e) m a m' ↔ False.
Proof. unfold runs. cbn. split; [by intros [[=] _]|done]. Qed.

Lemma runs_remove p m u m' : runs (remove p) m u m' ↔ m' = delete p m.
Proof. unfold runs. cbn. destruct u. split; [by intros [_ ->]|by intros ->]. Qed.

Lemma runs_write p c m u m' : runs (write p c) m u m' ↔ m' = <[p := c]> m.
Proof. unfold runs. cbn. destruct u. split; [by intros [_ ->]|by intros ->]. Qed.

Lemma runs_lift {F A} (inj : F → E) (r : result F A) m a m' :
  runs (lift inj r) m a m' ↔ r = Ok a ∧ m' = m.
Proof.
  unfold runs. cbn. rewrite map_err_Ok. split; [by intros [-> ->]|by intros [-> ->]].
Qed.

Lemma runs_external f (e : E) m u m' :
  runs (external f e) m u m' ↔ ∃ ms, f m = (ms, m', true).
Proof.
  unfold runs, external. destruct (f m) as [[ms m1] ok]. cbn. destruct u, ok; split.
  - intros [_ ->]. by exists ms.
  - by intros (ms' & [= -> ->]).
  - by intros [[=] _].
  - by intros (ms' & [=]).
Qed.

(** ** Crash triples *)

Definition triple {A} (P : mount → Prop) (c : M E A) (Q : A → mount → Prop) (C : mount → Prop) : Prop :=
  ∀ m, P m → Forall C (passed (c m)) ∧
             match ret (c m) with Ok a => Q a (final (c m)) | Err _ => C (final (c m)) end.

Lemma triple_bind {A B} P (c : M E A) (f : A → M E B) R Q C :
  triple P c R C → (∀ a, triple (R a) (f a) Q C) → triple P (c ≫= f) Q C.
Proof.
  intros Hc Hf m Hm. specialize (Hc m Hm). unfold mbind, M_bind.
  destruct (c m) as [ps m1 [a|e]]; cbn in *; [|done].
  destruct Hc as [Hps HR]. specialize (Hf a m1 HR). destruct (f a m1) as [ps' m2 r]; cbn in *.
  destruct Hf as [Hps' HQ]. split; [by apply Forall_app|done].
Qed.

Lemma triple_ret {A} (a : A) (Q : A → mount → Prop) C : triple (Q a) (mret a) Q C.
Proof. intros m Hm. by split. Qed.

Lemma triple_skip (Q C : mount → Prop) : triple Q (mret tt) (λ _, Q) C.
Proof. apply (triple_ret tt (λ _, Q)). Qed.

(** A fact about no state moves into the context. *)
Lemma triple_pure {A} (φ : Prop) P (c : M E A) Q C :
  (φ → triple P c Q C) → triple (λ m, φ ∧ P m) c Q C.
Proof. intros H m [Hφ Hm]. by apply H. Qed.

Lemma triple_exists {A B} (P : B → mount → Prop) (c : M E A) Q C :
  (∀ b, triple (P b) c Q C) → triple (λ m, ∃ b, P b m) c Q C.
Proof. intros H m [b Hm]. by eapply H. Qed.

Lemma triple_fail {A} (e : E) (Q : A → mount → Prop) (C : mount → Prop) : triple C (fail e) Q C.
Proof. intros m Hm. by split. Qed.

Lemma triple_conseq {A} (P P' : mount → Prop) (c : M E A) Q (Q' : A → mount → Prop) (C C' : mount → Prop) :
  triple P' c Q' C' → (∀ m, P m → P' m) → (∀ a m, Q' a m → Q a m) → (∀ m, C' m → C m) →
  triple P c Q C.
Proof.
  intros Hc HP HQ HC m Hm. destruct (Hc m (HP m Hm)) as [Hps Hr]. split.
  - eapply Forall_impl; [exact Hps|exact HC].
  - destruct (ret (c m)); auto.
Qed.

Lemma triple_pre {A} (P P' : mount → Prop) (c : M E A) Q C :
  triple P' c Q C → (∀ m, P m → P' m) → triple P c Q C.
Proof. intros H HP. eapply triple_conseq; eauto. Qed.

Lemma triple_post {A} P (c : M E A) (Q Q' : A → mount → Prop) C :
  triple P c Q' C → (∀ a m, Q' a m → Q a m) → triple P c Q C.
Proof. intros H HQ. eapply triple_conseq; eauto. Qed.

Lemma triple_get P C : triple P get (λ a m, a = m ∧ P m) C.
Proof. intros m Hm. by split. Qed.

(** A decision made on the state read. *)
Lemma triple_get_intro {A} P (f : mount → M E A) Q C :
  (∀ m0, triple (λ m, m = m0 ∧ P m) (f m0) Q C) → triple P (get ≫= f) Q C.
Proof. intros H m Hm. by apply (H m). Qed.

Lemma triple_get_elim {A} P (f : mount → M E A) Q C :
  triple P (get ≫= f) Q C → ∀ m0, triple (λ m, m = m0 ∧ P m) (f m0) Q C.
Proof. intros H m0 m [-> Hm]. by apply (H m0). Qed.

Lemma triple_read P p C : triple P (read p) (λ a m, a = m !! p ∧ P m) C.
Proof. intros m Hm. by split. Qed.

Lemma triple_lift {F A} P (inj : F → E) (r : result F A) (C : mount → Prop) :
  (∀ m, P m → C m) → triple P (lift inj r) (λ a m, r = Ok a ∧ P m) C.
Proof. intros HC m Hm. unfold lift. cbn. split; [constructor|]. destruct r; cbn; auto. Qed.

(** A case split made on the state. *)
Lemma triple_case {A} P (R : mount → Prop) (c : M E A) Q C :
  (∀ m, P m → R m ∨ ¬ R m) →
  triple (λ m, P m ∧ R m) c Q C → triple (λ m, P m ∧ ¬ R m) c Q C → triple P c Q C.
Proof. intros Hd H1 H2 m Hm. destruct (Hd m Hm); [apply H1|apply H2]; auto. Qed.

Lemma triple_write P p c Q (C : mount → Prop) :
  (∀ m, P m → Forall C (write_states p c m)) →
  (∀ m, P m → Q tt (<[p := c]> m)) → triple P (write p c) Q C.
Proof. intros HC HQ m Hm. split; [by apply HC|by apply HQ]. Qed.

Lemma triple_remove P p Q (C : mount → Prop) :
  (∀ m, P m → C (delete p m)) → (∀ m, P m → Q tt (delete p m)) → triple P (remove p) Q C.
Proof. intros HC HQ m Hm. split; [by apply Forall_singleton, HC|by apply HQ]. Qed.

Lemma triple_external P f (e : E) Q (C : mount → Prop) :
  (∀ m, P m → let '(ms, m', ok) := f m in Forall C ms ∧ C m' ∧ (ok = true → Q tt m')) →
  triple P (external f e) Q C.
Proof.
  intros H m Hm. specialize (H m Hm). unfold external.
  destruct (f m) as [[ms m'] ok]. destruct H as (H1 & H2 & H3). cbn.
  split; [apply Forall_app; split; [done|by apply Forall_singleton]|]. destruct ok; auto.
Qed.

Lemma triple_runs {A} P (c : M E A) Q C m a m' :
  triple P c Q C → runs c m a m' → P m → Q a m'.
Proof. intros H [Ha <-] Hm. destruct (H m Hm) as [_ H2]. by rewrite Ha in H2. Qed.

(** What holds of one run of a program holds together. *)
Lemma triple_conj {A} P P' (c : M E A) Q Q' C C' :
  triple P c Q C → triple P' c Q' C' →
  triple (λ m, P m ∧ P' m) c (λ a m, Q a m ∧ Q' a m) (λ m, C m ∧ C' m).
Proof.
  intros H H' m [Hm Hm']. destruct (H m Hm) as [H1 H2], (H' m Hm') as [H1' H2'].
  split; [by apply Forall_and|]. by destruct (ret (c m)).
Qed.

(** An invariant of the loop body is an invariant of the loop. *)
Lemma triple_each {A} (f : A → M E unit) (I C : mount → Prop) l :
  (∀ a, In a l → triple I (f a) (λ _, I) C) → triple I (each f l) (λ _, I) C.
Proof.
  induction l as [|a l IH]; intros H; cbn [each].
  - apply (triple_ret tt (λ _, I)).
  - apply (triple_bind _ _ _ (λ _, I)); [apply H; by left|]. intros u. apply IH. intros b Hb. apply H. by right.
Qed.
End ops.

Lemma triple_wrap {E F A} (f : F → E) (c : M F A) P Q C :
  triple P c Q C → triple P (wrap f c) Q C.
Proof. intros H m Hm. specialize (H m Hm). unfold wrap. cbn. by destruct (ret (c m)). Qed.

Lemma runs_wrap {E F A} (f : F → E) (c : M F A) m a m' : runs (wrap f c) m a m' ↔ runs c m a m'.
Proof. unfold runs, wrap. cbn. by rewrite map_err_Ok. Qed.

(** Opens every bind of a completed run in the context. *)
Ltac inv_runs :=
  repeat match goal with
  | H : runs (_ ≫= _) _ _ _ |- _ =>
      apply runs_bind in H;
      let a := fresh "a" in let m := fresh "m" in let H1 := fresh "R" in
      destruct H as (a & m & H1 & H)
  | H : runs (mret _) _ _ _ |- _ => rewrite runs_ret in H; destruct H as [? ?]; subst
  | H : runs get _ _ _ |- _ => apply runs_get in H as [? ?]; subst
  | H : runs (read _) _ _ _ |- _ => apply runs_read in H as [? ?]; subst
  | H : runs (fail _) _ _ _ |- _ => apply runs_fail in H as []
  | H : runs (remove _) _ _ _ |- _ => apply runs_remove in H; subst
  | H : runs (write _ _) _ _ _ |- _ => apply runs_write in H; subst
  | H : runs (lift _ _) _ _ _ |- _ => apply runs_lift in H as [? ?]; subst
  | H : runs (wrap _ _) _ _ _ |- _ => apply runs_wrap in H
  | u : unit |- _ => destruct u
  end.

(** ** Reading the writes *)

Lemma write_states_spec p c m m' :
  In m' (write_states p c m) ↔ ∃ k, (k <= String.length c)%nat ∧ m' = <[p := str_take k c]> m.
Proof.
  unfold write_states. rewrite in_map_iff. setoid_rewrite in_seq. split.
  - intros (k & <- & Hk). exists k. split; [lia|done].
  - intros (k & Hk & ->). exists k. split; [done|lia].
Qed.

Lemma write_states_Forall (C : mount → Prop) p c m :
  (∀ k, (k <= String.length c)%nat → C (<[p := str_take k c]> m)) → Forall C (write_states p c m).
Proof.
  intros H. apply Forall_forall. intros m' Hin. apply list_elem_of_In, write_states_spec in Hin
    as (k & Hk & ->). by apply H.
Qed.
