(* ===== verification/Tree.v ===== *)
(** cmd/kbuild-step/main.go, the object tree on the persistent mount: its stamp
    ([stampWant], [readStamp]), [nukeTree], [acquireSource], [extractTarball],
    [applyPatches], the seed pull, [prepareTree] and [configure], as crash programs.
    What the step does not compute itself - the decoders, gitdiff, make, the HTTP
    server and the bucket - is the [World] it runs in. *)

From stdpp Require sorting.
From S2P Require Import Prelude GoString GoSort Sha256 Spec LLB StepEnv Download Mount.

(** ** The outside *)

Inductive bucket_answer :=
  | BucketError
  | NoSuchKey
  | Object (files : list (string * string)) (complete : bool).
      (* the files of the stream in order, and whether it decoded to its end *)

Record World := MkWorld {
  (* the order in which RemoveAll removes the files of one entry *)
  unlink : list string → list string;
  (* make in this environment with these arguments: states passed through, end
     state, success *)
  make : gmap string string → list string → mount → list mount * mount * bool;
  (* a compressed tarball without its leading component: files, complete *)
  decode : string → string → list (string * string) * bool;
  (* the changes the write pool's workers make to the files of a stream, in the order
     they happen: a removal, or what is written so far *)
  workers : list (string * string) → list (string * option string);
  (* gitdiff: parse and apply one patch file *)
  gitapply : string → mount → list mount * mount * bool;
  server : string → nat → option Z → response;
  cancelled : nat → bool;
  bucket : seedCfg → bucket_answer
}.

(** The read-only inputs of one run. *)
Record inputs := Inputs {
  env : gmap string string;
  config : option string;               (* /kernel.config *)
  patches : gmap string string;         (* /patches *)
  srcs : gmap string string;            (* /src *)
  secrets : gmap string string          (* /run/secrets *)
}.

Inductive StepError :=
  | SNoPatches
  | SHashLocal
  | SBadLocal (name : string)
  | SSourceExt (url : string)
  | SDownload (e : DownloadError)
  | SRename
  | SMismatch (got want : string)
  | SExtract
  | SPatch (name : string)
  | SSeedURL                            (* want https://host/bucket *)
  | SSeed
  | SNoConfig
  | SBaseMake
  | SAppend
  | SMake.

Abbreviation prog := (M StepError).

Definition fileSHA256 (content : string) : string := hex (Sum256 content).

(** ** Names *)

Definition stampFile : string := ".kbf-stamp".
Definition seedStampFile : string := ".kbf-stamp.seed".
Definition markerFile : string := ".kbf-config-src".

Definition spared (name : string) : bool := HasPrefix name ".kbf-src".

(** ** The stamp *)

Definition treePresent (m : mount) : bool := bool_decide (is_Some (m !! "Makefile")).

Definition readStamp (m : mount) : string := default "none" (m !! stampFile).

Definition stamp (srcID psha : string) : string := "src=" +:+ srcID +:+ " patches=" +:+ psha.

Section step.
Context (W : World) (I : inputs).

Definition getenv (k : string) : string := StepEnv.getenv (env I) k.

(** The names under /patches that the glob [*.patch] matches, sorted. *)
Definition patchFiles : result StepError (list string) :=
  let names := List.filter (λ n, HasSuffix n ".patch" && negb (ContainsByte n "/"))
                           (map fst (map_to_list (patches I))) in
  match names with
  | [] => Err SNoPatches
  | _ => Ok (sort_strings names)
  end.

Definition patchContent (n : string) : string := default "" (patches I !! n).

Definition stampWant : result StepError string :=
  psha ← (if getenv "APPLY_PATCHES" =s "1" then
            names ← patchFiles;
            Ok (str_take 16 (fileSHA256 (foldr (λ n r, patchContent n +:+ r) "" names)))
          else Ok "none");
  srcID ← (let name := getenv "SRC_LOCAL" in
           if name <>s "" then
             match srcs I !! name with
             | Some c => Ok ("local:" +:+ fileSHA256 c)
             | None => Err SHashLocal
             end
           else Ok (getenv "SRC_ID"));
  Ok (stamp srcID psha).

(** ** Discarding *)

Definition entries (m : mount) : list string :=
  sort_strings (remove_dups (map (λ e, top e.1) (map_to_list m))).

Definition under (t : string) (m : mount) : list string :=
  List.filter (λ p, top p =s t) (map fst (map_to_list m)).

(** The paths in the order they go: entries by name, each one's files in the order
    of [RemoveAll], the cached source skipped. *)
Definition nuke_order (m : mount) : list string :=
  flat_map (λ t, unlink W (under t m)) (List.filter (λ t, negb (spared t)) (entries m)).

Definition nukeTree : prog unit := λ m, remove_list (nuke_order m) m.

(** ** The source tarball *)

Inductive tarball := InSrc (name : string) | InBuild (path : string).

(** The transfer, seen on the mount. *)
Definition fetch_to (url path : string) : prog unit := λ m,
  let '(t, r) := download (server W url) (cancelled W) in
  let at_dst d := match d with Some c => <[path := c]> m | None => delete path m end in
  Outcome (map at_dst (contents t)) (at_dst (dst t)) (map_err SDownload r).

Definition acquireSource : prog tarball :=
  let name := getenv "SRC_LOCAL" in
  if name <>s "" then
    if Contains name ".." || HasPrefix name "/" then fail (SBadLocal name)
    else mret (InSrc name)
  else
    let srcURL := getenv "SRC_URL" in
    let sum := getenv "SRC_SHA256" in
    match SourceExt srcURL with
    | None => fail (SSourceExt srcURL)
    | Some ext =>
        let cached := ".kbf-src.tar" +:+ ext in
        let part := cached +:+ ".part" in
        have ← read cached;
        if (sum <>s "") && match have with Some c => fileSHA256 c =s sum | None => false end
        then mret (InBuild cached)
        else
          fetch_to srcURL part;;
          got ← read part;
          let got := fileSHA256 (default "" got) in
          if (sum <>s "") && (got <>s sum) then remove part;; fail (SMismatch got sum)
          else rename part cached SRename;; mret (InBuild cached)
    end.

(** The files of a stream through the write pool (Untar.v): killed, it leaves whatever
    its workers got to; drained, the files of the stream, the last of a name
    ([PoolLaws.untarPool_serial]). *)
Fixpoint changes (ws : list (string * option string)) (m : mount) : list mount :=
  match ws with
  | [] => []
  | w :: ws => let m' := partial_alter (λ _, w.2) w.1 m in m' :: changes ws m'
  end.
Definition write_files (files : list (string * string)) : prog unit := λ m,
  let m' := insert_all m files in Outcome (changes (workers W files) m ++ [m']) m' (Ok tt).

(** The codec is chosen by the last extension of the path. *)
Definition extractTarball (src : tarball) : prog unit :=
  let path := match src with InSrc n => n | InBuild p => p end in
  m ← get;
  match (match src with InSrc n => srcs I !! n | InBuild p => m !! p end) with
  | None => fail SExtract
  | Some content =>
      match find (HasSuffix path) [".gz"; ".zst"; ".xz"] with
      | None => fail SExtract
      | Some ext =>
          let '(files, complete) := decode W ext content in
          write_files files;; if complete then mret tt else fail SExtract
      end
  end.

Definition applyPatches : prog unit :=
  names ← lift id patchFiles;
  each (λ n, external (gitapply W (patchContent n)) (SPatch n)) names.

(** ** The seed *)

(** [untarSeed]'s renaming: the stream's own stamp is quarantined. *)
Definition quarantine (f : string * string) : string * string :=
  (if f.1 =s stampFile then seedStampFile else f.1, f.2).

(** [true] when the object exists; an error while extracting clears the mount. *)
Definition seedPull (c : seedCfg) : prog bool :=
  match s3Target c with
  | None => fail SSeedURL
  | Some _ =>
      match bucket W c with
      | BucketError => fail SSeed
      | NoSuchKey => mret false
      | Object files complete =>
          write_files (map quarantine files);;
          if complete then mret true else ignore nukeTree;; fail SSeed
      end
  end.

(** filepath.WalkDir lists a directory by name and descends at once: byte order of
    the paths with the separator below every name byte. *)
Definition walk_key (p : string) : string :=
  str (map (λ c, if Ascii.eqb c "/" then NUL else c) (chars p)).
Definition walk_le (a b : string) : Prop := str_le (walk_key a) (walk_key b).
#[export] Instance walk_le_dec : RelDecision walk_le := λ a b, decide (str_le _ _).

Definition base (p : string) : string := List.last (Split p "/") "".

Definition packable (p : string) : bool :=
  negb (HasPrefix (base p) ".kbf-seed-" || HasPrefix (base p) ".kbf-src").

(** What [seedPush] packs: the files of the walk, in its order. *)
Definition seed_pack (m : mount) : list (string * string) :=
  let names := List.filter packable (sorting.merge_sort walk_le (map fst (map_to_list m))) in
  omap (λ p, (λ c, (p, c)) <$> m !! p) names.

(** ** prepareTree *)

Definition prepareTree (seed : option seedCfg) : prog unit :=
  want ← lift id stampWant;
  m ← get;
  src ← (if treePresent m && (readStamp m <>s want)
         then src ← acquireSource; nukeTree;; mret (Some src)
         else mret None);
  m ← get;
  (if treePresent m then mret tt else nukeTree);;
  m ← get;
  (match seed with
   | Some c =>
       if treePresent m then mret tt
       else
         found ← seedPull c;
         if (found : bool) then
           seedStamp ← read seedStampFile;
           remove seedStampFile;;
           if default "" seedStamp <>s want then nukeTree else write stampFile want
         else mret tt
   | None => mret tt
   end);;
  m ← get;
  if treePresent m then mret tt
  else
    src ← (match src with Some src => mret src | None => acquireSource end);
    extractTarball src;;
    (if getenv "APPLY_PATCHES" =s "1" then applyPatches else mret tt);;
    write stampFile want.

(** ** configure *)

Definition runMake (args : list string) (e : StepError) : prog unit := external (make W (env I) args) e.

Definition baseMake : list string := Fields (getenv "BASE_MAKE").

Definition cfgID (cfg : string) : string :=
  "base-make=" +:+ Join baseMake " " +:+ String NUL cfg.

(** [O_APPEND] without [O_CREATE]. *)
Definition append (p c : string) : prog unit := λ m,
  match m !! p with
  | Some old => Outcome (map (λ k, <[p := old +:+ str_take k c]> m) (seq 0 (S (String.length c))))
                        (<[p := old +:+ c]> m) (Ok tt)
  | None => Outcome [] m (Err SAppend)
  end.

Definition configure : prog unit :=
  match config I with
  | None => fail SNoConfig
  | Some cfg =>
      prev ← read markerFile;
      if bool_decide (prev = Some (cfgID cfg)) then mret tt
      else
        remove markerFile;;
        (match baseMake with
         | [] => write ".config" cfg
         | _ =>
             runMake (baseMakeArgs (env I)) SBaseMake;;
             if TrimSpace cfg =s "" then mret tt else append ".config" (String LF cfg)
         end);;
        runMake (olddefconfigArgs (env I)) SMake;;
        write markerFile (cfgID cfg)
  end.

End step.
