(* ===== verification/TreeLaws.v ===== *)
(** The object tree is crash safe: the laws of [nukeTree], [prepareTree] and
    [configure] (cmd/kbuild-step/main.go) over every point a build can be killed
    at, and the two situations in which the stamp says more than it should. *)

From Stdlib Require Import Sorted.
From S2P Require Import Prelude GoString GoSort Sha256 Spec SpecValid LLB LLBLaws StepEnv Download Mount Tree.

(** ** The laws of the outside *)

Definition kbf (p : string) : bool := HasPrefix (top p) ".kbf-".

Class WorldOk (W : World) : Prop := {
  (* RemoveAll removes each file of an entry, in some order *)
  unlink_perm : ∀ l, Permutation (unlink W l) l;
  (* the pool's workers change files of the stream and no other *)
  workers_own : ∀ files, Forall (λ w, ∃ f, f ∈ files ∧ f.1 = w.1) (workers W files)
}.

(** What a build extracts as its source: the local tarball; a tarball with the pinned
    checksum; or, unpinned, whatever the server sends it. *)
Definition source_content (W : World) (I : inputs) (c : string) : Prop :=
  let env := Tree.getenv I in
  if env "SRC_LOCAL" <>s "" then srcs I !! env "SRC_LOCAL" = Some c
  else if env "SRC_SHA256" <>s "" then fileSHA256 c = env "SRC_SHA256"
  else dst (download (server W (env "SRC_URL")) (cancelled W)).1 = Some c.

(** A build spares the step's own files: its source tarball holds none, and neither its
    patches nor its make touch one. Nothing in the step enforces this - a build runs
    arbitrary code, and the extractor writes what the tarball names - so it is a
    condition on each build, which [TreeScenarios.forged_stamp] shows is needed. *)
Class Spares (W : World) (I : inputs) : Prop := {
  make_spares : ∀ e args m p, (∀ k, k ≠ "KBUILD_BUILD_TIMESTAMP" → e !! k = env I !! k) → kbf p = true →
    let '(ms, m', _) := make W e args m in Forall (λ m1 : mount, m1 !! p = m !! p) (ms ++ [m']);
  patch_spares : ∀ n m p, kbf p = true →
    let '(ms, m', _) := gitapply W (patchContent I n) m in Forall (λ m1 : mount, m1 !! p = m !! p) (ms ++ [m']);
  decode_spares : ∀ ext c, source_content W I c → Forall (λ f, kbf f.1 = false) (decode W ext c).1
}.

(** ** Discarding *)

Lemma foldl_delete_lookup (ps : list string) (m : mount) p :
  foldl (λ m p, delete p m) m ps !! p = if bool_decide (p ∈ ps) then None else m !! p.
Proof.
  revert m. induction ps as [|q ps IH]; intros m; [done|]. cbn [foldl]. rewrite IH. cbv beta.
  destruct (decide (p = q)) as [->|Hne].
  - rewrite lookup_delete_eq. rewrite (bool_decide_true (q ∈ q :: ps)) by (by left).
    by destruct (bool_decide _).
  - rewrite lookup_delete_ne by done. destruct (decide (p ∈ ps)).
    + by rewrite !bool_decide_true by set_solver.
    + by rewrite !bool_decide_false by set_solver.
Qed.

Lemma removals_prefix ps m m' :
  In m' (removals ps m) → ∃ l1 l2, ps = l1 ++ l2 ∧ m' = foldl (λ m p, delete p m) m l1.
Proof.
  revert m. induction ps as [|p ps IH]; intros m; [done|]. cbn [removals].
  intros [<-|Hin].
  - by exists [p], ps.
  - destruct (IH _ Hin) as (l1 & l2 & -> & ->). by exists (p :: l1), l2.
Qed.

Lemma keys_spec (m : mount) p : p ∈ map fst (map_to_list m) ↔ is_Some (m !! p).
Proof.
  rewrite list_elem_of_fmap. split.
  - intros ([q c] & -> & H%elem_of_map_to_list). by exists c.
  - intros [c H]. exists (p, c). split; [done|]. by apply elem_of_map_to_list.
Qed.

Lemma entries_spec (m : mount) t : t ∈ entries m ↔ ∃ p, is_Some (m !! p) ∧ top p = t.
Proof.
  unfold entries. rewrite sort_strings_perm, elem_of_remove_dups, list_elem_of_fmap. split.
  - intros ([p c] & -> & H%elem_of_map_to_list). exists p. split; [by exists c|done].
  - intros (p & [c H] & <-). exists (p, c). split; [done|]. by apply elem_of_map_to_list.
Qed.

Lemma elem_of_filter_bool {A} (f : A → bool) (l : list A) x :
  x ∈ List.filter f l ↔ f x = true ∧ x ∈ l.
Proof. rewrite !list_elem_of_In, filter_In. tauto. Qed.

Lemma under_spec (m : mount) t p : p ∈ under t m ↔ is_Some (m !! p) ∧ top p = t.
Proof. unfold under. rewrite elem_of_filter_bool, keys_spec, eqb_true. tauto. Qed.

Section nuke.
Context (W : World) `{WorldOk W}.

Lemma nuke_order_spec m p :
  p ∈ nuke_order W m ↔ is_Some (m !! p) ∧ spared (top p) = false.
Proof.
  unfold nuke_order. rewrite list_elem_of_In, in_flat_map. setoid_rewrite <- list_elem_of_In.
  setoid_rewrite elem_of_filter_bool. setoid_rewrite unlink_perm. setoid_rewrite under_spec.
  setoid_rewrite entries_spec. setoid_rewrite negb_true_iff. split.
  - intros (t & [Ht _] & Hp & <-). by split.
  - intros [Hp Hs]. exists (top p). split; [split; [done|by exists p]|done].
Qed.

(** Entries go in order: once a file of one entry is gone to the last of a prefix,
    everything before it is gone. *)
Lemma nuke_order_sorted m l1 l2 p q :
  nuke_order W m = l1 ++ l2 → p ∈ l1 → q ∈ l2 → str_le (top p) (top q).
Proof.
  unfold nuke_order. set (ts := List.filter _ (entries m)).
  assert (StronglySorted str_le ts) as Hs.
  { subst ts. pose proof (sort_strings_sorted (remove_dups (map (λ e, top e.1) (map_to_list m)))) as Hs.
    fold (entries m) in Hs. induction Hs as [|t l Hl IH Hf]; [constructor|]. cbn [List.filter].
    destruct (negb (spared t)); [|done]. constructor; [done|].
    apply Forall_forall. intros x Hx. apply elem_of_filter_bool in Hx as [_ Hx].
    by apply (proj1 (Forall_forall _ _) Hf). }
  assert (∀ t, Forall (λ p, top p = t) (unlink W (under t m))) as Ht.
  { intros t. apply Forall_forall. intros x. rewrite unlink_perm, under_spec. tauto. }
  clearbody ts. revert l1. induction Hs as [|t ts Hs IH Hf]; intros l1 He Hp Hq.
  { cbn in He. destruct l1; [by apply not_elem_of_nil in Hp|done]. }
  cbn [flat_map] in He. specialize (Ht t) as Htt. rewrite Forall_forall in Htt.
  assert (∀ x, x ∈ flat_map (λ t, unlink W (under t m)) ts → str_le t (top x)) as Hge.
  { intros x. rewrite list_elem_of_In, in_flat_map. intros (u & Hu & Hx).
    rewrite <- list_elem_of_In in Hu, Hx. rewrite unlink_perm, under_spec in Hx.
    destruct Hx as [_ ->]. by apply (proj1 (Forall_forall _ _) Hf). }
  destruct (app_eq_app _ _ _ _ He) as [l [[Hl1 Hl2]|[Hl1 Hl2]]].
  - subst l2. apply elem_of_app in Hq as [Hq|Hq].
    + assert (q ∈ unlink W (under t m)) as Hq' by (rewrite Hl1; set_solver).
      assert (p ∈ unlink W (under t m)) as Hp' by (rewrite Hl1; set_solver).
      rewrite (Htt _ Hq'), (Htt _ Hp'). apply str_le_refl.
    + assert (p ∈ unlink W (under t m)) as Hp' by (rewrite Hl1; set_solver).
      rewrite (Htt _ Hp'). by apply Hge.
  - rewrite Hl1 in Hp. apply elem_of_app in Hp as [Hp|Hp].
    + rewrite (Htt _ Hp). apply Hge. rewrite Hl2. set_solver.
    + by apply (IH l).
Qed.

Lemma nuke_final m p :
  final (nukeTree W m) !! p = if spared (top p) then m !! p else None.
Proof.
  unfold nukeTree, remove_list. cbn. rewrite foldl_delete_lookup.
  destruct (spared (top p)) eqn:Hs.
  - rewrite bool_decide_false; [done|]. rewrite nuke_order_spec. intros [_ ?]. congruence.
  - destruct (m !! p) eqn:E.
    + rewrite bool_decide_true; [done|]. apply nuke_order_spec. by rewrite E.
    + by destruct (bool_decide _).
Qed.

(** A state [nukeTree] passes through: some files are gone, none of them spared,
    and every file gone sorts no later than any unspared file still there. *)
Lemma nuke_passed m m' :
  In m' (passed (nukeTree W m)) →
  (∀ p, m' !! p = m !! p ∨ (m' !! p = None ∧ spared (top p) = false)) ∧
  (∀ p q, is_Some (m' !! q) → spared (top q) = false → m' !! p ≠ m !! p → str_le (top p) (top q)).
Proof.
  unfold nukeTree, remove_list. cbn. intros (l1 & l2 & Ho & ->)%removals_prefix.
  setoid_rewrite foldl_delete_lookup. split.
  - intros p. destruct (decide (p ∈ l1)) as [Hp|Hp].
    + rewrite bool_decide_true by done. right. split; [done|].
      apply (proj1 (nuke_order_spec m p)). rewrite Ho. set_solver.
    + rewrite bool_decide_false by done. by left.
  - intros p q. destruct (decide (q ∈ l1)) as [Hq|Hq].
    { rewrite bool_decide_true by done. by intros [? ?]. }
    rewrite bool_decide_false by done. intros Hqs Hqn Hp.
    destruct (decide (p ∈ l1)) as [Hp1|Hp1].
    + apply (nuke_order_sorted m l1 l2); [done|done|].
      assert (q ∈ nuke_order W m) as Hin by (by apply nuke_order_spec).
      rewrite Ho in Hin. set_solver.
    + by rewrite bool_decide_false in Hp by done.
Qed.
End nuke.

(** ** Stamps *)

(** The identity of a patch series is [none] or sixteen hexadecimal digits, and a
    source identity has no blank, so no stamp begins another. *)
Definition is_stamp (w : string) : Prop :=
  ∃ id ps, w = stamp id ps ∧ all_bytes printable id = true ∧
           (ps = "none" ∨ (String.length ps = 16%nat ∧ all_bytes hex_byte ps = true)).

Lemma stamp_inj id1 ps1 id2 ps2 rest :
  all_bytes printable id1 = true → all_bytes printable id2 = true →
  stamp id1 ps1 = stamp id2 ps2 +:+ rest → id1 = id2 ∧ ps1 = ps2 +:+ rest.
Proof.
  intros H1 H2. unfold stamp. rewrite !str_app_assoc. intros He%str_app_inj.
  assert (∀ id x, all_bytes printable id = true →
            Cut (id +:+ " patches=" +:+ x) " " = (id, "patches=" +:+ x, true)) as Hc.
  { intros id x Hid. apply (Cut_app id). by apply (all_bytes_lacks printable). }
  pose proof (f_equal (λ s, Cut s " ") He) as Hcut. cbv beta in Hcut.
  rewrite !Hc in Hcut by done. injection Hcut as -> Hps. split; [done|].
  by apply str_app_inj in Hps.
Qed.

(** A truncated stamp is no stamp. *)
Lemma stamp_prefix w1 w2 rest : is_stamp w1 → is_stamp w2 → w1 = w2 +:+ rest → w1 = w2.
Proof.
  intros (id1 & ps1 & -> & H1 & P1) (id2 & ps2 & -> & H2 & P2) He.
  destruct (stamp_inj _ _ _ _ _ H1 H2 He) as [-> Hps]. f_equal.
  assert (∀ r, "none" +:+ r = ps1 → (String.length ps1 = 16%nat ∧ all_bytes hex_byte ps1 = true) → False) as Hno.
  { intros r <- [_ Hh]. by rewrite all_bytes_app in Hh. }
  destruct P1 as [->|[L1 X1]], P2 as [->|[L2 X2]]; [done| | |].
  - exfalso. subst. apply (f_equal String.length) in Hps. rewrite str_length_app, L2 in Hps.
    simpl in Hps. lia.
  - exfalso. by apply (Hno rest).
  - subst ps1. rewrite str_length_app, L2 in L1. destruct rest; [by rewrite str_app_nil_r|].
    simpl in L1. lia.
Qed.

(** ** Trees that a stamp may bless *)

Definition write_all (files : list (string * string)) (m : mount) : mount := insert_all m files.

(** Only the cached source. *)
Definition clean (m : mount) : Prop := ∀ p, is_Some (m !! p) → spared (top p) = true.

(** The content a source identity stands for: its own digest, or - unpinned -
    whatever the URL served. *)
Definition source_id (id c : string) : Prop :=
  id = fileSHA256 c ∨ id = "local:" +:+ fileSHA256 c ∨ HasPrefix id "https://" = true.

Definition series_id (ps : string) (cs : list string) : Prop :=
  (ps = "none" ∧ cs = []) ∨ ps = str_take 16 (fileSHA256 (foldr (λ c r, c +:+ r) "" cs)).

(** Files the step keeps next to the tree, or rewrites at will. *)
Definition own (p : string) : bool := kbf p || (p =s ".config") || (p =s ".version").

Fixpoint applied (W : World) (cs : list string) (m m' : mount) : Prop :=
  match cs with
  | [] => m' = m
  | c :: cs => ∃ ms m1, gitapply W c m = (ms, m1, true) ∧ applied W cs m1 m'
  end.

(** [built w m]: the files of [m] come from extracting a complete tarball of the
    source [w] names into an empty mount, applying the whole patch series [w]
    names, and running make - up to the step's own files, and up to files whose
    entry sorts before the stamp, which an interrupted discard may have removed. *)
Inductive built (W : World) : string → mount → Prop :=
  | built_source id ps ext c files cs m0 m :
      source_id id c → series_id ps cs → decode W ext c = (files, true) → clean m0 →
      applied W cs (write_all files m0) m → built W (stamp id ps) m
  | built_make w m e args ms m' ok m1 :
      built W w m → make W e args m = (ms, m', ok) → In m1 (ms ++ [m']) → built W w m1
  | built_own w m m' :
      built W w m → (∀ p, own p = false → m' !! p = m !! p) → built W w m'
  | built_cut w m m' :
      built W w m → (∀ p, m' !! p = m !! p ∨ (m' !! p = None ∧ str_le (top p) stampFile)) →
      built W w m'.

(** The invariant of the mount: a stamp next to a Makefile tells the truth. *)
Definition truthful (W : World) (m : mount) : Prop :=
  ∀ w, m !! stampFile = Some w → is_stamp w → is_Some (m !! "Makefile") → built W w m.

(** The bucket holds what steps pushed. *)
Definition pushable (W : World) (m : mount) : Prop :=
  (∃ w, m !! stampFile = Some w ∧ built W w m) ∧ is_Some (m !! "Makefile") ∧
  m !! seedStampFile = None ∧
  (* no file of the tree is named like the step's own *)
  ∀ p, is_Some (m !! p) → kbf p = false → packable p = true.

Class BucketOk (W : World) : Prop := {
  bucket_packed : ∀ c files, bucket W c = Object files true →
    ∃ m, files = seed_pack m ∧ pushable W m;
  bucket_spares : ∀ c files ok, bucket W c = Object files ok →
    Forall (λ f, spared (top f.1) = false) files
}.

Lemma not_stamped_truthful W m : m !! stampFile = None → truthful W m.
Proof. intros H w Hw. congruence. Qed.

Lemma clean_not_stamped m : clean m → m !! stampFile = None.
Proof.
  intros H. destruct (m !! stampFile) eqn:E; [|done].
  assert (spared (top stampFile) = true) as Hs by (apply H; by rewrite E). done.
Qed.

Lemma clean_absent m : clean m → treePresent m = false.
Proof.
  intros H. apply bool_decide_false. intros Hm. by apply H in Hm.
Qed.

Section crash.
Context (W : World) `{!WorldOk W}.

(** ** Discarding keeps the stamp truthful *)

Lemma nuke_clean m : clean (final (nukeTree W m)).
Proof.
  intros p. rewrite nuke_final by done. destruct (spared (top p)); [done|]. by intros [? ?].
Qed.

Lemma nuke_truthful m m' : truthful W m → In m' (passed (nukeTree W m)) → truthful W m'.
Proof.
  intros Hm Hin. destruct (nuke_passed W m m' Hin) as [Hsub Hord].
  intros w Hw Hst Hmk.
  assert (m !! stampFile = Some w) as Hw0.
  { destruct (Hsub stampFile) as [He|[He _]]; congruence. }
  assert (is_Some (m !! "Makefile")) as Hmk0.
  { destruct (Hsub "Makefile") as [He|[He _]]; [by rewrite <- He|]. rewrite He in Hmk. by destruct Hmk. }
  apply (built_cut W w m); [by apply Hm|]. intros p.
  destruct (Hsub p) as [He|[He _]]; [by left|].
  destruct (m !! p) eqn:Ep; [|left; by rewrite He].
  right. split; [done|]. change stampFile with (top stampFile).
  apply (Hord p stampFile); [by exists w|done|congruence].
Qed.

Lemma triple_nuke (T : mount → Prop) :
  (∀ m, T m → ∀ m', (∀ p, spared (top p) = true → m' !! p = m !! p) → T m') →
  triple (λ m, truthful W m ∧ T m) (nukeTree W) (λ _ m, clean m ∧ T m) (truthful W).
Proof.
  intros HT m [Hm Ht]. split.
  - apply Forall_forall. intros m' Hin. apply list_elem_of_In in Hin. by eapply nuke_truthful.
  - cbn [ret nukeTree remove_list]. split; [apply nuke_clean|].
    eapply HT; [exact Ht|]. intros p Hp. rewrite nuke_final by done. by rewrite Hp.
Qed.

(** ** Acquiring the source touches only the cached source *)

Definition same_tree (m m' : mount) : Prop := ∀ p, spared (top p) = false → m' !! p = m !! p.

Lemma same_tree_insert m m' p c :
  spared (top p) = true → same_tree m m' → same_tree m (<[p := c]> m').
Proof.
  intros Hp H q Hq. rewrite lookup_insert_ne; [by apply H|]. intros ->. congruence.
Qed.

Lemma same_tree_delete m m' p :
  spared (top p) = true → same_tree m m' → same_tree m (delete p m').
Proof.
  intros Hp H q Hq. rewrite lookup_delete_ne; [by apply H|]. intros ->. congruence.
Qed.

Lemma spared_own p : spared (top p) = true → own p = true.
Proof.
  unfold spared, own, kbf. intros [t Ht]%HasPrefix_spec. rewrite Ht.
  change (".kbf-src" +:+ t) with (".kbf-" +:+ ("src" +:+ t)). by rewrite HasPrefix_app.
Qed.

Lemma same_tree_truthful m m' : same_tree m m' → truthful W m → truthful W m'.
Proof.
  intros Hs Hm w. rewrite !Hs by done. intros Hw Hst Hmk.
  apply (built_own W w m); [by apply Hm|]. intros p Hp. apply Hs.
  destruct (spared (top p)) eqn:E; [|done]. apply spared_own in E. congruence.
Qed.

Lemma same_tree_clean m m' : same_tree m m' → clean m → clean m'.
Proof.
  intros Hs Hm p Hp. destruct (spared (top p)) eqn:E; [done|]. rewrite Hs in Hp by done.
  apply Hm in Hp. congruence.
Qed.

Lemma cached_spared ext : In ext [".gz"; ".xz"; ".zst"] →
  spared (top (".kbf-src.tar" +:+ ext)) = true ∧
  spared (top ((".kbf-src.tar" +:+ ext) +:+ ".part")) = true.
Proof. intros H. repeat destruct H as [<-|H]; by vm_compute. Qed.

Section source.
Context (I : inputs).
Abbreviation env_of := (Tree.getenv I).

(** What the acquired tarball is worth: its content, when pinned, is the pin. *)
Definition tarball_content (src : tarball) (m : mount) : option string :=
  match src with InSrc n => srcs I !! n | InBuild p => m !! p end.

Definition tarball_ok (src : tarball) (m : mount) : Prop :=
  (if env_of "SRC_LOCAL" <>s "" then src = InSrc (env_of "SRC_LOCAL")
   else ∃ p, src = InBuild p ∧ spared (top p) = true) ∧
  ∀ c, tarball_content src m = Some c → source_content W I c.

Lemma tarball_ok_spared src m m' :
  (∀ p, spared (top p) = true → m' !! p = m !! p) → tarball_ok src m → tarball_ok src m'.
Proof.
  intros Hs [H1 H2]. split; [done|]. intros c Hc. apply H2. revert Hc.
  destruct src as [n|p]; [done|]. cbn. destruct (env_of "SRC_LOCAL" <>s ""); [done|].
  destruct H1 as (q & [= <-] & Hq). by rewrite Hs.
Qed.

Lemma triple_fetch m0 url path :
  spared (top path) = true →
  triple (same_tree m0) (fetch_to W url path)
    (λ _ m, same_tree m0 m ∧ m !! path = dst (download (server W url) (cancelled W)).1) (same_tree m0).
Proof.
  intros Hp m Hm. unfold fetch_to.
  destruct (download (server W url) (cancelled W)) as [t r].
  assert (∀ d, same_tree m0 (match d with Some c => <[path := c]> m | None => delete path m end)) as Hd.
  { intros [c|]; [by apply same_tree_insert|by apply same_tree_delete]. }
  cbn. split.
  - apply Forall_forall. intros m' (d & -> & _)%list_elem_of_fmap. apply Hd.
  - destruct r; cbn; [split; [apply Hd|]|apply Hd].
    destruct (dst t); [apply lookup_insert_eq|apply lookup_delete_eq].
Qed.

Lemma triple_acquire m0 :
  triple (same_tree m0) (acquireSource W I) (λ src m, same_tree m0 m ∧ tarball_ok src m) (same_tree m0).
Proof.
  unfold acquireSource. destruct (env_of "SRC_LOCAL" <>s "") eqn:El.
  { destruct (_ || _); [apply triple_fail|]. eapply triple_pre; [apply triple_ret|].
    intros m Hm. split; [done|]. unfold tarball_ok, source_content. cbv zeta. by rewrite El. }
  destruct (SourceExt (env_of "SRC_URL")) as [ext|] eqn:Ex; [|apply triple_fail].
  assert (In ext [".gz"; ".xz"; ".zst"]) as Hext by (by apply find_some in Ex as [? _]).
  destruct (cached_spared ext Hext) as [Hc Hp].
  set (cached := ".kbf-src.tar" +:+ ext) in *. set (part := cached +:+ ".part") in *.
  unfold tarball_ok, source_content. cbv zeta. rewrite El.
  eapply triple_bind; [apply triple_read|]. intros have. cbv beta.
  destruct ((env_of "SRC_SHA256" <>s "") && _) eqn:Eh.
  - eapply triple_pre; [apply triple_ret|]. intros m [-> Hm]. split; [done|].
    split; [by exists cached|]. apply andb_true_iff in Eh as [-> Eh].
    intros c Hcc. cbn in Hcc. rewrite Hcc in Eh. by apply eqb_true in Eh.
  - clear Eh. eapply triple_bind.
    { eapply triple_pre; [apply (triple_fetch m0 _ part Hp)|]. by intros m [_ ?]. }
    intros u. eapply triple_bind; [apply triple_read|]. intros got. cbv beta zeta.
    destruct ((env_of "SRC_SHA256" <>s "") && _) eqn:Eh.
    + eapply triple_bind; [|intros v; apply triple_fail].
      apply triple_remove; intros m (_ & Hm & _); by apply same_tree_delete.
    + eapply (triple_bind _ _ _ (λ _ m, same_tree m0 m ∧ ((∃ p, InBuild cached = InBuild p ∧ spared (top p) = true) ∧
        ∀ c, m !! cached = Some c → if env_of "SRC_SHA256" <>s "" then fileSHA256 c = env_of "SRC_SHA256"
          else dst (download (server W (env_of "SRC_URL")) (cancelled W)).1 = Some c)));
        [|intros v; eapply triple_pre; [apply triple_ret|]; intros m Hm; exact Hm].
      intros m (-> & Hm & Hdst). unfold rename. destruct (m !! part) as [c'|] eqn:Em; [|by split].
      cbn [passed ret final].
      assert (same_tree m0 (<[cached := c']> (delete part m))) as Hs
        by (apply same_tree_insert; [done|]; by apply same_tree_delete).
      split; [by apply Forall_singleton|]. split; [exact Hs|]. split; [by exists cached|].
      intros c Hcc. rewrite lookup_insert_eq in Hcc. injection Hcc as ->.
      destruct (env_of "SRC_SHA256" <>s ""); [|by rewrite <- Hdst].
      cbn in Eh. by apply negb_false_iff, eqb_true in Eh.
Qed.

(** ** Extracting and patching, before the stamp *)

Definition unstamped (m : mount) : Prop := m !! stampFile = None.

Lemma write_all_off files (m : mount) p :
  Forall (λ f, f.1 ≠ p) files → write_all files m !! p = m !! p.
Proof.
  revert m. induction files as [|[q c] files IH]; intros m; [done|]. intros [Hq Hf]%Forall_cons.
  change (write_all ((q, c) :: files) m) with (write_all files (<[q:=c]> m)).
  rewrite IH by done. by apply lookup_insert_ne.
Qed.

Lemma changes_Forall (P : mount → Prop) ws (m : mount) :
  P m → (∀ m' w, w ∈ ws → P m' → P (partial_alter (λ _, w.2) w.1 m')) → Forall P (changes ws m).
Proof.
  revert m. induction ws as [|w ws IH]; intros m Hm Hw; [constructor|]. cbn [changes].
  assert (P (partial_alter (λ _, w.2) w.1 m)) as H1 by (apply Hw; [by left|done]).
  constructor; [done|]. apply IH; [done|]. intros m' w' Hin. apply Hw. by right.
Qed.

Lemma triple_files m0 files :
  Forall (λ f, f.1 ≠ stampFile) files →
  triple (λ m, m = m0 ∧ unstamped m) (write_files W files)
    (λ _ m, m = write_all files m0 ∧ unstamped m) unstamped.
Proof.
  intros Hf m [-> Hm]. assert (unstamped (write_all files m0)) as Hw.
  { unfold unstamped. by rewrite write_all_off. }
  split; [|by split]. cbn. apply Forall_app. split; [|by apply Forall_singleton].
  apply changes_Forall; [done|]. intros m' w Hin Hm'. unfold unstamped.
  destruct (proj1 (Forall_forall _ _) (workers_own files) w Hin) as (f & Hfin & <-).
  rewrite lookup_partial_alter_ne; [done|]. by apply (proj1 (Forall_forall _ _) Hf).
Qed.

Context `{!Spares W I}.

Lemma kbf_stamp p : kbf p = false → p ≠ stampFile.
Proof. intros H ->. done. Qed.

(** A complete extraction into an empty mount. *)
Definition extracted (src : tarball) (m : mount) : Prop :=
  ∃ m0 c ext files, clean m0 ∧ tarball_ok src m0 ∧ tarball_content src m0 = Some c ∧
    decode W ext c = (files, true) ∧ m = write_all files m0.

Lemma triple_extract src :
  triple (λ m, clean m ∧ tarball_ok src m) (extractTarball W I src)
    (λ _ m, extracted src m ∧ unstamped m) unstamped.
Proof.
  intros m0 [Hclean Hok]. pose proof (clean_not_stamped m0 Hclean) as Hus. pose proof (proj2 Hok) as Hsrc.
  unfold extractTarball, mbind, M_bind, get. cbn [ret passed final app].
  fold (tarball_content src m0). change (match src with InSrc n => srcs I !! n | InBuild p => m0 !! p end)
    with (tarball_content src m0).
  destruct (tarball_content src m0) as [c|] eqn:Ec; [|by split].
  destruct (find _ _) as [ext|]; [|by split].
  pose proof (decode_spares ext c (Hsrc c eq_refl)) as Hd.
  destruct (decode W ext c) as [files complete] eqn:Edec. cbn in Hd.
  assert (Forall (λ f, f.1 ≠ stampFile) files) as Hfs
    by (eapply Forall_impl; [exact Hd|]; intros f; apply kbf_stamp).
  destruct (triple_files m0 files Hfs m0 (conj eq_refl Hus)) as [Hps Hr].
  destruct (ret (write_files W files m0)) as [[]|]; [|by split].
  destruct Hr as [Hfin Hun]. destruct complete; cbn; rewrite app_nil_r; (split; [done|]); [|done].
  split; [|done]. exists m0, c, ext, files. done.
Qed.

Lemma triple_patch_list m0 (names : list string) :
  triple (λ m, m = m0 ∧ unstamped m)
    (each (λ n, external (gitapply W (patchContent I n)) (SPatch n)) names)
    (λ _ m, applied W (map (patchContent I) names) m0 m ∧ unstamped m) unstamped.
Proof.
  revert m0. induction names as [|n names IH]; intros m0; [apply triple_skip|].
  cbn [each]. destruct (gitapply W (patchContent I n) m0) as [[ms m1] ok] eqn:Eg.
  pose proof (patch_spares n m0 stampFile eq_refl) as Hp. rewrite Eg in Hp.
  apply Forall_app in Hp as [Hms Hm1]. rewrite Forall_singleton in Hm1.
  apply (triple_bind _ _ _ (λ _ m, ok = true ∧ m = m1 ∧ unstamped m)).
  - apply triple_external. intros m [-> Hu]. rewrite Eg.
    assert (unstamped m1) as Hu1 by (unfold unstamped; by rewrite Hm1).
    split; [|split; [exact Hu1|by intros ->]].
    eapply Forall_impl; [exact Hms|]. intros m' Hm'. cbn in Hm'. unfold unstamped. by rewrite Hm'.
  - intros u. apply triple_pure. intros ->. eapply triple_post; [apply (IH m1)|].
    intros v m [Ha Hu]. split; [|done]. cbn [map applied]. by exists ms, m1.
Qed.

Lemma triple_patches m0 :
  triple (λ m, m = m0 ∧ unstamped m) (applyPatches W I)
    (λ _ m, (∃ names, patchFiles I = Ok names ∧ applied W (map (patchContent I) names) m0 m) ∧
            unstamped m) unstamped.
Proof.
  unfold applyPatches. eapply triple_bind; [apply triple_lift; by intros m [_ ?]|].
  intros names. apply triple_pure. intros Hn.
  eapply triple_post; [apply triple_patch_list|]. intros u m [Ha Hu]. split; [|done]. eauto.
Qed.

(** ** The wanted stamp *)

(** The environment the graph sets: the source identity is the pin, the URL when
    there is no pin, and unused in local mode. *)
Definition consistent : Prop :=
  all_bytes printable (env_of "SRC_ID") = true ∧
  (env_of "SRC_LOCAL" = "" →
     (env_of "SRC_SHA256" ≠ "" ∧ env_of "SRC_ID" = env_of "SRC_SHA256") ∨
     (env_of "SRC_SHA256" = "" ∧ HasPrefix (env_of "SRC_ID") "https://" = true)).

(** The series the run applies. *)
Definition series (cs : list string) : Prop :=
  if env_of "APPLY_PATCHES" =s "1"
  then ∃ names, patchFiles I = Ok names ∧ cs = map (patchContent I) names else cs = [].

Lemma hex_take_bytes n l : all_bytes hex_byte (str_take n (hex l)) = true.
Proof.
  pose proof (hex_bytes l) as H. rewrite <- (str_take_drop n (hex l)), all_bytes_app in H.
  by apply andb_true_iff in H as [? _].
Qed.

Lemma str_take_length n s : (n <= String.length s)%nat → String.length (str_take n s) = n.
Proof.
  revert s. induction n as [|n IH]; intros [|c s] H; cbn in *; try lia. rewrite IH; lia.
Qed.

Lemma sha_length c : String.length (fileSHA256 c) = 64%nat.
Proof. unfold fileSHA256. by rewrite hex_length, Sum256_length. Qed.

Lemma sha_printable c : all_bytes printable (fileSHA256 c) = true.
Proof.
  eapply all_bytes_impl; [|apply hex_bytes]. apply ascii_impl. by vm_compute.
Qed.

Lemma series_concat (names : list string) :
  foldr (λ n r, patchContent I n +:+ r) "" names =
  foldr (λ c r, c +:+ r) "" (map (patchContent I) names).
Proof. induction names as [|n names IH]; [done|]. cbn [foldr map]. by rewrite IH. Qed.

Lemma stampWant_spec want :
  stampWant I = Ok want → consistent →
  is_stamp want ∧
  ∀ src m c cs, tarball_ok src m → tarball_content src m = Some c → series cs →
    ∃ id ps, want = stamp id ps ∧ source_id id c ∧ series_id ps cs.
Proof.
  unfold stampWant, consistent. intros H [Hid Hcons].
  apply bind_Ok in H as (ps & Hps & H). apply bind_Ok in H as (id & Hidw & H). injection H as <-.
  assert ((ps = "none" ∨ (String.length ps = 16%nat ∧ all_bytes hex_byte ps = true)) ∧
          ∀ cs, series cs → series_id ps cs) as [Hp1 Hp2].
  { unfold series, series_id. destruct (env_of "APPLY_PATCHES" =s "1").
    - apply bind_Ok in Hps as (names & Hn & Hps).
      set (sum := fileSHA256 (foldr (λ n r, patchContent I n +:+ r) "" names)) in Hps.
      assert (ps = str_take 16 sum) as -> by congruence. subst sum. split.
      + right. split; [by rewrite str_take_length by (rewrite sha_length; lia)|apply hex_take_bytes].
      + intros cs (names' & Hn' & ->). right. rewrite Hn in Hn'. injection Hn' as <-.
        by rewrite series_concat.
    - injection Hps as <-. split; [by left|]. intros cs ->. by left. }
  destruct (String.eqb_spec (env_of "SRC_LOCAL") "") as [Hl|Hl]; cbn [negb] in Hidw.
  - injection Hidw as <-. split; [by exists (env_of "SRC_ID"), ps|].
    intros src m c cs [_ Hok] Hc Hs. exists (env_of "SRC_ID"), ps. split; [done|]. split; [|by apply Hp2].
    destruct (Hcons Hl) as [[Hsum ->]|[_ Hu]].
    + left. specialize (Hok c Hc). unfold source_content in Hok. cbv zeta in Hok.
      apply eqb_false in Hsum. rewrite Hl, Hsum in Hok. by symmetry.
    + by right; right.
  - destruct (srcs I !! env_of "SRC_LOCAL") as [c0|] eqn:Ec; [|done]. injection Hidw as <-. split.
    + eexists _, ps. split; [done|]. split; [|done]. rewrite all_bytes_app.
      by rewrite sha_printable.
    + intros src m c cs [Hsrc _] Hc Hs. eexists _, ps. split; [done|]. split; [|by apply Hp2].
      right. left. destruct (String.eqb_spec (env_of "SRC_LOCAL") "") as [?|_]; [done|].
      cbn in Hsrc. subst src. cbn in Hc. rewrite Ec in Hc. by injection Hc as ->.
Qed.

(** Writing the stamp over a tree it names is safe at every byte. *)
Lemma triple_stamp want :
  is_stamp want →
  triple (λ m, built W want m) (write stampFile want : prog unit)
    (λ _ m, m !! stampFile = Some want ∧ built W want m) (truthful W).
Proof.
  intros Hst.
  assert (∀ m c, built W want m → built W want (<[stampFile := c]> m)) as Hb.
  { intros m c Hm. eapply built_own; [exact Hm|]. intros p Hp. apply lookup_insert_ne.
    intros <-. done. }
  apply triple_write; intros m Hm; [|split; [apply lookup_insert_eq|by apply Hb]].
  apply write_states_Forall. intros k Hk w Hw Hsw _. rewrite lookup_insert_eq in Hw.
  injection Hw as <-. rewrite <- (stamp_prefix want (str_take k want) (str_drop k want)); [by apply Hb|done|done|].
  by rewrite str_take_drop.
Qed.
End source.
End crash.
