(* ===== verification/SeedLaws.v ===== *)
(** The object-tree seed (cmd/kbuild-step/main.go, [seedPush]'s pack and
    [untarSeed]): what is pushed, pulled into an empty mount, is the tree that was
    pushed, with its stamp quarantined. *)

From stdpp Require sorting.
From S2P Require Import Prelude GoString GoSort Sha256 Spec LLB StepEnv Download Mount Tree TreeLaws.

Lemma pack_names_spec (m : mount) p :
  p ∈ List.filter packable (sorting.merge_sort walk_le (map fst (map_to_list m))) ↔
  packable p = true ∧ is_Some (m !! p).
Proof.
  rewrite elem_of_filter_bool, sorting.merge_sort_Permutation, keys_spec. done.
Qed.

Lemma NoDup_filter_bool {A} (f : A → bool) (l : list A) : NoDup l → NoDup (List.filter f l).
Proof.
  induction 1 as [|x l Hx _ IH]; [constructor|]. cbn. destruct (f x); [|done].
  constructor; [|done]. rewrite elem_of_filter_bool. tauto.
Qed.

Lemma pack_names_NoDup (m : mount) :
  NoDup (List.filter packable (sorting.merge_sort walk_le (map fst (map_to_list m)))).
Proof.
  apply NoDup_filter_bool. rewrite sorting.merge_sort_Permutation. apply NoDup_fst_map_to_list.
Qed.

Lemma pack_keys (m : mount) (names : list string) :
  (∀ p, p ∈ names → is_Some (m !! p)) →
  (omap (λ p, (λ c, (p, c)) <$> m !! p) names).*1 = names.
Proof.
  induction names as [|p names IH]; intros H; [done|].
  destruct (H p ltac:(by left)) as [c Hc].
  change (omap _ (p :: names)) with
    (match (λ c, (p, c)) <$> m !! p with
     | Some y => y :: omap (λ p, (λ c, (p, c)) <$> m !! p) names
     | None => omap (λ p, (λ c, (p, c)) <$> m !! p) names end).
  rewrite Hc. cbn. f_equal. apply IH. intros q Hq. apply H. by right.
Qed.

Lemma seed_pack_elem (m : mount) p c :
  (p, c) ∈ seed_pack m ↔ packable p = true ∧ m !! p = Some c.
Proof.
  unfold seed_pack. rewrite list_elem_of_omap. setoid_rewrite pack_names_spec. split.
  - intros (q & [Hq _] & (c' & Hc & [= -> ->])%fmap_Some). done.
  - intros [Hp Hc]. exists p. split; [split; [done|by exists c]|]. by rewrite Hc.
Qed.

Lemma seed_pack_NoDup (m : mount) : NoDup ((seed_pack m).*1).
Proof.
  unfold seed_pack. rewrite pack_keys; [apply pack_names_NoDup|].
  intros p. rewrite pack_names_spec. tauto.
Qed.

(** ** Quarantine *)

Lemma quarantine_keys (files : list (string * string)) :
  (map quarantine files).*1 = map (λ p, if p =s stampFile then seedStampFile else p) (files.*1).
Proof. induction files as [|f files IH]; [done|]. cbn. by rewrite <- IH. Qed.

Lemma quarantine_NoDup (files : list (string * string)) :
  NoDup (files.*1) → seedStampFile ∉ (files.*1) → NoDup ((map quarantine files).*1).
Proof.
  rewrite quarantine_keys. generalize (files.*1). intros ks Hd. clear files.
  induction Hd as [|k ks Hk _ IH]; [constructor|].
  rewrite not_elem_of_cons. intros [Hne Hs]. cbn. constructor; [|by apply IH].
  rewrite list_elem_of_fmap. intros (q & Hq & Hin).
  destruct (String.eqb_spec k stampFile) as [Ek|], (String.eqb_spec q stampFile) as [Eq|];
    [|subst; done..]. by rewrite Ek, <- Eq in Hk.
Qed.

Lemma quarantine_elem (m : mount) p c :
  m !! seedStampFile = None →
  (p, c) ∈ map quarantine (seed_pack m) ↔
  packable p = true ∧ p ≠ stampFile ∧
  (if p =s seedStampFile then m !! stampFile else m !! p) = Some c.
Proof.
  intros Hn. rewrite list_elem_of_fmap. split.
  - intros ([q d] & [= -> ->] & [Hq Hc]%seed_pack_elem). cbn.
    destruct (String.eqb_spec q stampFile) as [->|Hne]; [done|].
    split; [done|]. split; [done|]. destruct (String.eqb_spec q seedStampFile) as [->|]; [congruence|done].
  - intros (Hp & Hne & Hc). destruct (String.eqb_spec p seedStampFile) as [->|Hs].
    + exists (stampFile, c). split; [done|]. by apply seed_pack_elem.
    + exists (p, c). split; [unfold quarantine; cbn; by destruct (String.eqb_spec p stampFile)|].
      by apply seed_pack_elem.
Qed.

(** The hydrated mount, path by path. *)
Lemma hydrated_lookup (m m0 : mount) p :
  m !! seedStampFile = None → clean m0 →
  write_all (map quarantine (seed_pack m)) m0 !! p =
  if spared (top p) && negb (packable p && bool_decide (is_Some (m !! p))) then m0 !! p
  else if p =s stampFile then None
  else if p =s seedStampFile then m !! stampFile
  else if packable p then m !! p else None.
Proof.
  intros Hn Hc. unfold write_all.
  assert (NoDup ((map quarantine (seed_pack m)).*1)) as Hd.
  { apply quarantine_NoDup; [apply seed_pack_NoDup|].
    intros ([q c] & Hq & Hin)%list_elem_of_fmap. cbn in Hq. subst q.
    apply seed_pack_elem in Hin as [_ Hin]. congruence. }
  rewrite insert_all_union, lookup_union by done.
  set (l := map quarantine (seed_pack m)) in *.
  assert (∀ c, (list_to_map l : mount) !! p = Some c ↔ packable p = true ∧ p ≠ stampFile ∧
            (if p =s seedStampFile then m !! stampFile else m !! p) = Some c) as Hl.
  { intros c. rewrite <- elem_of_list_to_map by done. by apply quarantine_elem. }
  destruct ((list_to_map l : mount) !! p) as [c|] eqn:E.
  - destruct (proj1 (Hl c) eq_refl) as (Hp & Hne & Hc'). rewrite union_Some_l.
    destruct (String.eqb_spec p seedStampFile) as [->|Hs].
    + by rewrite Hc'.
    + rewrite Hp, Hc'. rewrite bool_decide_true by done. cbn. rewrite andb_false_r.
      by destruct (String.eqb_spec p stampFile).
  - rewrite (left_id_L None _). destruct (spared (top p)) eqn:Hs; cbn [andb].
    + destruct (packable p) eqn:Hp; cbn [andb negb]; [|done].
      case_bool_decide as Hm; [|done]. exfalso. destruct Hm as [c Hm].
      assert (None = Some c) as [=]. apply Hl. split; [done|].
      destruct (String.eqb_spec p stampFile) as [->|]; [done|].
      destruct (String.eqb_spec p seedStampFile) as [->|]; done.
    + assert (m0 !! p = None) as ->.
      { destruct (m0 !! p) eqn:E0; [|done]. assert (spared (top p) = true) by (apply Hc; by rewrite E0).
        congruence. }
      destruct (String.eqb_spec p stampFile) as [->|Hne]; [done|].
      destruct (String.eqb_spec p seedStampFile) as [->|Hns].
      * destruct (m !! stampFile) as [c|] eqn:Es; [|done]. by apply Hl.
      * destruct (packable p) eqn:Hp; [|done]. destruct (m !! p) as [c|] eqn:Ep; [|done].
        by apply Hl.
Qed.

(** C20. The seed round-trips: a tree pushed from one worker and pulled into the
    empty mount of another is that tree, file for file - less the cached source and
    the temporary packs, which never travel - except that its stamp arrives
    quarantined under another name, so the pulled tree carries no live stamp. *)
Theorem seed_roundtrip (m m0 : mount) :
  m !! seedStampFile = None → clean m0 →
  let hydrated := write_all (map quarantine (seed_pack m)) m0 in
  hydrated !! stampFile = None ∧ hydrated !! seedStampFile = m !! stampFile ∧
  (∀ p, p ≠ stampFile → p ≠ seedStampFile → packable p = true → spared (top p) = false →
        hydrated !! p = m !! p) ∧
  (∀ p, packable p = false → hydrated !! p = if spared (top p) then m0 !! p else None).
Proof.
  intros Hn Hc hydrated. subst hydrated.
  split; [by rewrite hydrated_lookup|]. split; [by rewrite hydrated_lookup|]. split.
  - intros p H1 H2 Hp Hs. rewrite hydrated_lookup by done. rewrite Hs, Hp. cbn.
    by destruct (String.eqb_spec p stampFile), (String.eqb_spec p seedStampFile).
  - intros p Hp. rewrite hydrated_lookup by done. rewrite Hp. cbn. rewrite andb_true_r.
    destruct (spared (top p)); [done|].
    destruct (String.eqb_spec p stampFile) as [->|]; [done|].
    destruct (String.eqb_spec p seedStampFile) as [->|]; done.
Qed.

Lemma seed_roundtrip_witness :
  let m : mount := <["Makefile" := "all:"]> (<[".kbf-stamp" := "src=0 patches=none"]>
                     (<[".kbf-src.tar.gz" := "tar"]> (<["init/main.o" := "elf"]> ∅))) in
  let h := write_all (map quarantine (seed_pack m)) ∅ in
  h !! ".kbf-stamp" = None ∧ h !! ".kbf-stamp.seed" = Some "src=0 patches=none" ∧
  h !! "init/main.o" = Some "elf" ∧ h !! ".kbf-src.tar.gz" = None.
Proof.
  intros m h. destruct (seed_roundtrip m ∅) as (H1 & H2 & H3 & H4).
  - reflexivity.
  - intros p [c Hp]. discriminate Hp.
  - split; [exact H1|]. split; [exact H2|]. split.
    + transitivity (m !! "init/main.o"); [|vm_compute; reflexivity].
      apply H3; [discriminate|discriminate|vm_compute; reflexivity..].
    + rewrite H4 by (vm_compute; reflexivity). vm_compute. reflexivity.
Defined.
