(* ===== verification/PrepareLaws.v ===== *)
(** [prepareTree] is crash safe (cmd/kbuild-step/main.go): from any mount whose
    stamp is truthful, every point it can be killed at or fail at is again such a
    mount, and success leaves the tree of the wanted stamp. *)

From S2P Require Import Prelude GoString GoSort Sha256 Spec SpecValid LLB LLBLaws StepEnv Download Mount Tree TreeLaws SeedLaws.

Section prepare.
Context (W : World) `{!WorldOk W, !BucketOk W} (I : inputs) `{!Spares W I}.

(** A predicate on the spared files only. *)
Definition spared_only (T : mount → Prop) : Prop :=
  ∀ m m', (∀ p, spared (top p) = true → m' !! p = m !! p) → T m → T m'.

Definition src_ok (src : option tarball) (m : mount) : Prop :=
  ∀ s, src = Some s → tarball_ok W I s m.

Lemma src_ok_spared src : spared_only (src_ok src).
Proof. intros m m' Hs Hm s ->. eapply tarball_ok_spared; [exact Hs|by apply Hm]. Qed.

Lemma src_ok_none m : src_ok None m.
Proof. by intros s [=]. Qed.

Lemma triple_nuke_keep T :
  spared_only T →
  triple (λ m, truthful W m ∧ T m) (nukeTree W) (λ _ m, clean m ∧ T m) (truthful W).
Proof. intros HT. apply triple_nuke; [done|]. intros m Hm m' Hs. by eapply HT. Qed.

Lemma clean_truthful m : clean m → truthful W m.
Proof. intros H. by apply not_stamped_truthful, clean_not_stamped. Qed.

(** A tree that is the wanted one. *)
Definition prepared (want : string) (m : mount) : Prop :=
  m !! stampFile = Some want ∧ built W want m.

Lemma prepared_truthful want m : prepared want m → truthful W m.
Proof. intros [Hs Hb] w Hw _ _. rewrite Hs in Hw. by injection Hw as <-. Qed.

(** ** The seed *)

Definition pulled (m : mount) : Prop :=
  ∃ m0 mp, clean m0 ∧ pushable W mp ∧ m = write_all (map quarantine (seed_pack mp)) m0.

Lemma quarantine_not_stamp f : (quarantine f).1 ≠ stampFile.
Proof. unfold quarantine. cbn. by destruct (String.eqb_spec f.1 stampFile). Qed.

Lemma write_all_spared files m p :
  Forall (λ f, spared (top f.1) = false) files → spared (top p) = true →
  write_all files m !! p = m !! p.
Proof.
  intros Hf Hp. revert m. induction Hf as [|f files Hf _ IH]; intros m; [done|].
  change (write_all (f :: files) m) with (write_all files (<[f.1:=f.2]> m)).
  rewrite IH. apply lookup_insert_ne. intros <-. congruence.
Qed.

Lemma triple_seedPull c T :
  spared_only T →
  triple (λ m, clean m ∧ T m) (seedPull W c)
    (λ found m, T m ∧ if (found : bool) then pulled m else clean m) (truthful W).
Proof.
  intros HT m0 [Hclean Ht]. pose proof (clean_truthful m0 Hclean) as Hm0.
  unfold seedPull. destruct (s3Target c); [|by split].
  destruct (bucket W c) as [| |files complete] eqn:Eb; [by split..|].
  pose proof (bucket_spares c files complete Eb) as Hsp.
  assert (Forall (λ f, spared (top f.1) = false) (map quarantine files)) as Hspq.
  { apply Forall_forall. intros f (g & -> & Hg)%list_elem_of_fmap.
    rewrite Forall_forall in Hsp. specialize (Hsp g Hg). unfold quarantine. cbn.
    by destruct (String.eqb_spec g.1 stampFile). }
  assert (Forall (λ f, f.1 ≠ stampFile) (map quarantine files)) as Hns.
  { apply Forall_forall. intros f (g & -> & _)%list_elem_of_fmap. apply quarantine_not_stamp. }
  destruct (triple_files W m0 _ Hns m0 (conj eq_refl (clean_not_stamped m0 Hclean))) as [Hps Hr].
  set (m1 := write_all (map quarantine files) m0) in *.
  assert (Forall (truthful W) (passed (write_files W (map quarantine files) m0))) as Hps'
    by (eapply Forall_impl; [exact Hps|]; intros m; apply not_stamped_truthful).
  unfold mbind, M_bind. destruct (ret (write_files W (map quarantine files) m0)) as [[]|e].
  - destruct Hr as [Hfin Hun]. destruct complete; cbn [ret passed final mret M_ret app].
    + rewrite app_nil_r. split; [done|]. rewrite Hfin. split.
      * eapply HT; [|exact Ht]. intros q Hq. by apply write_all_spared.
      * destruct (bucket_packed c files Eb) as (mp & -> & Hpush). by exists m0, mp.
    + unfold ignore. cbn [ret passed final]. rewrite app_nil_r.
      pose proof (triple_nuke_keep (λ _, True) ltac:(done)
                    (final (write_files W (map quarantine files) m0))) as Hn.
      destruct Hn as [Hn1 _]; [split; [by apply not_stamped_truthful|done]|].
      split; [by apply Forall_app|]. by apply clean_truthful, nuke_clean.
  - cbn [ret passed final]. split; [done|]. by apply not_stamped_truthful.
Qed.

(** A pulled tree is the tree of the stamp it brought. *)
Lemma pulled_built m :
  pulled m →
  is_Some (m !! "Makefile") ∧
  ∃ w, m !! seedStampFile = Some w ∧ built W w m ∧ m !! stampFile = None.
Proof.
  intros (m0 & mp & Hc & ((w & Hw & Hb) & Hmk & Hn & Hpk) & ->).
  assert (packable "Makefile" = true) as Hpm by (by apply Hpk).
  split.
  - rewrite hydrated_lookup by done. by rewrite Hpm.
  - exists w. split; [by rewrite hydrated_lookup|]. split; [|by rewrite hydrated_lookup].
    apply (built_own W w mp); [done|]. intros p Hp.
    assert (kbf p = false) as Hkbf by (unfold own in Hp; by destruct (kbf p)).
    assert (spared (top p) = false) as Hsp.
    { destruct (spared (top p)) eqn:E; [|done]. apply spared_own in E. congruence. }
    rewrite hydrated_lookup by done. rewrite Hsp. cbn [andb].
    destruct (String.eqb_spec p stampFile) as [->|]; [done|].
    destruct (String.eqb_spec p seedStampFile) as [->|]; [done|].
    destruct (packable p) eqn:Epk; [done|].
    destruct (mp !! p) eqn:E; [|done]. rewrite Hpk in Epk; [done|by rewrite E|done].
Qed.

(** ** The parts of prepareTree *)

Section want.
Context (want : string) (Hwant : stampWant I = Ok want) (Hcons : consistent I).

Lemma want_stamp : is_stamp want.
Proof using All. by eapply stampWant_spec. Qed.

(** After the mismatch check: the wanted tree, an untrusted mount without a tree, or
    an emptied mount with its replacement at hand. *)
Definition checked_tree (src : option tarball) (m : mount) : Prop :=
  src_ok src m ∧ truthful W m ∧ (treePresent m = true → prepared want m).

Lemma triple_check :
  triple (truthful W)
    (m ← get;
     if treePresent m && (readStamp m <>s want)
     then src ← acquireSource W I; nukeTree W;; mret (Some src)
     else mret None)
    checked_tree (truthful W).
Proof using All.
  apply triple_get_intro. intros m0.
  apply (triple_pre _ (λ m, truthful W m0 ∧ m = m0)); [|by intros m [-> ?]].
  apply triple_pure. intros Hm0.
  destruct (treePresent m0 && (readStamp m0 <>s want)) eqn:E.
  - apply andb_true_iff in E as [Hp _].
    eapply triple_bind.
    { eapply triple_conseq; [apply (triple_acquire W I m0)|by intros m ->| |].
      - intros src m [Hs Hok]. exact (conj (same_tree_truthful W m0 m Hs Hm0) Hok).
      - intros m Hs. by apply (same_tree_truthful W m0). }
    intros src. eapply triple_bind; [apply (triple_nuke_keep (tarball_ok W I src))|].
    { intros m m' Hs. by apply tarball_ok_spared. }
    intros u. eapply triple_pre; [apply triple_ret|]. intros m [Hc Hok].
    split; [by intros s [= <-]|]. split; [by apply clean_truthful|].
    intros Hpr. by rewrite clean_absent in Hpr.
  - eapply triple_pre; [apply triple_ret|]. intros m ->.
    split; [apply src_ok_none|]. split; [done|]. intros Hp. rewrite Hp in E. cbn in E. apply negb_false_iff, eqb_true in E.
    unfold readStamp in E.
    destruct (m0 !! stampFile) as [w|] eqn:Ew; cbn in E.
    + subst w. split; [done|]. apply Hm0; [done|apply want_stamp|].
      by apply bool_decide_eq_true in Hp.
    + exfalso. destruct want_stamp as (id & ps & Hw & _). rewrite <- E in Hw. done.
Qed.

(** Ready to extract: nothing but the cached source; or already the wanted tree. *)
Definition cleared (src : option tarball) (m : mount) : Prop :=
  src_ok src m ∧ (clean m ∨ (treePresent m = true ∧ prepared want m)).

Lemma cleared_truthful src m : cleared src m → truthful W m.
Proof using All. intros [_ [Hc|[_ Hp]]]; [by apply clean_truthful|by eapply prepared_truthful]. Qed.

Lemma triple_clear src :
  triple (checked_tree src) (m ← get; if treePresent m then mret tt else nukeTree W)
    (λ _, cleared src) (truthful W).
Proof using All.
  apply triple_get_intro. intros m0. destruct (treePresent m0) eqn:E.
  - eapply triple_pre; [apply triple_skip|]. intros m [-> (Hs & Ht & Hp)]. split; [done|]. right. auto.
  - eapply triple_conseq; [apply (triple_nuke_keep (src_ok src)), src_ok_spared| | |done].
    + by intros m [-> (Hs & Ht & _)].
    + intros u m [Hc Hso]. split; [done|by left].
Qed.

Lemma triple_hydrate src seed :
  triple (cleared src)
    (m ← get;
     match seed with
     | Some c =>
         if treePresent m then mret tt
         else
           found ← seedPull W c;
           if (found : bool) then
             seedStamp ← read seedStampFile;
             remove seedStampFile;;
             if default "" seedStamp <>s want then nukeTree W else write stampFile want
           else mret tt
     | None => mret tt
     end)
    (λ _, cleared src) (truthful W).
Proof using All.
  apply triple_get_intro. intros m0.
  assert (∀ m, m = m0 ∧ cleared src m → cleared src m) as Hpre by tauto.
  destruct seed as [c|]; [|by eapply triple_pre; [apply triple_skip|exact Hpre]].
  destruct (treePresent m0) eqn:E; [by eapply triple_pre; [apply triple_skip|exact Hpre]|].
  apply (triple_pre _ (λ m, clean m ∧ src_ok src m)).
  2: { intros m [-> [Hs [Hc|[Hp _]]]]; [done|congruence]. }
  eapply triple_bind; [apply (triple_seedPull c (src_ok src)), src_ok_spared|].
  intros [].
  - eapply triple_bind; [apply triple_read|]. intros st. cbv beta.
    assert (∀ m, pulled m → built W (default "" (m !! seedStampFile)) (delete seedStampFile m) ∧
              unstamped (delete seedStampFile m) ∧
              is_Some (delete seedStampFile m !! "Makefile")) as Hdel.
    { intros m Hm. destruct (pulled_built m Hm) as (Hmk & w & Hw & Hb & Hn). rewrite Hw. cbn. split.
      - eapply built_own; [exact Hb|]. intros p Hp. apply lookup_delete_ne. by intros <-.
      - unfold unstamped. rewrite !lookup_delete_ne by done. done. }
    eapply (triple_bind _ _ _ (λ _ m, (built W (default "" st) m ∧ unstamped m ∧
              is_Some (m !! "Makefile")) ∧ src_ok src m)).
    + apply triple_remove; intros m (-> & Hso & Hm); destruct (Hdel m Hm) as (Hb & Hu & Hmk).
      * by apply not_stamped_truthful.
      * split; [done|]. eapply src_ok_spared; [|exact Hso]. intros p Hp. apply lookup_delete_ne.
        by intros <-.
    + intros u. destruct (String.eqb_spec (default "" st) want) as [->|Hne]; cbn [negb].
      * intros m ((Hb & Hu & Hmk) & Hso).
        destruct (triple_stamp W want want_stamp m Hb) as [H1 H2]. split; [exact H1|].
        split; [eapply src_ok_spared; [|exact Hso]; intros p Hp; apply lookup_insert_ne; by intros <-|].
        right. split; [|exact H2]. unfold treePresent. apply bool_decide_true.
        cbn [final write]. by rewrite lookup_insert_ne.
      * eapply triple_conseq; [apply (triple_nuke_keep (src_ok src)), src_ok_spared| | |done].
        -- intros m ((Hb & Hu & _) & Hso). split; [by apply not_stamped_truthful|done].
        -- intros v m [Hcl Hso]. split; [done|by left].
  - eapply triple_pre; [apply triple_ret|]. intros m [Hso Hcl]. split; [done|by left].
Qed.

(** The cold path: extract, patch, stamp. *)
Lemma triple_cold (src : option tarball) :
  triple (λ m, clean m ∧ src_ok src m)
    (s ← (match src with Some s => mret s | None => acquireSource W I end);
     extractTarball W I s;;
     (if getenv I "APPLY_PATCHES" =s "1" then applyPatches W I else mret tt);;
     write stampFile want)
    (λ _ m, prepared want m) (truthful W).
Proof using All.
  eapply (triple_bind _ _ _ (λ s m, clean m ∧ tarball_ok W I s m)).
  { destruct src as [s|].
    - eapply triple_pre; [apply triple_ret|]. intros m [Hc Hs]. split; [done|by apply Hs].
    - intros m0 [Hc Hs]. destruct (triple_acquire W I m0 m0) as [H1 H2]; [done|].
      assert (∀ m, same_tree m0 m → truthful W m) as Htr
        by (intros m Hm; apply clean_truthful; by eapply same_tree_clean).
      split; [eapply Forall_impl; [exact H1|exact Htr]|].
      destruct (ret (acquireSource W I m0)); [|by apply Htr].
      destruct H2 as [H2 H3]. split; [by eapply same_tree_clean|done]. }
  intros s. eapply triple_bind.
  { eapply triple_conseq; [apply (triple_extract W I s)|done| |].
    - intros u m Hm. exact Hm.
    - intros m. apply not_stamped_truthful. }
  intros u. eapply (triple_bind _ _ _ (λ _ m, built W want m)).
  - intros m [Hex Hun]. destruct Hex as (m0 & c & ext & files & Hcl & Hok & Hcont & Hdec & Hm).
    assert (∀ cs m', series I cs → applied W cs m m' → built W want m') as Hbuilt.
    { intros cs m' Hcs Happ. destruct (stampWant_spec W I want Hwant Hcons) as [_ Hw].
      destruct (Hw s m0 c cs Hok Hcont Hcs) as (id & ps & -> & Hid & Hps).
      subst m. by eapply built_source. }
    destruct (getenv I "APPLY_PATCHES" =s "1") eqn:Ep.
    + destruct (triple_patches W I m m (conj eq_refl Hun)) as [H1 H2]. split.
      * eapply Forall_impl; [exact H1|]. intros m'. apply not_stamped_truthful.
      * destruct (ret (applyPatches W I m)); [|by apply not_stamped_truthful].
        destruct H2 as [(names & Hn & Ha) _].
        apply (Hbuilt (map (patchContent I) names)); [|done].
        unfold series. rewrite Ep. by exists names.
    + cbn. split; [constructor|]. apply (Hbuilt []); [|done]. unfold series. by rewrite Ep.
  - intros v. apply triple_stamp, want_stamp.
Qed.
End want.

Lemma triple_prepareTree (seed : option seedCfg) :
  consistent I →
  triple (truthful W) (prepareTree W I seed)
    (λ _ m, ∃ want, stampWant I = Ok want ∧ prepared want m) (truthful W).
Proof using All.
  intros Hcons.
  unfold prepareTree. eapply triple_bind; [apply triple_lift; done|].
  intros want. apply triple_pure. intros Hwant.
  apply triple_get_intro. intros m0.
  eapply triple_bind; [exact (triple_get_elim _ _ _ _ (triple_check want Hwant Hcons) m0)|].
  intros src. apply triple_get_intro. intros m1.
  eapply triple_bind; [exact (triple_get_elim _ _ _ _ (triple_clear want Hwant Hcons src) m1)|].
  intros u. apply triple_get_intro. intros m2.
  eapply triple_bind; [exact (triple_get_elim _ _ _ _ (triple_hydrate want Hwant Hcons src seed) m2)|].
  intros v. apply triple_get_intro. intros m3.
  destruct (treePresent m3) eqn:Ep.
  - eapply triple_pre; [apply triple_skip|]. intros m4 [-> [_ [Hc|[_ Hp]]]]; [|by exists want].
    by rewrite clean_absent in Ep.
  - eapply triple_conseq; [apply (triple_cold want Hwant Hcons src)| | |done].
    + intros m4 [-> [Hs [Hc|[Hp _]]]]; [done|congruence].
    + intros w m4 Hm4. by exists want.
Qed.

(** C2. The stamp never lies, whenever the build is killed - a build that spares the
    step's own files ([Spares]: the tarball it extracts holds no .kbf- file, and its
    patches and make touch none; without that it can lie, [TreeScenarios.forged_stamp]),
    with a bucket that holds what the steps of truly stamped trees pushed ([BucketOk]).
    Start from any mount whose stamp, if it stands next to a Makefile, names what the
    tree was built from. Then every state [prepareTree] passes through - mid-discard,
    mid-transfer, mid-extraction, between two bytes of the stamp - and every state it
    fails in is such a mount, and if it succeeds the mount carries the wanted stamp over
    a tree built from a complete extraction of the wanted source and patch series. *)
Theorem prepareTree_crash_safe (seed : option seedCfg) (m : mount) :
  consistent I → truthful W m →
  let o := prepareTree W I seed m in
  Forall (truthful W) (passed o) ∧ truthful W (final o) ∧
  (ret o = Ok tt → ∃ want, stampWant I = Ok want ∧ prepared want (final o)).
Proof using All.
  intros Hcons Hm o.
  destruct (triple_prepareTree seed Hcons m Hm) as [H1 H2]. subst o. split; [exact H1|].
  destruct (ret (prepareTree W I seed m)) as [[]|e]; [|by split].
  split; [|by intros _]. destruct H2 as (want & _ & Hp). by eapply prepared_truthful.
Qed.
End prepare.
