(* ===== verification/ConfigureLaws.v ===== *)
(** [configure] is crash safe (cmd/kbuild-step/main.go): the skip marker never
    vouches for a .config it does not belong to. *)

From S2P Require Import Prelude GoString Spec StepEnv Download Mount Tree TreeLaws.

Section configure.
Context (W : World).

(** The .config that the inputs hand to olddefconfig: the context config, or the
    outcome of the make base with the context config appended. *)
Definition config_input (I : inputs) (cfg : string) (m0 : mount) : Prop :=
  match baseMake I with
  | [] => m0 !! ".config" = Some cfg
  | _ => ∃ mb ms m', make W (env I) (baseMakeArgs (env I)) mb = (ms, m', true) ∧
           if TrimSpace cfg =s "" then m0 = m'
           else ∃ old, m' !! ".config" = Some old ∧ m0 = <[".config" := old +:+ String LF cfg]> m'
  end.

(** [c] is what a completed configuration under the identity [id] resolved to. *)
Definition derived (id c : string) : Prop :=
  ∃ I cfg m0 ms m1, config I = Some cfg ∧ cfgID I cfg = id ∧ config_input I cfg m0 ∧
    make W (env I) (olddefconfigArgs (env I)) m0 = (ms, m1, true) ∧ m1 !! ".config" = Some c.

(** A marker vouches for the .config next to it: it is the identity the .config was
    resolved under, or - the marker being written byte by byte - its beginning. *)
Definition vouches (m : mount) : Prop :=
  ∀ id c, m !! markerFile = Some id → m !! ".config" = Some c →
    ∃ rest, derived (id +:+ rest) c.

Definition unmarked (m : mount) : Prop := m !! markerFile = None.

Lemma unmarked_vouches m : unmarked m → vouches m.
Proof. intros H id c Hid. unfold unmarked in H. congruence. Qed.

Lemma unmarked_insert m p c : p ≠ markerFile → unmarked m → unmarked (<[p := c]> m).
Proof. intros Hp H. unfold unmarked. by rewrite lookup_insert_ne. Qed.

(** make keeps a mount unmarked, all along. *)
Lemma triple_make (I : inputs) `{!Spares W I} (Q : mount → Prop) args e (P : mount → Prop) :
  (∀ m, P m → unmarked m) →
  (∀ m ms m', P m → make W (env I) args m = (ms, m', true) → Q m') →
  triple P (runMake W I args e) (λ _ m, unmarked m ∧ Q m) unmarked.
Proof using All.
  intros HP HQ. apply triple_external. intros m Hm.
  pose proof (make_spares (env I) args m markerFile (λ _ _, eq_refl) eq_refl) as Hs.
  destruct (make W (env I) args m) as [[ms m'] ok] eqn:E. apply Forall_app in Hs as [Hms Hm'].
  rewrite Forall_singleton in Hm'. pose proof (HP m Hm) as Hu. unfold unmarked in *.
  rewrite Hu in Hm'. split; [|split; [done|]].
  - eapply Forall_impl; [exact Hms|]. intros m1 H1. cbn in H1. by rewrite H1.
  - intros ->. split; [done|]. by eapply HQ.
Qed.

Section one.
Context (I : inputs) `{!Spares W I} (cfg : string) (Hcfg : config I = Some cfg).

(** The last step: olddefconfig, then the marker. *)
Lemma triple_resolve :
  triple (λ m, unmarked m ∧ config_input I cfg m)
    (runMake W I (olddefconfigArgs (env I)) SMake;; write markerFile (cfgID I cfg))
    (λ _ m, m !! markerFile = Some (cfgID I cfg) ∧ ∀ c, m !! ".config" = Some c → derived (cfgID I cfg) c)
    vouches.
Proof using All.
  eapply triple_bind.
  { eapply triple_conseq; [apply (triple_make I (λ m, ∀ c, m !! ".config" = Some c → derived (cfgID I cfg) c)
      (olddefconfigArgs (env I)) SMake (λ m, unmarked m ∧ config_input I cfg m))|done| |].
    - by intros m [? _].
    - intros m ms m' [_ Hin] Hmk c Hc. exists I, cfg, m, ms, m'. done.
    - intros u m Hm. exact Hm.
    - apply unmarked_vouches. }
  intros u.
  apply triple_write; intros m [Hu Hd].
  - apply write_states_Forall. intros k Hk id c. rewrite lookup_insert_eq. intros [= <-].
    rewrite lookup_insert_ne by done. intros Hc. exists (str_drop k (cfgID I cfg)).
    rewrite str_take_drop. by apply Hd.
  - split; [apply lookup_insert_eq|]. intros c. rewrite lookup_insert_ne by done. apply Hd.
Qed.

Lemma triple_input :
  triple unmarked
    (match baseMake I with
     | [] => write ".config" cfg
     | _ =>
         runMake W I (baseMakeArgs (env I)) SBaseMake;;
         if TrimSpace cfg =s "" then mret tt else append ".config" (String LF cfg)
     end)
    (λ _ m, unmarked m ∧ config_input I cfg m) unmarked.
Proof using All.
  unfold config_input. destruct (baseMake I) as [|t ts].
  - apply triple_write; intros m Hm.
    + apply write_states_Forall. intros k _. by apply unmarked_insert.
    + split; [by apply unmarked_insert|apply lookup_insert_eq].
  - eapply triple_bind.
    { apply (triple_make I (λ m', ∃ mb ms, make W (env I) (baseMakeArgs (env I)) mb = (ms, m', true))); [done|].
      intros m ms m' _ H. by exists m, ms. }
    intros u. destruct (TrimSpace cfg =s "").
    + eapply triple_pre; [apply triple_skip|]. intros m (Hu & mb & ms & H). split; [done|].
      by exists mb, ms, m.
    + intros m (Hu & mb & ms & H). unfold append. destruct (m !! ".config") as [old|] eqn:E; [|by split].
      cbn [passed ret final]. split.
      * apply Forall_forall. intros m' (k & -> & _)%list_elem_of_fmap. by apply unmarked_insert.
      * split; [by apply unmarked_insert|]. exists mb, ms, m. split; [done|]. by exists old.
Qed.
End one.

(** What a completed [configure] went through. *)
Lemma configure_ran (I : inputs) (m mf : mount) :
  runs (configure W I) m tt mf →
  ∃ cfg, config I = Some cfg ∧
    ((m !! markerFile = Some (cfgID I cfg) ∧ mf = m) ∨
     ∃ m0 ms m1, config_input I cfg m0 ∧ make W (env I) (olddefconfigArgs (env I)) m0 = (ms, m1, true) ∧
                 mf = <[markerFile := cfgID I cfg]> m1).
Proof using.
  unfold configure. destruct (config I) as [cfg|]; [|by intros ?%runs_fail]. intros H. exists cfg. split; [done|].
  apply runs_bind in H as (prev & m1 & [-> ->]%runs_read & H).
  destruct (bool_decide_reflect (m !! markerFile = Some (cfgID I cfg))) as [Hm|_].
  { apply runs_ret in H as [_ ->]. by left. }
  right. apply runs_bind in H as ([] & m2 & ->%runs_remove & H).
  apply runs_bind in H as ([] & m3 & Hin & H). apply runs_bind in H as ([] & m4 & [ms Hmk]%runs_external & H).
  apply runs_write in H as ->. exists m3, ms, m4. split; [|done].
  unfold config_input. destruct (baseMake I) as [|t ts]; [apply runs_write in Hin as ->; apply lookup_insert_eq|].
  apply runs_bind in Hin as ([] & m5 & [ms' Hb]%runs_external & Hin). exists (delete markerFile m), ms', m5. split; [done|].
  destruct (TrimSpace cfg =s ""); [by apply runs_ret in Hin as [_ ->]|].
  unfold runs, append in Hin. destruct (m5 !! ".config") as [old|]; [|by destruct Hin].
  destruct Hin as [_ <-]. by exists old.
Qed.

(** C15. [configure] never lets a marker vouch for a stale .config, whenever it is
    killed, in a build whose make leaves the step's own files alone ([Spares]): if the marker vouches for the .config before, it does in every state passed
    through and in every outcome. Success means one of two things: the marker was this
    build's already and nothing at all was touched; or a completed olddefconfig, run on
    this build's make base and context config, left the mount as it is but for the
    marker. A .config that is there is then one resolved under an identity that is this
    build's or, after a marker cut short by a kill, begins with it. (That one is there
    is not promised: behind a matching marker it may be gone, [TreeScenarios.nuke_window].) *)
Theorem configure_crash_safe (I : inputs) (m : mount) :
  Spares W I → vouches m →
  let o := configure W I m in
  Forall vouches (passed o) ∧ vouches (final o) ∧
  (ret o = Ok tt → ∃ cfg, config I = Some cfg ∧ final o !! markerFile = Some (cfgID I cfg) ∧
     ((m !! markerFile = Some (cfgID I cfg) ∧ final o = m) ∨
      ∃ m0 ms m1, config_input I cfg m0 ∧ make W (env I) (olddefconfigArgs (env I)) m0 = (ms, m1, true) ∧
                  final o = <[markerFile := cfgID I cfg]> m1) ∧
     ∀ c, final o !! ".config" = Some c → ∃ rest, derived (cfgID I cfg +:+ rest) c).
Proof using All.
  intros HS Hm o.
  assert (triple vouches (configure W I) (λ _ m, ∃ cfg, config I = Some cfg ∧
    m !! markerFile = Some (cfgID I cfg) ∧ vouches m) vouches) as Ht.
  { unfold configure. destruct (config I) as [cfg|] eqn:Hcfg; [|apply triple_fail].
    eapply triple_bind; [apply triple_read|]. intros prev.
    destruct (bool_decide_reflect (prev = Some (cfgID I cfg))) as [->|Hne].
    - eapply triple_pre; [apply triple_skip|]. intros m' [Hmk Hv]. by exists cfg.
    - apply (triple_bind _ _ _ (λ _ m, unmarked m)).
      { apply triple_remove; intros m' [_ Hv]; [apply unmarked_vouches|]; apply lookup_delete_eq. }
      intros u. eapply triple_bind.
      { eapply triple_conseq; [by apply triple_input|done| |apply unmarked_vouches].
        intros v m' Hm'. exact Hm'. }
      intros v. eapply triple_post; [by apply triple_resolve|].
      intros w m' [Hmk Hd]. exists cfg. split; [done|]. split; [done|].
      intros id c Hid Hc. rewrite Hmk in Hid. injection Hid as <-. exists "".
      rewrite str_app_nil_r. by apply Hd. }
  destruct (Ht m Hm) as [H1 H2]. subst o. split; [exact H1|].
  destruct (ret (configure W I m)) as [[]|e] eqn:Er; [|by split].
  destruct H2 as (cfg & Hcfg & Hmk & Hv). split; [done|]. intros _. exists cfg.
  split; [done|]. split; [done|].
  destruct (configure_ran I m (final (configure W I m)) (conj Er eq_refl)) as (cfg' & Hcfg' & Hran).
  rewrite Hcfg in Hcfg'. injection Hcfg' as <-. split; [exact Hran|]. intros c Hc. by apply (Hv (cfgID I cfg)).
Qed.
End configure.
