(* ===== verification/TreeScenarios.v ===== *)
(** What [prepareTree] keeps, concrete worlds that meet the laws, and the two
    situations the laws exclude (cmd/kbuild-step/main.go): a source tarball that
    carries its own stamp, and a discard killed between .config and the stamp. *)

From S2P Require Import Prelude GoString GoSort Sha256 Spec SpecValid LLB LLBLaws StepEnv Download Mount Tree TreeLaws SeedLaws PrepareLaws ConfigureLaws.

(** ** What is kept *)

Lemma prepareTree_warm W I seed want m :
  stampWant I = Ok want → m !! stampFile = Some want → treePresent m = true →
  prepareTree W I seed m = Outcome [] m (Ok tt).
Proof.
  intros Hw Hs Hp. unfold prepareTree. rewrite (bind_lift _ _ _ want) by done.
  rewrite bind_get. unfold readStamp. rewrite Hp, Hs. cbn [default]. unfold id.
  rewrite String.eqb_refl. cbn [negb andb]. rewrite bind_ret, bind_get, Hp, bind_ret, bind_get, Hp.
  destruct seed; rewrite bind_ret, bind_get, Hp; reflexivity.
Qed.

Lemma prepareTree_no_source W I seed want m e :
  stampWant I = Ok want → treePresent m = true → readStamp m ≠ want →
  ret (acquireSource W I m) = Err e →
  prepareTree W I seed m =
  Outcome (passed (acquireSource W I m)) (final (acquireSource W I m)) (Err e).
Proof.
  intros Hw Hp Hs He. unfold prepareTree. rewrite (bind_lift _ _ _ want) by done.
  rewrite bind_get, Hp. destruct (String.eqb_spec (readStamp m) want) as [?|_]; [done|].
  cbn [negb andb].
  assert (∀ B (f : tarball → prog B), (acquireSource W I ≫= f) m =
            Outcome (passed (acquireSource W I m)) (final (acquireSource W I m)) (Err e)) as Hb
    by (intros B f; by apply bind_fails).
  erewrite bind_fails; [|rewrite Hb; reflexivity]. by rewrite Hb.
Qed.

(** C23. A warm tree is never lost to a build that cannot replace it. When the stamp
    matches, [prepareTree] neither writes nor asks anything, whatever the seed. When
    it does not match and the replacement source cannot be acquired - a bad name, a
    failed download, a digest that is not the pin - the build fails with that error
    and every state passed through, the last included, has the old tree intact:
    only the cached source may change. *)
Theorem prepareTree_keeps (W : World) (I : inputs) (seed : option seedCfg) (want : string) (m : mount) :
  WorldOk W → stampWant I = Ok want → treePresent m = true →
  let o := prepareTree W I seed m in
  (m !! stampFile = Some want → o = Outcome [] m (Ok tt)) ∧
  (readStamp m ≠ want → ∀ e, ret (acquireSource W I m) = Err e →
     ret o = Err e ∧ Forall (same_tree m) (passed o) ∧ same_tree m (final o)).
Proof.
  intros HW Hw Hp o. subst o. split.
  - intros Hs. by eapply prepareTree_warm.
  - intros Hs e He. rewrite (prepareTree_no_source W I seed want m e) by done.
    destruct (triple_acquire W I m m) as [H1 H2]; [done|]. rewrite He in H2. done.
Qed.

(** ** A world *)

(** Workers that take the files one by one: each removed, then written byte by byte. *)
Definition one_by_one (files : list (string * string)) : list (string * option string) :=
  flat_map (λ f, (f.1, None) :: map (λ k, (f.1, Some (str_take k f.2))) (seq 0 (S (String.length f.2)))) files.

Lemma one_by_one_own files : Forall (λ w, ∃ f, f ∈ files ∧ f.1 = w.1) (one_by_one files).
Proof.
  apply Forall_forall. intros w. unfold one_by_one. rewrite list_elem_of_In, in_flat_map.
  intros (f & Hf & Hw). exists f. split; [by apply list_elem_of_In|].
  destruct Hw as [<-|(k & <- & _)%in_map_iff]; done.
Qed.

(** Tarballs are their Makefile; make links a vmlinux and resolves a .config. *)
Definition toy : World := {|
  unlink l := l;
  make env args m :=
    if existsb (String.eqb "olddefconfig") args
    then ([], <[".config" := default "" (m !! ".config") +:+ "+resolved"]> m, true)
    else ([], <["vmlinux" := "elf"]> m, true);
  decode ext c := ([("Makefile", c)], true);
  workers := one_by_one;
  gitapply c m := ([], m, true);
  server url k r := Response 200 "" ("tar of " +:+ url) true;
  cancelled k := false;
  bucket c := NoSuchKey
|}.

#[export] Instance toy_ok : WorldOk toy.
Proof. split; [done|exact one_by_one_own]. Qed.

#[export] Instance toy_spares I : Spares toy I.
Proof.
  split.
  - intros e args m p _ Hp. cbn. destruct (existsb _ args); apply Forall_singleton, lookup_insert_ne;
      by intros <-.
  - intros n m p Hp. by apply Forall_singleton.
  - intros ext c _. by apply Forall_singleton.
Qed.

#[export] Instance toy_bucket : BucketOk toy.
Proof. by split. Qed.

Definition toy_env (url sum : string) : gmap string string :=
  <["SRC_ID" := if sum =s "" then url else sum]>
    (<["SRC_URL" := url]> (<["SRC_SHA256" := sum]> ∅)).

Definition toy_inputs (url sum cfg : string) : inputs :=
  Inputs (toy_env url sum) (Some cfg) ∅ ∅ ∅.

Definition good_url : string := "https://m/linux.tar.gz".
Definition good_sum : string := Eval vm_compute in fileSHA256 ("tar of " +:+ good_url).

Lemma toy_consistent : consistent (toy_inputs good_url good_sum "").
Proof. split; [by vm_compute|]. intros _. left. by vm_compute. Qed.

Lemma prepareTree_crash_safe_witness :
  let I := toy_inputs good_url good_sum "" in
  let o := prepareTree toy I None ∅ in
  ret o = Ok tt ∧ Forall (truthful toy) (passed o) ∧
  ∃ want, stampWant I = Ok want ∧ prepared toy want (final o).
Proof.
  intros I o.
  assert (ret o = Ok tt) as Hr by (vm_compute; reflexivity).
  destruct (prepareTree_crash_safe toy I None ∅ toy_consistent) as (H1 & _ & H3).
  { intros w Hw. discriminate Hw. }
  split; [exact Hr|]. split; [exact H1|]. exact (H3 Hr).
Defined.

Lemma prepareTree_keeps_witness :
  let I := toy_inputs good_url "00" "" in
  let m : mount := <["Makefile" := "old"]> (<[stampFile := "src=ff patches=none"]> ∅) in
  let o := prepareTree toy I None m in
  ret o = Err (SMismatch good_sum "00") ∧ final o !! "Makefile" = Some "old".
Proof.
  intros I m o.
  assert (ret (acquireSource toy I m) = Err (SMismatch good_sum "00")) as He
    by (vm_compute; reflexivity).
  destruct (prepareTree_keeps toy I None "src=00 patches=none" m) as [_ H].
  - apply toy_ok.
  - vm_compute. reflexivity.
  - vm_compute. reflexivity.
  - destruct (H ltac:(vm_compute; discriminate) _ He) as (H1 & _ & H3).
    split; [exact H1|]. transitivity (m !! "Makefile"); [exact (H3 "Makefile" eq_refl)|].
    vm_compute. reflexivity.
Defined.

Lemma configure_crash_safe_witness :
  let I := toy_inputs good_url good_sum "CONFIG_A=y" in
  let o := configure toy I ∅ in
  ret o = Ok tt ∧ Forall (vouches toy) (passed o) ∧ final o !! ".config" = Some "CONFIG_A=y+resolved".
Proof.
  intros I o.
  assert (ret o = Ok tt) as Hr by (vm_compute; reflexivity).
  destruct (configure_crash_safe toy I ∅ _) as (H1 & _ & _).
  { intros id c Hid. discriminate Hid. }
  split; [exact Hr|]. split; [exact H1|]. vm_compute. reflexivity.
Defined.

(** ** A discard killed between .config and the stamp *)

Lemma after_config p : In p [markerFile; stampFile; "Makefile"] → ¬ str_le (top p) ".config".
Proof. intros H. repeat destruct H as [<-|H]; try done; by vm_compute. Qed.

(** An interrupted discard can leave a tree that is trusted without its .config:
    from every configured warm tree there is a point of [nukeTree] at which a kill
    leaves the stamp and the skip marker but no .config. The next build with the
    previous inputs takes that mount for warm and configured, changes nothing, and
    goes on to compile without a .config - and so does every build after it. *)
Theorem nuke_window (W : World) (I : inputs) (cfg want c : string) (m : mount) :
  WorldOk W → config I = Some cfg → stampWant I = Ok want →
  m !! stampFile = Some want → m !! markerFile = Some (cfgID I cfg) →
  is_Some (m !! "Makefile") → m !! ".config" = Some c →
  ∃ m', In m' (passed (nukeTree W m)) ∧ m' !! ".config" = None ∧
        (∀ seed, prepareTree W I seed m' = Outcome [] m' (Ok tt)) ∧
        configure W I m' = Outcome [] m' (Ok tt).
Proof.
  intros HW Hcfg Hw Hs Hmk Hmf Hc.
  assert (".config" ∈ nuke_order W m) as Hin by (apply nuke_order_spec; [done|]; by rewrite Hc).
  apply list_elem_of_split in Hin as (l1 & l2 & Ho).
  assert (∀ p, In p [markerFile; stampFile; "Makefile"] → p ∉ l1 ++ [".config"]) as Hno.
  { intros p Hp Hl. rewrite elem_of_app in Hl. destruct Hl as [Hl|Hl].
    - apply (after_config p Hp).
      change ".config" with (top ".config"). eapply (nuke_order_sorted W m l1); [done|done|by left].
    - apply list_elem_of_singleton in Hl as ->. repeat destruct Hp as [Hp|Hp]; done. }
  set (m' := foldl (λ m p, delete p m) m (l1 ++ [".config"])).
  assert (∀ p, In p [markerFile; stampFile; "Makefile"] → m' !! p = m !! p) as Hkeep.
  { intros p Hp. subst m'. rewrite foldl_delete_lookup, bool_decide_false; [done|by apply Hno]. }
  exists m'. split; [|split; [|split]].
  - unfold nukeTree, remove_list. cbn [passed]. rewrite Ho.
    assert (∀ ps qs (x : string) (m0 : mount),
              In (foldl (λ m p, delete p m) m0 (ps ++ [x])) (removals (ps ++ x :: qs) m0)) as Hrem.
    { induction ps as [|q ps IH]; intros qs x m0; [by left|]. right. apply IH. }
    apply Hrem.
  - subst m'. rewrite foldl_delete_lookup, bool_decide_true; [done|]. set_solver.
  - intros seed. eapply prepareTree_warm; [done| |].
    + rewrite Hkeep by (simpl; tauto). done.
    + apply bool_decide_true. rewrite Hkeep by (simpl; tauto). done.
  - unfold configure. rewrite Hcfg, bind_read. rewrite Hkeep by (simpl; tauto).
    rewrite Hmk, bool_decide_true by done. reflexivity.
Qed.

Lemma nuke_window_witness :
  let I := toy_inputs good_url good_sum "CONFIG_A=y" in
  let m := final (configure toy I (final (prepareTree toy I None ∅))) in
  ∃ m', In m' (passed (nukeTree toy m)) ∧ m' !! ".config" = None ∧
        (∀ seed, prepareTree toy I seed m' = Outcome [] m' (Ok tt)) ∧
        configure toy I m' = Outcome [] m' (Ok tt).
Proof.
  intros I m.
  apply (nuke_window toy I "CONFIG_A=y" ("src=" +:+ good_sum +:+ " patches=none") "CONFIG_A=y+resolved").
  - apply toy_ok.
  - reflexivity.
  - vm_compute. reflexivity.
  - vm_compute. reflexivity.
  - vm_compute. reflexivity.
  - eexists. vm_compute. reflexivity.
  - vm_compute. reflexivity.
Defined.

(** ** A tarball with a stamp of its own *)

Definition evil_url : string := "https://e/linux.tar.gz".

(** A tarball that names the victim's stamp and then breaks off. *)
Definition forged (sum : string) : list (string * string) :=
  [("Makefile", "evil"); (stampFile, stamp sum "none")].

Definition hostile : World := {|
  unlink := unlink toy; make := make toy; gitapply := gitapply toy; server := server toy;
  cancelled := cancelled toy; bucket := bucket toy; workers := workers toy;
  decode ext c := if c =s "tar of " +:+ evil_url then (forged good_sum, false)
                  else ([("Makefile", c)], true)
|}.

(** The quarantine that protects a seed's stamp does not cover the source: an
    unpinned tarball that carries a .kbf-stamp naming another build's pin and then
    fails to decode leaves its files under that stamp, and the next build of the
    pinned source takes them for its own tree, unverified and unchanged. The attack is
    not a build that [Spares] the step's own files, which is why the laws of the tree
    ask that of every build. *)
Theorem forged_stamp :
  let attack := prepareTree hostile (toy_inputs evil_url "" "") None ∅ in
  let m := final attack in
  let victim := prepareTree hostile (toy_inputs good_url good_sum "") None m in
  ret attack = Err SExtract ∧ ret victim = Ok tt ∧ final victim !! "Makefile" = Some "evil".
Proof. vm_compute. done. Qed.

Lemma attack_spares_not : ¬ Spares hostile (toy_inputs evil_url "" "").
Proof.
  intros [_ _ H]. specialize (H ".gz" ("tar of " +:+ evil_url)).
  assert (source_content hostile (toy_inputs evil_url "" "") ("tar of " +:+ evil_url)) as Hc by (vm_compute; reflexivity).
  apply H in Hc. assert ((decode hostile ".gz" ("tar of " +:+ evil_url)).1 = forged good_sum) as He by (vm_compute; reflexivity).
  rewrite He in Hc. apply Forall_cons in Hc as [_ [Hs _]%Forall_cons]. discriminate Hs.
Qed.
