(* ===== verification/Step.v ===== *)
(** cmd/kbuild-step/main.go and expect.go, the step itself: [run] from the contract
    checks to the published seed, [bundleKconfigs], [packModules] and [seedPush]
    included. What leaves the step is the content of /out and the pushed files. *)

From stdpp Require sorting.
From S2P Require Import Prelude GoString GoTime GoSort Sha256 Timestamp Spec LLB StepEnv Expect Download Mount Tree.

(** ** What is exported *)

(** A file of the modules_install staging directory. *)
Inductive body := Dir | Reg (content : string) | Symlink (target : string).

Record node := Node {
  body_of : body;
  perm : Z;
  mtime : Z;
  atime : Z;
  ctime : Z;
  owner : Z * Z * string * string  (* uid, gid, uname, gname *)
}.

(** A tar member: the header fields the code sets or inherits, and its content. *)
Record header := Header {
  Name : string;
  Body : body;
  Mode : Z;
  ModTime : Z;
  AccessTime : option Z;
  ChangeTime : option Z;
  Owner : Z * Z * string * string
}.

Inductive artifact :=
  | Copied (content : string)
  | Bundle (text : string)            (* before gzip *)
  | Archive (members : list header).  (* before tar and zstd *)

(** The outside the exports touch. *)
Record Exporter := MkExporter {
  (* what make leaves in the directory it is told to install into *)
  staged : gmap string string → list string → mount → gmap string node;
  (* tar and zstd over the packed tree *)
  encode : list (string * string) → string;
  (* the bucket takes the object *)
  upload : seedCfg → list (string * string) → bool
}.

Inductive RunError :=
  | RTimestamp (e : TimestampError)
  | RTarget (e : TargetError)
  | RSeedPush (e : SeedPushError)
  | RStep (e : StepError)
  | RExpect (e : ExpectError)
  | RNoModules
  | RCopy (src : string)
  | RSeedURL
  | RSeed.

(** [os.Setenv] *)
Definition Setenv (k v : string) (I : inputs) : inputs :=
  Inputs (<[k := v]> (env I)) (config I) (patches I) (srcs I) (secrets I).

(** ** The Kconfig bundle *)

Definition kconfig_skip : list string := [".git"; "Documentation"; "tools"; "samples"; "scripts"].

(** A path under a skipped top-level directory. *)
Definition skipped (p : string) : bool :=
  let '(t, _, below) := Cut p "/" in below && existsb (String.eqb t) kconfig_skip.

Definition kconfig_names (m : mount) : list string :=
  sort_strings (List.filter (λ p, negb (skipped p) && HasPrefix (base p) "Kconfig")
                            (map fst (map_to_list m))).

Definition kconfig_section (m : mount) (name : string) : string :=
  "### " +:+ name +:+ String LF (default "" (m !! name)).

Definition bundleKconfigs (m : mount) : string :=
  foldr (λ name text, kconfig_section m name +:+ text) "" (kconfig_names m).

(** ** The modules archive *)

(** [tar.FileInfoHeader] *)
Definition FileInfoHeader (n : node) (name : string) : header :=
  Header name (body_of n) (perm n) (mtime n) (Some (atime n)) (Some (ctime n)) (owner n).

Definition module_header (epoch : string) (rel : string) (n : node) : header :=
  let h := FileInfoHeader n (match body_of n with Dir => rel +:+ "/" | _ => rel end) in
  Header (Name h) (Body h) (Mode h)
         (match ParseInt epoch with Ok ts => ts | Err _ => ModTime h end)
         None None (0, 0, "", "")%Z.

Definition archive (epoch : string) (stage : gmap string node) : list header :=
  omap (λ p, module_header epoch p <$> stage !! p)
       (sorting.merge_sort walk_le (map fst (map_to_list stage))).

Section run.
Context (W : World) (X : Exporter).
(** The files at /kernel.expect, GOMAXPROCS, the staging directory and the random
    part of the temporary pack's name. *)
Context (expect : file) (jobs : Z) (stage rnd : string).

Abbreviation out_dir := (gmap string artifact).

Definition modulesArgs (I : inputs) : list string :=
  ["modules_install"; "INSTALL_MOD_PATH=" +:+ stage; "INSTALL_MOD_STRIP=1"] ++ archArgs (env I).

Definition packModules (I : inputs) (out : out_dir) : M RunError out_dir :=
  m ← get;
  wrap RStep (runMake W I (modulesArgs I) SMake);;
  mret (<["/out/modules.tar.zst" :=
           Archive (archive (getenv I "SOURCE_DATE_EPOCH") (staged X (env I) (modulesArgs I) m))]> out).

(** [copyFile] for each pair. *)
Fixpoint copyFiles (l : list (string * string)) (out : out_dir) : M RunError out_dir :=
  match l with
  | [] => mret out
  | (src, dst) :: l =>
      have ← read src;
      match have with
      | None => fail (RCopy src)
      | Some c => copyFiles l (<[dst := Copied c]> out)
      end
  end.

(** Packs left behind by killed pushes. *)
Definition is_stale (p : string) : bool :=
  negb (ContainsByte p "/") && HasPrefix p ".kbf-seed-" && HasSuffix p ".tmp".

Definition sweep : M RunError unit :=
  m ← get;
  each remove (sort_strings (List.filter is_stale (map fst (map_to_list m)))).

Definition seedPush (c : seedCfg) : M RunError (list (string * string)) :=
  match s3Target c with
  | None => fail RSeedURL
  | Some _ =>
      let tmp := ".kbf-seed-" +:+ rnd +:+ ".tmp" in
      write tmp "";;
      m ← get;
      let files := seed_pack m in
      write tmp (encode X files);;
      remove tmp;;
      if upload X c files then mret files else fail RSeed
  end.

Definition config_file (m : mount) : file :=
  match m !! ".config" with Some c => Content c | None => Missing end.

(** The expectation gate, and the compile behind it. *)
Definition gate : M RunError unit :=
  m ← get;
  match (validateExpectations expect (config_file m)).2 with
  | Some e => fail (RExpect e)
  | None => mret tt
  end.

Definition bundle (r : targets) : M RunError out_dir :=
  m ← get;
  mret (if wantKconfigs r then {["/out/kconfig.txt.gz" := Bundle (bundleKconfigs m)]} else ∅).

Definition check_modules (r : targets) : M RunError unit :=
  c ← read ".config";
  if wantModules r && negb (match c with Some c => modulesEnabled c | None => false end)
  then fail RNoModules else mret tt.

Definition compile (I : inputs) (r : targets) : M RunError unit :=
  match makeTargets r with
  | [] => mret tt
  | ts => wrap RStep (runMake W I (makeArgs jobs (env I) ts) SMake)
  end.

Definition publish (seed : option seedCfg) : M RunError (option (list (string * string))) :=
  match seed with
  | Some c => if push c then files ← seedPush c; mret (Some files) else mret None
  | None => mret None
  end.

(** /out and what was pushed. *)
Definition run (I : inputs) : M RunError (out_dir * option (list (string * string))) :=
  ts ← lift RTimestamp (Timestamp (getenv I "SOURCE_DATE_EPOCH"));
  let I := Setenv "KBUILD_BUILD_TIMESTAMP" ts I in
  r ← lift RTarget (resolveTargets (env I));
  let seed := loadSeedCfg (secrets I) in
  lift RSeedPush (checkSeedPush (env I) seed);;
  sweep;;
  wrap RStep (prepareTree W I seed);;
  wrap RStep (configure W I);;
  gate;;
  remove ".version";;
  out ← bundle r;
  check_modules r;;
  compile I r;;
  out ← copyFiles (map_to_list (artifacts r)) out;
  out ← (if wantConfig r then copyFiles [(".config", "/out/config")] out else mret out);
  out ← (if wantModules r then packModules I out else mret out);
  pushed ← publish seed;
  mret (out, pushed).

End run.
