(* ===== verification/StepLaws.v ===== *)
(** The step as a whole (cmd/kbuild-step/main.go, [run]): the tree it was given is
    only ever a truthful one, over any sequence of sparing builds killed anywhere; what it
    exports comes from the tree its inputs name; and a build that breaks the
    contract of its environment touches nothing. *)

From stdpp Require sorting.
From S2P Require Import Prelude GoString GoTime GoSort Sha256 Timestamp Spec SpecValid LLB LLBLaws StepEnv Expect Download Mount Tree TreeLaws SeedLaws PrepareLaws ConfigureLaws Step.

Create HintDb keeps.

(** ** What follows prepareTree keeps the prepared tree *)

Section keeps.
Context (W : World) (want : string).

Definition keeps {E A} (c : M E A) : Prop :=
  triple (prepared W want) c (λ _, prepared W want) (prepared W want).

Lemma prepared_own m m' :
  (∀ p, own p = false → m' !! p = m !! p) → m' !! stampFile = m !! stampFile →
  prepared W want m → prepared W want m'.
Proof. intros Hp Hs [Hw Hb]. split; [by rewrite Hs|]. by eapply built_own. Qed.

Lemma prepared_insert m p c :
  own p = true → p ≠ stampFile → prepared W want m → prepared W want (<[p := c]> m).
Proof.
  intros Ho Hp. apply prepared_own; [|by apply lookup_insert_ne].
  intros q Hq. apply lookup_insert_ne. intros ->. congruence.
Qed.

Lemma prepared_delete m p :
  own p = true → p ≠ stampFile → prepared W want m → prepared W want (delete p m).
Proof.
  intros Ho Hp. apply prepared_own; [|by apply lookup_delete_ne].
  intros q Hq. apply lookup_delete_ne. intros ->. congruence.
Qed.

Lemma keeps_bind {E A B} (c : M E A) (f : A → M E B) :
  keeps c → (∀ a, keeps (f a)) → keeps (c ≫= f).
Proof. intros Hc Hf. by eapply triple_bind. Qed.

Lemma keeps_ret {E A} (a : A) : keeps (mret a : M E A).
Proof. intros m Hm. by split. Qed.

Lemma keeps_get {E} : keeps (get : M E mount).
Proof. intros m Hm. by split. Qed.

Lemma keeps_read {E} p : keeps (read p : M E (option string)).
Proof. intros m Hm. by split. Qed.

Lemma keeps_fail {E A} (e : E) : keeps (fail e : M E A).
Proof. intros m Hm. by split. Qed.

Lemma keeps_lift {E F A} (f : F → E) (r : result F A) : keeps (lift f r).
Proof. intros m Hm. split; [constructor|]. cbn. by destruct (map_err f r). Qed.

Lemma keeps_wrap {E F A} (f : F → E) (c : M F A) : keeps c → keeps (wrap f c).
Proof. intros H. by apply triple_wrap. Qed.

Lemma keeps_write {E} p c : own p = true → p ≠ stampFile → keeps (write p c : M E unit).
Proof.
  intros Ho Hp. apply triple_write; intros m Hm; [|by apply prepared_insert].
  apply write_states_Forall. intros k _. by apply prepared_insert.
Qed.

Lemma keeps_remove {E} p : own p = true → p ≠ stampFile → keeps (remove p : M E unit).
Proof. intros Ho Hp. by apply triple_remove; intros m Hm; apply prepared_delete. Qed.

Lemma keeps_append p c : own p = true → p ≠ stampFile → keeps (append p c).
Proof.
  intros Ho Hp m Hm. unfold append. destruct (m !! p) as [old|]; [|by split].
  split; [|by apply prepared_insert].
  apply Forall_forall. intros m' (k & -> & _)%list_elem_of_fmap. by apply prepared_insert.
Qed.

Lemma keeps_runMake I `{!Spares W I} args e : keeps (runMake W I args e).
Proof using.
  apply triple_external. intros m [Hs Hb].
  pose proof (make_spares (env I) args m stampFile (λ _ _, eq_refl) eq_refl) as Hk.
  destruct (make W (env I) args m) as [[ms m'] ok] eqn:E.
  assert (Forall (prepared W want) (ms ++ [m'])) as H.
  { apply Forall_forall. intros m1 Hin. rewrite Forall_forall in Hk.
    split; [by rewrite Hk|]. eapply built_make; [exact Hb|exact E|by apply list_elem_of_In]. }
  apply Forall_app in H as [H1 H2]. rewrite Forall_singleton in H2. done.
Qed.
End keeps.

#[export] Hint Resolve keeps_ret keeps_get keeps_read keeps_fail keeps_lift keeps_runMake : keeps.
#[export] Hint Extern 1 (keeps _ _ (write _ _)) => apply keeps_write; [reflexivity|discriminate] : keeps.
#[export] Hint Extern 1 (keeps _ _ (remove _)) => apply keeps_remove; [reflexivity|discriminate] : keeps.
#[export] Hint Extern 1 (keeps _ _ (append _ _)) => apply keeps_append; [reflexivity|discriminate] : keeps.

(** Along a program: every call by its hint, every branch. *)
Ltac keep :=
  repeat (intros;
          first [ solve [eauto with keeps]
                | apply keeps_bind
                | apply keeps_wrap
                | match goal with |- keeps _ _ (match ?x with _ => _ end) => destruct x end ]).

Lemma kbf_seed x : kbf (".kbf-seed-" +:+ x) = true.
Proof. unfold kbf, top. rewrite Cut_after by done. by destruct (Cut x "/") as [[a b] ok]. Qed.

Lemma stale_own p : is_stale p = true → own p = true ∧ p ≠ stampFile.
Proof.
  unfold is_stale. intros H. apply andb_true_iff in H as [H _]. apply andb_true_iff in H as [_ H].
  apply HasPrefix_spec in H as [t ->]. split; [|done]. unfold own. by rewrite kbf_seed.
Qed.

Section run.
Context (W : World) `{!WorldOk W, !BucketOk W} (X : Exporter).
Context (expect : file) (jobs : Z) (stage rnd : string).
Abbreviation run := (Step.run W X expect jobs stage rnd).

Section want.
Context (want : string).
Abbreviation keeps := (keeps W want).

Lemma keeps_configure I `{!Spares W I} : keeps (configure W I).
Proof using. unfold configure. keep. Qed.

Lemma keeps_seedPush c : keeps (seedPush X rnd c).
Proof using.
  unfold seedPush. destruct (s3Target c); [|keep].
  assert (∀ t : string, own (".kbf-seed-" +:+ t) = true ∧ ".kbf-seed-" +:+ t ≠ stampFile) as Ht.
  { intros t. split; [|done]. unfold own. by rewrite kbf_seed. }
  keep; (apply keeps_write || apply keeps_remove); apply Ht.
Qed.

Lemma keeps_copyFiles l out : keeps (copyFiles l out).
Proof using. revert out. induction l as [|[s d] l IH]; intros out; cbn; keep. Qed.

Lemma keeps_publish seed : keeps (publish X rnd seed).
Proof using. unfold publish. pose proof keeps_seedPush. keep. Qed.

Lemma keeps_tail I `{!Spares W I} r seed :
  keeps (gate expect;;
         remove ".version";;
         out ← bundle r;
         check_modules r;;
         compile W jobs I r;;
         out ← copyFiles (map_to_list (artifacts r)) out;
         out ← (if wantConfig r then copyFiles [(".config", "/out/config")] out else mret out);
         out ← (if wantModules r then packModules W X stage I out else mret out);
         pushed ← publish X rnd seed;
         mret (out, pushed)).
Proof using.
  pose proof keeps_copyFiles. pose proof keeps_publish.
  unfold gate, bundle, check_modules, compile, packModules. keep.
Qed.
End want.

(** ** A run keeps the mount truthful *)

Lemma truthful_own m m' :
  (∀ p, own p = false → m' !! p = m !! p) → m' !! stampFile = m !! stampFile →
  truthful W m → truthful W m'.
Proof.
  intros Hp Hs Hm w. rewrite Hs, (Hp "Makefile") by done. intros Hw Hst Hmk.
  apply (built_own W w m); [by apply Hm|done].
Qed.

Lemma triple_sweep : triple (truthful W) sweep (λ _, truthful W) (truthful W).
Proof.
  unfold sweep. eapply triple_bind; [apply triple_get|]. intros m0.
  apply (triple_pre _ (truthful W)); [|by intros m [_ ?]]. apply triple_each.
  intros p Hp. rewrite <- list_elem_of_In, sort_strings_perm, elem_of_filter_bool in Hp.
  destruct Hp as [[Ho Hne]%stale_own _].
  assert (∀ m, truthful W m → truthful W (delete p m)) as H.
  { intros m. apply truthful_own; [|by apply lookup_delete_ne].
    intros q Hq. apply lookup_delete_ne. intros ->. congruence. }
  by apply triple_remove.
Qed.

(** The environment with the timestamp is as consistent. *)
Lemma consistent_Setenv ts I : consistent I → consistent (Setenv "KBUILD_BUILD_TIMESTAMP" ts I).
Proof.
  unfold consistent, Tree.getenv, StepEnv.getenv, Setenv. cbn [env].
  by rewrite !lookup_insert_ne by done.
Qed.

Lemma source_content_Setenv ts I c :
  source_content W (Setenv "KBUILD_BUILD_TIMESTAMP" ts I) c ↔ source_content W I c.
Proof.
  unfold source_content, Tree.getenv, StepEnv.getenv, Setenv. cbn [env srcs].
  by rewrite !lookup_insert_ne by done.
Qed.

Lemma stampWant_Setenv ts I : stampWant (Setenv "KBUILD_BUILD_TIMESTAMP" ts I) = stampWant I.
Proof.
  unfold stampWant, patchFiles, Tree.getenv, StepEnv.getenv, Setenv. cbn [env patches srcs].
  by rewrite !lookup_insert_ne by done.
Qed.

#[export] Instance Spares_Setenv ts I :
  Spares W I → Spares W (Setenv "KBUILD_BUILD_TIMESTAMP" ts I).
Proof using.
  intros [H1 H2 H3]. split.
  - intros e args m p He. apply H1. intros k Hk. rewrite (He k Hk). unfold Setenv. cbn [env].
    by rewrite lookup_insert_ne.
  - exact H2.
  - intros ext c Hc%source_content_Setenv. by apply H3.
Qed.

Lemma triple_run I `{!Spares W I} :
  consistent I →
  triple (truthful W) (run I) (λ _ m, ∃ want, stampWant I = Ok want ∧ prepared W want m) (truthful W).
Proof using All.
  intros Hcons. unfold Step.run.
  eapply triple_bind; [apply triple_lift; done|]. intros ts. apply triple_pure. intros _.
  cbv zeta. set (I' := Setenv "KBUILD_BUILD_TIMESTAMP" ts I).
  assert (Spares W I') by (by apply Spares_Setenv).
  eapply triple_bind; [apply triple_lift; done|]. intros r. apply triple_pure. intros _.
  eapply triple_bind; [apply triple_lift; done|]. intros u. apply triple_pure. intros _.
  eapply triple_bind; [apply triple_sweep|]. intros u'.
  eapply triple_bind.
  { apply triple_wrap. apply (triple_prepareTree W I' (loadSeedCfg (secrets I'))).
    by apply consistent_Setenv. }
  intros v. apply triple_exists. intros want. apply triple_pure. intros Hw.
  unfold I' in Hw. rewrite stampWant_Setenv in Hw.
  eapply triple_conseq; [|done| |apply prepared_truthful].
  - apply keeps_bind; [by apply keeps_wrap, keeps_configure|]. intros w.
    apply (keeps_tail want I' r (loadSeedCfg (secrets I'))).
  - intros a m Hm. by exists want.
Qed.
End run.

(** ** Any sequence of builds *)

(** The environment the graph declares is consistent. *)
Lemma consistent_compile nonce s I :
  valid_spec s → compile_env nonce s ⊆ env I → consistent I.
Proof.
  intros V Hsub.
  assert (∀ k v, _ → Tree.getenv I k = v) as Hget by exact (λ k v, getenv_within nonce s (env I) k v Hsub).
  pose proof (Hget "SRC_LOCAL" (SourceLocalName s) ltac:(simpl; tauto)) as Hl.
  pose proof (Hget "SRC_ID" (source_identity s).1.1 ltac:(simpl; tauto)) as Hid.
  pose proof (Hget "SRC_SHA256" (source_identity s).2 ltac:(simpl; tauto)) as Hsha.
  pose proof (safe_source s V) as Hsafe. pose proof (v_source _ V) as Hsrc.
  unfold consistent. rewrite Hl, Hid, Hsha. unfold source_identity in *.
  destruct (String.eqb_spec (SourceLocalName s) "") as [He|Hne]; cbn [negb fst snd] in *.
  - destruct Hsafe as (Hi & _ & _). split; [done|]. intros _.
    destruct (String.eqb_spec (SourceSHA256 s) "") as [Hs|Hs]; [right|left]; [|done].
    split; [done|]. by destruct Hsrc.
  - destruct Hsafe as (Hi & _ & _). split; [done|]. by intros ?.
Qed.

(** The persistent mount over its life: created empty, then handed to one build after
    another - any valid specification, any context, any machine, of builds that spare
    the step's own files - each of which runs to its end, fails, or is killed at any
    point. *)
Inductive reachable (W : World) (X : Exporter) : mount → Prop :=
  | reach_new : reachable W X ∅
  | reach_build s nonce I expect jobs stage rnd m m' :
      reachable W X m → valid_spec s → compile_env nonce s ⊆ env I → Spares W I →
      let o := run W X expect jobs stage rnd I m in
      In m' (final o :: passed o) → reachable W X m'.

Lemma reachable_mount (W : World) (X : Exporter) (m : mount) :
  WorldOk W → BucketOk W → reachable W X m → truthful W m.
Proof.
  intros HW HB Hr. induction Hr as [|s nonce I expect jobs stage rnd m m' _ IH V Hsub HS o Hin].
  - by apply not_stamped_truthful.
  - destruct (triple_run W X expect jobs stage rnd I (consistent_compile _ _ _ V Hsub) m IH) as [H1 H2].
    fold o in H1, H2. destruct Hin as [<-|Hin].
    + destruct (ret o); [|done]. destruct H2 as (want & _ & Hp). by eapply prepared_truthful.
    + rewrite Forall_forall in H1. apply H1. by apply list_elem_of_In.
Qed.

(** C3. A persistent mount is safe to share among builds that spare the step's own files:
    none extracts a tarball that holds a .kbf- file, none has a patch or a make that
    touches one. (One that does can leave a stamp that lies, [TreeScenarios.forged_stamp].)
    The bucket, if one is used, holds what steps pushed of truly stamped trees ([BucketOk]).
    Whatever sequence of such builds a mount has been through, killed wherever they
    were, its stamp is truthful; and the next of them to succeed on it leaves the wanted
    stamp over a tree built from a complete extraction of its own source and patch
    series. *)
Theorem reachable_truthful (W : World) (X : Exporter) (m : mount) :
  WorldOk W → BucketOk W → reachable W X m →
  truthful W m ∧
  ∀ s nonce I expect jobs stage rnd, valid_spec s → compile_env nonce s ⊆ env I → Spares W I →
    let o := run W X expect jobs stage rnd I m in
    is_ok (ret o) = true → ∃ want, stampWant I = Ok want ∧ prepared W want (final o).
Proof.
  intros HW HB Hr. pose proof (reachable_mount W X m HW HB Hr) as Hm.
  split; [done|]. intros s nonce I expect jobs stage rnd V Hsub HS o Hok.
  destruct (triple_run W X expect jobs stage rnd I (consistent_compile _ _ _ V Hsub) m Hm) as [_ H2].
  fold o in H2. by destruct (ret o).
Qed.

(** A build outside its contract touches nothing: an epoch that is no timestamp,
    a target list that is empty or names an unknown target, a requested push without
    its secrets - each is the error, found before the mount is so much as swept. *)
Theorem run_contract_first (W : World) (X : Exporter) (expect : file) (jobs : Z)
    (stage rnd : string) (I : inputs) (m : mount) :
  let run := run W X expect jobs stage rnd I m in
  (∀ e, Timestamp (Tree.getenv I "SOURCE_DATE_EPOCH") = Err e →
        run = Outcome [] m (Err (RTimestamp e))) ∧
  (∀ ts e, Timestamp (Tree.getenv I "SOURCE_DATE_EPOCH") = Ok ts → resolveTargets (env I) = Err e →
        run = Outcome [] m (Err (RTarget e))) ∧
  (∀ ts r e, Timestamp (Tree.getenv I "SOURCE_DATE_EPOCH") = Ok ts → resolveTargets (env I) = Ok r →
        checkSeedPush (env I) (loadSeedCfg (secrets I)) = Err e →
        run = Outcome [] m (Err (RSeedPush e))).
Proof.
  assert (∀ ts, resolveTargets (env (Setenv "KBUILD_BUILD_TIMESTAMP" ts I)) = resolveTargets (env I) ∧
    checkSeedPush (env (Setenv "KBUILD_BUILD_TIMESTAMP" ts I))
      (loadSeedCfg (secrets (Setenv "KBUILD_BUILD_TIMESTAMP" ts I))) =
    checkSeedPush (env I) (loadSeedCfg (secrets I))) as Hs.
  { intros ts. unfold resolveTargets, checkSeedPush, StepEnv.getenv, Setenv. cbn [env secrets].
    by rewrite !lookup_insert_ne by done. }
  cbv zeta. unfold Step.run. split_and!.
  - intros e He. by erewrite bind_fails by (unfold lift; cbn; by rewrite He).
  - intros ts e Hts He. rewrite (bind_lift _ _ _ ts) by done. cbv zeta.
    erewrite bind_fails; [reflexivity|]. unfold lift. cbn [ret]. by rewrite (proj1 (Hs ts)), He.
  - intros ts r e Hts Hr He. rewrite (bind_lift _ _ _ ts) by done. cbv zeta.
    rewrite (bind_lift _ _ _ r) by (by rewrite (proj1 (Hs ts))).
    erewrite bind_fails; [reflexivity|]. unfold lift. cbn [ret]. by rewrite (proj2 (Hs ts)), He.
Qed.
