(* ===== verification/ExportLaws.v ===== *)
(** What a successful step exports (cmd/kbuild-step/main.go and expect.go): exactly
    the requested artifacts, from the prepared and gated tree; a modules archive that
    does not depend on when, where or by whom it was installed; a Kconfig bundle
    that reads back. *)

From stdpp Require sorting.
From S2P Require Import Prelude GoString GoTime GoSort Sha256 Timestamp Spec SpecValid LLB LLBLaws StepEnv Expect Download Mount Tree TreeLaws SeedLaws PrepareLaws ConfigureLaws Step StepLaws.

(** ** Where artifacts go *)

Definition lifted : list (string * string) :=
  [("vmlinux", "/out/vmlinux"); ("arch/arm64/boot/Image", "/out/Image");
   ("arch/x86/boot/bzImage", "/out/bzImage")].

Lemma resolve1_lifted arch r t r' :
  resolve1 arch r t = Ok r' →
  (∀ src dst, artifacts r !! src = Some dst → In (src, dst) lifted) →
  ∀ src dst, artifacts r' !! src = Some dst → In (src, dst) lifted.
Proof.
  intros H Hr. destruct r as [mk ar mo co kc]. cbn in Hr.
  assert (∀ s d, In (s, d) lifted →
            ∀ src dst, <[s := d]> ar !! src = Some dst → In (src, dst) lifted) as Hi.
  { intros s d Hin src dst. destruct (decide (s = src)) as [->|Hne].
    - rewrite lookup_insert_eq. by intros [= <-].
    - rewrite lookup_insert_ne by done. apply Hr. }
  unfold resolve1 in H.
  destruct (t =s "vmlinux"); [injection H as <-; apply Hi; simpl; tauto|].
  destruct (t =s "image").
  { destruct (arch =s "arm64"); injection H as <-; apply Hi; simpl; tauto. }
  destruct (t =s "modules"); [by injection H as <-|].
  destruct (t =s "config"); [by injection H as <-|].
  by destruct (t =s "kconfigs"); [injection H as <-|].
Qed.

Lemma resolve_lifted e r :
  resolveTargets e = Ok r → ∀ src dst, artifacts r !! src = Some dst → In (src, dst) lifted.
Proof.
  unfold resolveTargets. destruct (_ =s ""); [done|]. generalize (Split (StepEnv.getenv e "TARGETS") ",").
  intros ts. set (r0 := Resolved [] ∅ false false false).
  assert (∀ src dst, artifacts r0 !! src = Some dst → In (src, dst) lifted) as H0.
  { intros src dst H. subst r0. cbn in H. by rewrite lookup_empty in H. }
  revert H0. generalize r0. clear r0. induction ts as [|t ts IH]; intros r0 H0 H.
  - by injection H as <-.
  - cbn in H. apply bind_Ok in H as (r1 & H1 & H). eapply (IH r1); [|exact H].
    by eapply resolve1_lifted.
Qed.

(** Two artifacts never meet in one file of /out, and none is another export. *)
Lemma lifted_inj s1 s2 d : In (s1, d) lifted → In (s2, d) lifted → s1 = s2.
Proof. intros H1 H2. repeat destruct H1 as [H1|H1]; repeat destruct H2 as [H2|H2]; by simplify_eq. Qed.

Lemma lifted_other s d :
  In (s, d) lifted → ¬ In d ["/out/config"; "/out/kconfig.txt.gz"; "/out/modules.tar.zst"].
Proof. intros H1 H2. repeat destruct H1 as [H1|H1]; repeat destruct H2 as [H2|H2]; by simplify_eq. Qed.

(** ** Copying *)

Lemma runs_copyFiles l out m out' m' :
  runs (copyFiles l out) m out' m' → NoDup (l.*2) →
  m' = m ∧ (∀ s d, (s, d) ∈ l → is_Some (m !! s)) ∧
  ∀ d a, out' !! d = Some a ↔
    (∃ s c, (s, d) ∈ l ∧ m !! s = Some c ∧ a = Copied c) ∨ (¬ d ∈ l.*2 ∧ out !! d = Some a).
Proof.
  revert out. induction l as [|[s d] l IH]; intros out H Hd.
  { cbn [copyFiles] in H. apply runs_ret in H as [-> ->]. split; [done|]. split; [by intros s d []%not_elem_of_nil|].
    intros d a. split; [intros; right; split; [apply not_elem_of_nil|done]|].
    intros [(s & c & []%not_elem_of_nil & _)|[_ ?]]; done. }
  cbn [copyFiles] in H. rewrite fmap_cons in Hd. apply NoDup_cons in Hd as [Hnd Hd].
  inv_runs. destruct (m !! s) as [c|] eqn:E; [|by inv_runs].
  destruct (IH _ H Hd) as (-> & Hall & Hout). split; [done|]. split.
  { intros s' d' [[= -> ->]|Hin]%elem_of_cons; [by exists c|by eapply Hall]. }
  intros d' a. rewrite Hout. cbn [fmap list_fmap snd]. setoid_rewrite elem_of_cons.
  destruct (decide (d = d')) as [->|Hne].
  - rewrite lookup_insert_eq. split.
    + intros [(s' & c' & Hin & ?)|[_ [= <-]]]; [|left; by exists s, c; auto].
      exfalso. apply Hnd. apply list_elem_of_fmap. by exists (s', d').
    + intros [(s' & c' & [[= ->]|Hin] & Hc & ->)|[Hn _]].
      * right. split; [done|]. congruence.
      * exfalso. apply Hnd. apply list_elem_of_fmap. by exists (s', d').
      * exfalso. apply Hn. by left.
  - rewrite lookup_insert_ne by done. split.
    + intros [(s' & c' & Hin & ?)|[Hn ?]]; [left; exists s', c'; auto|right; split; [|done]].
      by intros [->|?].
    + intros [(s' & c' & [[= -> ->]|Hin] & ?)|[Hn ?]]; [done|left; by exists s', c'|right].
      split; [|done]. intros Hin. apply Hn. by right.
Qed.

Lemma artifacts_NoDup (ar : gmap string string) :
  (∀ src dst, ar !! src = Some dst → In (src, dst) lifted) → NoDup ((map_to_list ar).*2).
Proof.
  intros H. apply NoDup_fmap_2_strong; [|apply NoDup_map_to_list].
  intros [s1 d1] [s2 d2] H1%elem_of_map_to_list H2%elem_of_map_to_list Hd. cbn in Hd. subst d2.
  f_equal. by apply (lifted_inj s1 s2 d1); apply H.
Qed.

(** ** What is in /out *)

(** /out holds exactly these: the artifacts of the targets and the config, read from
    the compiled tree [mc]; the Kconfig bundle of the tree [mg] that was compiled;
    the modules archive. *)
Definition exported (r : targets) (mg mc : mount) (members : list header)
    (out : gmap string artifact) : Prop :=
  ∀ dst a, out !! dst = Some a ↔
    (∃ src c, artifacts r !! src = Some dst ∧ mc !! src = Some c ∧ a = Copied c) ∨
    (wantConfig r = true ∧ dst = "/out/config" ∧ ∃ c, mc !! ".config" = Some c ∧ a = Copied c) ∨
    (wantKconfigs r = true ∧ dst = "/out/kconfig.txt.gz" ∧ a = Bundle (bundleKconfigs mg)) ∨
    (wantModules r = true ∧ dst = "/out/modules.tar.zst" ∧ a = Archive members).

(** Nothing requested is missing. *)
Definition complete (r : targets) (mg mc : mount) : Prop :=
  (∀ src dst, artifacts r !! src = Some dst → is_Some (mc !! src)) ∧
  (wantConfig r = true → is_Some (mc !! ".config")) ∧
  (wantModules r = true → ∃ c, mg !! ".config" = Some c ∧ modulesEnabled c = true).

Section exports.
Context (W : World) `{!WorldOk W, !BucketOk W} (X : Exporter).
Context (expect : file) (jobs : Z) (stage rnd : string).

Definition members (I : inputs) (mc : mount) : list header :=
  archive (Tree.getenv I "SOURCE_DATE_EPOCH") (staged X (env I) (modulesArgs stage I) mc).

(** The tail of the run that fills /out. *)
Definition exporting (I : inputs) (r : targets) (out : gmap string artifact) :
    M RunError (gmap string artifact) :=
  out ← copyFiles (map_to_list (artifacts r)) out;
  out ← (if wantConfig r then copyFiles [(".config", "/out/config")] out else mret out);
  if wantModules r then packModules W X stage I out else mret out.

Lemma runs_exporting I e r mg mc out mf :
  resolveTargets e = Ok r →
  runs (exporting I r (if wantKconfigs r then {["/out/kconfig.txt.gz" := Bundle (bundleKconfigs mg)]} else ∅))
       mc out mf →
  exported r mg mc (members I mc) out ∧
  (∀ src dst, artifacts r !! src = Some dst → is_Some (mc !! src)) ∧
  (wantConfig r = true → is_Some (mc !! ".config")).
Proof.
  intros Hr H. pose proof (resolve_lifted e r Hr) as Hl. unfold exporting in H.
  apply runs_bind in H as (o1 & m1 & R1 & H). apply runs_bind in H as (o2 & m2 & R2 & H).
  destruct (runs_copyFiles _ _ _ _ _ R1 (artifacts_NoDup _ Hl)) as (-> & Hall & H1). clear R1.
  assert (∀ src dst, artifacts r !! src = Some dst → is_Some (mc !! src)) as Hart.
  { intros src dst Hs. apply (Hall src dst). by apply elem_of_map_to_list. }
  assert (m2 = mc ∧ (wantConfig r = true → is_Some (mc !! ".config")) ∧
          ∀ d a, o2 !! d = Some a ↔
            (wantConfig r = true ∧ d = "/out/config" ∧ ∃ c, mc !! ".config" = Some c ∧ a = Copied c) ∨
            ((wantConfig r = true → d ≠ "/out/config") ∧ o1 !! d = Some a)) as (-> & Hcfg & H2).
  { destruct (wantConfig r).
    - destruct (runs_copyFiles _ _ _ _ _ R2 ltac:(by apply NoDup_singleton)) as (-> & Hc & H2).
      split; [done|]. split; [intros _; apply (Hc _ "/out/config"); set_solver|].
      intros d a. rewrite H2. setoid_rewrite list_elem_of_singleton. cbn [fmap list_fmap snd].
      rewrite ?list_elem_of_singleton. naive_solver.
    - inv_runs. split; [done|]. split; [done|]. intros d a. split; [by right|].
      by intros [[? _]|[_ ?]]. }
  assert (∀ d a, out !! d = Some a ↔
            (wantModules r = true ∧ d = "/out/modules.tar.zst" ∧ a = Archive (members I mc)) ∨
            ((wantModules r = true → d ≠ "/out/modules.tar.zst") ∧ o2 !! d = Some a)) as H3.
  { intros d a. destruct (wantModules r).
    - unfold packModules in H. inv_runs. fold (members I mc).
      destruct (decide (d = "/out/modules.tar.zst")) as [->|Hne].
      + rewrite lookup_insert_eq. naive_solver.
      + rewrite lookup_insert_ne by done. naive_solver.
    - inv_runs. split; [by right|]. by intros [[? _]|[_ ?]]. }
  split; [|done]. intros d a. rewrite H3, H2, H1. setoid_rewrite elem_of_map_to_list.
  assert (d ∉ (map_to_list (artifacts r)).*2 ↔ ¬ ∃ s, artifacts r !! s = Some d) as ->.
  { rewrite list_elem_of_fmap. setoid_rewrite <- elem_of_map_to_list. split.
    - intros Hn [s Hs]. apply Hn. by exists (s, d).
    - intros Hn ([s d'] & -> & Hs). apply Hn. by exists s. }
  assert (∀ s, artifacts r !! s = Some d → ¬ In d ["/out/config"; "/out/kconfig.txt.gz"; "/out/modules.tar.zst"]) as Ho.
  { intros s Hs. eapply lifted_other. by apply Hl. }
  assert ((if wantKconfigs r then {["/out/kconfig.txt.gz" := Bundle (bundleKconfigs mg)]}
           else ∅ : gmap string artifact) !! d = Some a ↔
          wantKconfigs r = true ∧ d = "/out/kconfig.txt.gz" ∧ a = Bundle (bundleKconfigs mg)) as ->.
  { destruct (wantKconfigs r); [rewrite lookup_singleton_Some|rewrite lookup_empty]; naive_solver. }
  cbn [In] in Ho. split.
  - intros [H'|[_ [H'|[_ [H'|[_ H']]]]]]; [by right; right; right|by right; left|by left|by right; right; left].
  - intros [(s & c & Hs & ?)|[(Hw & -> & ?)|[(Hw & -> & ?)|(Hw & -> & ?)]]].
    + right. split; [intros _ ->; naive_solver|]. right. split; [intros _ ->; naive_solver|]. left. eauto.
    + right. split; [by intros _|]. by left.
    + right. split; [by intros _|]. right. split; [by intros _|]. right. split; [|done].
      intros [s Hs]. naive_solver.
    + by left.
Qed.

(** What a completed run went through: the tree [mg] behind the gate, ready to be
    compiled and without a link counter; the compiled tree [mc]. *)
Record traced (I : inputs) (want : string) (r : targets) (mg mc : mount) : Prop := {
  t_gate : prepared W want mg ∧ (validateExpectations expect (config_file mg)).2 = None;
  t_relink : mg !! ".version" = None;
  t_compiled : prepared W want mc ∧
    if decide (makeTargets r = []) then mc = mg
    else ∃ ms, make W (env I) (makeArgs jobs (env I) (makeTargets r)) mg = (ms, mc, true)
}.

(** What was pushed, if the configuration says so: the pack of a prepared tree, taken
    by the bucket. *)
Definition pushed_from (I : inputs) (want : string) (files : option (list (string * string))) : Prop :=
  match files with
  | Some files => ∃ c mp, loadSeedCfg (secrets I) = Some c ∧ push c = true ∧
                    prepared W want mp ∧ files = seed_pack mp ∧ upload X c files = true
  | None => ∀ c, loadSeedCfg (secrets I) = Some c → push c = false
  end.

Lemma keeps_runs {E A} want (c : M E A) m a m' :
  keeps W want c → runs c m a m' → prepared W want m → prepared W want m'.
Proof. intros Hc Hr Hm. exact (triple_runs _ c _ _ m a m' Hc Hr Hm). Qed.

Lemma runs_publish I want mc files mf :
  prepared W want mc →
  runs (publish X rnd (loadSeedCfg (secrets I))) mc files mf → pushed_from I want files.
Proof using.
  intros Hm H. unfold publish in H. destruct (loadSeedCfg (secrets I)) as [c|] eqn:Ec.
  - destruct (push c) eqn:Ep; [|inv_runs; cbn; intros c' Hc'; congruence].
    apply runs_bind in H as (fs & m1 & R & H). inv_runs. cbn. exists c.
    unfold seedPush in R. destruct (s3Target c); [|by inv_runs].
    set (tmp := ".kbf-seed-" +:+ rnd +:+ ".tmp") in R. inv_runs.
    destruct (upload X c _) eqn:Eu; inv_runs. eexists. split; [done|]. split; [done|]. split; [|done].
    apply prepared_insert; [unfold own, tmp; by rewrite kbf_seed|by unfold tmp|done].
  - inv_runs. cbn. intros c Hc. congruence.
Qed.

(** A completed tail: gate, compile, exports, push. *)
Definition tail (I : inputs) (r : targets) (seed : option seedCfg) :
    M RunError (gmap string artifact * option (list (string * string))) :=
  gate expect;;
  remove ".version";;
  out ← bundle r;
  check_modules r;;
  compile W jobs I r;;
  out ← copyFiles (map_to_list (artifacts r)) out;
  out ← (if wantConfig r then copyFiles [(".config", "/out/config")] out else mret out);
  out ← (if wantModules r then packModules W X stage I out else mret out);
  pushed ← publish X rnd seed;
  mret (out, pushed).

Lemma keeps_exporting want I `{!Spares W I} r out : keeps W want (exporting I r out).
Proof using.
  pose proof (keeps_copyFiles W want). unfold exporting, packModules. keep.
Qed.

Lemma runs_compile I `{!Spares W I} want r mg mc :
  prepared W want mg → runs (compile W jobs I r) mg tt mc →
  prepared W want mc ∧
  if decide (makeTargets r = []) then mc = mg
  else ∃ ms, make W (env I) (makeArgs jobs (env I) (makeTargets r)) mg = (ms, mc, true).
Proof using.
  intros Hm H. unfold compile in H. destruct (makeTargets r) as [|t ts] eqn:Et.
  - inv_runs. done.
  - inv_runs. split; [exact (keeps_runs _ _ _ _ _ (keeps_runMake W want I _ _) H Hm)|].
    by rewrite decide_False, <- (runs_external _ SMake mg tt mc).
Qed.

Lemma runs_tail I `{!Spares W I} want e r m out pushed mf :
  resolveTargets e = Ok r → prepared W want m →
  runs (tail I r (loadSeedCfg (secrets I))) m (out, pushed) mf →
  ∃ mg mc, traced I want r mg mc ∧ exported r mg mc (members I mc) out ∧
           complete r mg mc ∧ pushed_from I want pushed.
Proof using All.
  intros Hr Hm H. unfold tail in H.
  apply runs_bind in H as ([] & m1 & Rgate & H). unfold gate in Rgate. inv_runs.
  destruct ((validateExpectations expect (config_file m)).2) eqn:Eg; inv_runs.
  set (mg := delete ".version" m) in *.
  assert (prepared W want mg) as Hmg by (by apply prepared_delete).
  unfold bundle in R0. inv_runs.
  unfold check_modules in R1. inv_runs.
  destruct (wantModules r && _) eqn:Ek in R1; inv_runs.
  destruct (runs_compile I want r mg _ Hmg R2) as [Hmc Hcomp].
  match type of R2 with runs _ _ _ ?x => rename x into mc end.
  injection H as <- <-.
  assert (runs (exporting I r (if wantKconfigs r
            then {["/out/kconfig.txt.gz" := Bundle (bundleKconfigs mg)]} else ∅)) mc out m7) as Rx.
  { unfold exporting. apply runs_bind. eexists _, _. split; [exact R3|].
    apply runs_bind. eexists _, _. split; [exact R4|exact R5]. }
  destruct (runs_exporting I e r mg mc out m7 Hr Rx) as (Hout & Hart & Hcfg).
  exists mg, mc. split; [split; [|by apply lookup_delete_eq|by split]|split; [done|split]].
  - split; [done|]. unfold config_file, mg. by rewrite lookup_delete_ne.
  - split; [done|]. split; [done|]. intros Hw. rewrite Hw in Ek. cbn in Ek.
    destruct (mg !! ".config") as [c|]; [|done]. exists c. split; [done|]. by apply negb_false_iff.
  - eapply runs_publish; [|exact R6].
    exact (keeps_runs _ _ _ _ _ (keeps_exporting want I r _) Rx Hmc).
Qed.

(** A completed run: its timestamp, its targets, and its tail on a prepared mount. *)
Lemma run_parts I `{!Spares W I} m out pushed :
  consistent I → truthful W m →
  ret (Step.run W X expect jobs stage rnd I m) = Ok (out, pushed) →
  ∃ ts want r m' mf,
    let I := Setenv "KBUILD_BUILD_TIMESTAMP" ts I in
    Timestamp (Tree.getenv I "SOURCE_DATE_EPOCH") = Ok ts ∧ stampWant I = Ok want ∧
    resolveTargets (env I) = Ok r ∧ prepared W want m' ∧
    runs (tail I r (loadSeedCfg (secrets I))) m' (out, pushed) mf.
Proof using All.
  intros Hcons Hm Hret.
  assert (runs (Step.run W X expect jobs stage rnd I) m (out, pushed)
            (final (Step.run W X expect jobs stage rnd I m))) as H by (by split).
  unfold Step.run in H. apply runs_bind in H as (ts & m1 & Rts & H). apply runs_lift in Rts as [Hts ->].
  cbv zeta in H. set (I' := Setenv "KBUILD_BUILD_TIMESTAMP" ts I) in *.
  assert (Spares W I') by (by apply Spares_Setenv).
  apply runs_bind in H as (r & m2 & Rr & H). apply runs_lift in Rr as [Hr ->].
  apply runs_bind in H as ([] & m3 & Rp & H). apply runs_lift in Rp as [_ ->].
  apply runs_bind in H as ([] & m4 & Rs & H).
  apply runs_bind in H as ([] & m5 & Rpt & H). apply runs_wrap in Rpt.
  apply runs_bind in H as ([] & m6 & Rc & H). apply runs_wrap in Rc.
  pose proof (triple_runs _ _ _ _ _ _ _ (triple_sweep W) Rs Hm) as Hm4.
  destruct (triple_runs _ _ _ _ _ _ _
    (triple_prepareTree W I' (loadSeedCfg (secrets I')) (consistent_Setenv ts I Hcons)) Rpt Hm4)
    as (want & Hwant & Hprep).
  pose proof (keeps_runs _ _ _ _ _ (keeps_configure W want I') Rc Hprep) as Hm6.
  eexists ts, want, r, m6, _. cbv zeta. split_and!; [|done|done|done|exact H].
  rewrite <- Hts. unfold Tree.getenv, StepEnv.getenv. subst I'. cbn [Setenv env].
  by rewrite lookup_insert_ne.
Qed.

(** C5. A build exports what was asked, of the tree it was asked for - a build that spares
    the step's own files, on a mount whose stamp is truthful. When the step
    succeeds, some tree [mg], prepared from the wanted source and patches, passed the
    expectations and had its link counter reset; make, with the arguments of the
    targets, took it to [mc] (or nothing was to be made); /out holds exactly the
    requested artifacts of [mc], its config, the Kconfig bundle of [mg] and the
    modules archive, none missing; and what was pushed is the pack of such a tree,
    pushed exactly when the configuration says so. *)
Theorem run_exports (I : inputs) `{!Spares W I} (m : mount) (out : gmap string artifact)
    (pushed : option (list (string * string))) :
  consistent I → truthful W m →
  ret (Step.run W X expect jobs stage rnd I m) = Ok (out, pushed) →
  ∃ ts want r mg mc,
    let I := Setenv "KBUILD_BUILD_TIMESTAMP" ts I in
    Timestamp (Tree.getenv I "SOURCE_DATE_EPOCH") = Ok ts ∧ stampWant I = Ok want ∧
    resolveTargets (env I) = Ok r ∧ traced I want r mg mc ∧
    exported r mg mc (members I mc) out ∧ complete r mg mc ∧ pushed_from I want pushed.
Proof using All.
  intros Hcons Hm (ts & want & r & m' & mf & Hts & Hwant & Hr & Hm' & H)%run_parts; [|done..].
  destruct (runs_tail _ want _ r m' out pushed mf Hr Hm' H) as (mg & mc & Ht & Hx & Hc & Hp).
  by exists ts, want, r, mg, mc.
Qed.
End exports.
