(* ===== verification/ArtifactLaws.v ===== *)
(** The two composed artifacts of the step: the modules archive of [packModules]
    (cmd/kbuild-step/main.go) and the Kconfig bundle of [bundleKconfigs]
    (cmd/kbuild-step/expect.go). *)

From Stdlib Require Import Sorted.
From stdpp Require sorting.
From S2P Require Import Prelude GoString GoTime GoSort Sha256 Timestamp Spec SpecValid LLB LLBLaws StepEnv Expect Download Mount Tree TreeLaws SeedLaws Step.

(** ** The modules archive *)

(** A POSIX path holds no NUL, so the walk order tells paths apart. *)
Definition path_ok (p : string) : Prop := ContainsByte p NUL = false.

Lemma walk_key_inj p q : path_ok p → path_ok q → walk_key p = walk_key q → p = q.
Proof.
  unfold path_ok, walk_key. intros Hp Hq H. apply (f_equal chars) in H. rewrite !chars_str in H.
  revert q Hq H. induction p as [|c p IH]; intros [|d q] Hq H; try done.
  rewrite ContainsByte_cons in Hp, Hq. apply orb_false_iff in Hp as [Hc Hp], Hq as [Hd Hq].
  cbn in H. injection H as H Ht. f_equal; [|by apply IH].
  destruct (Ascii.eqb_spec c "/"), (Ascii.eqb_spec d "/"); subst; try done; by rewrite ?Ascii.eqb_refl in *.
Qed.

#[export] Instance walk_le_trans : Transitive walk_le.
Proof. intros a b c. unfold walk_le. apply str_le_trans. Qed.

#[export] Instance walk_le_total : Total walk_le.
Proof. intros a b. apply str_le_total. Qed.

(** The order of a walk depends on the paths only. *)
Lemma walk_unique (l1 l2 : list string) :
  Forall path_ok l1 → Permutation l1 l2 →
  sorting.merge_sort walk_le l1 = sorting.merge_sort walk_le l2.
Proof.
  intros Hl Hp. rewrite Forall_forall in Hl. apply (sorting.StronglySorted_unique_strong walk_le).
  - intros p q H1 H2 Hpq Hqp. rewrite sorting.merge_sort_Permutation in H1.
    rewrite sorting.merge_sort_Permutation, <- Hp in H2.
    apply walk_key_inj; [by apply Hl..|]. by apply str_le_antisym.
  - apply sorting.StronglySorted_merge_sort; apply _.
  - apply sorting.StronglySorted_merge_sort; apply _.
  - by rewrite !sorting.merge_sort_Permutation.
Qed.

(** The same installed file, up to when and by whom it was installed. *)
Definition same_file (n1 n2 : node) : Prop := body_of n1 = body_of n2 ∧ perm n1 = perm n2.

(** What is fixed in every member. *)
Definition clamped (ts : Z) (h : header) : Prop :=
  ModTime h = ts ∧ Owner h = (0, 0, "", "")%Z ∧ AccessTime h = None ∧ ChangeTime h = None.

Lemma module_header_same epoch ts p n1 n2 :
  ParseInt epoch = Ok ts → same_file n1 n2 → module_header epoch p n1 = module_header epoch p n2.
Proof.
  intros He [Hb Hm]. unfold module_header, FileInfoHeader. cbn [Name Body Mode ModTime].
  by rewrite He, Hb, Hm.
Qed.

(** C24. The modules archive is reproducible: whatever the clocks, the user and the
    inodes of the machine, two installations of the same files - same paths,
    contents, link targets and permissions - pack to the same members in the same
    order, each with the build's epoch as its only time and no owner. *)
Theorem archive_reproducible (epoch : string) (ts : Z) (stage1 stage2 : gmap string node) :
  ParseInt epoch = Ok ts → (∀ p, is_Some (stage1 !! p) → path_ok p) →
  (∀ p, option_Forall2 same_file (stage1 !! p) (stage2 !! p)) →
  archive epoch stage1 = archive epoch stage2 ∧ Forall (clamped ts) (archive epoch stage1).
Proof.
  intros He Hok Hsame.
  assert (∀ p, is_Some (stage1 !! p) ↔ is_Some (stage2 !! p)) as Hdom.
  { intros p. by destruct (Hsame p). }
  assert (Permutation (map fst (map_to_list stage1)) (map fst (map_to_list stage2))) as Hperm.
  { apply NoDup_Permutation; [apply NoDup_fst_map_to_list..|]. intros p.
    assert (∀ st : gmap string node, p ∈ map fst (map_to_list st) ↔ is_Some (st !! p)) as Hk.
    { intros st. rewrite list_elem_of_fmap. split.
      - intros ([q n] & -> & H%elem_of_map_to_list). by exists n.
      - intros [n H]. exists (p, n). split; [done|]. by apply elem_of_map_to_list. }
    by rewrite !Hk. }
  assert (Forall path_ok (map fst (map_to_list stage1))) as Hf.
  { apply Forall_forall. intros p ([q n] & -> & H%elem_of_map_to_list)%list_elem_of_fmap.
    apply Hok. by exists n. }
  split.
  - unfold archive. rewrite (walk_unique _ _ Hf Hperm). apply list_omap_ext.
    apply Forall_Forall2_diag, Forall_forall. intros p _.
    destruct (Hsame p) as [n1 n2 H|]; [|done]. cbn. f_equal. by eapply module_header_same.
  - unfold archive. apply Forall_forall.
    intros h (p & _ & (n & _ & ->)%fmap_Some)%list_elem_of_omap. unfold clamped, module_header. cbn.
    by rewrite He.
Qed.

(** ** The Kconfig bundle *)

(** Reading a bundle: a line that opens with the mark starts a section, the others
    belong to the section before. *)
Definition read_step (l : string) (acc : list string * list (string * list string)) :=
  let '(pending, sections) := acc in
  if HasPrefix l "### " then ([], (str_drop 4 l, pending) :: sections) else (l :: pending, sections).

Definition read_bundle (text : string) : list (string * list string) :=
  (foldr read_step ([], []) (removelast (Split text LF))).2.

Definition text_of (ls : list string) : string := foldr (λ w r, w +:+ String LF r) "" ls.

(** A Kconfig file: whole lines, none of them looking like a section. *)
Definition plain_file (c : string) (ls : list string) : Prop :=
  c = text_of ls ∧ Forall (λ l, ContainsByte l LF = false ∧ HasPrefix l "### " = false) ls.

Lemma text_of_app l1 l2 : text_of (l1 ++ l2) = text_of l1 +:+ text_of l2.
Proof.
  induction l1 as [|l l1 IH]; [by rewrite app_nil_l|]. cbn [app text_of foldr] in *.
  change (foldr _ "" (l1 ++ l2)) with (text_of (l1 ++ l2)). rewrite IH.
  by rewrite str_app_assoc, app_cons.
Qed.

Lemma read_plain ls acc :
  Forall (λ l, ContainsByte l LF = false ∧ HasPrefix l "### " = false) ls →
  foldr read_step acc ls = (ls ++ acc.1, acc.2).
Proof.
  destruct acc as [pending sections]. induction 1 as [|l ls [_ Hl] _ IH]; [done|].
  cbn [foldr]. rewrite IH. unfold read_step. by rewrite Hl.
Qed.

Lemma kconfig_names_spec m p :
  p ∈ kconfig_names m ↔
  is_Some (m !! p) ∧ skipped p = false ∧ HasPrefix (base p) "Kconfig" = true.
Proof.
  unfold kconfig_names. rewrite sort_strings_perm, elem_of_filter_bool, keys_spec.
  rewrite andb_true_iff, negb_true_iff. tauto.
Qed.

(** C25. The Kconfig bundle is complete and reads back: its sections are exactly the
    files of the tree called Kconfig-something outside the skipped top-level
    directories, in byte order, each once, and reading the sections back gives every
    file's lines - provided each file ends its last line and no line of it looks like
    a section heading, which the format does not escape. *)
Theorem bundle_reads_back (m : mount) (lines : string → list string) :
  (∀ p c, m !! p = Some c → p ∈ kconfig_names m →
     ContainsByte p LF = false ∧ plain_file c (lines p)) →
  read_bundle (bundleKconfigs m) = map (λ p, (p, lines p)) (kconfig_names m) ∧
  StronglySorted str_le (kconfig_names m) ∧ NoDup (kconfig_names m) ∧
  ∀ p, p ∈ kconfig_names m ↔
       is_Some (m !! p) ∧ skipped p = false ∧ HasPrefix (base p) "Kconfig" = true.
Proof.
  intros H. split; [|split; [apply sort_strings_sorted|split; [|apply kconfig_names_spec]]].
  2: { unfold kconfig_names. rewrite sort_strings_perm. apply NoDup_filter_bool, NoDup_fst_map_to_list. }
  assert (Forall (λ p, ContainsByte p LF = false ∧ ∃ c, m !! p = Some c ∧ plain_file c (lines p))
                 (kconfig_names m)) as Hall.
  { apply Forall_forall. intros p Hp. pose proof Hp as Hs.
    apply kconfig_names_spec in Hs as [[c Hc] _]. destruct (H p c Hc Hp) as [Hl Hf].
    split; [done|]. by exists c. }
  unfold bundleKconfigs, read_bundle. clear H. generalize dependent (kconfig_names m).
  intros names Hall.
  assert (foldr (λ name text, kconfig_section m name +:+ text) "" names =
          text_of (flat_map (λ p, ("### " +:+ p) :: lines p) names)) as ->.
  { induction Hall as [|p names [_ (c & Hc & -> & _)] _ IH]; [done|].
    cbn [foldr flat_map]. rewrite IH, text_of_app. unfold kconfig_section. rewrite Hc.
    cbn [default text_of foldr]. by rewrite !str_app_assoc, app_cons. }
  unfold text_of. rewrite Split_lines, removelast_last.
  2: { apply List.Forall_flat_map. eapply Forall_impl; [exact Hall|].
       intros p [Hp (c & _ & _ & Hls)]. apply Forall_cons. split; [done|].
       eapply Forall_impl; [exact Hls|]. by intros l [? _]. }
  assert (foldr read_step ([], []) (flat_map (λ p, ("### " +:+ p) :: lines p) names) =
          ([], map (λ p, (p, lines p)) names)) as ->; [|done].
  induction Hall as [|p names [_ (c & _ & _ & Hls)] _ IH]; [done|].
  cbn [flat_map foldr map]. rewrite foldr_app, IH. cbn [foldr]. rewrite (read_plain _ _ Hls). cbn [fst snd].
  rewrite app_nil_r. unfold read_step. by rewrite HasPrefix_app.
Qed.
