(* ===== verification/StepScenarios.v ===== *)
(** Whole builds in the toy world: the theorems about [run] applied to concrete runs
    (cmd/kbuild-step/main.go). *)

From S2P Require Import Prelude GoString GoTime GoSort Sha256 Timestamp Spec SpecValid LLB LLBLaws StepEnv Expect Download Mount Tree TreeLaws SeedLaws PrepareLaws ConfigureLaws TreeScenarios Step StepLaws ExportLaws ArtifactLaws.

Definition toy_exporter : Exporter := {|
  staged e args m := {["lib/modules/a.ko" := Node (Reg "ko") 420 7 7 7 (1, 1, "u", "g")]}%Z;
  encode files := "";
  upload c files := true
|}.

(** An unpinned build of everything but the boot image. *)
Definition toy_spec : Spec :=
  set_Targets ["vmlinux"; "config"; "kconfigs"; "modules"] (set_SourceSHA256 "" DefaultSpec).

Definition toy_config : string := "CONFIG_MODULES=y" +:+ String LF "CONFIG_A=y".

Definition toy_build : inputs := Inputs (compile_env "" toy_spec) (Some toy_config) ∅ ∅ ∅.

Definition toy_run : outcome RunError (gmap string artifact * option (list (string * string))) :=
  run toy toy_exporter (Content "y CONFIG_MODULES") 4 "/tmp/modstage-1" "1" toy_build ∅.

Example toy_run_ok : is_ok (ret toy_run) = true.
Proof. vm_compute. reflexivity. Qed.

Lemma toy_spec_valid : valid_spec toy_spec.
Proof. apply Validate_valid. vm_compute. reflexivity. Qed.

Lemma reachable_truthful_witness :
  let m := final toy_run in
  reachable toy toy_exporter m ∧ truthful toy m ∧ treePresent m = true.
Proof.
  intros m.
  assert (reachable toy toy_exporter m) as Hr.
  { apply (reach_build toy toy_exporter toy_spec "" toy_build (Content "y CONFIG_MODULES") 4
             "/tmp/modstage-1" "1" ∅); [constructor|apply toy_spec_valid|done|apply _|by left]. }
  split; [exact Hr|].
  destruct (reachable_truthful toy toy_exporter m toy_ok toy_bucket Hr) as [Ht _].
  split; [exact Ht|]. vm_compute. reflexivity.
Defined.

Lemma run_exports_witness :
  match ret toy_run with
  | Ok (out, pushed) =>
      ∃ ts want r mg mc,
        let I := Setenv "KBUILD_BUILD_TIMESTAMP" ts toy_build in
        Timestamp (Tree.getenv I "SOURCE_DATE_EPOCH") = Ok ts ∧ stampWant I = Ok want ∧
        resolveTargets (env I) = Ok r ∧
        traced toy (Content "y CONFIG_MODULES") 4 I want r mg mc ∧
        exported r mg mc (members toy_exporter "/tmp/modstage-1" I mc) out ∧ complete r mg mc ∧
        pushed_from toy toy_exporter I want pushed
  | Err _ => False
  end.
Proof.
  destruct (ret toy_run) as [[out pushed]|e] eqn:E.
  - apply (run_exports toy toy_exporter (Content "y CONFIG_MODULES") 4 "/tmp/modstage-1" "1" toy_build ∅).
    + apply (consistent_compile "" toy_spec); [apply toy_spec_valid|done].
    + apply not_stamped_truthful. reflexivity.
    + exact E.
  - pose proof toy_run_ok as H. rewrite E in H. discriminate H.
Defined.

Lemma archive_reproducible_witness :
  let n t := Node (Reg "ko") 420 t (t + 1) (t + 2) (t, t, "user", "group") in
  let st t : gmap string node := <["lib" := Node Dir 493 t t t (t, t, "", "")]> {["lib/a.ko" := n t]} in
  archive "1785542400" (st 5)%Z = archive "1785542400" (st 9)%Z ∧
  Forall (clamped 1785542400) (archive "1785542400" (st 5)%Z).
Proof.
  intros n st. apply archive_reproducible.
  - vm_compute. reflexivity.
  - intros p [x H]. unfold st in H. rewrite lookup_insert_Some in H. destruct H as [[<- _]|[_ H]];
      [vm_compute; reflexivity|]. rewrite lookup_singleton_Some in H. destruct H as [<- _].
    vm_compute. reflexivity.
  - intros p. unfold st. destruct (decide (p = "lib")) as [->|H1].
    + rewrite !lookup_insert_eq. constructor. split; reflexivity.
    + rewrite !lookup_insert_ne by (intros <-; done). destruct (decide (p = "lib/a.ko")) as [->|H2].
      * rewrite !lookup_singleton_eq. constructor. split; reflexivity.
      * rewrite !lookup_singleton_ne by (intros <-; done). constructor.
Defined.

Lemma bundle_reads_back_witness :
  let m : mount := <["Kconfig" := "mainmenu" +:+ String LF ""]> (<["tools/Kconfig" := "x"]>
                     (<["init/Kconfig" := "config A" +:+ String LF ("  bool" +:+ String LF "")]> ∅)) in
  let lines p := if p =s "Kconfig" then ["mainmenu"] else ["config A"; "  bool"] in
  read_bundle (bundleKconfigs m) = [("Kconfig", ["mainmenu"]); ("init/Kconfig", ["config A"; "  bool"])].
Proof.
  intros m lines. destruct (bundle_reads_back m lines) as [H _].
  - intros p c Hp Hin. assert (kconfig_names m = ["Kconfig"; "init/Kconfig"]) as Hk by (vm_compute; reflexivity).
    rewrite Hk in Hin. apply elem_of_cons in Hin as [->|Hin]; [|apply list_elem_of_singleton in Hin as ->];
      (split; [vm_compute; reflexivity|]); vm_compute in Hp; injection Hp as <-;
      (split; [vm_compute; reflexivity|]); repeat constructor.
  - etransitivity; [exact H|]. vm_compute. reflexivity.
Defined.

(** ** A seed URL without a bucket *)

(** The pinned toy source, to be pushed to a host that names no bucket. *)
Definition bucketless : Spec :=
  set_SeedPush true (set_SeedPrefix "seeds" (set_SeedURL "https://s3.example.com"
    (set_SourceSHA256 good_sum (set_SourceURL good_url DefaultSpec)))).

Definition bucketless_inputs (s : Spec) (secrets : gmap string string) : inputs :=
  Inputs (compile_env "n" s) (Some toy_config) ∅ ∅ secrets.

Definition seed_files (s : Spec) : gmap string string :=
  <["seed_access_key" := "AK"]> (<["seed_secret_key" := "SK"]> (<["seed_cfg" := default "" (SeedCfg s)]> ∅)).

(** [Validate] takes the specification, and so does the step's own push check; over a
    warm tree the step compiles the whole kernel before it finds that there is nowhere
    to push to. *)
Theorem push_without_bucket :
  let unseeded := set_SeedPush false (set_SeedURL "" bucketless) in
  let warm := final (run toy toy_exporter Missing 4 "/tmp/modstage-1" "1" (bucketless_inputs unseeded ∅) ∅) in
  let I := bucketless_inputs bucketless (seed_files bucketless) in
  let o := run toy toy_exporter Missing 4 "/tmp/modstage-1" "1" I (delete "vmlinux" warm) in
  Validate bucketless = Ok tt ∧ checkSeedPush (env I) (loadSeedCfg (secrets I)) = Ok tt ∧
  ret o = Err RSeedURL ∧ final o !! "vmlinux" = Some "elf".
Proof. cbv zeta. split_and!; by vm_compute. Qed.
