(* ===== verification/Gateway.v ===== *)
(** gateway.go: the solve path shared by the frontend and the client driver. The
    BuildKit daemon is an interface ([Daemon]): what it answers is arbitrary, and
    every request made of it is recorded in order, so that what is asked of the
    daemon, and when, can be stated. *)

From S2P Require Import Prelude GoString Spec LLB.

(** ** The daemon *)

Record CacheOptionsEntry := CacheEntry {
  Type_ : string;
  Attrs : gmap string string
}.

(** A solve result seen through its single reference. *)
Record reference := Reference {
  StatFile : string → bool;                       (* the path exists *)
  ReadDir : string → string → option (list string); (* directory, include pattern *)
  ReadFile : string → option string
}.

(** Its error texts are the daemon's own. *)
Class Daemon := {
  ResolveImageConfig : string → string → result string (string * string);
                       (* reference, resolve mode: reference, digest *)
  Solve : State → list CacheOptionsEntry → result string (option reference)
                       (* [None]: the result has no single reference *)
}.

Inductive request :=
  | QResolve (ref mode : string)
  | QSolve (st : State) (imports : list CacheOptionsEntry)
  | QStat (path : string)
  | QReadDir (path pattern : string)
  | QReadFile (path : string).

(** A dialogue: the requests made, oldest first, and the outcome. *)
Definition Talk (E A : Type) : Type := list request * result E A.

#[export] Instance Talk_ret {E} : MRet (Talk E) := λ A a, ([], Ok a).
#[export] Instance Talk_bind {E} : MBind (Talk E) := λ A B f c,
  match c with
  | (qs, Ok a) => let '(qs', r) := f a in (qs ++ qs', r)
  | (qs, Err e) => (qs, Err e)
  end.

Definition say {E A} (r : result E A) : Talk E A := ([], r).
Definition ask {E A} (q : request) (r : result E A) : Talk E A := ([q], r).

(** ** Errors *)

Inductive GatewayError :=
  | GSpec (e : SpecError)
  | GResolve (ref cause : string)
  | GNoDigest (ref : string)
  | GCheck (cause : string)
  | GNoRef
  | GMissing (key name : string)
  | GNoPatchesDir
  | GNoPatches
  | GLLB (e : LLBError)
  | GSolve (cause : string).

Section gateway.
Context `{Daemon}.

(** [strings.IndexByte(s, '@')] and the cut before it. *)
Definition untagged_digest (ref : string) : string := let '(a, _, _) := Cut ref "@" in a.

Definition resolveBase (ref resolveMode : string) : Talk GatewayError (string * string) :=
  '(mutRef, dgst) ← ask (QResolve ref resolveMode)
                       (map_err (GResolve ref) (ResolveImageConfig ref resolveMode));
  if dgst =s "" then say (Err (GNoDigest ref))
  else mret (untagged_digest mutRef, dgst).

(** The files the graph mounts by selector, with the key that names each. *)
Definition contextFiles (s : Spec) : list (string * string) :=
  [("CONFIG", ConfigName s)]
  ++ (if ExpectName s <>s "" then [("EXPECT", ExpectName s)] else [])
  ++ (if ProxyCAFile s <>s "" then [("PROXY_CA", ProxyCAFile s)] else []).

(** The probe transfers only those paths. *)
Definition context_probe (s : Spec) : State :=
  let follow := map snd (contextFiles s) ++ (if ApplyPatches s then ["patches"] else []) in
  Local "context" follow "kbuild-context" ("[internal] check " +:+ Join follow ", ").

Fixpoint stat_all (ref : reference) (files : list (string * string)) : Talk GatewayError unit :=
  match files with
  | [] => mret tt
  | (key, name) :: files =>
      ask (QStat name) (if StatFile ref name then Ok tt else Err (GMissing key name));;
      stat_all ref files
  end.

Definition checkContext (s : Spec) : Talk GatewayError unit :=
  res ← ask (QSolve (context_probe s) []) (map_err GCheck (Solve (context_probe s) []));
  ref ← say (match res with Some ref => Ok ref | None => Err GNoRef end);
  stat_all ref (contextFiles s);;
  if negb (ApplyPatches s) then mret tt
  else
    ents ← ask (QReadDir "patches" "*.patch")
             (match ReadDir ref "patches" "*.patch" with
              | Some ents => Ok ents | None => Err GNoPatchesDir end);
    if (length (List.filter (λ e, HasSuffix e ".patch") ents) =? 0)%nat
    then say (Err GNoPatches) else mret tt.

Record GatewayOpts := MkGatewayOpts {
  ResolveMode : string;
  CacheImports : list CacheOptionsEntry
}.

(** The base image, pinned unless it is. *)
Definition pinBase (s : Spec) (opts : GatewayOpts) : Talk GatewayError Spec :=
  if negb (Contains (Base s) "@") then
    '(ref, dgst) ← resolveBase (Base s) (ResolveMode opts);
    mret (set_Base (ref +:+ "@" +:+ dgst) s)
  else mret s.

(** [nonce] is what rand.Text() returns inside [KernelLLB]. *)
Definition GatewaySolve (nonce : string) (s : Spec) (opts : GatewayOpts) :
    Talk GatewayError (option reference) :=
  say (map_err GSpec (Validate s));;
  s ← pinBase s opts;
  checkContext s;;
  st ← say (map_err GLLB (KernelLLB nonce s));
  ask (QSolve st (CacheImports opts)) (map_err GSolve (Solve st (CacheImports opts))).

End gateway.

(** ** The client's form of the check *)

(** The context directory: which paths exist, and the entries of patches/. *)
Record context_dir := ContextDir {
  exists_at : string → bool;
  patch_entries : list string            (* what the glob patches/*.patch names *)
}.

Inductive ContextError :=
  | CMissing (key name : string)
  | CNoPatches.

(** The text of both forms, naming the key whose file is absent. *)
Definition missingContextFile (key name : string) : string :=
  let hint := if key =s "CONFIG" then " (CONFIG names the kernel config; omitting it selects kernel.config)" else "" in
  key +:+ " " +:+ name +:+ ": not found in the build context" +:+ hint.

Fixpoint stat_dir (d : context_dir) (files : list (string * string)) : result ContextError unit :=
  match files with
  | [] => Ok tt
  | (key, name) :: files =>
      if exists_at d name then stat_dir d files else Err (CMissing key name)
  end.

Definition checkContextDir (d : context_dir) (s : Spec) : result ContextError unit :=
  stat_dir d (contextFiles s);;
  if negb (ApplyPatches s) then Ok tt
  else match patch_entries d with [] => Err CNoPatches | _ => Ok tt end.
