(* ===== verification/GatewayLaws.v ===== *)
(** What the gateway asks of the daemon (gateway.go): a graph is solved only for a
    valid specification whose base is pinned by digest and whose build context is
    complete, it is the last thing asked, and the client's check of a directory
    agrees with the gateway's check of the transferred context. *)

From S2P Require Import Prelude GoString Spec SpecValid LLB LLBLaws Gateway.

(** ** Dialogues *)

Definition asked {E A} (c : Talk E A) : list request := c.1.
Definition outcome_of {E A} (c : Talk E A) : result E A := c.2.

Lemma talk_bind_Ok {E A B} (c : Talk E A) (f : A → Talk E B) a :
  outcome_of c = Ok a →
  asked (c ≫= f) = asked c ++ asked (f a) ∧ outcome_of (c ≫= f) = outcome_of (f a).
Proof.
  destruct c as [qs r]. cbn. intros ->. unfold mbind, Talk_bind, asked, outcome_of.
  by destruct (f a).
Qed.

Lemma talk_bind_Err {E A B} (c : Talk E A) (f : A → Talk E B) e :
  outcome_of c = Err e → asked (c ≫= f) = asked c ∧ outcome_of (c ≫= f) = Err e.
Proof. destruct c as [qs r]. cbn. by intros ->. Qed.

Lemma talk_bind_inv {E A B} (c : Talk E A) (f : A → Talk E B) b :
  outcome_of (c ≫= f) = Ok b ↔ ∃ a, outcome_of c = Ok a ∧ outcome_of (f a) = Ok b.
Proof.
  destruct (outcome_of c) as [a|e] eqn:Ec.
  - destruct (talk_bind_Ok c f a Ec) as [_ ->]. naive_solver.
  - destruct (talk_bind_Err c f e Ec) as [_ ->]. naive_solver.
Qed.

Lemma outcome_bind {E A B} (c : Talk E A) (f : A → Talk E B) :
  outcome_of (c ≫= f) = (outcome_of c ≫= λ a, outcome_of (f a)).
Proof. destruct c as [qs [a|e]]; [|done]. cbn. by destruct (f a). Qed.

(** A request made by a sequence is made by its first part or, that part having
    succeeded, by the rest. *)
Lemma asked_bind {E A B} (c : Talk E A) (f : A → Talk E B) q :
  In q (asked (c ≫= f)) → In q (asked c) ∨ ∃ a, outcome_of c = Ok a ∧ In q (asked (f a)).
Proof.
  destruct (outcome_of c) as [a|e] eqn:Ec.
  - destruct (talk_bind_Ok c f a Ec) as [-> _]. rewrite in_app_iff. naive_solver.
  - destruct (talk_bind_Err c f e Ec) as [-> _]. by left.
Qed.

Section laws.
Context `{Daemon}.

Definition is_solve (q : request) : bool := match q with QSolve _ _ => true | _ => false end.

(** ** Pinning *)

(** [s'] is [s] with its base pinned: as it was when it names a digest, else the
    daemon's reference, less any digest of its own, at the daemon's digest. *)
Definition pinned (mode : string) (s s' : Spec) : Prop :=
  (Contains (Base s) "@" = true ∧ s' = s) ∨
  (Contains (Base s) "@" = false ∧
   ∃ ref dgst, ResolveImageConfig (Base s) mode = Ok (ref, dgst) ∧ dgst ≠ "" ∧
               s' = set_Base (untagged_digest ref +:+ "@" +:+ dgst) s).

Lemma resolveBase_Ok ref mode p :
  outcome_of (resolveBase ref mode) = Ok p ↔
  ∃ mutRef dgst, ResolveImageConfig ref mode = Ok (mutRef, dgst) ∧ dgst ≠ "" ∧
                 p = (untagged_digest mutRef, dgst).
Proof.
  unfold resolveBase. rewrite talk_bind_inv. cbn. setoid_rewrite map_err_Ok. split.
  - intros ([mutRef dgst] & Hr & Hp). destruct (String.eqb_spec dgst ""); [done|].
    injection Hp as <-. by exists mutRef, dgst.
  - intros (mutRef & dgst & Hr & Hd & ->). exists (mutRef, dgst). split; [done|].
    by destruct (String.eqb_spec dgst "").
Qed.

Lemma pinBase_Ok s opts s' : outcome_of (pinBase s opts) = Ok s' ↔ pinned (ResolveMode opts) s s'.
Proof.
  unfold pinBase, pinned. destruct (Contains (Base s) "@"); cbn [negb].
  - cbn. naive_solver.
  - rewrite talk_bind_inv. setoid_rewrite resolveBase_Ok. split.
    + intros ([r d] & (mutRef & dgst & Hr & Hd & [= -> ->]) & Hs). cbn in Hs. injection Hs as <-.
      right. split; [done|]. by exists mutRef, dgst.
    + intros [[? _]|(_ & mutRef & dgst & Hr & Hd & ->)]; [done|].
      exists (untagged_digest mutRef, dgst). split; [by exists mutRef, dgst|done].
Qed.

Lemma pinBase_asks s opts q : In q (asked (pinBase s opts)) → is_solve q = false.
Proof.
  unfold pinBase, resolveBase. destruct (Contains (Base s) "@"); cbn [negb]; [done|].
  intros [Hq|([r d] & _ & [])]%asked_bind.
  apply asked_bind in Hq as [[<-|[]]|([r d] & _ & Hq)]; [done|]. by destruct (d =s "").
Qed.

Lemma Contains_app a b c : Contains (a +:+ b +:+ c) b = true.
Proof. apply Contains_spec. by exists a, c. Qed.

Lemma pinned_at mode s s' : pinned mode s s' → Contains (Base s') "@" = true.
Proof. intros [[H1 ->]|(_ & ref & dgst & _ & _ & ->)]; [done|]. apply Contains_app. Qed.

(** The context does not depend on the base. *)
Lemma pinned_context mode s s' :
  pinned mode s s' → contextFiles s' = contextFiles s ∧ context_probe s' = context_probe s ∧
                     ApplyPatches s' = ApplyPatches s.
Proof. by intros [[_ ->]|(_ & ref & dgst & _ & _ & ->)]. Qed.

(** ** The context *)

(** The transferred context has every file the graph mounts. *)
Definition context_complete (s : Spec) : Prop :=
  ∃ ref, Solve (context_probe s) [] = Ok (Some ref) ∧
    Forall (λ f, StatFile ref f.2 = true) (contextFiles s) ∧
    (ApplyPatches s = true →
     ∃ ents e, ReadDir ref "patches" "*.patch" = Some ents ∧ In e ents ∧ HasSuffix e ".patch" = true).

Lemma pinned_complete mode s s' :
  pinned mode s s' → context_complete s' ↔ context_complete s.
Proof.
  intros Hp. destruct (pinned_context _ _ _ Hp) as (Hf & Hc & Ha).
  unfold context_complete. by rewrite Hf, Hc, Ha.
Qed.

Lemma stat_all_Ok ref files :
  outcome_of (stat_all ref files) = Ok tt ↔ Forall (λ f, StatFile ref f.2 = true) files.
Proof.
  induction files as [|[key name] files IH]; [done|]. cbn [stat_all].
  rewrite talk_bind_inv, Forall_cons, <- IH. cbn. destruct (StatFile ref name); naive_solver.
Qed.

Lemma some_patch ents :
  (length (List.filter (λ e, HasSuffix e ".patch") ents) =? 0)%nat = false ↔
  ∃ e, In e ents ∧ HasSuffix e ".patch" = true.
Proof.
  rewrite Nat.eqb_neq, length_zero_iff_nil. split.
  - intros Hne. destruct (List.filter _ ents) as [|e l] eqn:E; [done|].
    assert (In e (List.filter (λ e, HasSuffix e ".patch") ents)) as Hin by (rewrite E; by left).
    apply filter_In in Hin. by exists e.
  - intros (e & Hin & He) Hnil.
    assert (In e (List.filter (λ e, HasSuffix e ".patch") ents)) as Hf by (by apply filter_In).
    by rewrite Hnil in Hf.
Qed.

Lemma checkContext_Ok s : outcome_of (checkContext s) = Ok tt ↔ context_complete s.
Proof.
  unfold checkContext, context_complete. rewrite talk_bind_inv. cbn [outcome_of ask snd].
  setoid_rewrite map_err_Ok. setoid_rewrite talk_bind_inv. setoid_rewrite talk_bind_inv.
  split.
  - intros (res & Hs & ref & Hr & [] & Hst & Hp). destruct res as [ref'|]; [|done].
    cbn in Hr. injection Hr as ->. exists ref. split; [done|].
    split; [by apply stat_all_Ok|]. intros Ha. rewrite Ha in Hp. cbn [negb] in Hp.
    apply talk_bind_inv in Hp as (ents & He & Hn). cbn in He.
    destruct (ReadDir ref "patches" "*.patch") as [ents'|]; [|done]. injection He as ->.
    destruct (_ =? 0)%nat eqn:El in Hn; [done|]. apply some_patch in El as (e & ? & ?).
    by exists ents, e.
  - intros (ref & Hs & Hst & Hp). exists (Some ref). split; [done|]. exists ref. split; [done|].
    exists tt. split; [by apply stat_all_Ok|]. destruct (ApplyPatches s); [|done]. cbn [negb].
    destruct (Hp eq_refl) as (ents & e & Hd & Hin & He). rewrite talk_bind_inv. exists ents.
    rewrite Hd. split; [done|].
    by rewrite (proj2 (some_patch ents) (ex_intro _ e (conj Hin He))).
Qed.

Lemma checkContext_asks s q :
  In q (asked (checkContext s)) → is_solve q = true → q = QSolve (context_probe s) [].
Proof.
  unfold checkContext. intros Hq Hs.
  apply asked_bind in Hq as [[<-|[]]|(res & _ & Hq)]; [done|].
  apply asked_bind in Hq as [[]|(ref & _ & Hq)].
  apply asked_bind in Hq as [Hq|(u & _ & Hq)].
  - exfalso. induction (contextFiles s) as [|[k n] files IH]; [done|]. cbn [stat_all] in Hq.
    apply asked_bind in Hq as [[<-|[]]|(v & _ & Hq)]; [done|by apply IH].
  - exfalso. destruct (negb (ApplyPatches s)); [done|].
    apply asked_bind in Hq as [[<-|[]]|(ents & _ & Hq)]; [done|].
    by destruct (_ =? 0)%nat.
Qed.

(** ** The whole path *)

Lemma GatewaySolve_asked nonce s opts st imports :
  In (QSolve st imports) (asked (GatewaySolve nonce s opts)) →
  (st = context_probe s ∧ imports = []) ∨
  (imports = CacheImports opts ∧ Validate s = Ok tt ∧ ∃ s', pinned (ResolveMode opts) s s' ∧
   context_complete s ∧ KernelLLB nonce s' = Ok st).
Proof.
  unfold GatewaySolve. intros Hq.
  apply asked_bind in Hq as [[]|([] & Hv & Hq)]. cbn in Hv. apply map_err_Ok in Hv.
  apply asked_bind in Hq as [Hq|(s' & Hp & Hq)]; [by apply pinBase_asks in Hq|].
  apply pinBase_Ok in Hp. destruct (pinned_context _ _ _ Hp) as (Hf & Hc & Ha).
  apply asked_bind in Hq as [Hq|([] & Hk & Hq)].
  { apply checkContext_asks in Hq; [|done]. rewrite Hc in Hq. left. by injection Hq. }
  apply asked_bind in Hq as [[]|(g & Hg & Hq)]. cbn in Hg. apply map_err_Ok in Hg.
  destruct Hq as [[= <- <-]|[]]. right. split; [done|]. split; [done|]. exists s'. split; [done|].
  split; [|done]. apply checkContext_Ok in Hk. unfold context_complete in *. by rewrite Hf, Hc, Ha in Hk.
Qed.

(** C35. A moving tag, an invalid specification or an incomplete context never
    reaches a build. Whatever the daemon answers: nothing is asked of it for an
    invalid specification; everything it is asked to solve is the context probe, or
    the graph of the specification with its base pinned - kept if it names a digest,
    else resolved to one - after every context file was found; and the path succeeds
    exactly when all of that holds and the daemon solves that graph. *)
Theorem GatewaySolve_pinned (nonce : string) (s : Spec) (opts : GatewayOpts) :
  let path := GatewaySolve nonce s opts in
  (∀ e, Validate s = Err e → path = ([], Err (GSpec e))) ∧
  (∀ st imports, In (QSolve st imports) (asked path) →
     (st = context_probe s ∧ imports = []) ∨
     (imports = CacheImports opts ∧ Validate s = Ok tt ∧ context_complete s ∧
      ∃ s', pinned (ResolveMode opts) s s' ∧ Contains (Base s') "@" = true ∧
            KernelLLB nonce s' = Ok st)) ∧
  (∀ res, outcome_of path = Ok res ↔
     Validate s = Ok tt ∧ context_complete s ∧
     ∃ s' st, pinned (ResolveMode opts) s s' ∧ KernelLLB nonce s' = Ok st ∧
              Solve st (CacheImports opts) = Ok res).
Proof.
  cbv zeta. split; [|split].
  - intros e He. unfold GatewaySolve. by rewrite He.
  - intros st imports Hq. apply GatewaySolve_asked in Hq as [?|(Hi & Hv & s' & Hp & Hc & Hk)]; [by left|].
    right. split_and!; try done. exists s'. split; [done|]. split; [by eapply pinned_at|done].
  - intros res. unfold GatewaySolve. rewrite talk_bind_inv. split.
    + intros ([] & Hv & Hr). cbn in Hv. apply map_err_Ok in Hv.
      apply talk_bind_inv in Hr as (s' & Hp & Hr). apply pinBase_Ok in Hp.
      apply talk_bind_inv in Hr as ([] & Hc & Hr). apply checkContext_Ok in Hc.
      apply talk_bind_inv in Hr as (st & Hk & Hr). apply map_err_Ok in Hk. apply map_err_Ok in Hr.
      split; [done|]. split; [by apply (pinned_complete _ _ _ Hp)|]. by exists s', st.
    + intros (Hv & Hc & s' & st & Hp & Hk & Hr). exists tt. split; [cbn; by rewrite Hv|].
      rewrite talk_bind_inv. exists s'. split; [by apply pinBase_Ok|].
      rewrite talk_bind_inv. exists tt.
      split; [by apply checkContext_Ok, (pinned_complete _ _ _ Hp)|].
      rewrite talk_bind_inv. exists st. cbn. by rewrite Hk, Hr.
Qed.

(** ** The client's check *)

(** The context the client's directory holds is the one the daemon was sent. *)
Definition mirrors (d : context_dir) (s : Spec) (ref : reference) : Prop :=
  Solve (context_probe s) [] = Ok (Some ref) ∧
  (∀ key name, In (key, name) (contextFiles s) → StatFile ref name = exists_at d name) ∧
  (* every name the glob finds ends in .patch, and the daemon finds the same *)
  Forall (λ e, HasSuffix e ".patch" = true) (patch_entries d) ∧
  match ReadDir ref "patches" "*.patch" with
  | Some ents => List.filter (λ e, HasSuffix e ".patch") ents = patch_entries d
  | None => patch_entries d = []
  end.

(** What the two checks say of the same shortcoming. *)
Definition same_verdict (g : result GatewayError unit) (c : result ContextError unit) : Prop :=
  match g, c with
  | Ok _, Ok _ => True
  | Err (GMissing k n), Err (CMissing k' n') => k = k' ∧ n = n'
  | Err GNoPatchesDir, Err CNoPatches => True
  | Err GNoPatches, Err CNoPatches => True
  | _, _ => False
  end.

Lemma stat_same d ref files :
  (∀ key name, In (key, name) files → StatFile ref name = exists_at d name) →
  same_verdict (outcome_of (stat_all ref files)) (stat_dir d files).
Proof.
  induction files as [|[key name] files IH]; intros Hf; [done|]. cbn [stat_all stat_dir].
  rewrite outcome_bind, (Hf key name) by (by left). destruct (exists_at d name); [|done].
  apply IH. intros k n Hin. apply (Hf k). by right.
Qed.

(** C39. The client's early answer is the gateway's answer: on a directory whose files
    are the ones the daemon receives, [checkContextDir] accepts exactly when
    [checkContext] does, and both name the same missing file under the same key, or
    both miss the patches. *)
Theorem checkContext_agrees (d : context_dir) (s : Spec) (ref : reference) :
  mirrors d s ref → same_verdict (outcome_of (checkContext s)) (checkContextDir d s).
Proof.
  intros (Hsolve & Hstat & Hpat & Hdir). pose proof (stat_same d ref _ Hstat) as Hsame.
  unfold checkContext, checkContextDir. rewrite !outcome_bind, Hsolve. cbn [outcome_of ask snd map_err].
  cbn [mbind result_bind]. rewrite outcome_bind. cbn [outcome_of say snd mbind result_bind].
  rewrite outcome_bind. fold (outcome_of (stat_all ref (contextFiles s))) in *.
  destruct (outcome_of (stat_all ref (contextFiles s))) as [[]|e],
    (stat_dir d (contextFiles s)) as [[]|c]; cbn [mbind result_bind]; try done; [|by destruct e].
  destruct (ApplyPatches s); [|done]. cbn [negb]. rewrite outcome_bind.
  destruct (ReadDir ref "patches" "*.patch") as [ents|]; cbn [outcome_of ask snd mbind result_bind].
  - rewrite Hdir. by destruct (patch_entries d).
  - by rewrite Hdir.
Qed.
End laws.

(** The text of a missing file tells which one it is. *)
Lemma missingContextFile_inj s k1 n1 k2 n2 :
  valid_spec s → In (k1, n1) (contextFiles s) → In (k2, n2) (contextFiles s) →
  missingContextFile k1 n1 = missingContextFile k2 n2 → k1 = k2 ∧ n1 = n2.
Proof.
  intros V.
  assert (∀ k n, In (k, n) (contextFiles s) → ContainsByte k " " = false ∧ ContainsByte n ":" = false) as Hf.
  { assert (∀ v, safe_path v → ContainsByte v ":" = false) as Hp.
    { intros v [Hn _]. apply (all_bytes_lacks path_byte); [|done].
      eapply named_bytes; [..|exact Hn]; by vm_compute. }
    intros k n. unfold contextFiles. rewrite !in_app_iff.
    intros [[[= <- <-]|[]]|[H|H]]; [split; [done|by apply Hp, V]|..].
    - destruct (ExpectName s <>s "") eqn:E; [|done]. destruct H as [[= <- <-]|[]].
      split; [done|]. by apply Hp, (opt_set _ _ (v_expect _ V)).
    - destruct (ProxyCAFile s <>s "") eqn:E; [|done]. destruct H as [[= <- <-]|[]].
      split; [done|]. by apply Hp, (opt_set _ _ (v_proxy_ca _ V)). }
  intros [H1 H3]%Hf [H2 H4]%Hf He. unfold missingContextFile in He.
  change (" " +:+ ?x) with (String " " x) in He.
  apply (f_equal (λ t, Cut t " ")) in He. cbv beta in He. rewrite !Cut_app in He by done. injection He as -> He.
  apply (f_equal (λ t, Cut t ":")) in He. cbv beta in He.
  change (": not found in the build context" +:+ ?x) with (String ":" (" not found in the build context" +:+ x)) in He.
  rewrite !Cut_app in He by done. by injection He as ->.
Qed.
