(* ===== verification/Frontend.v ===== *)
(** cmd/kbuild-frontend/main.go: the gateway frontend. Options and build arguments are
    the map BuildKit delivers; [applyOpts] lays them over the specification, [build] is
    the entry point from the subrequest check to the shared solve path. The platform
    and JSON parsers are parameters. *)

From S2P Require Import Prelude GoString Spec LLB Kernelfile Gateway.

Abbreviation options := (gmap string string).

(** [opts[k]], empty when absent. *)
Definition opt_value (opts : options) (k : string) : string := default "" (opts !! k).

Inductive FrontendError :=
  | FSubrequest (req : string)
  | FFetch (filename cause : string)
  | FNoRef
  | FUnreadable (filename : string)
  | FKernelfile (e : KernelfileError)
  | FBool (key v : string)
  | FPlatformMany (p : string)
  | FPlatform (p : string)
  | FPlatformOS (p : string)
  | FPlatformArch (p : string)
  | FNoHelper
  | FSpec (e : SpecError)
  | FCacheImports
  | FGateway (e : GatewayError)
  | FDescribe.

(** ** Options *)

(** [if v := opts[k]; v != "" { spec.f = v }] *)
Definition set_opt (opts : options) (k : string) (set : string → Spec → Spec) (s : Spec) : Spec :=
  let v := opt_value opts k in if v <>s "" then set v s else s.

(** The first of the two spellings that is not empty. *)
Definition first_opt (opts : options) (k1 k2 : string) (set : string → Spec → Spec) (s : Spec) : Spec :=
  if opt_value opts k1 <>s "" then set (opt_value opts k1) s else set_opt opts k2 set s.

Definition optBool (opts : options) (key : string) (set : bool → Spec → Spec) (s : Spec) :
    result FrontendError Spec :=
  let v := opt_value opts key in
  if v =s "" then Ok s
  else if v =s "true" then Ok (set true s)
  else if v =s "false" then Ok (set false s)
  else Err (FBool key v).

Definition opt_version (opts : options) (s : Spec) : Spec :=
  let v := opt_value opts "kernel-version" in
  if (v <>s "") && (v <>s KernelVersion s)
  then set_SourceSHA256 "" (set_SourceURL (SourceURLFor v) (set_KernelVersion v s)) else s.

Definition opt_url (opts : options) (s : Spec) : Spec :=
  let v := opt_value opts "source-url" in
  if (v <>s "") && (v <>s SourceURL s) then set_SourceSHA256 "" (set_SourceURL v s) else s.

(** The one subrequest the frontend describes, as encoding/json and buildkit's own
    printer render it. *)
Class Subrequests := {
  MarshalIndent : option string;
  PrintDescribe : string → option string;
  describe_version : string
}.

Section frontend.
(** platforms.Parse: operating system and architecture. *)
Context (parse_platform : string → option (string * string)).
(** json.Unmarshal of the cache-imports array. *)
Context (unmarshal_imports : string → option (list CacheOptionsEntry)).

Definition archForPlatform (p : string) : result FrontendError string :=
  if ContainsByte p "," then Err (FPlatformMany p)
  else
    let p := if negb (ContainsByte p "/") then "linux/" +:+ p else p in
    match parse_platform p with
    | None => Err (FPlatform p)
    | Some (os, arch) =>
        if (os <>s "") && (os <>s "linux") then Err (FPlatformOS p)
        else if arch =s "arm64" then Ok "arm64"
        else if arch =s "amd64" then Ok "x86_64"
        else Err (FPlatformArch p)
    end.

Definition applyOpts (opts : options) (s : Spec) : result FrontendError Spec :=
  let s := opt_version opts s in
  let s := opt_url opts s in
  let s := set_opt opts "source-sha256" set_SourceSHA256 s in
  let s := set_opt opts "source-date-epoch" set_SourceDateEpoch s in
  let s := set_opt opts "config" set_ConfigName s in
  let s := set_opt opts "expect" set_ExpectName s in
  let s := set_opt opts "base-make" set_BaseMake s in
  let s := set_opt opts "proxy-ca" set_ProxyCAFile s in
  let s := set_opt opts "helper-ref" set_HelperRef s in
  let s := set_opt opts "src-name" set_SourceLocalName s in
  let s := set_opt opts "base" set_Base s in
  s ← optBool opts "toolchain-ready" set_ToolchainReady s;
  let s := set_opt opts "arch" set_Arch s in
  let s := set_opt opts "cross-compile" set_CrossCompile s in
  let s := first_opt opts "build-arg:https_proxy" "build-arg:HTTPS_PROXY" set_HTTPSProxy s in
  let s := first_opt opts "build-arg:http_proxy" "build-arg:HTTP_PROXY" set_HTTPProxy s in
  let s := first_opt opts "build-arg:no_proxy" "build-arg:NO_PROXY" set_NoProxy s in
  let s := if opt_value opts "force-network-mode" =s "host" then set_NetworkHost true s else s in
  s ← (let p := opt_value opts "platform" in
       if p <>s "" then arch ← archForPlatform p; Ok (set_Arch arch s) else Ok s);
  let s := (let v := opt_value opts "targets" in
            if v <>s "" then set_Targets (FieldsFunc v target_sep) s else s) in
  s ← optBool opts "apply-patches" set_ApplyPatches s;
  let s := if bool_decide (is_Some (opts !! "no-cache")) then set_IgnoreCache true s else s in
  optBool opts "seed-push" set_SeedPush s.

Definition parseCacheImports (opts : options) : result FrontendError (list CacheOptionsEntry) :=
  out ← (let v := opt_value opts "cache-imports" in
         if v <>s "" then match unmarshal_imports v with Some ci => Ok ci | None => Err FCacheImports end
         else Ok []);
  Ok (out ++ omap (λ ref, let ref := TrimSpace ref in
                          if ref <>s "" then Some (CacheEntry "registry" {["ref" := ref]}) else None)
                  (Split (opt_value opts "cache-from") ",")).

Context `{Daemon}.

Definition kernelfile_local (filename : string) : State :=
  Local "dockerfile" [filename] "kernelfile" ("[internal] load " +:+ filename).

Definition readKernelfile (filename : string) : Talk FrontendError string :=
  let src := kernelfile_local filename in
  res ← ask (QSolve src []) (map_err (FFetch filename) (Solve src []));
  ref ← say (match res with Some ref => Ok ref | None => Err FNoRef end);
  ask (QReadFile filename)
    (match ReadFile ref filename with Some dt => Ok dt | None => Err (FUnreadable filename) end).

(** The specification of an invocation: the frontend's image, the Kernelfile, the
    options, in this order. *)
Definition layers (opts : options) : Talk FrontendError Spec :=
  let s := set_opt opts "source" set_HelperRef DefaultSpec in
  s ← (let filename := opt_value opts "filename" in
       if filename <>s "" then
         dt ← readKernelfile filename;
         say (map_err FKernelfile (ParseKernelfile dt s))
       else mret s);
  say (applyOpts opts s).

Inductive answer :=
  | Described (metadata : gmap string string)   (* the subrequest description *)
  | Built (res : option reference).

Context `{Subrequests}.

Definition describeSubrequests : result FrontendError answer :=
  match MarshalIndent with
  | None => Err FDescribe
  | Some dt =>
      match PrintDescribe dt with
      | None => Err FDescribe
      | Some txt =>
          Ok (Described (<["result.json" := dt]> (<["result.txt" := txt]> (<["version" := describe_version]> ∅))))
      end
  end.

Definition describe_request : string := "frontend.subrequests.describe".

Definition wrap_talk {E F A} (f : E → F) (c : Talk E A) : Talk F A := (c.1, map_err f c.2).

Definition build (nonce : string) (opts : options) : Talk FrontendError answer :=
  let req := opt_value opts "requestid" in
  if req <>s "" then
    (if req =s describe_request then say describeSubrequests else say (Err (FSubrequest req)))
  else
    s ← layers opts;
    if HelperRef s =s "" then say (Err FNoHelper)
    else
      say (map_err FSpec (Validate s));;
      cacheImports ← say (parseCacheImports opts);
      res ← wrap_talk FGateway
              (GatewaySolve nonce s (MkGatewayOpts (opt_value opts "image-resolve-mode") cacheImports));
      mret (Built res).

End frontend.
