(* ===== verification/FrontendLaws.v ===== *)
(** What the frontend makes of its options (cmd/kbuild-frontend/main.go): the overlay
    field by field, the pin that follows its source, the agreement with a Kernelfile
    of the same settings, and the order of what is asked of the daemon. *)

From S2P Require Import Prelude GoString Spec LLB Kernelfile KernelfileLaws Gateway GatewayLaws Frontend.

(** ** The overlay *)

Section overlay.
Context (opts : options).

Definition opt_or (k old : string) : string :=
  if opt_value opts k =s "" then old else opt_value opts k.

Definition opt_or2 (k1 k2 old : string) : string := opt_or k1 (opt_or k2 old).

Definition opt_flag (k : string) (old : bool) : bool :=
  if opt_value opts k =s "true" then true else if opt_value opts k =s "false" then false else old.

Definition flag_ok (k : string) : Prop := In (opt_value opts k) [""; "true"; "false"].

(** A new version derives its own URL; an explicit URL wins. *)
Definition new_version (s : Spec) : bool :=
  (opt_value opts "kernel-version" <>s "") && (opt_value opts "kernel-version" <>s KernelVersion s).

Definition derived_url (s : Spec) : string :=
  if new_version s then SourceURLFor (opt_value opts "kernel-version") else SourceURL s.

Definition new_source (s : Spec) : bool :=
  new_version s || ((opt_value opts "source-url" <>s "") && (opt_value opts "source-url" <>s derived_url s)).

(** The specification with every option laid over it; [arch] is the target of the
    arch and platform options. *)
Definition overlay (arch : string) (s : Spec) : Spec := {|
  Base := opt_or "base" (Base s);
  KernelVersion := opt_or "kernel-version" (KernelVersion s);
  SourceURL := opt_or "source-url" (derived_url s);
  SourceSHA256 := opt_or "source-sha256" (if new_source s then "" else SourceSHA256 s);
  SourceLocalName := opt_or "src-name" (SourceLocalName s);
  SourceDateEpoch := opt_or "source-date-epoch" (SourceDateEpoch s);
  ConfigName := opt_or "config" (ConfigName s);
  ExpectName := opt_or "expect" (ExpectName s);
  BaseMake := opt_or "base-make" (BaseMake s);
  ApplyPatches := opt_flag "apply-patches" (ApplyPatches s);
  HTTPSProxy := opt_or2 "build-arg:https_proxy" "build-arg:HTTPS_PROXY" (HTTPSProxy s);
  HTTPProxy := opt_or2 "build-arg:http_proxy" "build-arg:HTTP_PROXY" (HTTPProxy s);
  NoProxy := opt_or2 "build-arg:no_proxy" "build-arg:NO_PROXY" (NoProxy s);
  ToolchainReady := opt_flag "toolchain-ready" (ToolchainReady s);
  Arch := arch;
  CrossCompile := opt_or "cross-compile" (CrossCompile s);
  Targets := if opt_value opts "targets" =s "" then Targets s
             else FieldsFunc (opt_value opts "targets") target_sep;
  ProxyCAFile := opt_or "proxy-ca" (ProxyCAFile s);
  HelperRef := opt_or "helper-ref" (HelperRef s);
  NetworkHost := NetworkHost s || (opt_value opts "force-network-mode" =s "host");
  IgnoreCache := IgnoreCache s || bool_decide (is_Some (opts !! "no-cache"));
  SeedURL := SeedURL s;
  SeedRegion := SeedRegion s;
  SeedPrefix := SeedPrefix s;
  SeedPush := opt_flag "seed-push" (SeedPush s)
|}.

Lemma optBool_eq k set s s' :
  optBool opts k set s = Ok s' ↔
  flag_ok k ∧ s' = if opt_value opts k =s "" then s else set (opt_value opts k =s "true") s.
Proof.
  unfold optBool, flag_ok. cbn [In].
  destruct (String.eqb_spec (opt_value opts k) "") as [->|H1]; [naive_solver|].
  destruct (String.eqb_spec (opt_value opts k) "true") as [->|H2]; [naive_solver|].
  destruct (String.eqb_spec (opt_value opts k) "false") as [->|H3]; [naive_solver|].
  split; [done|]. intros [[?|[?|[?|[]]]] _]; congruence.
Qed.

(** A setter of the field [get] undone by its own value. *)
Definition setter {A} (get : Spec → A) (set : A → Spec → Spec) : Prop := ∀ s, set (get s) s = s.

Lemma set_opt_eq k set (get : Spec → string) s old :
  setter get set → get s = old → set_opt opts k set s = set (opt_or k old) s.
Proof.
  intros H <-. unfold set_opt, opt_or. destruct (opt_value opts k =s ""); cbn [negb]; by rewrite ?H.
Qed.

Lemma optBool_Ok k set (get : Spec → bool) s old s' :
  setter get set → get s = old →
  optBool opts k set s = Ok s' ↔ flag_ok k ∧ s' = set (opt_flag k old) s.
Proof.
  intros H <-. rewrite optBool_eq. apply and_under. intros Hk. unfold opt_flag.
  destruct Hk as [<-|[<-|[<-|[]]]]; cbn; by rewrite ?H.
Qed.

Lemma optBool_bind k set (get : Spec → bool) s old (f : Spec → result FrontendError Spec) s' :
  setter get set → get s = old →
  (optBool opts k set s ≫= f) = Ok s' ↔ flag_ok k ∧ f (set (opt_flag k old) s) = Ok s'.
Proof.
  intros H Ho. rewrite bind_Ok. setoid_rewrite (optBool_Ok k set get s old); [|done..]. naive_solver.
Qed.

Lemma first_opt_eq k1 k2 set (get : Spec → string) s old :
  setter get set → get s = old → first_opt opts k1 k2 set s = set (opt_or2 k1 k2 old) s.
Proof.
  intros H <-. unfold first_opt, opt_or2, opt_or, set_opt.
  destruct (opt_value opts k1 =s ""), (opt_value opts k2 =s ""); cbn [negb]; by rewrite ?H.
Qed.

Lemma if_set_eq {A} (b : bool) (v : A) set (get : Spec → A) s old :
  setter get set → get s = old → (if b then set v s else s) = set (if b then v else old) s.
Proof. intros H <-. destruct b; by rewrite ?H. Qed.
Context (parse_platform : string → option (string * string)).

Definition target_arch (s : Spec) : result FrontendError string :=
  let p := opt_value opts "platform" in
  if p =s "" then Ok (opt_or "arch" (Arch s)) else archForPlatform parse_platform p.
End overlay.

Section apply.
Context (parse_platform : string → option (string * string)) (opts : options).
Abbreviation applyOpts := (applyOpts parse_platform opts).

(** The steps up to the first flag, as setters. *)
Lemma opt_source_eq s :
  opt_url opts (opt_version opts s) =
  set_SourceSHA256 (if new_source opts s then "" else SourceSHA256 s)
    (set_SourceURL (opt_or opts "source-url" (derived_url opts s))
       (set_KernelVersion (opt_or opts "kernel-version" (KernelVersion s)) s)).
Proof.
  assert (opt_or opts "kernel-version" (KernelVersion s) =
          if new_version opts s then opt_value opts "kernel-version" else KernelVersion s) as ->.
  { unfold opt_or, new_version. destruct (String.eqb_spec (opt_value opts "kernel-version") ""); [done|].
    cbn [negb andb].
    by destruct (String.eqb_spec (opt_value opts "kernel-version") (KernelVersion s)). }
  assert (opt_or opts "source-url" (derived_url opts s) =
          if (opt_value opts "source-url" <>s "") && (opt_value opts "source-url" <>s derived_url opts s)
          then opt_value opts "source-url" else derived_url opts s) as ->.
  { unfold opt_or. destruct (String.eqb_spec (opt_value opts "source-url") ""); [done|].
    cbn [negb andb].
    by destruct (String.eqb_spec (opt_value opts "source-url") (derived_url opts s)). }
  assert (opt_version opts s =
          if new_version opts s then set_SourceSHA256 "" (set_SourceURL (derived_url opts s)
            (set_KernelVersion (opt_value opts "kernel-version") s)) else s) as Hv.
  { unfold derived_url. by destruct (new_version opts s) eqn:N; unfold opt_version, new_version in *; rewrite N. }
  assert (SourceURL (opt_version opts s) = derived_url opts s) as Hu.
  { rewrite Hv. unfold derived_url. by destruct (new_version opts s). }
  unfold opt_url. rewrite Hu, Hv. unfold new_source, derived_url. destruct (new_version opts s).
  - by destruct (_ && _).
  - destruct (_ && _); by destruct s.
Qed.

Lemma platform_bind s x (f : Spec → result FrontendError Spec) s' :
  Arch x = opt_or opts "arch" (Arch s) →
  ((if opt_value opts "platform" <>s ""
    then arch ← archForPlatform parse_platform (opt_value opts "platform"); Ok (set_Arch arch x)
    else Ok x) ≫= f) = Ok s' ↔
  ∃ arch, target_arch opts parse_platform s = Ok arch ∧ f (set_Arch arch x) = Ok s'.
Proof.
  intros Hx. unfold target_arch. destruct (opt_value opts "platform" =s ""); cbn [negb].
  - cbn [mbind result_bind]. assert (set_Arch (Arch x) x = x) as Hs by (by destruct x).
    rewrite <- Hx. split; [intros H; exists (Arch x); by rewrite Hs|].
    intros (arch & [= <-] & H). by rewrite Hs in H.
  - destruct (archForPlatform _ _) as [a|e]; cbn [mbind result_bind]; naive_solver.
Qed.

Ltac field := first [by intros []|reflexivity].

(** The frontend lays the options over the specification: it fails exactly on a flag
    that is neither true nor false and on an unusable platform. *)
Lemma applyOpts_Ok s s' :
  applyOpts s = Ok s' ↔
  flag_ok opts "toolchain-ready" ∧ flag_ok opts "apply-patches" ∧ flag_ok opts "seed-push" ∧
  ∃ arch, target_arch opts parse_platform s = Ok arch ∧ s' = overlay opts arch s.
Proof.
  unfold Frontend.applyOpts. cbv zeta. rewrite opt_source_eq.
  rewrite (set_opt_eq opts "source-sha256" set_SourceSHA256 SourceSHA256 _
             (if new_source opts s then "" else SourceSHA256 s)) by field.
  rewrite (set_opt_eq opts "source-date-epoch" set_SourceDateEpoch SourceDateEpoch _ (SourceDateEpoch s)) by field.
  rewrite (set_opt_eq opts "config" set_ConfigName ConfigName _ (ConfigName s)) by field.
  rewrite (set_opt_eq opts "expect" set_ExpectName ExpectName _ (ExpectName s)) by field.
  rewrite (set_opt_eq opts "base-make" set_BaseMake BaseMake _ (BaseMake s)) by field.
  rewrite (set_opt_eq opts "proxy-ca" set_ProxyCAFile ProxyCAFile _ (ProxyCAFile s)) by field.
  rewrite (set_opt_eq opts "helper-ref" set_HelperRef HelperRef _ (HelperRef s)) by field.
  rewrite (set_opt_eq opts "src-name" set_SourceLocalName SourceLocalName _ (SourceLocalName s)) by field.
  rewrite (set_opt_eq opts "base" set_Base Base _ (Base s)) by field.
  rewrite (optBool_bind opts "toolchain-ready" set_ToolchainReady ToolchainReady _ (ToolchainReady s)) by field.
  rewrite (set_opt_eq opts "arch" set_Arch Arch _ (Arch s)) by field.
  rewrite (set_opt_eq opts "cross-compile" set_CrossCompile CrossCompile _ (CrossCompile s)) by field.
  rewrite (first_opt_eq opts _ _ set_HTTPSProxy HTTPSProxy _ (HTTPSProxy s)) by field.
  rewrite (first_opt_eq opts _ _ set_HTTPProxy HTTPProxy _ (HTTPProxy s)) by field.
  rewrite (first_opt_eq opts _ _ set_NoProxy NoProxy _ (NoProxy s)) by field.
  rewrite (if_set_eq _ true set_NetworkHost NetworkHost _ (NetworkHost s)) by field.
  rewrite (platform_bind s) by reflexivity.
  apply and_under. intros Hready.
  assert (∀ P Q (A : string → Prop) (B : string → Prop),
    ((∃ a, A a ∧ P ∧ Q ∧ B a) ↔ P ∧ Q ∧ ∃ a, A a ∧ B a)) as Hre by naive_solver.
  rewrite <- Hre. f_equiv. intros arch. apply and_under. intros _.
  rewrite (if_set_eq (opt_value opts "targets" <>s "") _ set_Targets Targets _ (Targets s)) by field.
  rewrite (optBool_bind opts "apply-patches" set_ApplyPatches ApplyPatches _ (ApplyPatches s)) by field.
  rewrite (if_set_eq (bool_decide _) true set_IgnoreCache IgnoreCache _ (IgnoreCache s)) by field.
  rewrite (optBool_Ok opts "seed-push" set_SeedPush SeedPush _ (SeedPush s)) by field.
  apply and_under. intros Happly. apply and_under. intros Hpush.
  match goal with |- (_ = ?x) ↔ _ => assert (x = overlay opts arch s) as ->; [|done] end.
  apply Spec_ext; try reflexivity.
  - cbn. by destruct (opt_value opts "targets" =s "").
  - cbn. by destruct (NetworkHost s), (opt_value opts "force-network-mode" =s "host").
  - cbn. by destruct (IgnoreCache s), (bool_decide _).
Qed.

(** ** The pin *)

(** An option that restates the value in force leaves it. *)
Lemma opt_or_same k old :
  (opt_value opts k <>s "") && (opt_value opts k <>s old) = false → opt_or opts k old = old.
Proof.
  unfold opt_or. destruct (String.eqb_spec (opt_value opts k) ""); [done|].
  by destruct (String.eqb_spec (opt_value opts k) old).
Qed.

Lemma same_source arch s :
  new_source opts s = false →
  SourceURL (overlay opts arch s) = SourceURL s ∧ KernelVersion (overlay opts arch s) = KernelVersion s.
Proof.
  unfold new_source. intros [Hv Hu]%orb_false_iff. cbn. rewrite opt_or_same by done.
  split; [unfold derived_url; by rewrite Hv|by apply opt_or_same].
Qed.

Lemma overlay_pin arch s :
  SourceSHA256 (overlay opts arch s) ≠ "" →
  opt_value opts "source-sha256" = SourceSHA256 (overlay opts arch s) ∨
  (SourceSHA256 (overlay opts arch s) = SourceSHA256 s ∧
   SourceURL (overlay opts arch s) = SourceURL s ∧ KernelVersion (overlay opts arch s) = KernelVersion s).
Proof.
  cbn [SourceSHA256 overlay]. unfold opt_or at 1 2 3. destruct (opt_value opts "source-sha256" =s ""); [|by left].
  destruct (new_source opts s) eqn:N; [done|]. intros _. right. split; [done|by apply same_source].
Qed.
End apply.

(** ** A Kernelfile and the options of the same settings *)

(** Each directive and its option. *)
Definition option_names : list (string * string) :=
  [("KERNEL", "kernel-version"); ("SOURCE_URL", "source-url"); ("SHA256", "source-sha256");
   ("EPOCH", "source-date-epoch"); ("CONFIG", "config"); ("EXPECT", "expect");
   ("BASE_MAKE", "base-make"); ("PATCHES", "apply-patches"); ("ARCH", "arch");
   ("CROSS_COMPILE", "cross-compile"); ("TARGETS", "targets"); ("PROXY_CA", "proxy-ca");
   ("BASE", "base"); ("TOOLCHAIN", "toolchain-ready")].

Definition option_key (k : string) : string :=
  default "" ((list_to_map option_names : gmap string string) !! k).

Definition flag_value (on v : string) : string := if v =s on then "true" else "false".

Definition option_val (k v : string) : string :=
  if k =s "PATCHES" then flag_value "on" v
  else if k =s "TOOLCHAIN" then flag_value "ready" v
  else v.

Definition options_of (ds : list (string * string)) : options :=
  list_to_map ((λ kv, (option_key kv.1, option_val kv.1 kv.2)) <$> ds).

Lemma option_key_inj k k' : In k keys → In k' keys → option_key k = option_key k' → k = k'.
Proof.
  intros H H'.
  assert (forallb (λ k, forallb (λ k', implb (option_key k =s option_key k') (k =s k')) keys) keys = true)
    as Hall by (by vm_compute).
  rewrite forallb_forall in Hall. specialize (Hall k H). rewrite forallb_forall in Hall.
  specialize (Hall k' H'). cbn beta in Hall. intros He. rewrite He, String.eqb_refl in Hall. by apply eqb_true in Hall.
Qed.

Section file_options.
Context (ds : list (string * string)) (Hok : Forall directive_ok ds).
Context (Hval : Forall (λ kv, kv.2 ≠ "") ds).
Abbreviation m := (list_to_map ds : gmap string string).

Lemma options_of_cons k v ds' :
  options_of ((k, v) :: ds') = <[option_key k := option_val k v]> (options_of ds').
Proof. done. Qed.

Lemma options_of_key k : In k keys → options_of ds !! option_key k = option_val k <$> (m !! k).
Proof using Hok.
  intros Hk. clear Hval. induction Hok as [|[k' v'] ds' [Hk' _] Hds IH]; [done|].
  rewrite options_of_cons, list_to_map_cons. destruct (decide (k = k')) as [->|Hne].
  - by rewrite !lookup_insert_eq.
  - rewrite lookup_insert_ne by (intros He; apply Hne; symmetry; by apply option_key_inj).
    rewrite lookup_insert_ne by done. by apply IH.
Qed.

Lemma options_of_other o : forallb (λ k, option_key k <>s o) keys = true → options_of ds !! o = None.
Proof using Hok.
  rewrite forallb_forall. intros Ho. clear Hval.
  induction Hok as [|[k' v'] ds' [Hk' _] Hds IH]; [done|].
  rewrite options_of_cons, lookup_insert_ne; [by apply IH|]. specialize (Ho k' Hk'). cbn beta in Ho.
  intros He. by rewrite He, String.eqb_refl in Ho.
Qed.

Lemma value_ne k v : m !! k = Some v → v ≠ "".
Proof using Hval.
  intros Hm%elem_of_list_to_map_2. rewrite Forall_forall in Hval. by apply (Hval (k, v)).
Qed.

(** The options of the file, field by field. *)
Lemma opt_or_key k old :
  In k keys → k ≠ "PATCHES" → k ≠ "TOOLCHAIN" →
  opt_or (options_of ds) (option_key k) old = value m k old.
Proof using Hok Hval.
  intros Hk Hp Ht. unfold opt_or, opt_value, value. rewrite options_of_key by done.
  destruct (m !! k) as [v|] eqn:E; cbn; [|done]. apply value_ne in E.
  unfold option_val. apply eqb_false in Hp, Ht, E. by rewrite Hp, Ht, E.
Qed.

Lemma opt_or_other o old :
  forallb (λ k, option_key k <>s o) keys = true → opt_or (options_of ds) o old = old.
Proof using Hok. intros Ho. unfold opt_or, opt_value. by rewrite options_of_other. Qed.

Lemma opt_flag_key k on old :
  In k keys → (∀ v, option_val k v = flag_value on v) →
  flag_ok (options_of ds) (option_key k) ∧
  opt_flag (options_of ds) (option_key k) old = switch m k on old.
Proof using Hok.
  intros Hk Hv. unfold flag_ok, opt_flag, opt_value, switch. rewrite options_of_key by done.
  destruct (m !! k) as [v|]; cbn; [|by split; [left|]]. rewrite Hv. unfold flag_value.
  destruct (v =s on); cbn; auto.
Qed.

Lemma opt_flag_other o old :
  forallb (λ k, option_key k <>s o) keys = true →
  flag_ok (options_of ds) o ∧ opt_flag (options_of ds) o old = old.
Proof using Hok.
  intros Ho. unfold flag_ok, opt_flag, opt_value. rewrite options_of_other by done. by split; [left|].
Qed.

(** The one difference: a file that restates the version or the URL already in force,
    without SHA256, drops the pin, and the options keep it. *)
Definition restates (s : Spec) : bool :=
  (given m "KERNEL" || given m "SOURCE_URL") && negb (new_source (options_of ds) s) &&
  negb (given m "SHA256").
End file_options.

Lemma lex_value n t k v : lex n t = LPair k v → v ≠ "".
Proof.
  unfold lex. cbv zeta. destruct (TrimSpace _ =s ""); [done|]. destruct (IndexAny _ _); [|done].
  destruct (String.eqb_spec (TrimSpace (str_drop (S n0) (TrimSpace (strip_comment
    (if (n =? 1)%nat then TrimPrefix t bom else t))))) ""); [done|]. by intros [= _ <-].
Qed.

Lemma lex_all_values n ls ds : lex_all n ls = Some ds → Forall (λ kv, kv.2 ≠ "") ds.
Proof.
  revert n ds. induction ls as [|t ls IH]; intros n ds; cbn [lex_all].
  - intros [= <-]. constructor.
  - destruct (lex (S n) t) as [|b|k v] eqn:E; [by apply IH|done|].
    destruct (lex_all (S n) ls) as [ds'|] eqn:El; [|done]. intros [= <-].
    constructor; [by eapply lex_value|by eapply IH].
Qed.

Lemma directives_values r ds : directives r = Some ds → Forall (λ kv, kv.2 ≠ "") ds.
Proof. unfold directives. destruct (scan_lines r) as [ls []]; [done|]. apply lex_all_values. Qed.

Section agree.
Context (ds : list (string * string)) (Hok : Forall directive_ok ds).
Context (Hval : Forall (λ kv, kv.2 ≠ "") ds).
Context (s : Spec) (Hurl : SourceURL s = SourceURLFor (KernelVersion s)).
Abbreviation m := (list_to_map ds : gmap string string).
Abbreviation opts := (options_of ds).

Lemma opt_value_source k :
  In k ["KERNEL"; "SOURCE_URL"; "SHA256"; "TARGETS"] → opt_value opts (option_key k) = value m k "".
Proof using Hok.
  intros Hk. unfold opt_value, value. rewrite options_of_key; [|done|].
  - destruct (m !! k) as [v|]; [|done]. cbn. by destruct Hk as [<-|[<-|[<-|[<-|[]]]]].
  - destruct Hk as [<-|[<-|[<-|[<-|[]]]]]; cbn; tauto.
Qed.

Lemma derived_url_file :
  derived_url opts s = match m !! "KERNEL" with Some v => SourceURLFor v | None => SourceURL s end.
Proof using Hok Hval Hurl.
  unfold derived_url, new_version. change "kernel-version" with (option_key "KERNEL").
  rewrite opt_value_source by (by left). unfold value.
  destruct (m !! "KERNEL") as [v|] eqn:E; [|done]. change (default "" (Some v)) with v. apply value_ne in E; [|done].
  apply eqb_false in E. rewrite E. cbn [negb andb].
  destruct (String.eqb_spec v (KernelVersion s)) as [->|]; done.
Qed.

Lemma url_file : opt_or opts "source-url" (derived_url opts s) = source_url m s.
Proof using Hok Hval Hurl.
  change "source-url" with (option_key "SOURCE_URL").
  rewrite (opt_or_key ds Hok Hval) by (first [by right; left|done]).
  rewrite derived_url_file. unfold value, source_url. by destruct (m !! "SOURCE_URL").
Qed.

(** A new source among the options is one the file gives. *)
Lemma new_source_given : new_source opts s = true → given m "KERNEL" || given m "SOURCE_URL" = true.
Proof using Hok.
  unfold new_source, new_version. change "kernel-version" with (option_key "KERNEL").
  change "source-url" with (option_key "SOURCE_URL"). rewrite !opt_value_source by (cbn; tauto).
  unfold value, given. by destruct (m !! "KERNEL"), (m !! "SOURCE_URL").
Qed.

Lemma pin_file :
  opt_or opts "source-sha256" (if new_source opts s then "" else SourceSHA256 s) =
  if restates ds s then SourceSHA256 s else source_pin m s.
Proof using Hok Hval.
  change "source-sha256" with (option_key "SHA256").
  rewrite (opt_or_key ds Hok Hval) by (first [by do 2 right; left|done]).
  pose proof new_source_given as Hn. unfold restates, value, source_pin, given in *.
  destruct (m !! "SHA256"); cbn [from_option negb]; [by rewrite andb_false_r|]. rewrite andb_true_r.
  destruct (new_source opts s); [by rewrite Hn by done|]. rewrite andb_true_r.
  by destruct (_ || _).
Qed.

Lemma targets_file :
  (if opt_value opts "targets" =s "" then Targets s else FieldsFunc (opt_value opts "targets") target_sep)
  = match m !! "TARGETS" with Some v => FieldsFunc v target_sep | None => Targets s end.
Proof using Hok Hval.
  change "targets" with (option_key "TARGETS"). rewrite opt_value_source by (cbn; tauto). unfold value.
  destruct (m !! "TARGETS") as [v|] eqn:E; [|done]. change (default "" (Some v)) with v. apply value_ne in E; [|done].
  apply eqb_false in E. by rewrite E.
Qed.

(** Laid over a specification, the options give the file's meaning, but for the pin
    of a file that restates its source. *)
Lemma overlay_file :
  overlay opts (opt_or opts "arch" (Arch s)) s =
  (if restates ds s then set_SourceSHA256 (SourceSHA256 s) (meaning m s) else meaning m s).
Proof using Hok Hval Hurl.
  assert (meaning m s = set_SourceSHA256 (source_pin m s) (meaning m s)) as Hm by done.
  assert ((if restates ds s then set_SourceSHA256 (SourceSHA256 s) (meaning m s) else meaning m s)
    = set_SourceSHA256 (if restates ds s then SourceSHA256 s else source_pin m s) (meaning m s)) as ->
    by (by destruct (restates ds s)).
  assert (∀ k old, In k keys → k ≠ "PATCHES" → k ≠ "TOOLCHAIN" →
            opt_or opts (option_key k) old = value m k old) as Hk by (intros; by apply opt_or_key).
  apply Spec_ext; cbn [overlay meaning set_SourceSHA256 set_SourceURL fields
    Base KernelVersion SourceURL SourceSHA256 SourceLocalName SourceDateEpoch ConfigName ExpectName
    BaseMake ApplyPatches HTTPSProxy HTTPProxy NoProxy ToolchainReady Arch CrossCompile Targets
    ProxyCAFile HelperRef NetworkHost IgnoreCache SeedURL SeedRegion SeedPrefix SeedPush].
  all: try match goal with
    | |- opt_or _ ?o _ = value _ ?k _ => apply (Hk k); [cbn; tauto|done|done]
    | |- opt_or _ _ _ = _ => by apply opt_or_other
    | |- opt_or2 _ _ _ _ = _ => unfold opt_or2; by rewrite !(opt_or_other ds Hok)
    | |- opt_flag _ _ _ = switch _ ?k ?on _ =>
        apply (opt_flag_key ds Hok k on); [cbn; tauto|done]
    | |- opt_flag _ _ _ = _ => by apply opt_flag_other
    end; try reflexivity.
  - apply url_file.
  - apply pin_file.
  - apply targets_file.
  - unfold opt_value. rewrite options_of_other by done. by rewrite orb_false_r.
  - rewrite options_of_other by done. by rewrite orb_false_r.
Qed.

Lemma applyOpts_file parse_platform :
  applyOpts parse_platform opts s =
  Ok (if restates ds s then set_SourceSHA256 (SourceSHA256 s) (meaning m s) else meaning m s).
Proof using Hok Hval Hurl.
  apply applyOpts_Ok.
  split; [by apply (opt_flag_key ds Hok "TOOLCHAIN" "ready" true); [cbn; tauto|]|].
  split; [by apply (opt_flag_key ds Hok "PATCHES" "on" true); [cbn; tauto|]|].
  split; [by apply (opt_flag_other ds Hok "seed-push" true)|].
  exists (opt_or opts "arch" (Arch s)). split; [|by rewrite overlay_file].
  unfold target_arch. assert (opt_value opts "platform" = "") as ->; [|done].
  unfold opt_value. by rewrite options_of_other.
Qed.
End agree.

(** C37. A Kernelfile and the command line say the same thing. For every file the
    parser accepts, over a specification whose URL is its version's, the options that
    spell the same directives are accepted and give the same specification - with one
    exception: a file that restates the version or URL already in force and has no
    SHA256 comes out unpinned, where the options keep the pin of that same source. *)
Theorem Kernelfile_options_agree (parse_platform : string → option (string * string))
    (r : string) (s file : Spec) :
  SourceURL s = SourceURLFor (KernelVersion s) → ParseKernelfile r s = Ok file →
  ∃ ds, directives r = Some ds ∧
    if restates ds s
    then applyOpts parse_platform (options_of ds) s = Ok (set_SourceSHA256 (SourceSHA256 s) file) ∧
         SourceSHA256 file = "" ∧ SourceURL file = SourceURL s ∧ KernelVersion file = KernelVersion s
    else applyOpts parse_platform (options_of ds) s = Ok file.
Proof.
  intros Hurl (ds & Hds & _ & Hok & ->)%ParseKernelfile_Ok. pose proof (directives_values r ds Hds) as Hval.
  exists ds. split; [done|]. rewrite (applyOpts_file ds Hok Hval s Hurl parse_platform).
  pose proof (overlay_file ds Hok Hval s Hurl) as Ho.
  destruct (restates ds s) eqn:R; [|done]. split; [done|].
  unfold restates in R. apply andb_true_iff in R as [[Hg Hn%negb_true_iff]%andb_true_iff Hs%negb_true_iff].
  destruct (same_source (options_of ds) (opt_or (options_of ds) "arch" (Arch s)) s Hn) as [Hu Hv].
  rewrite Ho in Hu, Hv. split; [|done]. cbn. unfold source_pin. unfold given in Hs at 1.
  destruct (list_to_map ds !! "SHA256"); [done|]. by rewrite Hg.
Qed.

(** ** The layers and the entry point *)

Section build.
Context (parse_platform : string → option (string * string)).
Context (unmarshal_imports : string → option (list CacheOptionsEntry)).
Context `{Daemon} (opts : options).
Abbreviation layers := (layers parse_platform opts).

(** The first layer: the frontend's image, as the builtin defaults with their helper. *)
Definition packaged : Spec := set_opt opts "source" set_HelperRef DefaultSpec.

Lemma packaged_source :
  SourceSHA256 packaged = SourceSHA256 DefaultSpec ∧ SourceURL packaged = SourceURL DefaultSpec ∧
  KernelVersion packaged = KernelVersion DefaultSpec.
Proof. unfold packaged, set_opt. by destruct (_ <>s ""). Qed.

(** The file layer: what the parse of the delegated file gives, if one was named. *)
Definition file_layer (s : Spec) : Prop :=
  (opt_value opts "filename" = "" ∧ s = packaged) ∨
  (opt_value opts "filename" ≠ "" ∧ ∃ dt,
   outcome_of (readKernelfile (opt_value opts "filename")) = Ok dt ∧ ParseKernelfile dt packaged = Ok s).

Lemma layers_Ok s :
  outcome_of layers = Ok s ↔ ∃ f, file_layer f ∧ applyOpts parse_platform opts f = Ok s.
Proof.
  unfold Frontend.layers, file_layer. cbv zeta. rewrite talk_bind_inv.
  destruct (String.eqb_spec (opt_value opts "filename") "") as [He|He]; cbn [negb].
  - split; intros (f & Hf & Ho); exists f; (split; [|exact Ho]).
    + left. split; [done|]. by injection Hf as <-.
    + destruct Hf as [[_ ->]|[? _]]; [done|congruence].
  - generalize (readKernelfile (opt_value opts "filename")) as file. intros file.
    setoid_rewrite talk_bind_inv. cbn [outcome_of say snd]. setoid_rewrite map_err_Ok. split.
    + intros (f & (dt & Hr & Hp) & Ho). exists f. split; [|done]. right. split; [done|by exists dt].
    + intros (f & [[? _]|(_ & dt & Hr & Hp)] & Ho); [done|]. exists f. split; [by exists dt|done].
Qed.

Lemma readKernelfile_asks filename q :
  In q (asked (readKernelfile filename)) →
  q = QSolve (kernelfile_local filename) [] ∨ q = QReadFile filename.
Proof.
  unfold readKernelfile. cbv zeta.
  intros [[<-|[]]|(res & _ & [[]|(ref & _ & [<-|[]])]%asked_bind)]%asked_bind; [by left|by right].
Qed.

(** C38. A checksum never outlives its source, across the layers. Whatever reaches the
    build with a checksum was given it by the source-sha256 option, or by a SHA256
    line of the file that was read, whose version and URL it still has, or it is the
    builtin default's with the builtin version and URL. *)
Theorem layers_pin (s : Spec) :
  outcome_of layers = Ok s → SourceSHA256 s ≠ "" →
  opt_value opts "source-sha256" = SourceSHA256 s ∨
  (∃ dt ds f, outcome_of (readKernelfile (opt_value opts "filename")) = Ok dt ∧
     directives dt = Some ds ∧ In ("SHA256", SourceSHA256 s) ds ∧
     ParseKernelfile dt packaged = Ok f ∧
     SourceURL s = SourceURL f ∧ KernelVersion s = KernelVersion f) ∨
  (SourceSHA256 s = SourceSHA256 DefaultSpec ∧ SourceURL s = SourceURL DefaultSpec ∧
   KernelVersion s = KernelVersion DefaultSpec).
Proof.
  intros (f & Hf & (_ & _ & _ & arch & _ & ->)%applyOpts_Ok)%layers_Ok Hne.
  destruct (overlay_pin _ _ _ Hne) as [Hp|(Hp & Hu & Hv)]; [by left|]. right.
  rewrite Hp in *. rewrite Hu, Hv. destruct packaged_source as (Dp & Du & Dv).
  destruct Hf as [[_ ->]|(_ & dt & Hdt & Hparse)]; [by right|].
  pose proof Hparse as (ds & Hds & Hd & _ & Hm)%ParseKernelfile_Ok. subst f.
  destruct (meaning_pin _ _ Hne) as [Hsha|(-> & -> & ->)]; [|by right].
  left. exists dt, ds, (meaning (list_to_map ds) packaged). split_and!; try done.
  apply list_elem_of_In. by apply elem_of_list_to_map_2.
Qed.

Context `{Subrequests}.

(** What a build - not a subrequest - has solved. *)
Lemma build_solves nonce st imports :
  opt_value opts "requestid" = "" →
  In (QSolve st imports) (asked (build parse_platform unmarshal_imports nonce opts)) →
  (opt_value opts "filename" ≠ "" ∧ st = kernelfile_local (opt_value opts "filename") ∧ imports = []) ∨
  ∃ s, outcome_of layers = Ok s ∧ HelperRef s ≠ "" ∧ Validate s = Ok tt ∧
    ((st = context_probe s ∧ imports = []) ∨
     (parseCacheImports unmarshal_imports opts = Ok imports ∧ context_complete s ∧
      ∃ s', pinned (opt_value opts "image-resolve-mode") s s' ∧ KernelLLB nonce s' = Ok st)).
Proof.
  intros Hr. unfold build. cbv zeta. rewrite Hr. cbn [String.eqb negb]. intros Hq.
  apply asked_bind in Hq as [Hq|(s & Hs & Hq)].
  { left. revert Hq. unfold Frontend.layers. cbv zeta.
    intros [Hq|(f & _ & [])]%asked_bind.
    destruct (String.eqb_spec (opt_value opts "filename") "") as [He|He]; cbn [negb] in Hq; [done|].
    apply asked_bind in Hq as [Hq|(dt & _ & [])].
    apply readKernelfile_asks in Hq as [[= -> ->]|?]; done. }
  right. exists s. split; [done|].
  destruct (String.eqb_spec (HelperRef s) "") as [|Hh]; [done|].
  split; [done|]. apply asked_bind in Hq as [[]|([] & Hv & Hq)]. apply map_err_Ok in Hv.
  split; [done|]. apply asked_bind in Hq as [[]|(ci & Hci & Hq)].
  apply asked_bind in Hq as [Hq|(res & _ & [])]. apply GatewaySolve_asked in Hq.
  destruct Hq as [?|(-> & _ & s' & Hp & Hc & Hg)]; [by left|]. right.
  split; [done|]. split; [done|]. by exists s'.
Qed.

(** A subrequest is answered without the daemon. *)
Lemma build_subrequest nonce :
  opt_value opts "requestid" ≠ "" →
  build parse_platform unmarshal_imports nonce opts =
  ([], if opt_value opts "requestid" =s describe_request then describeSubrequests
       else Err (FSubrequest (opt_value opts "requestid"))).
Proof.
  intros Hr. unfold build. cbv zeta. apply eqb_false in Hr. rewrite Hr. cbn [negb].
  by destruct (_ =s describe_request).
Qed.

(** C36. What the frontend may ask for. A subrequest asks nothing of the daemon and is
    answered or refused, never built. Otherwise everything solved is the transfer of
    the named build file, or belongs to the specification all layers agreed to: its
    context probe, or its graph with the caller's cache imports - after the options
    and the file were read without error, with a helper image, valid, its base pinned
    and its context complete. An unreadable or malformed build file therefore solves
    nothing but its own transfer. *)
Theorem build_asks (nonce : string) :
  let run := build parse_platform unmarshal_imports nonce opts in
  (opt_value opts "requestid" ≠ "" →
   asked run = [] ∧
   ∀ a, outcome_of run = Ok a →
     opt_value opts "requestid" = describe_request ∧ describeSubrequests = Ok a ∧ ∃ m, a = Described m) ∧
  ∀ st imports, In (QSolve st imports) (asked run) →
    opt_value opts "requestid" = "" ∧
    ((opt_value opts "filename" ≠ "" ∧ st = kernelfile_local (opt_value opts "filename") ∧ imports = []) ∨
     ∃ s, outcome_of layers = Ok s ∧ HelperRef s ≠ "" ∧ Validate s = Ok tt ∧
       ((st = context_probe s ∧ imports = []) ∨
        (parseCacheImports unmarshal_imports opts = Ok imports ∧ context_complete s ∧
         ∃ s', pinned (opt_value opts "image-resolve-mode") s s' ∧ KernelLLB nonce s' = Ok st))).
Proof.
  cbv zeta. destruct (decide (opt_value opts "requestid" = "")) as [Hr|Hr].
  - split; [done|]. intros st imports Hq. split; [done|]. by eapply build_solves.
  - rewrite (build_subrequest nonce Hr). split; [|by intros st imports []].
    intros _. split; [done|]. intros a Ha. unfold outcome_of in Ha. cbn [snd] in Ha.
    destruct (String.eqb_spec (opt_value opts "requestid") describe_request) as [->|_]; [|done].
    split; [done|]. split; [done|]. unfold describeSubrequests in Ha.
    destruct MarshalIndent as [dt|]; [|done]. destruct (PrintDescribe dt); [|done]. injection Ha as <-. eauto.
Qed.
End build.
