(* ===== verification/FrontendScenarios.v ===== *)
(** A daemon that answers, and the frontend run against it. *)

From S2P Require Import Prelude GoString Spec LLB Kernelfile KernelfileLaws Gateway GatewayLaws Frontend FrontendLaws.

Definition kernelfile_text : string :=
  "#syntax=ghcr.io/emirb/kernelbuild-buildkit" +:+ chr 10 +:+
  "KERNEL 6.12.1" +:+ chr 10 +:+
  "SHA256 837a5abd9dbc3a2d1a1b2e5f0c7d3d8e4f6a7b8c9d0e1f2a3b4c5d6e7f809a1b" +:+ chr 10 +:+
  "TARGETS vmlinux,config" +:+ chr 10.

(** Every local is one directory: the Kernelfile and kernel.config, and no patches. *)
Definition directory : reference := {|
  StatFile p := p =s "kernel.config";
  ReadDir _ _ := None;
  ReadFile p := if p =s "Kernelfile" then Some kernelfile_text else None
|}.

#[local] Instance steady : Daemon := {|
  ResolveImageConfig ref _ := Ok (ref, "sha256:00ff");
  Solve _ _ := Ok (Some directory)
|}.

#[local] Instance described : Subrequests := {|
  MarshalIndent := Some "[{}]";
  PrintDescribe dt := Some "Subrequests";
  describe_version := "1.0.0"
|}.

(** platforms.Parse on the platforms of the tests. *)
Definition platform_table (p : string) : option (string * string) :=
  if p =s "linux/arm64" then Some ("linux", "arm64")
  else if p =s "linux/amd64" then Some ("linux", "amd64") else None.

Definition delegated : options := list_to_map
  [("source", "ghcr.io/emirb/kernelbuild-buildkit@sha256:11"); ("filename", "Kernelfile");
   ("platform", "arm64"); ("no-cache", ""); ("toolchain-ready", "true");
   ("base", "tuxmake/arm64_gcc"); ("cache-from", "reg/a, reg/b")].

Definition no_json (_ : string) : option (list CacheOptionsEntry) := None.

(** The delegated build reaches the graph. *)
Example delegated_builds :
  is_ok (outcome_of (build platform_table no_json "n0" delegated)) = true.
Proof. by vm_compute. Qed.

(** So is a subrequest, without the daemon. *)
Example describes :
  build platform_table no_json "n0" (<["requestid" := describe_request]> delegated) =
  ([], Ok (Described (list_to_map
     [("result.json", "[{}]"); ("result.txt", "Subrequests"); ("version", "1.0.0")]))).
Proof. by vm_compute. Qed.

Definition patched_spec : Spec := set_ApplyPatches true DefaultSpec.
Definition bare_dir : context_dir := ContextDir (λ p, p =s "kernel.config") [].

Lemma checkContext_agrees_witness :
  mirrors bare_dir patched_spec directory ∧
  same_verdict (outcome_of (checkContext patched_spec)) (checkContextDir bare_dir patched_spec).
Proof.
  assert (mirrors bare_dir patched_spec directory) as H.
  { split; [done|]. split; [|by split]. by intros key name [[= <- <-]|[]]. }
  split; [exact H|]. exact (checkContext_agrees bare_dir patched_spec directory H).
Defined.

Lemma Kernelfile_options_agree_witness : ∃ file,
  ParseKernelfile kernelfile_text DefaultSpec = Ok file ∧
  SourceURL DefaultSpec = SourceURLFor (KernelVersion DefaultSpec) ∧
  ∃ ds, directives kernelfile_text = Some ds ∧
    if restates ds DefaultSpec
    then applyOpts platform_table (options_of ds) DefaultSpec
         = Ok (set_SourceSHA256 (SourceSHA256 DefaultSpec) file) ∧
         SourceSHA256 file = "" ∧ SourceURL file = SourceURL DefaultSpec ∧
         KernelVersion file = KernelVersion DefaultSpec
    else applyOpts platform_table (options_of ds) DefaultSpec = Ok file.
Proof.
  eexists. split; [vm_compute; reflexivity|]. split; [by vm_compute|].
  apply (Kernelfile_options_agree platform_table kernelfile_text DefaultSpec); by vm_compute.
Defined.

(** A file that restates the builtin version: the parser drops the pin, the option
    keeps it. *)
Example restated_version :
  let r := "KERNEL " +:+ KernelVersion DefaultSpec in
  (∃ s, ParseKernelfile r DefaultSpec = Ok s ∧ SourceSHA256 s = "") ∧
  applyOpts platform_table (options_of [("KERNEL", KernelVersion DefaultSpec)]) DefaultSpec = Ok DefaultSpec.
Proof. cbv zeta. split; [eexists; split; by vm_compute|by vm_compute]. Qed.

Lemma layers_pin_witness : ∃ s,
  outcome_of (layers platform_table delegated) = Ok s ∧ SourceSHA256 s ≠ "" ∧
  (opt_value delegated "source-sha256" = SourceSHA256 s ∨
   (∃ dt ds f, outcome_of (readKernelfile (opt_value delegated "filename")) = Ok dt ∧
      directives dt = Some ds ∧ In ("SHA256", SourceSHA256 s) ds ∧
      ParseKernelfile dt (packaged delegated) = Ok f ∧
      SourceURL s = SourceURL f ∧ KernelVersion s = KernelVersion f) ∨
   (SourceSHA256 s = SourceSHA256 DefaultSpec ∧ SourceURL s = SourceURL DefaultSpec ∧
    KernelVersion s = KernelVersion DefaultSpec)).
Proof.
  eexists. split; [vm_compute; reflexivity|]. split; [by vm_compute|].
  apply (layers_pin platform_table delegated); by vm_compute.
Defined.
