(* ===== verification/Client.v ===== *)
(** client.go: the client library. Cache entries in buildctl syntax over the first
    record of an encoding/csv reader, the S3 shorthand, vertex labels, the folding of
    the daemon's status stream into a build report, and [Build] itself: what is
    checked before the daemon is dialled, what travels to it, and what is cleaned up
    on every path. *)

From S2P Require Import Prelude GoString GoRegexp Spec LLB Gateway.

(** ** encoding/csv: one record *)

(** Lines end in LF; a CR before it, or before end of input, is dropped. *)
Fixpoint csv_norm (s : string) : string :=
  match s with
  | "" => ""
  | String c s' =>
      if Ascii.eqb c CR && match s' with "" => true | String d _ => Ascii.eqb d LF end
      then csv_norm s' else String c (csv_norm s')
  end.

(** Empty lines are skipped. *)
Fixpoint skip_empty (s : string) : string :=
  match s with
  | String c s' => if Ascii.eqb c LF then skip_empty s' else s
  | "" => ""
  end.

Inductive CsvError := CsvEOF | CsvBareQuote | CsvQuote.

Definition QUOTE : ascii := byte 34.

(** Where the reader is: at the start of a field, inside an unquoted or a quoted one,
    or behind a quote inside a quoted one. *)
Inductive csv_mode := AtField | Unquoted | Quoted | QuoteSeen.

(** [cur] is the field so far, [acc] the fields before it. *)
Fixpoint csv_fields (mode : csv_mode) (acc : list string) (cur : string) (s : string) :
    result CsvError (list string) :=
  match s with
  | "" => match mode with Quoted => Err CsvQuote | _ => Ok (acc ++ [cur]) end
  | String c s =>
      match mode with
      | Quoted =>
          if Ascii.eqb c QUOTE then csv_fields QuoteSeen acc cur s
          else csv_fields Quoted acc (cur +:+ String c "") s
      | QuoteSeen =>
          if Ascii.eqb c QUOTE then csv_fields Quoted acc (cur +:+ String QUOTE "") s
          else if Ascii.eqb c "," then csv_fields AtField (acc ++ [cur]) "" s
          else if Ascii.eqb c LF then Ok (acc ++ [cur])
          else Err CsvQuote
      | AtField | Unquoted =>
          if Ascii.eqb c QUOTE
          then match mode with AtField => csv_fields Quoted acc cur s | _ => Err CsvBareQuote end
          else if Ascii.eqb c "," then csv_fields AtField (acc ++ [cur]) "" s
          else if Ascii.eqb c LF then Ok (acc ++ [cur])
          else csv_fields Unquoted acc (cur +:+ String c "") s
      end
  end.

Definition csv_read (s : string) : result CsvError (list string) :=
  let s := skip_empty (csv_norm s) in
  if s =s "" then Err CsvEOF else csv_fields AtField [] "" s.

(** ** Cache entries *)

Inductive CacheEntryError :=
  | CECsv (e : CsvError)
  | CEWantKV (kv : string)
  | CEMissingType.

(** [Type] and [Attrs] as the fields set them, the last setting of a key winning. *)
Definition cache_field (entry : CacheOptionsEntry) (kv : string) :
    result CacheEntryError CacheOptionsEntry :=
  let '(k, v, ok) := Cut kv "=" in
  if negb ok then Err (CEWantKV kv)
  else if k =s "type" then Ok (CacheEntry v (Attrs entry))
  else Ok (CacheEntry (Type_ entry) (<[k := v]> (Attrs entry))).

Definition attr (entry : CacheOptionsEntry) (k : string) : string := default "" (Attrs entry !! k).

Definition ParseCacheEntry (spec ak sk : string) : result CacheEntryError CacheOptionsEntry :=
  fields ← map_err CECsv (csv_read spec);
  entry ← foldR cache_field (CacheEntry "" ∅) fields;
  if Type_ entry =s "" then Err CEMissingType
  else if (Type_ entry =s "s3") && (attr entry "access_key_id" =s "") && (ak <>s "")
  then Ok (CacheEntry (Type_ entry)
             (<["secret_access_key" := sk]> (<["access_key_id" := ak]> (Attrs entry))))
  else Ok entry.

Inductive S3CacheURLError := S3WantHostBucket | S3BadRegion.

Definition regionRe : re := Eval vm_compute in compiled (MustCompile "^[A-Za-z0-9._-]+$").

Definition S3CacheURL (bucketURL region : string) : result S3CacheURLError string :=
  let '(rest, ok) := CutPrefix (TrimSuffix bucketURL "/") "https://" in
  let '(host, bucket, ok2) := Cut rest "/" in
  if negb ok || negb ok2 || (bucket =s "") || ContainsByte bucket "/" then Err S3WantHostBucket
  else
    let region := if region =s "" then "auto" else region in
    if negb (MatchString regionRe region) then Err S3BadRegion
    else Ok ("type=s3,bucket=" +:+ bucket +:+ ",region=" +:+ region
             +:+ ",prefix=kbuild-vertex/,endpoint_url=https://" +:+ host
             +:+ ",use_path_style=true,mode=max").

(** ** The report *)

Definition VertexLabel (name : string) : string :=
  let name := match IndexByte name LF with
              | Some (S i) => str_take (S i) name +:+ " ..."
              | _ => name
              end in
  if (100 <? String.length name)%nat then str_take 100 name +:+ "..." else name.

(** A vertex of one status packet; times in nanoseconds. *)
Record Vertex := MkVertex {
  Digest : string;
  Name : string;
  Started : option Z;
  Completed : option Z;
  Cached : bool
}.

Record SolveStatus := MkStatus {
  Vertexes : list Vertex;
  StatusLogs : list string
}.

Record vtx := Vtx {
  vname : string;
  started : option Z;
  finished : option Z;
  cached : bool
}.

(** What the receiving goroutine keeps; [progress] is what cfg.Progress was given. *)
Record collected := Collected {
  seen_vtx : gmap string vtx;
  order : list string;
  logs : string;
  progress : list string
}.

Definition see (c : collected) (v : Vertex) : collected :=
  let '(e, order') := match seen_vtx c !! Digest v with
                      | Some e => (e, order c)
                      | None => (Vtx (Name v) None None false, order c ++ [Digest v])
                      end in
  let e := Vtx (vname e) (match Started v with Some t => Some t | None => started e end)
               (match Completed v with Some t => Some t | None => finished e end)
               (cached e || Cached v) in
  Collected (<[Digest v := e]> (seen_vtx c)) order' (logs c) (progress c).

Definition log_chunk (c : collected) (data : string) : collected :=
  Collected (seen_vtx c) (order c) (logs c +:+ data) (progress c ++ [data]).

Definition receive (c : collected) (st : SolveStatus) : collected :=
  foldl log_chunk (foldl see c (Vertexes st)) (StatusLogs st).

Definition collect (stream : list SolveStatus) : collected :=
  foldl receive (Collected ∅ [] "" []) stream.

(** time.Time.Sub: a duration is 64 bits and saturates. *)
Definition saturate (d : Z) : Z := Z.max (- 2 ^ 63) (Z.min (2 ^ 63 - 1) d).

Record VertexTiming := Timing {
  TName : string;
  TCached : bool;
  Duration : Z
}.

Definition timing_of (v : vtx) : VertexTiming :=
  Timing (VertexLabel (vname v)) (cached v)
    (match started v, finished v with Some s, Some f => saturate (f - s) | _, _ => 0 end).

(** The bytes [\s] stands for. *)
Definition re_space (c : ascii) : bool :=
  existsb (Ascii.eqb c) [TAB; LF; byte 12; CR; byte 32].

(** The search for ccLineRe, [(?m)^\s+CC\s+]: at a line start, in the white space after
    one, behind one C or two of them, in the white space that ends a match, elsewhere. *)
Inductive cc_state := CCStart | CCSpace | CC1 | CC2 | CCTail | CCElse.

Fixpoint cc_count (st : cc_state) (s : string) : nat :=
  match s with
  | "" => 0
  | String c s =>
      match st with
      | CCStart => if re_space c then cc_count CCSpace s else cc_count CCElse s
      | CCSpace => if re_space c then cc_count CCSpace s
                   else if Ascii.eqb c "C" then cc_count CC1 s else cc_count CCElse s
      | CC1 => if Ascii.eqb c "C" then cc_count CC2 s
               else cc_count (if Ascii.eqb c LF then CCStart else CCElse) s
      | CC2 => if re_space c then S (cc_count CCTail s) else cc_count CCElse s
      | CCTail => cc_count (if re_space c then CCTail else CCElse) s
      | CCElse => cc_count (if Ascii.eqb c LF then CCStart else CCElse) s
      end
  end.

Record BuildResult := MkBuildResult {
  Vertices : list VertexTiming;
  CC : nat;
  Logs : string
}.

Definition report (c : collected) : BuildResult :=
  MkBuildResult (omap (λ d, timing_of <$> (seen_vtx c !! d)) (order c)) (cc_count CCStart (logs c)) (logs c).

(** ** The host and the control connection *)

(** The machine [Build] runs on. *)
Class Host := {
  Executable : option string;              (* os.Executable, an absolute clean path *)
  ReadHostFile : string → option string;
  elf_machine : string → option Z;         (* debug/elf on a file's bytes *)
  MkdirTemp : option string;
  WriteFile : string → string → bool;      (* path, content *)
  context_at : string → context_dir;
  range : gmap string string → list (string * string); (* a map range, in its own order *)
  NewFS : string → bool
}.

Definition EM_X86_64 : Z := 62.

Inductive ClientError :=
  | CSeedPush
  | CSpec (e : SpecError)
  | CContext (e : ContextError)
  | CNoExecutable
  | CNoHelper
  | CNotELF (path : string)
  | CStage
  | CDial
  | CMount (name dir : string)
  | CSeedKeys
  | CExport (spec : string) (e : CacheEntryError)
  | CImport (spec : string) (e : CacheEntryError)
  | CSession
  | CBuild (e : GatewayError)
  | CExporter.

Inductive entitlement := EntitlementNetworkHost.
Inductive export_entry := ExporterLocal (dir : string).

Record SolveOpt := MkSolveOpt {
  LocalMounts : gmap string string;
  Secrets : option (gmap string string);
  AllowedEntitlements : list entitlement;
  Exports : list export_entry;
  SolveCacheExports : list CacheOptionsEntry;
  SolveCacheImports : list CacheOptionsEntry
}.

(** buildkitd's control API: the dial, whether a session of these options starts, what
    the exporter does with the result, and the status packets sent meanwhile. *)
Class Control := {
  Dial : string → bool;
  OpenSession : SolveOpt → bool;
  Export : SolveOpt → option reference → bool;
  Stream : SolveOpt → list SolveStatus
}.

Inductive client_event :=
  | Staged (dir : string)
  | Dialled (addr : string)
  | Solving (o : SolveOpt)
  | Asked (q : request)
  | Closed
  | Unstaged (dir : string).

Record BuildConfig := MkBuildConfig {
  Addr : string;
  ContextDir : string;
  HelperBin : string;
  SrcDir : string;
  OutDir : string;
  CacheExportSpecs : list string;
  CacheImportSpecs : list string;
  AccessKey : string;
  SecretKey : string
}.

(** What the calls so far did, and how they ended. *)
Definition Act (A : Type) : Type := list client_event * A.

Definition emit {A} (e : client_event) (c : Act A) : Act A := (e :: c.1, c.2).

(** [defer]: the event follows the body on every path out of it. *)
Definition deferred {A} (e : client_event) (c : Act A) : Act A := (c.1 ++ [e], c.2).

Section client.
Context `{Host}.

(** filepath.Dir of an absolute clean path, and a name joined to it. *)
Definition dir_of (path : string) : string :=
  Join (removelast (Split path "/")) "/".

Definition helper_path (path : string) : result ClientError string :=
  if path =s "" then
    match Executable with
    | Some self => Ok (dir_of self +:+ "/kbuild-step")
    | None => Err CNoExecutable
    end
  else Ok path.

(** The staged directory, or why not; a directory that could not be filled is removed. *)
Definition stageHelper (path : string) : Act (result ClientError string) :=
  match helper_path path with
  | Err e => ([], Err e)
  | Ok path =>
      match ReadHostFile path with
      | None => ([], Err CNoHelper)
      | Some src =>
          if negb (bool_decide (elf_machine src = Some EM_X86_64)) then ([], Err (CNotELF path))
          else match MkdirTemp with
               | None => ([], Err CStage)
               | Some dir =>
                   emit (Staged dir)
                     (if WriteFile (dir +:+ "/kbuild-step") src then ([], Ok dir)
                      else ([Unstaged dir], Err CStage))
               end
      end
  end.

Fixpoint mount_all (dirs : list (string * string)) : result ClientError unit :=
  match dirs with
  | [] => Ok tt
  | (name, dir) :: dirs => if NewFS dir then mount_all dirs else Err (CMount name dir)
  end.

Fixpoint entries (err : string → CacheEntryError → ClientError) (cfg : BuildConfig) (l : list string) :
    result ClientError (list CacheOptionsEntry) :=
  match l with
  | [] => Ok []
  | e :: l =>
      entry ← map_err (err e) (ParseCacheEntry e (AccessKey cfg) (SecretKey cfg));
      rest ← entries err cfg l;
      Ok (entry :: rest)
  end.

Definition seed_secrets (cfg : BuildConfig) (s : Spec) : gmap string string :=
  <["seed_access_key" := AccessKey cfg]>
    (<["seed_secret_key" := SecretKey cfg]> (<["seed_cfg" := default "" (SeedCfg s)]> ∅)).

(** The options of the outer solve. *)
Definition solve_options (cfg : BuildConfig) (s : Spec) (dirs : gmap string string) :
    result ClientError SolveOpt :=
  mount_all (range dirs);;
  secrets ← (if SeedURL s <>s "" then
               if (AccessKey cfg =s "") || (SecretKey cfg =s "") then Err CSeedKeys
               else Ok (Some (seed_secrets cfg s))
             else Ok None);
  exports ← entries CExport cfg (CacheExportSpecs cfg);
  imports ← entries CImport cfg (CacheImportSpecs cfg);
  Ok (MkSolveOpt dirs secrets
        (if NetworkHost s then [EntitlementNetworkHost] else [])
        (if OutDir cfg <>s "" then [ExporterLocal (OutDir cfg)] else [])
        exports imports).

Context `{Control} `{Daemon}.

(** [c.Build] with the gateway callback; the report is collected either way. *)
Definition solve (nonce : string) (s : Spec) (o : SolveOpt) : Act (option BuildResult * option ClientError) :=
  let res := Some (report (collect (Stream o))) in
  emit (Solving o)
    (if OpenSession o then
       let c := GatewaySolve nonce s (MkGatewayOpts "" (SolveCacheImports o)) in
       (Asked <$> c.1,
        match c.2 with
        | Err e => (res, Some (CBuild e))
        | Ok ref => (res, if Export o ref then None else Some CExporter)
        end)
     else ([], (res, Some CSession))).

(** From the dial on. *)
Definition connected (nonce : string) (s : Spec) (cfg : BuildConfig) (dirs : gmap string string) :
    Act (option BuildResult * option ClientError) :=
  if negb (Dial (Addr cfg)) then ([], (None, Some CDial))
  else
    let dirs := if SrcDir cfg <>s "" then <["src" := SrcDir cfg]> dirs else dirs in
    emit (Dialled (Addr cfg))
      (deferred Closed
         (match solve_options cfg s dirs with
          | Err e => ([], (None, Some e))
          | Ok o => solve nonce s o
          end)).

Definition Build (nonce : string) (s : Spec) (cfg : BuildConfig) :
    Act (option BuildResult * option ClientError) :=
  let fail e := ([], (None, Some e)) in
  if SeedPush s && (SeedURL s =s "") then fail CSeedPush
  else match Validate s with
  | Err e => fail (CSpec e)
  | Ok _ =>
  match checkContextDir (context_at (ContextDir cfg)) s with
  | Err e => fail (CContext e)
  | Ok _ =>
      let dirs := <["context" := ContextDir cfg]> ∅ in
      if HelperRef s =s "" then
        match stageHelper (HelperBin cfg) with
        | (evs, Err e) => (evs, (None, Some e))
        | (evs, Ok dir) =>
            let c := deferred (Unstaged dir) (connected nonce s cfg (<["helper" := dir]> dirs)) in
            (evs ++ c.1, c.2)
        end
      else connected nonce s cfg dirs
  end end.

End client.
