(* ===== verification/ClientLaws.v ===== *)
(** What the client library promises (client.go): cache entries read back what a
    buildctl line spells, the S3 shorthand expands to one entry, and the report has one
    row per vertex. What [Build] sends and releases is in [BuildLaws]. *)

From S2P Require Import Prelude GoString GoRegexp Spec SpecValid Kernelfile LLB Gateway GatewayLaws Client.

(** ** One CSV record *)

(** A field as written: bare, or quoted with its quotes doubled. *)
Fixpoint double_quotes (s : string) : string :=
  match s with
  | "" => ""
  | String c s => if Ascii.eqb c QUOTE then String QUOTE (String QUOTE (double_quotes s))
                  else String c (double_quotes s)
  end.

Definition csv_field (quoted : bool) (f : string) : string :=
  if quoted then String QUOTE (double_quotes f +:+ String QUOTE "") else f.

Definition bare_byte (c : ascii) : bool := negb (existsb (Ascii.eqb c) [","%char; QUOTE; LF; CR]).

Lemma bare_byte_inv c :
  bare_byte c = true →
  Ascii.eqb c "," = false ∧ Ascii.eqb c QUOTE = false ∧ Ascii.eqb c LF = false ∧ Ascii.eqb c CR = false.
Proof.
  unfold bare_byte. cbn.
  by destruct (Ascii.eqb c ","), (Ascii.eqb c QUOTE), (Ascii.eqb c LF), (Ascii.eqb c CR).
Qed.

Definition field_ok (quoted : bool) (f : string) : Prop :=
  if quoted then ContainsByte f CR = false else all_bytes bare_byte f = true.

Definition csv_line (fs : list (bool * string)) : string :=
  Join (map (λ '(q, f), csv_field q f) fs) ",".

Lemma csv_norm_id s : ContainsByte s CR = false → csv_norm s = s.
Proof.
  induction s as [|c s IH]; [done|]. rewrite ContainsByte_cons. intros [Hc Hs]%orb_false_iff.
  cbn. by rewrite Hc, IH.
Qed.

(** What follows a field: nothing, or a comma and the rest. *)
Definition after_field (s : string) : Prop := s = "" ∨ ∃ t, s = String "," t.

Definition next_field (acc : list string) (s : string) : result CsvError (list string) :=
  match s with "" => Ok acc | String _ t => csv_fields AtField acc "" t end.

Lemma field_ends mode acc cur s :
  mode ≠ Quoted → after_field s → csv_fields mode acc cur s = next_field (acc ++ [cur]) s.
Proof. by intros Hm [->|[t ->]]; destruct mode. Qed.

Lemma csv_bare mode acc cur f s :
  mode = AtField ∨ mode = Unquoted → all_bytes bare_byte f = true → after_field s →
  csv_fields mode acc cur (f +:+ s) = next_field (acc ++ [cur +:+ f]) s.
Proof.
  revert mode cur. induction f as [|c f IH]; intros mode cur Hm Hf Hs.
  - rewrite str_app_nil_r. apply field_ends; [by destruct Hm as [->| ->]|done].
  - cbn in Hf. apply andb_true_iff in Hf as [Hc Hf]. unfold bare_byte in Hc. cbn in Hc.
    rewrite app_cons. cbn [csv_fields].
    destruct (Ascii.eqb c ",") eqn:E1, (Ascii.eqb c QUOTE) eqn:E2, (Ascii.eqb c LF) eqn:E3; try done.
    assert (cur +:+ String c f = (cur +:+ String c "") +:+ f) as -> by (by rewrite str_app_assoc, app_cons).
    destruct Hm as [->| ->]; (apply IH; [by right|done|done]).
Qed.

Lemma csv_quoted acc cur f s :
  after_field s →
  csv_fields Quoted acc cur (double_quotes f +:+ String QUOTE s) = next_field (acc ++ [cur +:+ f]) s.
Proof.
  revert cur. induction f as [|c f IH]; intros cur Hs.
  - rewrite str_app_nil_r. cbn [double_quotes]. rewrite app_nil_l. cbn [csv_fields].
    rewrite Ascii.eqb_refl. by apply field_ends.
  - assert (cur +:+ String c f = (cur +:+ String c "") +:+ f) as -> by (by rewrite str_app_assoc, app_cons).
    cbn [double_quotes]. destruct (Ascii.eqb_spec c QUOTE) as [->|Hc].
    + rewrite !app_cons. cbn [csv_fields]. rewrite !Ascii.eqb_refl. by apply IH.
    + rewrite app_cons. cbn [csv_fields]. destruct (Ascii.eqb_spec c QUOTE); [done|]. by apply IH.
Qed.

Lemma csv_one acc q f s :
  field_ok q f → after_field s →
  csv_fields AtField acc "" (csv_field q f +:+ s) = next_field (acc ++ [f]) s.
Proof.
  destruct q; cbn [field_ok csv_field]; intros Hf Hs.
  - rewrite app_cons, str_app_assoc, app_cons, app_nil_l. cbn [csv_fields]. rewrite Ascii.eqb_refl.
    by apply csv_quoted.
  - apply csv_bare; [by left|done|done].
Qed.

Lemma csv_fields_line acc fs :
  fs ≠ [] → Forall (λ '(q, f), field_ok q f) fs →
  csv_fields AtField acc "" (csv_line fs) = Ok (acc ++ fs.*2).
Proof.
  intros Hne Hfs. revert acc Hne. induction Hfs as [|[q f] fs Hf Hfs IH]; intros acc Hne; [done|].
  unfold csv_line in *. cbn [map]. destruct fs as [|[q' f'] fs'].
  - cbn [map Join]. rewrite <- (str_app_nil_r (csv_field q f)). rewrite csv_one; [done|done|by left].
  - rewrite Join_cons by done. change (","%string +:+ ?t) with (String "," t).
    rewrite csv_one; [|done|right; by eexists]. cbn [next_field].
    rewrite IH by done. by rewrite <- app_assoc.
Qed.

Lemma bare_lacks f c : all_bytes bare_byte f = true → bare_byte c = false → ContainsByte f c = false.
Proof. intros Hf Hc. by eapply all_bytes_lacks. Qed.

Lemma csv_field_CR q f : field_ok q f → ContainsByte (csv_field q f) CR = false.
Proof.
  destruct q; cbn [field_ok csv_field]; [|intros Hf; by eapply bare_lacks].
  intros Hf. rewrite ContainsByte_cons, ContainsByte_app.
  assert (ContainsByte (double_quotes f) CR = false) as ->; [|done].
  induction f as [|c f IH]; [done|]. rewrite ContainsByte_cons in Hf.
  apply orb_false_iff in Hf as [Hc Hf]. cbn [double_quotes].
  destruct (Ascii.eqb c QUOTE) eqn:E; rewrite !ContainsByte_cons, (IH Hf), ?Hc; done.
Qed.

Lemma csv_line_CR fs : Forall (λ '(q, f), field_ok q f) fs → ContainsByte (csv_line fs) CR = false.
Proof.
  unfold csv_line. induction 1 as [|[q f] fs Hf Hfs IH]; [done|]. cbn [map].
  destruct fs as [|g fs]; [by apply csv_field_CR|]. rewrite Join_cons by done.
  rewrite !ContainsByte_app, IH, csv_field_CR by done. done.
Qed.

(** The record of a line that does not start with an empty bare field. *)
Lemma csv_read_line q f fs :
  (q = false → f ≠ "") → Forall (λ '(q, f), field_ok q f) ((q, f) :: fs) →
  csv_read (csv_line ((q, f) :: fs)) = Ok (f :: fs.*2).
Proof.
  intros Hne Hfs. unfold csv_read. rewrite csv_norm_id by (by apply csv_line_CR).
  assert (∃ c t, csv_line ((q, f) :: fs) = String c t ∧ Ascii.eqb c LF = false) as (c & t & He & Hc).
  { apply Forall_cons in Hfs as [Hf _]. unfold csv_line. cbn [map].
    assert (∃ c t, csv_field q f = String c t ∧ Ascii.eqb c LF = false) as (c & t & He & Hc).
    { destruct q; [by eexists _, _|]. specialize (Hne eq_refl). destruct f as [|c f]; [done|].
      exists c, f. split; [done|]. cbn in Hf. by apply andb_true_iff in Hf as [(_ & _ & ? & _)%bare_byte_inv _]. }
    destruct (map _ fs) as [|g gs] eqn:Eg; [by exists c, t|].
    rewrite Join_cons by done. rewrite He. rewrite app_cons. by eexists _, _. }
  rewrite He. cbn [skip_empty]. rewrite Hc. rewrite <- He.
  assert ((csv_line ((q, f) :: fs) =s "") = false) as -> by (by rewrite He).
  by rewrite csv_fields_line.
Qed.

(** ** Cache entries *)

Definition kv_text (kv : string * string) : string := kv.1 +:+ String "=" kv.2.

(** A setting and whether it is written quoted. *)
Definition setting_ok (x : bool * (string * string)) : Prop :=
  ContainsByte x.2.1 "=" = false ∧ field_ok x.1 (kv_text x.2).

Definition cache_line (xs : list (bool * (string * string))) : string :=
  csv_line (map (λ x, (x.1, kv_text x.2)) xs).

Definition is_type (kv : string * string) : bool := kv.1 =s "type".

(** The last type and, of every other key, its last value. *)
Definition type_set (old : string) (kvs : list (string * string)) : string :=
  foldl (λ _ kv, kv.2) old (List.filter is_type kvs).

Definition attrs_set (kvs : list (string * string)) : gmap string string :=
  insert_all ∅ (List.filter (λ kv, negb (is_type kv)) kvs).

Definition with_creds (ak sk : string) (e : CacheOptionsEntry) : CacheOptionsEntry :=
  if (Type_ e =s "s3") && (attr e "access_key_id" =s "") && (ak <>s "")
  then CacheEntry (Type_ e) (<["secret_access_key" := sk]> (<["access_key_id" := ak]> (Attrs e)))
  else e.

Lemma cache_fields_Ok e kvs :
  Forall (λ kv, ContainsByte kv.1 "=" = false) kvs →
  foldR cache_field e (map kv_text kvs) =
  Ok (CacheEntry (type_set (Type_ e) kvs)
        (insert_all (Attrs e) (List.filter (λ kv, negb (is_type kv)) kvs))).
Proof.
  intros Hkvs. revert e. induction Hkvs as [|[k v] kvs Hk Hkvs IH]; intros e; [by destruct e|].
  cbn [fst] in Hk. cbn [map foldR].
  assert (∀ e, cache_field e (kv_text (k, v)) =
    Ok (if k =s "type" then CacheEntry v (Attrs e) else CacheEntry (Type_ e) (<[k := v]> (Attrs e)))) as ->.
  { intros e'. unfold cache_field, kv_text. cbn [fst snd]. rewrite Cut_app by done. cbn [negb].
    by destruct (k =s "type"). } unfold type_set. cbn [List.filter].
  change (is_type (k, v)) with (k =s "type").
  destruct (k =s "type"); cbn [negb]; change (mbind ?f (Ok ?x)) with (f x); cbv beta;
    by rewrite IH.
Qed.

Lemma ParseCacheEntry_line (xs : list (bool * (string * string))) (ak sk : string) :
  xs ≠ [] → Forall setting_ok xs →
  ParseCacheEntry (cache_line xs) ak sk =
  let e := CacheEntry (type_set "" xs.*2) (attrs_set xs.*2) in
  if Type_ e =s "" then Err CEMissingType else Ok (with_creds ak sk e).
Proof.
  intros Hne Hxs. destruct xs as [|[q kv] xs]; [done|]. unfold ParseCacheEntry, cache_line.
  cbn [map fst snd]. rewrite csv_read_line.
  2: { intros _ He. apply (f_equal String.length) in He. unfold kv_text in He.
       rewrite str_length_app in He. cbn in He. lia. }
  2: { change ((q, kv_text kv) :: map ?f xs) with (map f ((q, kv) :: xs)). apply List.Forall_map.
       eapply Forall_impl; [exact Hxs|]. by intros [q' kv'] [_ ?]. }
  cbn [map_err]. change (mbind ?f (Ok ?x)) with (f x). cbv beta.
  assert (kv_text kv :: (map (λ x, (x.1, kv_text x.2)) xs).*2 = map kv_text ((q, kv) :: xs).*2) as ->.
  { cbn. f_equal. rewrite <- list_fmap_compose. unfold compose. cbn. clear.
    induction xs as [|x xs IH]; [done|]. cbn. by f_equal. }
  rewrite cache_fields_Ok.
  - change (mbind ?f (Ok ?x)) with (f x). cbv beta zeta. cbn [Type_ Attrs].
    unfold with_creds. cbn [Type_ Attrs]. fold (attrs_set ((q, kv) :: xs).*2).
    destruct (type_set "" _ =s ""); [done|]. by destruct (_ && _ && _).
  - apply Forall_fmap. eapply Forall_impl; [exact Hxs|]. by intros [q' kv'] [? _].
Qed.

(** C34. A cache entry in buildctl syntax says what it spells. Any settings, in any
    order, each bare or quoted - so a value may hold commas and quotes - are read back
    as the type and the last value of every other key; without a type they are
    rejected; and an s3 entry that names no access key is completed with the client's
    credentials, which no other entry ever receives. *)
Theorem ParseCacheEntry_roundtrip (xs : list (bool * (string * string))) (ak sk : string) :
  xs ≠ [] → Forall setting_ok xs →
  ParseCacheEntry (cache_line xs) ak sk =
  let e := CacheEntry (type_set "" xs.*2) (attrs_set xs.*2) in
  if Type_ e =s "" then Err CEMissingType else Ok (with_creds ak sk e).
Proof. apply ParseCacheEntry_line. Qed.

Lemma ParseCacheEntry_roundtrip_witness :
  let xs := [(false, ("type", "s3")); (false, ("bucket", "b"));
             (true, ("names", "a,b," +:+ String QUOTE "c"))] in
  (xs ≠ [] ∧ Forall setting_ok xs) ∧
  ParseCacheEntry (cache_line xs) "AK" "SK" =
  let e := CacheEntry (type_set "" xs.*2) (attrs_set xs.*2) in
  if Type_ e =s "" then Err CEMissingType else Ok (with_creds "AK" "SK" e).
Proof.
  intros xs. assert (Forall setting_ok xs) as H by (repeat constructor; by vm_compute).
  split; [by split|]. exact (ParseCacheEntry_roundtrip xs "AK" "SK" ltac:(done) H).
Defined.

(** ** The S3 shorthand *)

Definition s3_attrs (host bucket region : string) : gmap string string := list_to_map
  [("bucket", bucket); ("region", if region =s "" then "auto" else region);
   ("prefix", "kbuild-vertex/"); ("endpoint_url", "https://" +:+ host);
   ("use_path_style", "true"); ("mode", "max")].

Definition s3_settings (host bucket region : string) : list (bool * (string * string)) :=
  [(false, ("type", "s3")); (false, ("bucket", bucket)); (false, ("region", region));
   (false, ("prefix", "kbuild-vertex/")); (false, ("endpoint_url", "https://" +:+ host));
   (false, ("use_path_style", "true")); (false, ("mode", "max"))].

Lemma S3CacheURL_Ok url region spec :
  S3CacheURL url region = Ok spec →
  ∃ host bucket, TrimSuffix url "/" = "https://" +:+ host +:+ "/" +:+ bucket ∧ bucket ≠ "" ∧
    ContainsByte host "/" = false ∧ ContainsByte bucket "/" = false ∧
    let region := if region =s "" then "auto" else region in
    MatchString regionRe region = true ∧ spec = cache_line (s3_settings host bucket region).
Proof.
  unfold S3CacheURL, CutPrefix. destruct (HasPrefix (TrimSuffix url "/") "https://") eqn:Hp.
  2: { by destruct (Cut (TrimSuffix url "/") "/") as [[a b] c]. }
  apply HasPrefix_spec in Hp as [rest Hr]. rewrite Hr, str_drop_app.
  destruct (Cut rest "/") as [[host bucket] ok2] eqn:Hc. cbn [negb orb].
  destruct ok2; [|done]. cbn [negb orb]. apply Cut_true in Hc as [-> Hh].
  destruct (String.eqb_spec bucket "") as [|Hb]; [done|]. cbn [orb].
  destruct (ContainsByte bucket "/") eqn:Hs; [done|]. cbv zeta.
  destruct (MatchString regionRe _) eqn:Hm; cbn [negb]; [|done]. intros [= <-].
  exists host, bucket. by split_and!.
Qed.

Lemma TrimSuffix_parts s p : ∃ t, s = TrimSuffix s p +:+ t ∧ (t = "" ∨ t = p).
Proof.
  unfold TrimSuffix. destruct (HasSuffix s p) eqn:E; [|exists ""; rewrite str_app_nil_r; auto].
  apply HasSuffix_spec in E as [t ->]. exists p. rewrite str_length_app.
  replace (_ + _ - _)%nat with (String.length t) by lia. rewrite str_take_app. auto.
Qed.

Lemma region_bare r : MatchString regionRe r = true → all_bytes bare_byte r = true.
Proof. by apply MatchString_bytes. Qed.

(** The -cache-s3 shorthand means one s3 entry. From a URL it accepts - always
    https://host/bucket, up to one trailing slash - it makes a line that reads back as
    exactly the path-style entry for that bucket, region ([auto] when none is given)
    and endpoint, provided no comma or quote is in the URL; the client's credentials
    complete it. *)
Theorem S3CacheURL_entry (url region spec ak sk : string) :
  S3CacheURL url region = Ok spec → all_bytes bare_byte url = true →
  ∃ host bucket slash, url = "https://" +:+ host +:+ "/" +:+ bucket +:+ slash ∧
    (slash = "" ∨ slash = "/") ∧ bucket ≠ "" ∧
    ContainsByte host "/" = false ∧ ContainsByte bucket "/" = false ∧
    ParseCacheEntry spec ak sk = Ok (with_creds ak sk (CacheEntry "s3" (s3_attrs host bucket region))).
Proof.
  intros (host & bucket & Ht & Hb & Hh & Hs & Hm & ->)%S3CacheURL_Ok Hbare.
  destruct (TrimSuffix_parts url "/") as (slash & Hu & Hsl).
  rewrite Ht in Hu. rewrite Hu, !all_bytes_app, !andb_true_iff in Hbare.
  destruct Hbare as [(_ & Hbh & _ & Hbb) _].
  exists host, bucket, slash. rewrite Hu at 1. rewrite !str_app_assoc. split_and!; try done.
  set (r := if region =s "" then "auto" else region) in *. apply region_bare in Hm.
  rewrite ParseCacheEntry_line; [|done|].
  - assert (attrs_set (s3_settings host bucket r).*2 = s3_attrs host bucket region) as ->; [|done].
    unfold attrs_set, s3_attrs. apply insert_all_list_to_map.
    apply (bool_decide_unpack _). by vm_compute.
  - unfold s3_settings. repeat constructor; try done; cbn [setting_ok field_ok fst snd kv_text];
      rewrite ?all_bytes_app; cbn [all_bytes]; by rewrite ?Hbh, ?Hbb, ?Hm.
Qed.

Lemma S3CacheURL_entry_witness :
  let url := "https://acct.r2.example.com/bucket/" in
  ∃ spec, (S3CacheURL url "" = Ok spec ∧ all_bytes bare_byte url = true) ∧
  ∃ host bucket slash, url = "https://" +:+ host +:+ "/" +:+ bucket +:+ slash ∧
    (slash = "" ∨ slash = "/") ∧ bucket ≠ "" ∧
    ContainsByte host "/" = false ∧ ContainsByte bucket "/" = false ∧
    ParseCacheEntry spec "AK" "SK" = Ok (with_creds "AK" "SK" (CacheEntry "s3" (s3_attrs host bucket ""))).
Proof.
  intros url. eexists. split; [split; [by vm_compute|by vm_compute]|].
  apply (S3CacheURL_entry url "" _ "AK" "SK"); by vm_compute.
Defined.

(** Without that proviso the bucket name can add attributes of its own. *)
Example S3CacheURL_comma :
  match S3CacheURL "https://host/bucket,mode=min,ignore-error=true" "" with
  | Ok spec =>
      match ParseCacheEntry spec "" "" with
      | Ok e => (attr e "ignore-error" =s "true") && (attr e "bucket" =s "bucket")
      | Err _ => false
      end
  | Err _ => false
  end = true.
Proof. by vm_compute. Qed.

(** ** The report *)

(** The digests in the order of their first appearance. *)
Fixpoint nub (l : list string) : list string :=
  match l with
  | [] => []
  | d :: l => d :: List.filter (λ e, e <>s d) (nub l)
  end.

Definition of_digest (d : string) (vs : list Vertex) : list Vertex :=
  List.filter (λ v, Digest v =s d) vs.

(** What a row shows of the updates of one vertex: its first name, the last start and
    the last completion reported, and whether any update called it cached. *)
Definition summary (us : list Vertex) : vtx :=
  Vtx (default "" (Name <$> head us)) (last (omap Started us)) (last (omap Completed us))
      (existsb Cached us).

Definition chunk_text (chunks : list string) : string := foldl String.append "" chunks.

(** What has been received: these updates and these log chunks. *)
Definition received (vs : list Vertex) (chunks : list string) (c : collected) : Prop :=
  (∀ d, seen_vtx c !! d = match of_digest d vs with [] => None | us => Some (summary us) end) ∧
  order c = nub (map Digest vs) ∧ logs c = chunk_text chunks ∧ progress c = chunks.

Lemma nub_In l d : In d (nub l) ↔ In d l.
Proof.
  induction l as [|e l IH]; [done|]. cbn. rewrite filter_In, IH.
  destruct (String.eqb_spec d e) as [->|]; cbn; naive_solver.
Qed.

Lemma nub_snoc l d : nub (l ++ [d]) = if existsb (String.eqb d) l then nub l else nub l ++ [d].
Proof.
  induction l as [|e l IH]; [done|]. cbn [app nub existsb]. rewrite IH.
  destruct (String.eqb_spec d e) as [->|Hne]; cbn [orb].
  - destruct (existsb _ l); [done|]. rewrite List.filter_app. cbn. rewrite String.eqb_refl. cbn.
    by rewrite app_nil_r.
  - destruct (existsb _ l); [done|]. rewrite List.filter_app. cbn.
    by destruct (String.eqb_spec d e).
Qed.

Lemma nub_NoDup l : NoDup (nub l).
Proof.
  induction l as [|d l IH]; [constructor|]. cbn. constructor.
  - rewrite list_elem_of_In, filter_In, String.eqb_refl. by intros [_ ?].
  - rewrite NoDup_ListNoDup in *. by apply List.NoDup_filter.
Qed.

Lemma of_digest_snoc d vs v :
  of_digest d (vs ++ [v]) = of_digest d vs ++ (if Digest v =s d then [v] else []).
Proof. unfold of_digest. rewrite List.filter_app. cbn. by destruct (Digest v =s d). Qed.

Lemma of_digest_nil d vs : of_digest d vs = [] ↔ existsb (String.eqb d) (map Digest vs) = false.
Proof.
  unfold of_digest. induction vs as [|v vs IH]; [done|]. cbn. rewrite (String.eqb_sym d).
  by destruct (Digest v =s d).
Qed.

Lemma last_omap_snoc {A B} (f : A → option B) l x :
  last (omap f (l ++ [x])) = match f x with Some b => Some b | None => last (omap f l) end.
Proof.
  rewrite omap_app. cbn. destruct (f x); [by rewrite last_snoc|by rewrite app_nil_r].
Qed.

Lemma summary_snoc us v :
  us ≠ [] →
  summary (us ++ [v]) =
  Vtx (vname (summary us)) (match Started v with Some t => Some t | None => started (summary us) end)
      (match Completed v with Some t => Some t | None => finished (summary us) end)
      (cached (summary us) || Cached v).
Proof.
  intros Hne. unfold summary. cbn. rewrite !last_omap_snoc, existsb_app. cbn. rewrite orb_false_r.
  by destruct us.
Qed.

Lemma see_received vs chunks c v : received vs chunks c → received (vs ++ [v]) chunks (see c v).
Proof.
  intros (Hs & Ho & Hl & Hp). unfold see. pose proof (Hs (Digest v)) as Hd.
  destruct (of_digest_nil (Digest v) vs) as [Hn1 Hn2].
  assert (∀ e, seen_vtx c !! Digest v = e →
    ∀ x, (match of_digest (Digest v) vs with [] => None | us => Some (summary us) end) = e →
    summary (of_digest (Digest v) vs ++ [v]) = x →
    ∀ d, <[Digest v := x]> (seen_vtx c) !! d =
         match of_digest d (vs ++ [v]) with [] => None | us => Some (summary us) end) as Hmap.
  { intros _ _ x _ <- d. rewrite of_digest_snoc. destruct (String.eqb_spec (Digest v) d) as [<-|Hne].
    - rewrite lookup_insert_eq. by destruct (of_digest (Digest v) vs).
    - by rewrite lookup_insert_ne, app_nil_r by done. }
  destruct (of_digest (Digest v) vs) as [|u us] eqn:Eu; rewrite Hd; cbn [seen_vtx order logs progress];
    (split; [eapply Hmap; [exact Hd|reflexivity|]|]).
  - unfold summary. cbn. by destruct (Started v), (Completed v), (Cached v).
  - rewrite map_app. cbn [map]. rewrite nub_snoc, Hn1 by done. by rewrite Ho.
  - by apply summary_snoc.
  - rewrite map_app. cbn [map]. rewrite nub_snoc.
    destruct (existsb _ _) eqn:E; [by rewrite Ho|]. by specialize (Hn2 eq_refl).
Qed.

Lemma log_received vs chunks c x : received vs chunks c → received vs (chunks ++ [x]) (log_chunk c x).
Proof.
  intros (Hs & Ho & Hl & Hp). split; [done|]. split; [done|]. unfold log_chunk, chunk_text in *. cbn.
  rewrite Hl, Hp. by rewrite foldl_app.
Qed.

Lemma receive_received vs chunks c st :
  received vs chunks c → received (vs ++ Vertexes st) (chunks ++ StatusLogs st) (receive c st).
Proof.
  intros Hc. unfold receive.
  assert (∀ l vs c, received vs chunks c → received (vs ++ l) chunks (foldl see c l)) as Hv.
  { induction l as [|v l IH]; intros vs' c' Hr; cbn; [by rewrite app_nil_r|].
    rewrite (cons_middle v), app_assoc. by apply IH, see_received. }
  assert (∀ l chunks vs c, received vs chunks c → received vs (chunks ++ l) (foldl log_chunk c l)) as Hl.
  { induction l as [|x l IH]; intros ch' vs' c' Hr; cbn; [by rewrite app_nil_r|].
    rewrite (cons_middle x), app_assoc. by apply IH, log_received. }
  by apply Hl, Hv.
Qed.

Lemma collect_received stream :
  received (concat (map Vertexes stream)) (concat (map StatusLogs stream)) (collect stream).
Proof.
  unfold collect. assert (∀ c vs chunks, received vs chunks c →
    received (vs ++ concat (map Vertexes stream)) (chunks ++ concat (map StatusLogs stream))
      (foldl receive c stream)) as H.
  { induction stream as [|st stream IH]; intros c vs chunks Hc; cbn; [by rewrite !app_nil_r|].
    rewrite !app_assoc. by apply IH, receive_received. }
  apply (H _ [] []). split_and!; done.
Qed.

Lemma VertexLabel_length name : (String.length (VertexLabel name) ≤ 103)%nat.
Proof.
  unfold VertexLabel. set (n := match IndexByte name LF with Some (S i) => _ | _ => name end).
  destruct (Nat.ltb_spec 100 (String.length n)) as [Hn|Hn]; [|lia].
  rewrite str_length_app. change (String.length "...") with 3%nat.
  assert (∀ k s, (String.length (str_take k s) ≤ k)%nat) as Ht.
  { induction k as [|k IH]; intros [|c s]; cbn; [lia..|]. specialize (IH s). lia. }
  specialize (Ht 100%nat n). revert Ht. generalize (String.length (str_take 100 n)). intros. lia.
Qed.

(** C33. The build report is the status stream, summed up. However the daemon splits
    and repeats its updates, the report has one row per vertex in the order they first
    appeared, each labelled by its first name in at most 103 bytes, marked cached
    when any update said so, and timed from the last start to the last completion
    reported, zero without both; the log is every chunk in order, and the caller's
    progress writer was given the same chunks. *)
Theorem Build_report (stream : list SolveStatus) :
  let vs := concat (map Vertexes stream) in
  let chunks := concat (map StatusLogs stream) in
  let c := collect stream in
  progress c = chunks ∧ Logs (report c) = chunk_text chunks ∧
  CC (report c) = cc_count CCStart (chunk_text chunks) ∧
  Vertices (report c) = map (λ d, timing_of (summary (of_digest d vs))) (nub (map Digest vs)) ∧
  NoDup (nub (map Digest vs)) ∧
  Forall (λ r, (String.length (TName r) ≤ 103)%nat) (Vertices (report c)).
Proof.
  cbv zeta. destruct (collect_received stream) as (Hs & Ho & Hl & Hp).
  assert (Vertices (report (collect stream)) =
    map (λ d, timing_of (summary (of_digest d (concat (map Vertexes stream)))))
        (nub (map Digest (concat (map Vertexes stream))))) as Hv.
  { cbn. rewrite Ho. assert (Forall (λ d, In d (map Digest (concat (map Vertexes stream))))
      (nub (map Digest (concat (map Vertexes stream))))) as Hin.
    { apply List.Forall_forall. intros d. apply nub_In. }
    clear Ho. induction Hin as [|d l Hd _ IH]; [done|]. cbn. rewrite Hs, IH.
    destruct (of_digest d _) as [|u us] eqn:E; [|done]. apply of_digest_nil in E. exfalso.
    assert (existsb (String.eqb d) (map Digest (concat (map Vertexes stream))) = true) as E'; [|congruence].
    apply List.existsb_exists. exists d. by rewrite String.eqb_refl. }
  unfold report in *. cbn [Logs CC Vertices] in *. rewrite Hl, Hv. split_and!; try done.
  - apply nub_NoDup.
  - apply List.Forall_map, Forall_true. intros d. apply VertexLabel_length.
Qed.
