(* ===== verification/BuildLaws.v ===== *)
(** [Build] of the client library (client.go): every resource is released on every
    path, nothing is sent that was not checked, and what is sent is what the step
    reads. One law that does not hold - the seed key follows the tag, not the digest -
    is shown on a run. *)

From S2P Require Import Prelude GoString Spec SpecValid LLB StepEnv Gateway GatewayLaws Client.

(** ** Resources *)

Inductive resource := RDir (dir : string) | RConn.

#[export] Instance resource_eq_dec : EqDecision resource.
Proof. solve_decision. Defined.

(** Replays a trace over the open resources, the last opened first; [None] when
    something else than that one is closed. *)
Fixpoint held (open : list resource) (evs : list client_event) : option (list resource) :=
  match evs with
  | [] => Some open
  | Staged dir :: evs => held (RDir dir :: open) evs
  | Dialled _ :: evs => held (RConn :: open) evs
  | Unstaged dir :: evs =>
      match open with
      | RDir d :: open => if d =s dir then held open evs else None
      | _ => None
      end
  | Closed :: evs => match open with RConn :: open => held open evs | _ => None end
  | (Solving _ | Asked _) :: evs => held open evs
  end.

Definition balanced (evs : list client_event) : Prop := ∀ open, held open evs = Some open.

Lemma held_app open evs1 evs2 :
  held open (evs1 ++ evs2) = match held open evs1 with Some o => held o evs2 | None => None end.
Proof.
  revert open. induction evs1 as [|[] evs1 IH]; intros open; cbn; try apply IH; [done| |].
  - destruct open as [|[]]; [done|done|apply IH].
  - destruct open as [|[d|]]; [done| |done]. destruct (d =s dir); [apply IH|done].
Qed.

Lemma balanced_nil : balanced [].
Proof. done. Qed.

Lemma balanced_app evs1 evs2 : balanced evs1 → balanced evs2 → balanced (evs1 ++ evs2).
Proof. intros H1 H2 open. by rewrite held_app, H1, H2. Qed.

Lemma balanced_conn a evs : balanced evs → balanced (Dialled a :: (evs ++ [Closed])).
Proof. intros H open. cbn. by rewrite held_app, H. Qed.

Lemma balanced_dir dir evs : balanced evs → balanced (Staged dir :: (evs ++ [Unstaged dir])).
Proof. intros H open. cbn. rewrite held_app, H. cbn. by rewrite String.eqb_refl. Qed.

Lemma balanced_asked o qs : balanced (Solving o :: (Asked <$> qs)).
Proof. intros open. cbn. induction qs as [|q qs IH]; [done|apply IH]. Qed.

#[export] Hint Resolve balanced_nil balanced_app balanced_conn balanced_dir balanced_asked : core.

Section build.
Context `{HH : Host} `{HC : Control} `{HD : Daemon}.
Context (nonce : string) (s : Spec) (cfg : BuildConfig).
Abbreviation run := (Build nonce s cfg).

(** Staging opens exactly the directory it returns. *)
Lemma stageHelper_cases path :
  (∃ dir, stageHelper path = ([Staged dir], Ok dir)) ∨
  (∃ evs e, stageHelper path = (evs, Err e) ∧ (evs = [] ∨ ∃ dir, evs = [Staged dir; Unstaged dir])).
Proof.
  unfold stageHelper. destruct (helper_path path) as [p|e]; [|right; eauto].
  destruct (ReadHostFile p) as [src|]; [|right; eauto].
  destruct (negb _); [right; eauto|]. destruct MkdirTemp as [dir|]; [|right; eauto].
  destruct (WriteFile _ src); [left; by exists dir|right].
  exists [Staged dir; Unstaged dir], CStage. split; [done|]. right. by exists dir.
Qed.

Lemma connected_balanced dirs : balanced (connected nonce s cfg dirs).1.
Proof.
  unfold connected. destruct (Dial (Addr cfg)); cbn [negb]; [|done]. unfold emit, deferred. cbn [fst].
  apply balanced_conn. destruct (solve_options _ _ _) as [o|e]; cbn [fst]; [|done].
  unfold solve, emit. destruct (OpenSession o); cbn [fst]; [done|apply (balanced_asked o [])].
Qed.

(** C31. Whatever fails - the helper, the dial, an option, the session, the solve, the
    exporter - the connection that was opened is closed and the helper directory that
    was staged is removed, innermost first. *)
Theorem Build_releases : held [] run.1 = Some [].
Proof.
  assert (balanced run.1) as H; [|by apply H]. unfold Build. cbv zeta.
  destruct (_ && _); [done|]. destruct (Validate s); [|done]. destruct (checkContextDir _ s); [|done].
  destruct (HelperRef s =s ""); [|apply connected_balanced].
  destruct (stageHelper_cases (HelperBin cfg)) as [(dir & ->)|(evs & e & -> & [->|[dir ->]])]; cbn [fst].
  - unfold deferred. cbn [fst]. apply balanced_dir, connected_balanced.
  - done.
  - apply (balanced_dir dir []). done.
Qed.

(** ** What is sent *)

(** A mount, a secret and an entitlement for every part of the request that needs it,
    and for no other. *)
Definition options_fit (o : SolveOpt) : Prop :=
  LocalMounts o !! "context" = Some (ContextDir cfg) ∧
  LocalMounts o !! "src" = (if SrcDir cfg =s "" then None else Some (SrcDir cfg)) ∧
  (is_Some (LocalMounts o !! "helper") ↔ HelperRef s = "") ∧
  AllowedEntitlements o = (if NetworkHost s then [EntitlementNetworkHost] else []) ∧
  Exports o = (if OutDir cfg =s "" then [] else [ExporterLocal (OutDir cfg)]) ∧
  Secrets o = (if SeedURL s =s "" then None else Some (seed_secrets cfg s)) ∧
  (SeedURL s ≠ "" → AccessKey cfg ≠ "" ∧ SecretKey cfg ≠ "") ∧
  Forall2 (λ spec e, ParseCacheEntry spec (AccessKey cfg) (SecretKey cfg) = Ok e)
    (CacheExportSpecs cfg) (SolveCacheExports o) ∧
  Forall2 (λ spec e, ParseCacheEntry spec (AccessKey cfg) (SecretKey cfg) = Ok e)
    (CacheImportSpecs cfg) (SolveCacheImports o).

Lemma entries_Ok err l es :
  entries err cfg l = Ok es →
  Forall2 (λ spec e, ParseCacheEntry spec (AccessKey cfg) (SecretKey cfg) = Ok e) l es.
Proof.
  revert es. induction l as [|e l IH]; intros es; cbn [entries]; [intros [= <-]; constructor|].
  rewrite bind_Ok. intros (entry & He%map_err_Ok & Hr). apply bind_Ok in Hr as (rest & Hr & [= <-]).
  constructor; [done|by apply IH].
Qed.

Lemma solve_options_Ok dirs o :
  solve_options cfg s dirs = Ok o →
  LocalMounts o = dirs ∧ AllowedEntitlements o = (if NetworkHost s then [EntitlementNetworkHost] else []) ∧
  Exports o = (if OutDir cfg =s "" then [] else [ExporterLocal (OutDir cfg)]) ∧
  Secrets o = (if SeedURL s =s "" then None else Some (seed_secrets cfg s)) ∧
  (SeedURL s ≠ "" → AccessKey cfg ≠ "" ∧ SecretKey cfg ≠ "") ∧
  entries CExport cfg (CacheExportSpecs cfg) = Ok (SolveCacheExports o) ∧
  entries CImport cfg (CacheImportSpecs cfg) = Ok (SolveCacheImports o).
Proof.
  unfold solve_options. rewrite then_Ok_any. intros (_ & H). apply bind_Ok in H as (sec & Hsec & H).
  apply bind_Ok in H as (ex & Hex & H). apply bind_Ok in H as (im & Him & [= <-]).
  cbn. assert (Secrets_sent : sec = (if SeedURL s =s "" then None else Some (seed_secrets cfg s)) ∧
    (SeedURL s ≠ "" → AccessKey cfg ≠ "" ∧ SecretKey cfg ≠ "")).
  { destruct (String.eqb_spec (SeedURL s) ""); cbn [negb] in Hsec; [by injection Hsec as <-|].
    destruct (String.eqb_spec (AccessKey cfg) ""), (String.eqb_spec (SecretKey cfg) ""); try done.
    by injection Hsec as <-. }
  destruct Secrets_sent. split_and!; try done. by destruct (OutDir cfg =s "").
Qed.

(** The directories mounted from. *)
Definition client_dirs (helper : option string) : gmap string string :=
  let dirs := <["context" := ContextDir cfg]> ∅ in
  let dirs := match helper with Some dir => <["helper" := dir]> dirs | None => dirs end in
  if SrcDir cfg <>s "" then <["src" := SrcDir cfg]> dirs else dirs.

Definition helper_fits (helper : option string) : Prop := is_Some helper ↔ HelperRef s = "".

Definition gateway_path (o : SolveOpt) : Talk GatewayError (option reference) :=
  GatewaySolve nonce s (MkGatewayOpts "" (SolveCacheImports o)).

Lemma connected_events dirs e :
  In e (connected nonce s cfg dirs).1 →
  e = Dialled (Addr cfg) ∨ e = Closed ∨
  ∃ o, solve_options cfg s (if SrcDir cfg <>s "" then <["src" := SrcDir cfg]> dirs else dirs) = Ok o ∧
       (e = Solving o ∨ ∃ q, e = Asked q ∧ In q (asked (gateway_path o))).
Proof.
  unfold connected. destruct (Dial (Addr cfg)); cbn [negb]; [|done]. unfold emit, deferred. cbn [fst].
  intros [<-|[H|[<-|[]]]%in_app_iff]; [by left| |by right; left].
  destruct (solve_options _ _ _) as [o|e']; [|done]. right. right. exists o. split; [done|].
  unfold solve, emit in H. cbn [fst] in H. destruct H as [<-|H]; [by left|]. right.
  destruct (OpenSession o); [|done]. cbn [fst] in H.
  apply list_elem_of_In, list_elem_of_fmap in H as (q & -> & Hq). exists q. split; [done|].
  by apply list_elem_of_In.
Qed.

(** The checks made on this side. *)
Definition checked : Prop :=
  (SeedPush s = true → SeedURL s ≠ "") ∧ Validate s = Ok tt ∧
  checkContextDir (context_at (ContextDir cfg)) s = Ok tt.

(** From the staging on. *)
Definition launched : Act (option BuildResult * option ClientError) :=
  let dirs := <["context" := ContextDir cfg]> ∅ in
  if HelperRef s =s "" then
    match stageHelper (HelperBin cfg) with
    | (evs, Err e) => (evs, (None, Some e))
    | (evs, Ok dir) =>
        let c := deferred (Unstaged dir) (connected nonce s cfg (<["helper" := dir]> dirs)) in
        (evs ++ c.1, c.2)
    end
  else connected nonce s cfg dirs.

Lemma run_checked : run.1 = [] ∨ checked ∧ run = launched.
Proof.
  unfold Build, checked, launched. cbv zeta.
  destruct (SeedPush s) eqn:Hp, (String.eqb_spec (SeedURL s) "") as [Hu|Hu]; cbn [andb]; [by left|..];
    (destruct (Validate s) as [[]|]; [|by left]);
    (destruct (checkContextDir _ s) as [[]|]; [|by left]); by right.
Qed.

Definition cleaning (e : client_event) : Prop := ∃ dir, e = Staged dir ∨ e = Unstaged dir.

Lemma launched_events e :
  In e launched.1 →
  cleaning e ∨ ∃ helper, helper_fits helper ∧
    In e (connected nonce s cfg (match helper with
      | Some dir => <["helper" := dir]> (<["context" := ContextDir cfg]> ∅)
      | None => <["context" := ContextDir cfg]> ∅ end)).1.
Proof.
  unfold launched, cleaning, helper_fits. cbv zeta.
  destruct (String.eqb_spec (HelperRef s) "") as [Hh|Hh].
  - destruct (stageHelper_cases (HelperBin cfg)) as [(dir & ->)|(evs & e' & -> & Hevs)]; cbn [fst].
    + unfold deferred. cbn [fst app]. intros [<-|[H|[<-|[]]]%in_app_iff]; [left; eauto| |left; eauto].
      right. exists (Some dir). split; [|done]. by split; eauto.
    + intros H. left. destruct Hevs as [->|[dir ->]]; [done|]. destruct H as [<-|[<-|[]]]; eauto.
  - intros H. right. exists None. split; [|done]. split; [by intros []|done].
Qed.

(** The options and the requests of a run. *)
Definition solves (o : SolveOpt) : Prop :=
  ∃ helper, helper_fits helper ∧ solve_options cfg s (client_dirs helper) = Ok o.

Lemma run_events e :
  In e run.1 →
  checked ∧ (cleaning e ∨ e = Dialled (Addr cfg) ∨ e = Closed ∨
    ∃ o, solves o ∧ (e = Solving o ∨ ∃ q, e = Asked q ∧ In q (asked (gateway_path o)))).
Proof.
  destruct run_checked as [->|[Hc ->]]; [done|].
  intros [?|(helper & Hf & He)]%launched_events; split; auto.
  apply connected_events in He as [->|[->|(o & Ho & He)]]; auto. do 3 right. exists o. split; [|done].
  exists helper. split; [done|]. unfold client_dirs. by destruct helper.
Qed.

Lemma client_dirs_fit helper :
  helper_fits helper →
  client_dirs helper !! "context" = Some (ContextDir cfg) ∧
  client_dirs helper !! "src" = (if SrcDir cfg =s "" then None else Some (SrcDir cfg)) ∧
  (is_Some (client_dirs helper !! "helper") ↔ HelperRef s = "").
Proof.
  unfold helper_fits, client_dirs. intros <-.
  destruct helper as [dir|], (SrcDir cfg =s ""); cbn [negb]; rewrite ?lookup_insert_eq;
    repeat (rewrite lookup_insert_ne by done); rewrite ?lookup_insert_eq, ?lookup_empty;
    (split; [done|]); (split; [done|]); split; intros []; eauto; done.
Qed.

(** Every request belongs to a solve of the same trace. *)
Definition paired (evs : list client_event) : Prop :=
  ∀ q, In (Asked q) evs → ∃ o, In (Solving o) evs ∧ In q (asked (gateway_path o)).

Lemma paired_app evs1 evs2 : paired evs1 → paired evs2 → paired (evs1 ++ evs2).
Proof.
  intros H1 H2 q [(o & Ho & Hq)%H1|(o & Ho & Hq)%H2]%in_app_iff; exists o; rewrite in_app_iff; auto.
Qed.

Lemma paired_nil : paired [].
Proof. by intros q []. Qed.

Lemma paired_one e : (∀ q, e ≠ Asked q) → paired [e].
Proof. intros He q [->|[]]. by destruct (He q). Qed.

Lemma solve_paired o : paired (solve nonce s o).1.
Proof.
  unfold solve, emit. cbn [fst]. intros q [|Hq]; [done|]. exists o. split; [by left|].
  destruct (OpenSession o); [|done]. cbn [fst] in Hq.
  apply list_elem_of_In, list_elem_of_fmap in Hq as (q' & [= ->] & Hq). by apply list_elem_of_In.
Qed.

Lemma connected_paired dirs : paired (connected nonce s cfg dirs).1.
Proof.
  unfold connected. destruct (Dial _); cbn [negb]; [|apply paired_nil]. unfold emit, deferred. cbn [fst].
  apply (paired_app [_] _); [by apply paired_one|]. apply paired_app; [|by apply paired_one].
  destruct (solve_options _ _ _); [apply solve_paired|apply paired_nil].
Qed.

Lemma launched_paired : paired launched.1.
Proof.
  unfold launched. cbv zeta. destruct (HelperRef s =s ""); [|apply connected_paired].
  destruct (stageHelper_cases (HelperBin cfg)) as [(dir & ->)|(evs & e' & -> & [->|[dir ->]])]; cbn [fst].
  - apply (paired_app [_] _); [by apply paired_one|]. apply paired_app; [apply connected_paired|by apply paired_one].
  - apply paired_nil.
  - by apply (paired_app [Staged dir] [Unstaged dir]); apply paired_one.
Qed.

Lemma solves_fit o : solves o → options_fit o.
Proof.
  intros (helper & Hf & (Hl & He & Hx & Hs & Hk & Hce & Hci)%solve_options_Ok).
  destruct (client_dirs_fit helper Hf) as (H1 & H2 & H3). unfold options_fit. rewrite Hl.
  split_and!; try done; by eapply entries_Ok.
Qed.

Lemma pinned_push mode s' : pinned mode s s' → SeedPush s' = SeedPush s.
Proof. by intros [[_ ->]|(_ & ref & dgst & _ & _ & ->)]. Qed.

(** The step reads the secrets as this specification's seed configuration. *)
Lemma seed_secrets_read :
  valid_spec s → SeedURL s ≠ "" →
  loadSeedCfg (seed_secrets cfg s) = Some (MkSeedCfg (SeedURL s) (seed_key s)
    (if SeedRegion s =s "" then "auto" else SeedRegion s) (SeedPush s)).
Proof.
  intros V Hurl. rewrite (loadSeedCfg_SeedCfg s); [done|done|done|]. unfold seed_secrets, SeedCfg.
  rewrite !lookup_insert_ne by done. rewrite lookup_insert_eq. apply eqb_false in Hurl. by rewrite Hurl.
Qed.

(** And signs with the client's keys, at the host and for the bucket of the seed URL. *)
Lemma s3Client_sent endpoint bucket :
  valid_spec s → SeedURL s = "https://" +:+ endpoint +:+ "/" +:+ bucket →
  ContainsByte endpoint "/" = false → bucket ≠ "" →
  loadSeedCfg (seed_secrets cfg s) ≫= s3Client (seed_secrets cfg s) =
  Some (MkS3Client ("https://" +:+ endpoint) (if SeedRegion s =s "" then "auto" else SeedRegion s)
          (TrimSpace (AccessKey cfg)) (TrimSpace (SecretKey cfg)) true, bucket).
Proof.
  intros V Hu He Hb. rewrite seed_secrets_read by (done || by rewrite Hu). cbn [mbind option_bind].
  unfold s3Client, s3Target. cbn [url region]. rewrite Hu, TrimPrefix_app.
  change ("/" +:+ bucket) with (String "/" bucket). rewrite Cut_app by done.
  apply eqb_false in Hb. rewrite Hb. cbn [negb orb mbind option_bind].
  unfold seed_secrets. rewrite !lookup_insert_ne, lookup_insert_eq by done. cbn [mbind option_bind].
  by destruct (String.eqb_spec (SeedRegion s) "") as [|Hr]; [|apply eqb_false in Hr; rewrite ?Hr].
Qed.

(** C9. Nothing leaves the machine unchecked, and what leaves is consistent. Any event
    at all means a valid specification whose context files are in place and a seed URL
    for a requested push. Whatever is handed to the solve has exactly the mounts,
    entitlement, exporter, cache entries and secrets the request needs, with both
    credentials when it seeds; every request of the daemon is one the gateway path
    makes, with the cache imports of that very solve; and for a seeded build the
    secrets are ones the step reads as this specification's seed configuration, so its
    push check cannot fail. *)
Theorem Build_sends :
  (∀ e, In e run.1 → checked) ∧
  (∀ o, In (Solving o) run.1 →
     options_fit o ∧
     (SeedURL s ≠ "" → ∃ m, Secrets o = Some m ∧
        loadSeedCfg m = Some (MkSeedCfg (SeedURL s) (seed_key s)
          (if SeedRegion s =s "" then "auto" else SeedRegion s) (SeedPush s)) ∧
        ∀ n mode s', pinned mode s s' → checkSeedPush (compile_env n s') (loadSeedCfg m) = Ok tt)) ∧
  (∀ q, In (Asked q) run.1 → ∃ o, In (Solving o) run.1 ∧ In q (asked (gateway_path o))).
Proof.
  destruct run_checked as [Hrun|[Hc Hrun]]; rewrite Hrun; [by split_and!|].
  split; [done|]. split; [|apply launched_paired].
  intros o Ho. assert (solves o) as Hso.
  { rewrite <- Hrun in Ho. apply run_events in Ho as (_ & [[dir [|]]|[|[|(o' & Ho' & [[= ->]|(q & ? & _)])]]]); done. }
  apply solves_fit in Hso. split; [done|]. intros Hurl. exists (seed_secrets cfg s).
  destruct Hc as (_ & Hv%Validate_valid & _). destruct Hso as (_ & _ & _ & _ & _ & -> & _).
  pose proof (seed_secrets_read Hv Hurl) as Hl.
  split; [apply eqb_false in Hurl; by rewrite Hurl|]. split; [done|]. intros n mode s' Hp. rewrite Hl.
  unfold checkSeedPush. rewrite getenv_push, (pinned_push _ _ Hp). cbn [push]. by destruct (SeedPush s).
Qed.
End build.
