(* ===== verification/ClientScenarios.v ===== *)
(** A host and a daemon that cooperate, and the client run against them. *)

From S2P Require Import Prelude GoString Spec SpecValid LLB StepEnv Gateway GatewayLaws Client BuildLaws.

#[local] Instance laptop : Host := {|
  Executable := Some "/usr/local/bin/kbuildctl";
  ReadHostFile p := if p =s "/usr/local/bin/kbuild-step" then Some "ELF" else None;
  elf_machine _ := Some 62%Z;
  MkdirTemp := Some "/tmp/kbuild-helper-1";
  WriteFile _ _ := true;
  context_at _ := Gateway.ContextDir (λ p, p =s "kernel.config") [];
  range m := map_to_list m;
  NewFS _ := true
|}.

#[local] Instance buildkitd : Control := {|
  Dial _ := true;
  OpenSession _ := true;
  Export _ _ := true;
  Stream _ := [MkStatus [MkVertex "d1" "compile" (Some 5%Z) None false] ["  CC  init/main.o" +:+ chr 10];
               MkStatus [MkVertex "d1" "compile" None (Some 9%Z) false] ["  CC  init/version.o" +:+ chr 10]]
|}.

(** A registry whose tag points at one digest, and the context as sent. *)
Definition registry (digest : string) : Daemon := {|
  ResolveImageConfig ref _ := Ok (ref, digest);
  Solve _ _ := Ok (Some (Reference (λ p, p =s "kernel.config") (λ _ _, None) (λ _, None)))
|}.

Definition tagged : Spec :=
  set_ToolchainReady true (set_Base "docker.io/tuxmake/x86_64_gcc"
    (set_SeedPrefix "kbuild-seed" (set_SeedURL "https://s3.example.com/bucket" DefaultSpec))).

Definition config : BuildConfig :=
  MkBuildConfig "tcp://127.0.0.1:1234" "kernel" "" "" "out" [] ["type=registry,ref=ghcr.io/o/c:main"] "AK" "SK".

Definition build_with (digest : string) : Act (option BuildResult * option ClientError) :=
  @Build laptop buildkitd (registry digest) "n0" tagged config.

(** The report of that run. *)
Example build_reports :
  (build_with "sha256:01").2 =
  (Some (MkBuildResult [Timing "compile" false 4%Z] 2
           ("  CC  init/main.o" +:+ chr 10 +:+ "  CC  init/version.o" +:+ chr 10)), None).
Proof. by vm_compute. Qed.

Definition secrets_sent (evs : list client_event) : list (option string) :=
  omap (λ e, match e with
             | Solving o => Some (m ← Secrets o; loadSeedCfg m ≫= λ c, Some (key c))
             | _ => None
             end) evs.

(** The last graph solved. *)
Definition graph_solved (evs : list client_event) : option State :=
  last (omap (λ e, match e with Asked (QSolve st _) => Some st | _ => None end) evs).

Definition pinned_at (digest : string) : Spec :=
  set_Base ("docker.io/tuxmake/x86_64_gcc@" +:+ digest) tagged.

(** The seed does not follow the pin. A tagged base is resolved before the graph is
    made, so when the tag moves the persistent object tree is another mount; but the
    client writes the seed key into the secret before that, from the tag, so both
    builds push to and pull from the one seed object, whose tree the other compiler
    built. Shown on two runs of the same request against a registry whose tag moved in
    between. *)
Theorem Build_seed_key_moves :
  let before := build_with "sha256:01" in
  let after := build_with "sha256:02" in
  before.2.2 = None ∧ after.2.2 = None ∧
  Ok <$> graph_solved before.1 = Some (KernelLLB "n0" (pinned_at "sha256:01")) ∧
  Ok <$> graph_solved after.1 = Some (KernelLLB "n0" (pinned_at "sha256:02")) ∧
  cache_mount_id (pinned_at "sha256:01") ≠ cache_mount_id (pinned_at "sha256:02") ∧
  secrets_sent before.1 = [Some (seed_key tagged)] ∧ secrets_sent after.1 = [Some (seed_key tagged)].
Proof. cbv zeta. split_and!; by vm_compute. Qed.
