(* ===== verification/Prune.v ===== *)
(** client.go, [Prune]: a call of the daemon that writes its usage records to a channel
    it does not close, a goroutine that drains it, and the hand-over at the end. As a
    step relation over the two goroutines, every send a rendezvous. *)

From S2P Require Import Prelude GoString.

Section prune.
Context {UsageInfo error : Type}.

(** Where Prune itself is: in the daemon's call with the records still to be written,
    before close(ch), before <-done, before the deferred Close, back. *)
Inductive phase :=
  | Pruning (left : list UsageInfo)
  | Closing
  | Waiting
  | Releasing
  | Returned.

Record state := State {
  main : phase;
  draining : bool;             (* the goroutine is in its range loop *)
  drained : list UsageInfo;    (* what the loop has taken *)
  ch_closed : bool;
  done_closed : bool;
  connected : bool;
  panicked : bool              (* a send on, or a close of, a closed channel *)
}.

(** After client.New succeeded and the goroutine was started. *)
Definition started (usage : list UsageInfo) : state := State (Pruning usage) true [] false false true false.

Inductive step : state → state → Prop :=
  | send_drain x l s :
      main s = Pruning (x :: l) → draining s = true → ch_closed s = false →
      step s (State (Pruning l) true (drained s ++ [x]) false (done_closed s) (connected s) (panicked s))
  | send_panic x l s :
      main s = Pruning (x :: l) → ch_closed s = true →
      step s (State (Pruning l) (draining s) (drained s) true (done_closed s) (connected s) true)
  | prune_return s :
      main s = Pruning [] →
      step s (State Closing (draining s) (drained s) (ch_closed s) (done_closed s) (connected s) (panicked s))
  | close_ch s :
      main s = Closing →
      step s (State Waiting (draining s) (drained s) true (done_closed s) (connected s)
                (panicked s || ch_closed s))
  | range_ends s :
      draining s = true → ch_closed s = true →
      step s (State (main s) false (drained s) true true (connected s) (panicked s || done_closed s))
  | wait_done s :
      main s = Waiting → done_closed s = true →
      step s (State Releasing (draining s) (drained s) (ch_closed s) true (connected s) (panicked s))
  | release s :
      main s = Releasing →
      step s (State Returned (draining s) (drained s) (ch_closed s) (done_closed s) false (panicked s)).

(** Prune of a reachable daemon whose call writes [usage] and returns [err]; the error
    returned is the call's own. *)
Definition Prune (dial : option error) (usage : list UsageInfo) (err : option error) :
    option state * option error :=
  match dial with
  | Some e => (None, Some e)
  | None => (Some (started usage), err)
  end.

(** ** The invariant *)

Definition at_phase (usage : list UsageInfo) (s : state) : Prop :=
  match main s with
  | Pruning l => drained s ++ l = usage ∧ draining s = true ∧ ch_closed s = false ∧ done_closed s = false ∧ connected s = true
  | Closing => drained s = usage ∧ draining s = true ∧ ch_closed s = false ∧ done_closed s = false ∧ connected s = true
  | Waiting => drained s = usage ∧ ch_closed s = true ∧ done_closed s = negb (draining s) ∧ connected s = true
  | Releasing => drained s = usage ∧ ch_closed s = true ∧ done_closed s = true ∧ draining s = false ∧ connected s = true
  | Returned => drained s = usage ∧ ch_closed s = true ∧ done_closed s = true ∧ draining s = false ∧ connected s = false
  end.

Definition sound (usage : list UsageInfo) (s : state) : Prop := panicked s = false ∧ at_phase usage s.

Lemma sound_step usage s s' : step s s' → sound usage s → sound usage s'.
Proof using.
  unfold sound, at_phase. intros Hst [Hpa Hat].
  destruct Hst as [x l s Hm|x l s Hm|s Hm|s Hm|s Hd Hc|s Hm|s Hm]; destruct s as [p d l' c dn cn pa];
    cbn in *; subst; cbn in *; destruct_and?; simplify_eq; try (by split_and!).
  - split_and!; try done. by rewrite <- app_assoc.
  - split_and!; try done. by rewrite app_nil_r.
  - by destruct p; destruct_and?; simplify_eq.
  - by destruct d.
Qed.

(** ** Progress *)

Definition steps_left (s : state) : nat :=
  match main s with
  | Pruning l => 5 + length l
  | Closing => 4
  | Waiting => 2 + (if draining s then 1 else 0)
  | Releasing => 1
  | Returned => 0
  end.

Lemma step_decreases usage s s' : step s s' → sound usage s → (steps_left s' < steps_left s)%nat.
Proof using.
  unfold sound, at_phase, steps_left. intros Hst [_ Hat].
  destruct Hst as [x l s Hm|x l s Hm|s Hm|s Hm|s Hd Hc|s Hm|s Hm]; destruct s as [p d l' c dn cn pa];
    cbn in *; subst; cbn in *; destruct_and?; simplify_eq; try lia.
  destruct p; destruct_and?; simplify_eq; lia.
Qed.

Lemma Prune_moves usage s : sound usage s → main s = Returned ∨ ∃ s', step s s'.
Proof using.
  unfold sound, at_phase. destruct s as [p d l c dn cn pa]. cbn. intros [-> H].
  destruct p as [[|x more]| | | |]; [right..|by left]; destruct_and?; subst.
  - eexists. by apply prune_return.
  - eexists. by eapply send_drain.
  - eexists. by apply close_ch.
  - destruct d; eexists; [by apply range_ends|by apply wait_done].
  - eexists. by apply release.
Qed.

(** Prune never hangs, leaks or panics, whatever the daemon writes: however its call
    and the draining goroutine interleave, every run ends, within five steps and one
    for each record; it is stuck only once it has returned; and then every record was
    taken, the goroutine is gone, each channel was closed once and the connection is
    closed. *)
Theorem Prune_returns (usage : list UsageInfo) (s : state) (n : nat) :
  relations.nsteps step n (started usage) s →
  (n ≤ 5 + length usage)%nat ∧ panicked s = false ∧
  (main s = Returned ∨ ∃ s', step s s') ∧
  (main s = Returned → drained s = usage ∧ draining s = false ∧ ch_closed s = true ∧ connected s = false).
Proof using.
  intros Hn.
  assert (sound usage (started usage)) as H0 by done.
  assert (sound usage s ∧ (n + steps_left s ≤ 5 + length usage)%nat) as [Hs Hl].
  { change (5 + length usage)%nat with (steps_left (started usage)).
    revert H0. generalize (started usage) as s0, Hn. intros s0 Hn0 H0. clear Hn.
    induction Hn0 as [s0|n s0 s1 s2 Hst _ IH]; [split; [done|lia]|].
    pose proof (step_decreases _ _ _ Hst H0). destruct (IH (sound_step _ _ _ Hst H0)) as [? ?].
    split; [done|lia]. }
  split; [lia|]. split; [apply Hs|]. split; [by apply (Prune_moves usage)|].
  intros Hr. destruct Hs as [_ Hs]. unfold at_phase in Hs. rewrite Hr in Hs. naive_solver.
Qed.
End prune.
