(* ===== verification/Ctl.v ===== *)
(** cmd/kbuildctl/main.go: the command line. The flags after flag.Parse are a record
    with the flag package's defaults; [ctl_spec] and [ctl_config] are what main makes
    of them, [kbuildctl] is main from there to the exit code. It agrees with the
    frontend's options, flag by flag. *)

From S2P Require Import Prelude GoString Spec SpecValid LLB Kernelfile Gateway Frontend FrontendLaws Client.

(** ** Flags *)

Record flags := MkFlags {
  addr : string;
  ctxDir : string;
  proxyCA : string;
  helperBin : string;
  srcDir : string;
  srcName : string;
  out : string;
  noExport : bool;
  proxy : string;
  httpProxy : string;
  noProxy : string;
  sha : string;
  apply_patches : bool;
  targets : string;
  version : string;
  config : string;
  expect : string;
  baseMake : string;
  baseImg : string;
  tcReady : bool;
  arch : string;
  cross : string;
  seedURL : string;
  seedPrefix : string;
  seedRegion : string;
  seedPush : bool;
  cacheS3 : string;
  exportCaches : list string;
  importCaches : list string;
  noCache : bool;
  timing : bool
}.

Definition default_flags : flags := {|
  addr := "tcp://127.0.0.1:1234"; ctxDir := "."; proxyCA := ""; helperBin := ""; srcDir := "";
  srcName := ""; out := "out"; noExport := false; proxy := ""; httpProxy := ""; noProxy := "";
  sha := ""; apply_patches := false; targets := ""; version := ""; config := ""; expect := "";
  baseMake := ""; baseImg := ""; tcReady := false; arch := ""; cross := ""; seedURL := "";
  seedPrefix := "kbuild-seed"; seedRegion := ""; seedPush := false; cacheS3 := "";
  exportCaches := []; importCaches := []; noCache := false; timing := true
|}.

(** [multiFlag.Set]: a repeated flag collects its values in order. *)
Definition multiFlag_Set (m : list string) (v : string) : list string := m ++ [v].

(** [if *v != "" { spec.f = *v }] *)
Definition given_flag (v : string) (set : string → Spec → Spec) (s : Spec) : Spec :=
  if v <>s "" then set v s else s.

Definition ctl_spec (f : flags) : Spec :=
  let s := DefaultSpec in
  let s := if version f <>s ""
           then set_SourceSHA256 "" (set_SourceURL (SourceURLFor (version f))
                  (set_KernelVersion (version f) s)) else s in
  let s := given_flag (config f) set_ConfigName s in
  let s := set_ExpectName (expect f) s in
  let s := set_BaseMake (baseMake f) s in
  let s := given_flag (baseImg f) set_Base s in
  let s := set_ToolchainReady (tcReady f) s in
  let s := set_Arch (arch f) s in
  let s := set_CrossCompile (cross f) s in
  let s := set_HTTPSProxy (proxy f) s in
  let s := set_HTTPProxy (httpProxy f) s in
  let s := set_NoProxy (noProxy f) s in
  let s := given_flag (sha f) set_SourceSHA256 s in
  let s := set_ApplyPatches (apply_patches f) s in
  let s := if targets f <>s "" then set_Targets (Split (targets f) ",") s else s in
  let s := set_SeedURL (seedURL f) s in
  let s := set_SeedPrefix (seedPrefix f) s in
  let s := set_SeedRegion (seedRegion f) s in
  let s := set_SeedPush (seedPush f) s in
  let s := set_ProxyCAFile (proxyCA f) s in
  let s := set_IgnoreCache (noCache f) s in
  given_flag (srcName f) set_SourceLocalName s.

(** The rest of the configuration, [-cache-s3] expanded into both directions. *)
Definition ctl_config (f : flags) (env : gmap string string) : result S3CacheURLError BuildConfig :=
  let cfg exports imports :=
    MkBuildConfig (addr f) (ctxDir f) (helperBin f) (srcDir f) (if noExport f then "" else out f)
      exports imports (default "" (env !! "AWS_ACCESS_KEY_ID")) (default "" (env !! "AWS_SECRET_ACCESS_KEY")) in
  if cacheS3 f <>s "" then
    entry ← S3CacheURL (cacheS3 f) (seedRegion f);
    Ok (cfg (exportCaches f ++ [entry]) (importCaches f ++ [entry]))
  else Ok (cfg (exportCaches f) (importCaches f)).

(** ** main *)

Inductive timing_row :=
  | RowCached (name : string)
  | RowTimed (duration : Z) (name : string)
  | RowUnknown (name : string).

Definition row_of (v : VertexTiming) : timing_row :=
  if TCached v then RowCached (TName v)
  else if (0 <? Duration v)%Z then RowTimed (Duration v) (TName v)
  else RowUnknown (TName v).

Inductive ctl_error :=
  | ENoSeedURL
  | ES3 (e : S3CacheURLError)
  | EBuild (e : ClientError).

(** What main prints: the timing table, then the error or the last line. *)
Record ctl_outcome := Outcome {
  rows : list timing_row;
  error : option ctl_error;
  message : string
}.

Definition exit_code (o : ctl_outcome) : Z := match error o with None => 0 | Some _ => 1 end.

Section main.
Context `{Host} `{Control} `{Daemon}.

Definition kbuildctl (nonce : string) (f : flags) (env : gmap string string) : Act ctl_outcome :=
  let s := ctl_spec f in
  if SeedPush s && (SeedURL s =s "") then ([], Outcome [] (Some ENoSeedURL) "")
  else match ctl_config f env with
  | Err e => ([], Outcome [] (Some (ES3 e)) "")
  | Ok cfg =>
      let '(evs, (res, err)) := Build nonce s cfg in
      let rows := match res with
                  | Some r => if timing f then row_of <$> Vertices r else []
                  | None => []
                  end in
      (evs, match err with
            | Some e => Outcome rows (Some (EBuild e)) ""
            | None => Outcome rows None
                (if noExport f then "OK (no export)"
                 else "OK -> " +:+ out f +:+ " (targets: " +:+ targets f +:+ ")")
            end)
  end.

End main.

(** ** The frontend's options for the same flags *)

Definition bool_opt (b : bool) : string := if b then "true" else "false".

Definition flag_options (f : flags) : options :=
  let m : options := list_to_map
    [("kernel-version", version f); ("config", config f); ("expect", expect f);
     ("base-make", baseMake f); ("proxy-ca", proxyCA f); ("src-name", srcName f);
     ("base", baseImg f); ("toolchain-ready", bool_opt (tcReady f)); ("arch", arch f);
     ("cross-compile", cross f); ("build-arg:https_proxy", proxy f);
     ("build-arg:http_proxy", httpProxy f); ("build-arg:no_proxy", noProxy f);
     ("source-sha256", sha f); ("targets", targets f); ("apply-patches", bool_opt (apply_patches f));
     ("seed-push", bool_opt (seedPush f))] in
  if noCache f then <["no-cache" := ""]> m else m.

(** The seed destination has no option: the frontend's users mount the secret. *)
Definition no_seed_dest (s : Spec) : Spec :=
  set_SeedURL (SeedURL DefaultSpec)
    (set_SeedPrefix (SeedPrefix DefaultSpec) (set_SeedRegion (SeedRegion DefaultSpec) s)).

Lemma default_empty :
  ExpectName DefaultSpec = "" ∧ BaseMake DefaultSpec = "" ∧ Arch DefaultSpec = "" ∧
  CrossCompile DefaultSpec = "" ∧ HTTPSProxy DefaultSpec = "" ∧ HTTPProxy DefaultSpec = "" ∧
  NoProxy DefaultSpec = "" ∧ ProxyCAFile DefaultSpec = "".
Proof. by vm_compute. Qed.

Lemma flag_values f k :
  opt_value (flag_options f) k =
  default "" ((list_to_map
    [("kernel-version", version f); ("config", config f); ("expect", expect f);
     ("base-make", baseMake f); ("proxy-ca", proxyCA f); ("src-name", srcName f);
     ("base", baseImg f); ("toolchain-ready", bool_opt (tcReady f)); ("arch", arch f);
     ("cross-compile", cross f); ("build-arg:https_proxy", proxy f);
     ("build-arg:http_proxy", httpProxy f); ("build-arg:no_proxy", noProxy f);
     ("source-sha256", sha f); ("targets", targets f); ("apply-patches", bool_opt (apply_patches f));
     ("seed-push", bool_opt (seedPush f))] : gmap string string) !! k).
Proof.
  unfold opt_value, flag_options. cbv zeta. destruct (noCache f); [|done].
  destruct (decide (k = "no-cache")) as [->|]; [by rewrite lookup_insert_eq|].
  by rewrite lookup_insert_ne by done.
Qed.

(** A value the flag set or, empty, the old one. *)
Lemma opt_or_flag f k v old :
  opt_value (flag_options f) k = v → opt_or (flag_options f) k old = if v =s "" then old else v.
Proof. unfold opt_or. by intros ->. Qed.

Lemma opt_or_unset f k v : opt_value (flag_options f) k = v → opt_or (flag_options f) k "" = v.
Proof. unfold opt_or. intros ->. by destruct (String.eqb_spec v ""). Qed.

Lemma opt_flag_bool f k b old :
  opt_value (flag_options f) k = bool_opt b → flag_ok (flag_options f) k ∧ opt_flag (flag_options f) k old = b.
Proof. unfold flag_ok, opt_flag. intros ->. by destruct b; cbn; auto. Qed.

(** A flag that names the builtin version by hand: the command line then forgets the
    builtin pin, the frontend keeps it. *)
Definition names_default (f : flags) : bool := version f =s KernelVersion DefaultSpec.

Definition pin_kept (f : flags) (s : Spec) : Spec :=
  set_SourceSHA256 (if names_default f && (sha f =s "") then SourceSHA256 DefaultSpec
                    else SourceSHA256 s) s.

(** The specification as plain settings over the builtin one. *)
Lemma ctl_spec_fields f :
  let d := DefaultSpec in
  let new := version f <>s "" in
  let or (v old : string) := if v <>s "" then v else old in
  ctl_spec f = {|
    Base := or (baseImg f) (Base d); KernelVersion := or (version f) (KernelVersion d);
    SourceURL := if new then SourceURLFor (version f) else SourceURL d;
    SourceSHA256 := or (sha f) (if new then "" else SourceSHA256 d);
    SourceLocalName := or (srcName f) (SourceLocalName d); SourceDateEpoch := SourceDateEpoch d;
    ConfigName := or (config f) (ConfigName d); ExpectName := expect f; BaseMake := baseMake f;
    ApplyPatches := apply_patches f; HTTPSProxy := proxy f; HTTPProxy := httpProxy f;
    NoProxy := noProxy f; ToolchainReady := tcReady f; Arch := arch f; CrossCompile := cross f;
    Targets := if targets f <>s "" then Split (targets f) "," else Targets d;
    ProxyCAFile := proxyCA f; HelperRef := HelperRef d; NetworkHost := NetworkHost d;
    IgnoreCache := noCache f; SeedURL := seedURL f; SeedRegion := seedRegion f;
    SeedPrefix := seedPrefix f; SeedPush := seedPush f |}.
Proof.
  cbv zeta. unfold ctl_spec, given_flag. cbv zeta. generalize DefaultSpec. intros d.
  destruct (version f <>s ""), (config f <>s ""), (baseImg f <>s ""), (sha f <>s ""),
    (targets f <>s ""), (srcName f <>s ""); reflexivity.
Qed.

Lemma same_default f :
  opt_or (flag_options f) "kernel-version" (KernelVersion DefaultSpec) =
    (if version f <>s "" then version f else KernelVersion DefaultSpec) ∧
  opt_or (flag_options f) "source-url" (derived_url (flag_options f) DefaultSpec) =
    (if version f <>s "" then SourceURLFor (version f) else SourceURL DefaultSpec) ∧
  new_source (flag_options f) DefaultSpec = (version f <>s "") && negb (names_default f).
Proof.
  assert (opt_value (flag_options f) "kernel-version" = version f) as Hv by (by rewrite flag_values).
  assert (opt_value (flag_options f) "source-url" = "") as Hu by (by rewrite flag_values).
  unfold opt_or, new_source, derived_url, new_version, names_default. rewrite Hv, Hu. cbn [negb andb].
  change ("" =s "") with true. cbn [negb andb]. rewrite orb_false_r.
  destruct (version f =s ""); cbn [negb andb]; [done|].
  destruct (String.eqb_spec (version f) (KernelVersion DefaultSpec)) as [->|]; cbn [negb]; [|done].
  split_and!; reflexivity.
Qed.

(** The target list as each front end reads it: kbuildctl at commas only, the frontend
    at commas, blanks and tabs, empty words dropped. *)
Definition words (f : flags) (s : Spec) : Spec :=
  set_Targets (if targets f =s "" then Targets s else FieldsFunc (targets f) target_sep) s.

(** A list kbuildctl may build is read alike. *)
Lemma words_valid f : valid_spec (ctl_spec f) → words f (ctl_spec f) = ctl_spec f.
Proof.
  intros V. pose proof (v_targets _ V) as Ht. unfold words.
  assert ((if targets f =s "" then Targets (ctl_spec f) else FieldsFunc (targets f) target_sep) = Targets (ctl_spec f)) as ->.
  { clear V. rewrite (ctl_spec_fields f) in *. cbn [Targets] in *. destruct (targets f =s ""); cbn [negb] in *; [done|].
    rewrite <- (Join_Split (targets f) ",") at 1. apply FieldsFunc_Join; [done|].
    eapply Forall_impl; [exact Ht|]. intros t Hin. repeat destruct Hin as [<-|Hin]; by vm_compute. }
  by destruct (ctl_spec f).
Qed.

Lemma ctl_overlay f :
  overlay (flag_options f) (arch f) DefaultSpec = pin_kept f (no_seed_dest (words f (ctl_spec f))).
Proof.
  destruct (same_default f) as (Hv & Hu & Hn).
  assert (∀ k v old, opt_value (flag_options f) k = v →
    opt_or (flag_options f) k old = if v <>s "" then v else old) as Hor.
  { intros k v old <-. unfold opt_or. by destruct (String.eqb (opt_value (flag_options f) k) ""). }
  rewrite ctl_spec_fields. unfold pin_kept, no_seed_dest, words.
  apply Spec_ext; cbn [overlay Base KernelVersion SourceURL SourceSHA256 SourceLocalName SourceDateEpoch
    ConfigName ExpectName BaseMake ApplyPatches HTTPSProxy HTTPProxy NoProxy ToolchainReady Arch
    CrossCompile Targets ProxyCAFile HelperRef NetworkHost IgnoreCache SeedURL SeedRegion SeedPrefix SeedPush
    set_SourceSHA256 set_SeedURL set_SeedPrefix set_SeedRegion set_Targets].
  all: try match goal with
    | |- opt_or _ _ _ = (if _ <>s "" then _ else _) => first [done|by apply Hor; rewrite flag_values]
    | |- opt_or _ _ ?d = ?d => by rewrite (Hor _ "") by (by rewrite flag_values)
    | |- opt_or _ _ _ = _ => by apply opt_or_unset; rewrite flag_values
    | |- opt_or2 _ _ _ _ = ?v =>
        unfold opt_or2; rewrite (opt_or_unset f _ "") by (by rewrite flag_values);
        by apply opt_or_unset; rewrite flag_values
    | |- opt_flag _ _ _ = _ => by apply opt_flag_bool; rewrite flag_values
    end; try reflexivity.
  - rewrite (Hor _ (sha f)) by (by rewrite flag_values). rewrite Hn.
    unfold names_default. destruct (sha f =s ""); cbn [negb]; [|by rewrite andb_false_r].
    rewrite andb_true_r. destruct (String.eqb_spec (version f) (KernelVersion DefaultSpec)) as [->|]; [done|].
    by destruct (version f <>s "").
  - assert (opt_value (flag_options f) "targets" = targets f) as -> by (by rewrite flag_values).
    by destruct (targets f =s "").
  - assert (opt_value (flag_options f) "force-network-mode" = "") as -> by (by rewrite flag_values). done.
  - unfold flag_options. cbv zeta. destruct (noCache f); [by rewrite lookup_insert_eq|done].
Qed.

(** C32. The two front ends mean the same build. For any flags the frontend given the
    options of the same names accepts them and arrives at kbuildctl's specification -
    but for the target list, which it splits at blanks as well as commas, the seed
    destination, which it takes from a secret, and the pin of a -kernel-version that
    names the builtin version, which kbuildctl forgets and the frontend keeps. If
    kbuildctl's specification is valid, the target lists are the same too: a list the
    two read differently (one with blanks) is one kbuildctl refuses. *)
Theorem ctl_agrees (parse_platform : string → option (string * string)) (f : flags) :
  let got := applyOpts parse_platform (flag_options f) DefaultSpec in
  got = Ok (pin_kept f (no_seed_dest (words f (ctl_spec f)))) ∧
  (valid_spec (ctl_spec f) → got = Ok (pin_kept f (no_seed_dest (ctl_spec f)))) ∧
  (valid_spec (ctl_spec f) → names_default f = false ∨ sha f ≠ "" → got = Ok (no_seed_dest (ctl_spec f))).
Proof.
  intros got. assert (got = Ok (pin_kept f (no_seed_dest (words f (ctl_spec f))))) as H.
  { apply applyOpts_Ok. split_and!; try (eapply (opt_flag_bool f _ _ true); by rewrite flag_values).
    exists (arch f). split; [|by rewrite ctl_overlay].
    unfold target_arch. assert (opt_value (flag_options f) "platform" = "") as -> by (by rewrite flag_values).
    cbn [String.eqb]. f_equal. apply opt_or_unset. by rewrite flag_values. }
  split; [done|]. assert (valid_spec (ctl_spec f) → got = Ok (pin_kept f (no_seed_dest (ctl_spec f)))) as Hv
    by (intros V; by rewrite H, words_valid).
  split; [done|]. intros V Hp. rewrite Hv by done. f_equal. unfold pin_kept.
  assert (names_default f && (sha f =s "") = false) as ->.
  { destruct Hp as [->|Hp]; [done|]. apply eqb_false in Hp. rewrite Hp. apply andb_false_r. }
  by destruct (no_seed_dest (ctl_spec f)).
Qed.

Definition given_targets (l : string) : flags := {|
    addr := ""; ctxDir := "."; proxyCA := "ca.crt"; helperBin := ""; srcDir := ""; srcName := "";
    out := "out"; noExport := false; proxy := "http://proxy:3128"; httpProxy := ""; noProxy := "";
    sha := ""; apply_patches := true; targets := l; version := "6.12.1"; config := "";
    expect := ""; baseMake := ""; baseImg := "docker.io/tuxmake/arm64_gcc"; tcReady := true; arch := "arm64";
    cross := "aarch64-linux-gnu-"; seedURL := ""; seedPrefix := "kbuild-seed"; seedRegion := ""; seedPush := false;
    cacheS3 := ""; exportCaches := []; importCaches := []; noCache := true; timing := true |}.

(** The list people type: the frontend builds it, kbuildctl does not. *)
Example blank_in_targets :
  Validate (ctl_spec (given_targets "vmlinux, image")) = Err (ETarget " image") ∧
  match applyOpts (λ _, None) (flag_options (given_targets "vmlinux, image")) DefaultSpec with
  | Ok s => Targets s = ["vmlinux"; "image"] ∧ Validate s = Ok tt
  | Err _ => False
  end.
Proof. by vm_compute. Qed.

Lemma ctl_agrees_witness :
  let f := given_targets "vmlinux,image" in
  valid_spec (ctl_spec f) ∧
  applyOpts (λ _, None) (flag_options f) DefaultSpec = Ok (no_seed_dest (ctl_spec f)).
Proof.
  intros f. assert (valid_spec (ctl_spec f)) as V by (apply Validate_valid; vm_compute; reflexivity).
  split; [exact V|]. destruct (ctl_agrees (λ _, None) f) as (_ & _ & H).
  apply H; [exact V|]. left. vm_compute. reflexivity.
Defined.
