(* ===== verification/Untar.v ===== *)
(** cmd/kbuild-step: tar extraction (main.go, [untarFiltered], [writeEntry],
    [stripComponents]) and the pool that writes small files concurrently (untarpool.go).
    The tree is a map from canonical paths to nodes, every operation goes through
    os.Root's resolution of symbolic links, and the pool is a step relation in which
    the reader and the workers interleave at every file system call. *)

From S2P Require Import Prelude GoString.

(** ** Paths *)

(** filepath.Clean on the components, the stack being reversed. *)
Definition clean_step (rooted : bool) (st : list string) (c : string) : list string :=
  if (c =s "") || (c =s ".") then st
  else if c =s ".." then
    match st with
    | [] => if rooted then [] else [".."]
    | d :: st' => if d =s ".." then ".." :: st else st'
    end
  else c :: st.

Definition Clean (p : string) : string :=
  let rooted := HasPrefix p "/" in
  let out := Join (rev (foldl (clean_step rooted) [] (Split p "/"))) "/" in
  if rooted then "/" +:+ out else if out =s "" then "." else out.

(** filepath.Join: empty elements are ignored, and none at all joins to the empty name. *)
Definition filepath_Join (elem : list string) : string :=
  match List.filter (λ e, e <>s "") elem with
  | [] => ""
  | l => Clean (Join l "/")
  end.

(** filepath.Dir of a clean relative name. *)
Definition Dir (name : string) : string :=
  match removelast (Split name "/") with [] => "." | l => Join l "/" end.

Definition stripComponents (name : string) (strip : nat) : option string :=
  let parts := Split (Clean name) "/" in
  if (length parts <=? strip)%nat then None else Some (filepath_Join (drop strip parts)).

(** ** The tree under an os.Root *)

Inductive node :=
  | NFile (mode : Z) (mtime : option Z) (data : string)   (* [None]: time of writing *)
  | NDir (mode : Z)
  | NLink (target : string).

#[export] Instance node_eq_dec : EqDecision node.
Proof. solve_decision. Defined.

(** Canonical paths, innermost component first; the root is []. A hard link shares
    its node by value: no operation below changes a file in place that another name
    could show, they remove and create. *)
Abbreviation path := (list string).
Abbreviation fs := (gmap (list string) node).

Inductive errno := ENotExist | EExist | ENotDir | ENotEmpty | EEscape | ELoop | EInvalid | ERead.

Section root.
(** How many symbolic links a resolution may follow, and the mode bits masked from new
    files. *)
Context (max_links : nat) (umask : Z).

Definition dir_at (t : fs) (p : path) : bool :=
  match p with [] => true | _ => match t !! p with Some (NDir _) => true | _ => false end end.

(** Resolution of [comps] from the directory [cwd]; [follow] concerns the last one. *)
Fixpoint walk (links : nat) (follow : bool) (t : fs) : path → list string → result errno path :=
  fix go (cwd : path) (comps : list string) {struct comps} : result errno path :=
    match comps with
    | [] => Ok cwd
    | c :: rest =>
        if (c =s "") || (c =s ".") then go cwd rest
        else if c =s ".." then match cwd with [] => Err EEscape | _ :: up => go up rest end
        else
          let p := c :: cwd in
          let last := match rest with [] => true | _ => false end in
          match t !! p with
          | None => if last then Ok p else Err ENotExist
          | Some (NDir _) => go p rest
          | Some (NFile _ _ _) => if last then Ok p else Err ENotDir
          | Some (NLink target) =>
              if last && negb follow then Ok p
              else if HasPrefix target "/" then Err EEscape
              else match links with
                   | O => Err ELoop
                   | S links => walk links follow t cwd (Split target "/" ++ rest)
                   end
          end
    end.

(** The name as a path: empty and absolute names are refused. *)
Definition resolve (follow : bool) (t : fs) (name : string) : result errno path :=
  if name =s "" then Err ENotExist
  else if HasPrefix name "/" then Err EEscape
  else walk max_links follow t [] (Split name "/").

(** MkdirAll creates what is missing along the way, through links too; a link in the
    last place must lead to a directory. *)
Fixpoint mkdirs (links : nat) (mode : Z) : fs → path → list string → result errno fs :=
  fix go (t : fs) (cwd : path) (comps : list string) {struct comps} : result errno fs :=
    match comps with
    | [] => Ok t
    | c :: rest =>
        if (c =s "") || (c =s ".") then go t cwd rest
        else if c =s ".." then match cwd with [] => Err EEscape | _ :: up => go t up rest end
        else
          let p := c :: cwd in
          let last := match rest with [] => true | _ => false end in
          match t !! p with
          | None => go (<[p := NDir mode]> t) p rest
          | Some (NDir _) => go t p rest
          | Some (NFile _ _ _) => Err ENotDir
          | Some (NLink target) =>
              if last then
                match walk max_links true t cwd [c] with
                | Ok q => if dir_at t q then Ok t else Err ENotDir
                | Err _ => Err ENotDir
                end
              else if HasPrefix target "/" then Err EEscape
              else match links with
                   | O => Err ELoop
                   | S links => mkdirs links mode t cwd (Split target "/" ++ rest)
                   end
          end
    end.

Definition masked (mode : Z) : Z := Z.land mode (Z.lnot umask).

(** Nothing lies below [p]. *)
Definition no_children (t : fs) (p : path) : bool :=
  forallb (λ x, match x with [] => true | _ :: up => negb (bool_decide (up = p)) end)
          (map fst (map_to_list t)).

Definition set_mode (mode : Z) (n : node) : node :=
  match n with
  | NFile _ mt d => NFile mode mt d
  | NDir _ => NDir mode
  | NLink tg => NLink tg
  end.

Definition set_mtime (mtime : Z) (n : node) : node :=
  match n with NFile m _ d => NFile m (Some mtime) d | n => n end.

(** The calls of the extraction. [Create] is the exclusive open with its write: until
    the barrier no one reads what is written. [Remove] forgives a missing name, as its
    callers do. *)
Inductive op :=
  | MkdirAll (name : string) (mode : Z)
  | Remove (name : string)
  | Create (name : string) (mode : Z) (data : string)
  | Chmod (name : string) (mode : Z)
  | Chtimes (name : string) (mtime : Z)
  | Symlink (target name : string)
  | Link (old name : string).

Definition put (t : fs) (name : string) (n : node) : result errno fs :=
  p ← resolve false t name;
  match p, t !! p with
  | [], _ => Err EExist
  | _, Some _ => Err EExist
  | _, None => Ok (<[p := n]> t)
  end.

Definition change (t : fs) (name : string) (f : node → node) : result errno fs :=
  p ← resolve true t name;
  match p, t !! p with
  | [], _ => Ok t
  | _, Some n => Ok (<[p := f n]> t)
  | _, None => Err ENotExist
  end.

Definition exec (o : op) (t : fs) : result errno fs :=
  match o with
  | MkdirAll name mode =>
      if name =s "" then Err ENotExist
      else if HasPrefix name "/" then Err EEscape
      else mkdirs max_links (masked mode) t [] (Split name "/")
  | Remove name =>
      match resolve false t name with
      | Err ENotExist => Ok t
      | Err e => Err e
      | Ok [] => Err EInvalid
      | Ok p => match t !! p with
                | Some (NDir _) => if no_children t p then Ok (delete p t) else Err ENotEmpty
                | _ => Ok (delete p t)
                end
      end
  | Create name mode data => put t name (NFile (masked mode) None data)
  | Chmod name mode => change t name (set_mode mode)
  | Chtimes name mtime => change t name (set_mtime mtime)
  | Symlink target name => put t name (NLink target)
  | Link old name =>
      p ← resolve false t old;
      match p, t !! p with
      | [], _ => Err EInvalid
      | _, Some (NDir _) => Err EInvalid
      | _, Some n => put t name n
      | _, None => Err ENotExist
      end
  end.

Definition exec_all (os : list op) (t : fs) : result errno fs := foldR (λ t o, exec o t) t os.

(** ** Entries *)

Inductive typeflag := TypeDir | TypeReg | TypeSymlink | TypeLink | TypeOther.

(** A header with what the stream still holds of its body. *)
Record header := Header {
  Name : string;
  Typeflag : typeflag;
  Linkname : string;
  Perm : Z;
  ModTime : Z;
  Size : nat;
  Body : string
}.

(** [writeEntry] and [writeFileBytes] make the same calls. *)
Definition write_ops (name : string) (mode mtime : Z) (data : string) : list op :=
  [MkdirAll (Dir name) 493; Remove name; Create name mode data; Chmod name mode; Chtimes name mtime].

Record writeJob := WriteJob {
  jname : string;
  jmode : Z;
  jmtime : Z;
  jdata : string
}.

Definition job_ops (j : writeJob) : list op := write_ops (jname j) (jmode j) (jmtime j) (jdata j).

(** What the reader does for an entry: a call of its own, a dispatched write, the
    barrier, a call behind the barrier, or the error of a short read. *)
Inductive instr :=
  | IDir (o : op)
  | IQueue (j : writeJob)
  | IFlush
  | IBar (o : op)
  | IFail.

Context (untarInlineLimit : nat) (strip : nat) (rename : option (string → string)).

Definition short (h : header) : bool := negb (String.length (Body h) =? Size h)%nat.

Definition reg_instrs (name : string) (h : header) : list instr :=
  if (untarInlineLimit <? Size h)%nat then
    IFlush :: (if short h
               then map IBar (firstn 3 (write_ops name (Perm h) (ModTime h) (Body h))) ++ [IFail]
               else map IBar (write_ops name (Perm h) (ModTime h) (Body h)))
  else if short h then [IFail]
  else [IQueue (WriteJob name (Perm h) (ModTime h) (Body h))].

Definition entry_instrs (h : header) : list instr :=
  match stripComponents (Name h) strip with
  | None => []
  | Some name =>
      let name := match rename with Some f => f name | None => name end in
      if match rename with Some _ => name =s "" | None => false end then []
      else match Typeflag h with
           | TypeDir => [IDir (MkdirAll name 493); IDir (Chmod name (Perm h))]
           | TypeReg => reg_instrs name h
           | TypeSymlink =>
               [IFlush; IBar (MkdirAll (Dir name) 493); IBar (Remove name); IBar (Symlink (Linkname h) name)]
           | TypeLink =>
               match stripComponents (Linkname h) strip with
               | None => []
               | Some ln =>
                   [IFlush; IBar (MkdirAll (Dir name) 493); IBar (Remove name); IBar (Link ln name)]
               end
           | TypeOther => []
           end
  end.

(** The reader's program: the entries up to the end of the stream, or up to the error
    the stream breaks off with. *)
Definition untar_program (hs : list header) (clean : bool) : list instr :=
  concat (map entry_instrs hs) ++ (if clean then [] else [IFail]).

(** ** The serial order *)

(** What the stream means: the same program with every write where its entry stands, and
    no pool. It is the specification the pool is held against, and no code of its own. *)
Definition serial_instr (t : fs) (i : instr) : result errno fs :=
  match i with
  | IDir o | IBar o => exec o t
  | IQueue j => exec_all (job_ops j) t
  | IFlush => Ok t
  | IFail => Err ERead
  end.

Definition serial (t : fs) (prog : list instr) : result errno fs := foldR serial_instr t prog.

(** ** The pool *)

(** hash/fnv, New32a. *)
Definition fnv32a (s : string) : Z :=
  foldl (λ h c, (Z.lxor h (Z.of_N (N_of_ascii c)) * 16777619) mod 2 ^ 32)%Z 2166136261%Z
        (String.list_ascii_of_string s).

Record worker := Worker {
  queue : list writeJob;
  current : list op         (* what is left of the job in hand *)
}.

Record untarPool := Pool {
  tree : fs;
  reader : list instr;
  pool : list worker;
  failed : bool;            (* p.err *)
  broken : bool             (* the reader returned an error *)
}.

Definition shard (n : nat) (name : string) : nat := Z.to_nat (fnv32a name mod Z.of_nat n).

Definition newUntarPool (n : nat) (t : fs) (prog : list instr) : untarPool :=
  Pool t prog (replicate n (Worker [] [])) false false.

Definition idle (w : worker) : bool := match queue w, current w with [], [] => true | _, _ => false end.

(** pending.Wait: nothing dispatched is unfinished. *)
Definition drained (s : untarPool) : bool := forallb idle (pool s).

(** The capacity of a worker's channel. *)
Definition channel_size : nat := 4.

Definition stop_reader (s : untarPool) : untarPool := Pool (tree s) [] (pool s) (failed s) true.

(** The reader's look at the failure and its send are one step: a failure between the
    two would only queue one more job, and its worker skips that. *)
Inductive step : untarPool → untarPool → Prop :=
  | step_call o i rest s t' :
      reader s = i :: rest → (i = IDir o ∨ i = IBar o) → exec o (tree s) = Ok t' →
      step s (Pool t' rest (pool s) (failed s) (broken s))
  | step_call_err o i rest s e :
      reader s = i :: rest → (i = IDir o ∨ i = IBar o) → exec o (tree s) = Err e →
      step s (stop_reader s)
  | step_dispatch j rest s k w :
      reader s = IQueue j :: rest → failed s = false →
      k = shard (length (pool s)) (jname j) → pool s !! k = Some w →
      (length (queue w) < channel_size)%nat →
      step s (Pool (tree s) rest (<[k := Worker (queue w ++ [j]) (current w)]> (pool s))
                (failed s) (broken s))
  | step_refused j rest s :
      reader s = IQueue j :: rest → failed s = true → step s (stop_reader s)
  | step_flush rest s :
      reader s = IFlush :: rest → drained s = true → failed s = false →
      step s (Pool (tree s) rest (pool s) (failed s) (broken s))
  | step_flush_err rest s :
      reader s = IFlush :: rest → drained s = true → failed s = true → step s (stop_reader s)
  | step_short rest s :
      reader s = IFail :: rest → step s (stop_reader s)
  | step_take s k w j q :
      pool s !! k = Some w → current w = [] → queue w = j :: q → failed s = false →
      step s (Pool (tree s) (reader s) (<[k := Worker q (job_ops j)]> (pool s)) (failed s) (broken s))
  | step_skip s k w j q :
      pool s !! k = Some w → current w = [] → queue w = j :: q → failed s = true →
      step s (Pool (tree s) (reader s) (<[k := Worker q []]> (pool s)) (failed s) (broken s))
  | step_write s k w o os t' :
      pool s !! k = Some w → current w = o :: os → exec o (tree s) = Ok t' →
      step s (Pool t' (reader s) (<[k := Worker (queue w) os]> (pool s)) (failed s) (broken s))
  | step_write_err s k w o os e :
      pool s !! k = Some w → current w = o :: os → exec o (tree s) = Err e →
      step s (Pool (tree s) (reader s) (<[k := Worker (queue w) []]> (pool s)) true (broken s)).

(** close has drained the pool: the extraction returns. *)
Definition returned (s : untarPool) : Prop := reader s = [] ∧ drained s = true.

(** The error of the reader, else the pool's. *)
Definition succeeded (s : untarPool) : bool := negb (broken s) && negb (failed s).

End root.
