(* ===== verification/UntarLaws.v ===== *)
(** Writing one entry (cmd/kbuild-step/main.go, [writeEntry]): whatever links earlier
    entries planted, the entry's own place is replaced and nothing else is touched. *)

From S2P Require Import Prelude GoString Untar.

Section laws.
Context (max_links : nat) (umask : Z).
Abbreviation walk := (Untar.walk).
Abbreviation exec := (Untar.exec max_links umask).
Abbreviation resolve := (Untar.resolve max_links).

Definition normal (c : string) : bool := negb ((c =s "") || (c =s ".") || (c =s "..")).

Lemma normal_inv c : normal c = true → (c =s "") || (c =s ".") = false ∧ (c =s "..") = false.
Proof. unfold normal. by destruct (c =s ""), (c =s "."), (c =s ".."). Qed.

Definition is_last (rest : list string) : bool := match rest with [] => true | _ => false end.

(** One component of a resolution. *)
Lemma walk_cons links follow t cwd c rest :
  walk links follow t cwd (c :: rest) =
  if (c =s "") || (c =s ".") then walk links follow t cwd rest
  else if c =s ".." then match cwd with [] => Err EEscape | _ :: up => walk links follow t up rest end
  else match t !! (c :: cwd) with
       | None => if is_last rest then Ok (c :: cwd) else Err ENotExist
       | Some (NDir _) => walk links follow t (c :: cwd) rest
       | Some (NFile _ _ _) => if is_last rest then Ok (c :: cwd) else Err ENotDir
       | Some (NLink target) =>
           if is_last rest && negb follow then Ok (c :: cwd)
           else if HasPrefix target "/" then Err EEscape
           else match links with
                | O => Err ELoop
                | S links => walk links follow t cwd (Split target "/" ++ rest)
                end
       end.
Proof. by destruct links. Qed.

Lemma walk_nil links follow t cwd : walk links follow t cwd [] = Ok cwd.
Proof. by destruct links. Qed.

Lemma mkdirs_cons links mode t cwd c rest :
  mkdirs max_links links mode t cwd (c :: rest) =
  if (c =s "") || (c =s ".") then mkdirs max_links links mode t cwd rest
  else if c =s ".." then
    match cwd with [] => Err EEscape | _ :: up => mkdirs max_links links mode t up rest end
  else match t !! (c :: cwd) with
       | None => mkdirs max_links links mode (<[c :: cwd := NDir mode]> t) (c :: cwd) rest
       | Some (NDir _) => mkdirs max_links links mode t (c :: cwd) rest
       | Some (NFile _ _ _) => Err ENotDir
       | Some (NLink target) =>
           if is_last rest then
             match walk max_links true t cwd [c] with
             | Ok q => if dir_at t q then Ok t else Err ENotDir
             | Err _ => Err ENotDir
             end
           else if HasPrefix target "/" then Err EEscape
           else match links with
                | O => Err ELoop
                | S links => mkdirs max_links links mode t cwd (Split target "/" ++ rest)
                end
       end.
Proof. by destruct links. Qed.

(** Only directories appear, and nothing that was there changes. *)
Definition extends (t t' : fs) : Prop :=
  ∀ x, match t !! x with
       | Some n => t' !! x = Some n
       | None => t' !! x = None ∨ ∃ m, t' !! x = Some (NDir m)
       end.

Lemma extends_refl t : extends t t.
Proof. intros x. destruct (t !! x); auto. Qed.

Lemma extends_new_dir t p m t' :
  t !! p = None → extends (<[p := NDir m]> t) t' → extends t t'.
Proof.
  intros Hp H x. specialize (H x). destruct (decide (p = x)) as [<-|Hne].
  - rewrite lookup_insert_eq in H. rewrite Hp. eauto.
  - by rewrite lookup_insert_ne in H.
Qed.

Lemma mkdirs_extends links mode t cwd comps t' :
  mkdirs max_links links mode t cwd comps = Ok t' → extends t t'.
Proof.
  revert t cwd comps. induction links as [|links IHl]; intros t cwd comps; revert t cwd;
    (induction comps as [|c rest IH]; intros t cwd; [intros [= <-]; apply extends_refl|]);
    rewrite mkdirs_cons; (destruct ((c =s "") || (c =s ".")); [apply IH|]);
    (destruct (c =s ".."); [destruct cwd; [done|apply IH]|]);
    (destruct (t !! (c :: cwd)) as [[m mt d|m|tg]|] eqn:E;
     [done|apply IH| |intros H; eapply extends_new_dir; [exact E|by eapply IH]]).
  all: destruct (is_last rest);
    [destruct (walk _ _ _ _ _) as [q|]; [|done]; destruct (dir_at t q); [|done];
     intros [= <-]; apply extends_refl|].
  all: destruct (HasPrefix tg "/"); [done|]; first [done|apply IHl].
Qed.

(** ** Reaching a directory *)

(** The resolution of the components before the last: from [cwd] with so many links to
    spare, to a directory. *)
Inductive reaches (t : fs) : nat → path → list string → path → Prop :=
  | reach_here links cwd : reaches t links cwd [] cwd
  | reach_skip links cwd c pre q :
      (c =s "") || (c =s ".") = true → reaches t links cwd pre q → reaches t links cwd (c :: pre) q
  | reach_up links x cwd pre q :
      reaches t links cwd pre q → reaches t links (x :: cwd) (".." :: pre) q
  | reach_dir links cwd c pre q m :
      normal c = true → t !! (c :: cwd) = Some (NDir m) →
      reaches t links (c :: cwd) pre q → reaches t links cwd (c :: pre) q
  | reach_link links cwd c pre q target :
      normal c = true → t !! (c :: cwd) = Some (NLink target) → HasPrefix target "/" = false →
      reaches t links cwd (Split target "/" ++ pre) q → reaches t (S links) cwd (c :: pre) q.

Lemma normal_intro c :
  (c =s "") || (c =s ".") = false → (c =s "..") = false → normal c = true.
Proof. unfold normal. intros H1 H2. by rewrite H1, H2. Qed.

Lemma reaches_walk follow t links cwd pre q b :
  normal b = true → reaches t links cwd pre q →
  (follow = true → ∀ tg, t !! (b :: q) ≠ Some (NLink tg)) →
  walk links follow t cwd (pre ++ [b]) = Ok (b :: q).
Proof.
  intros [Hb1 Hb2]%normal_inv. induction 1 as [links cwd|links cwd c pre q Hc Hr IH
    |links x cwd pre q Hr IH|links cwd c pre q m Hc Ht Hr IH|links cwd c pre q tg Hc Ht Hp Hr IH];
    intros Hf; cbn [app]; rewrite walk_cons.
  - rewrite Hb1, Hb2. cbn [is_last andb]. destruct (t !! (b :: cwd)) as [[]|] eqn:E; rewrite ?walk_nil; try done.
    destruct follow; [|done]. by destruct (Hf eq_refl target).
  - rewrite Hc. by apply IH.
  - by apply IH.
  - apply normal_inv in Hc as [-> ->]. rewrite Ht. by apply IH.
  - apply normal_inv in Hc as [-> ->]. rewrite Ht.
    assert (is_last (pre ++ [b]) = false) as -> by (by destruct pre). cbn [andb].
    rewrite Hp, app_assoc. by apply IH.
Qed.

Lemma walk_reaches t links cwd pre b p :
  normal b = true → walk links false t cwd (pre ++ [b]) = Ok p →
  ∃ q, reaches t links cwd pre q ∧ p = b :: q.
Proof.
  intros [Hb1 Hb2]%normal_inv. revert cwd pre.
  induction links as [|links IHl]; intros cwd pre; revert cwd;
    (induction pre as [|c pre IH]; intros cwd; cbn [app]; rewrite walk_cons).
  1, 3: rewrite Hb1, Hb2; cbn [is_last andb negb];
    destruct (t !! (b :: cwd)) as [[]|]; rewrite ?walk_nil; intros [= <-]; exists cwd; split; constructor.
  all: destruct ((c =s "") || (c =s ".")) eqn:E1;
    [intros (q & Hq & ->)%IH; exists q; split; [by apply reach_skip|done]|].
  all: destruct (String.eqb_spec c "..") as [->|Hup];
    [destruct cwd; [done|]; intros (q & Hq & ->)%IH; exists q; split; [by apply reach_up|done]|].
  all: apply eqb_false in Hup; pose proof (normal_intro c E1 Hup) as Hn.
  all: assert (is_last (pre ++ [b]) = false) as -> by (by destruct pre); cbn [andb].
  all: destruct (t !! (c :: cwd)) as [[|m|tg]|] eqn:Et;
    [done|intros (q & Hq & ->)%IH; exists q; split; [by eapply reach_dir|done]| |done].
  all: destruct (HasPrefix tg "/") eqn:Hp; [done|]; first [done|rewrite app_assoc].
  intros (q & Hq & ->)%IHl. exists q. split; [by eapply reach_link|done].
Qed.

(** Resolution only looks at directories and links. *)
Lemma reaches_mono t t' links cwd pre q :
  (∀ x n, t !! x = Some n → match n with NFile _ _ _ => True | _ => t' !! x = Some n end) →
  reaches t links cwd pre q → reaches t' links cwd pre q.
Proof.
  intros Ht. induction 1 as [links cwd|links cwd c pre q Hc Hr IH|links x cwd pre q Hr IH
    |links cwd c pre q m Hc Hd Hr IH|links cwd c pre q tg Hc Hd Hp Hr IH];
    [apply reach_here|by apply reach_skip|by apply reach_up| |].
  - eapply reach_dir; [done| |done]. exact (Ht _ _ Hd).
  - eapply reach_link; [done| |done|done]. exact (Ht _ _ Hd).
Qed.

Lemma dot_not_normal c : (c =s "") || (c =s ".") = true → normal c = true → False.
Proof. by intros H [H' _]%normal_inv; congruence. Qed.

Lemma reaches_det t links cwd pre q q' :
  reaches t links cwd pre q → reaches t links cwd pre q' → q' = q.
Proof.
  intros H. revert q'. induction H as [links cwd|links cwd c pre q Hc Hr IH|links x cwd pre q Hr IH
    |links cwd c pre q m Hc Hd Hr IH|links cwd c pre q tg Hc Hd Hp Hr IH];
    intros q' H'; inversion H'; subst; try done; try (by apply IH);
    try (exfalso; by eapply dot_not_normal); try congruence.
  replace target with tg in * by congruence. by apply IH.
Qed.

(** ** One entry *)

(** The entry's place: its last component in the directory the others lead to. *)
Lemma resolve_reaches t name pre b p :
  Split name "/" = pre ++ [b] → normal b = true →
  resolve false t name = Ok p → ∃ q, reaches t max_links [] pre q ∧ p = b :: q.
Proof.
  unfold Untar.resolve. intros -> Hb. destruct (name =s ""); [done|].
  destruct (HasPrefix name "/"); [done|]. by apply walk_reaches.
Qed.

Lemma resolve_follow t name pre b q n :
  Split name "/" = pre ++ [b] → normal b = true → name ≠ "" → HasPrefix name "/" = false →
  reaches t max_links [] pre q → t !! (b :: q) = Some n → (∀ tg, n ≠ NLink tg) →
  resolve true t name = Ok (b :: q).
Proof.
  unfold Untar.resolve. intros -> Hb Hne%eqb_false -> Hr Hn Hl. rewrite Hne.
  apply reaches_walk; [done|done|]. intros _ tg Htg. apply (Hl tg). congruence.
Qed.

Lemma put_Ok t name n t' :
  put max_links t name n = Ok t' ↔
  ∃ p, resolve false t name = Ok p ∧ p ≠ [] ∧ t !! p = None ∧ t' = <[p := n]> t.
Proof.
  unfold put. rewrite bind_Ok. split.
  - intros ([|c p] & Hr & H); [done|]. destruct (t !! (c :: p)) eqn:E; [done|].
    injection H as <-. by exists (c :: p).
  - intros ([|c p] & Hr & Hne & E & ->); [done|]. exists (c :: p). by rewrite E.
Qed.

Lemma change_at t name f p n :
  resolve true t name = Ok p → p ≠ [] → t !! p = Some n →
  change max_links t name f = Ok (<[p := f n]> t).
Proof.
  unfold change. intros -> Hp Hn. cbn [mbind result_bind]. destruct p; [done|]. by rewrite Hn.
Qed.

Lemma put_file_follow t pre b q name n :
  Split name "/" = pre ++ [b] → normal b = true → name ≠ "" → HasPrefix name "/" = false →
  reaches t max_links [] pre q → t !! (b :: q) = None → (∀ tg, n ≠ NLink tg) →
  resolve true (<[b :: q := n]> t) name = Ok (b :: q) ∧
  reaches (<[b :: q := n]> t) max_links [] pre q.
Proof.
  intros Hs Hb Hne Ha Hr Hn Hl.
  assert (reaches (<[b :: q := n]> t) max_links [] pre q) as Hr'.
  { eapply reaches_mono; [|exact Hr]. intros x nx Hx. rewrite lookup_insert_ne by congruence.
    by destruct nx. }
  split; [|done]. eapply resolve_follow; try done. by rewrite lookup_insert_eq.
Qed.

(** C26. An entry replaces its own place and touches nothing else, whatever links the
    earlier entries of the stream planted. If writing a file succeeds, its place - the
    last component of its name, unfollowed, in the directory the others lead to inside
    the root - holds exactly the new file, with its mode and time; everything that was
    anywhere else in the tree is unchanged, the target of a link that stood at the
    place included; and what is new elsewhere is directories on the way. *)
Theorem writeEntry_replaces (t t' : fs) (name b : string) (pre : list string)
    (mode mtime : Z) (data : string) :
  Split name "/" = pre ++ [b] → normal b = true →
  exec_all max_links umask (write_ops name mode mtime data) t = Ok t' →
  ∃ q, reaches t' max_links [] pre q ∧
    t' !! (b :: q) = Some (NFile mode (Some mtime) data) ∧
    ∀ x, x ≠ b :: q →
      match t !! x with
      | Some n => t' !! x = Some n
      | None => t' !! x = None ∨ ∃ m, t' !! x = Some (NDir m)
      end.
Proof.
  intros Hs Hb. unfold exec_all, write_ops. cbn [foldR]. rewrite bind_Ok.
  intros (t1 & H1 & H). rewrite bind_Ok in H. destruct H as (t2 & H2 & H).
  rewrite bind_Ok in H. destruct H as (t3 & H3 & H). rewrite bind_Ok in H. destruct H as (t4 & H4 & H).
  rewrite bind_Ok in H. destruct H as (t5 & H5 & [= <-]).
  assert (extends t t1) as Hx.
  { cbn [Untar.exec] in H1. destruct (_ =s ""); [done|]. destruct (HasPrefix _ "/"); [done|].
    by eapply mkdirs_extends. }
  cbn [Untar.exec] in H3. apply put_Ok in H3 as (p & Hr2 & _ & Hn2 & ->).
  pose proof (resolve_reaches _ _ _ _ _ Hs Hb Hr2) as (q & Hq & ->).
  assert (name ≠ "" ∧ HasPrefix name "/" = false) as [Hne Ha].
  { unfold Untar.resolve in Hr2. destruct (String.eqb_spec name ""); [done|].
    by destruct (HasPrefix name "/"). }
  assert (t2 = delete (b :: q) t1) as ->.
  { cbn [Untar.exec] in H2. destruct (resolve false t1 name) as [p1|e] eqn:Hr1.
    - pose proof (resolve_reaches _ _ _ _ _ Hs Hb Hr1) as (q1 & Hq1 & ->).
      assert (t2 = delete (b :: q1) t1) as ->.
      { destruct (t1 !! (b :: q1)) as [[]|]; [by injection H2| |by injection H2|by injection H2].
        destruct (no_children t1 (b :: q1)); [by injection H2|done]. }
      assert (q1 = q) as ->; [|done]. eapply reaches_det; [|exact Hq1].
      eapply reaches_mono; [|exact Hq]. intros x n Hxn. apply lookup_delete_Some in Hxn as [_ ?]. by destruct n.
    - destruct e; try done. injection H2 as <-. congruence. }
  set (t2 := delete (b :: q) t1) in *.
  destruct (put_file_follow t2 pre b q name (NFile (masked umask mode) None data) Hs Hb Hne Ha Hq Hn2
    ltac:(done)) as [Hf3 _].
  cbn [Untar.exec] in H4. rewrite (change_at _ _ _ _ _ Hf3 ltac:(done) (lookup_insert_eq _ _ _)) in H4.
  injection H4 as <-. rewrite insert_insert_eq in *.
  destruct (put_file_follow t2 pre b q name (NFile mode None data) Hs Hb Hne Ha Hq Hn2
    ltac:(done)) as [Hf4 _].
  cbn [Untar.exec set_mode] in H5. rewrite (change_at _ _ _ _ _ Hf4 ltac:(done) (lookup_insert_eq _ _ _)) in H5.
  injection H5 as <-. rewrite insert_insert_eq in *. cbn [set_mtime].
  exists q. split; [by eapply put_file_follow|]. split; [by rewrite lookup_insert_eq|].
  intros x Hxp. rewrite lookup_insert_ne by done. unfold t2. rewrite lookup_delete_ne by done. apply Hx.
Qed.
End laws.

(** A link planted where an entry goes: the entry takes its place, the target stays. *)
Lemma writeEntry_replaces_witness :
  let t : fs := <[["passwd"] := NFile 420 None "root"]> (<[["x"] := NLink "passwd"]> ∅) in
  ∃ t', exec_all 40 18 (write_ops "x" 493 7 "new") t = Ok t' ∧
  ∃ q, reaches t' 40 [] [] q ∧ t' !! ("x" :: q) = Some (NFile 493 (Some 7%Z) "new") ∧
    ∀ x, x ≠ "x" :: q →
      match t !! x with
      | Some n => t' !! x = Some n
      | None => t' !! x = None ∨ ∃ m, t' !! x = Some (NDir m)
      end.
Proof.
  intros t. assert (is_ok (exec_all 40 18 (write_ops "x" 493 7 "new") t) = true) as Hok by (by vm_compute).
  destruct (exec_all 40 18 (write_ops "x" 493 7 "new") t) as [t'|] eqn:E; [|done].
  exists t'. split; [done|].
  apply (writeEntry_replaces 40 18 t t' "x" "x" [] 493 7 "new"); [done|done|exact E].
Defined.
