(* ===== verification/PoolOps.v ===== *)
(** The calls of a segment of plain entries, abstracted: directories filled in along a
    path, and calls on a file's own path. Calls on paths that are apart commute, and on
    a tree without links on the way the calls of the extraction (main.go, untarpool.go)
    are these. *)

From S2P Require Import Prelude GoString Untar UntarLaws.

(** ** Abstract calls *)

Inductive own_call :=
  | Gone                               (* remove *)
  | Fresh (mode : Z) (data : string)   (* exclusive create *)
  | WithMode (mode : Z)
  | WithTime (mtime : Z).

Inductive call :=
  | Fill (a : path) (mode : option Z)  (* the directories of [a]; [mode] for the last *)
  | Own (p : path) (c : own_call).

(** [x] is [a] or above it, and not the root. *)
Definition above (x a : path) : bool := bool_decide (x ≠ []) && bool_decide (x `suffix_of` a).

Section calls.
(** The mode of a directory made on the way. *)
Context (dmode : Z).

Fixpoint fill (a : path) (t : fs) : fs :=
  match a with
  | [] => t
  | _ :: up => let t := fill up t in
               match t !! a with Some _ => t | None => <[a := NDir dmode]> t end
  end.

Definition not_file (n : option node) : bool :=
  match n with Some (NDir _) | None => true | _ => false end.

Fixpoint fillable (a : path) (t : fs) : bool :=
  match a with [] => true | _ :: up => not_file (t !! a) && fillable up t end.

Definition own_ok (p : path) (c : own_call) (t : fs) : bool :=
  match c with
  | Gone => match t !! p with Some (NDir _) => no_children t p | _ => true end
  | Fresh _ _ => match t !! p with None => true | _ => false end
  | WithMode _ | WithTime _ => true
  end.

Definition own_eff (c : own_call) (n : option node) : option node :=
  match c with
  | Gone => None
  | Fresh mode data => Some (NFile mode None data)
  | WithMode mode => set_mode mode <$> n
  | WithTime mtime => set_mtime mtime <$> n
  end.

Definition ok (o : call) (t : fs) : bool :=
  match o with Fill a _ => fillable a t | Own p c => own_ok p c t end.

Definition eff (o : call) (t : fs) : fs :=
  match o with
  | Fill a None => fill a t
  | Fill a (Some mode) => partial_alter (fmap (set_mode mode)) a (fill a t)
  | Own p c => partial_alter (own_eff c) p t
  end.

Definition perform (o : call) (t : fs) : option fs := if ok o t then Some (eff o t) else None.

Fixpoint perform_all (os : list call) (t : fs) : option fs :=
  match os with
  | [] => Some t
  | o :: os => match perform o t with Some t => perform_all os t | None => None end
  end.

(** Two calls whose order does not matter: a file's own path is neither on the way of
    the other call nor its path; at most one of them sets a directory's mode. *)
Definition apart (o1 o2 : call) : Prop :=
  match o1, o2 with
  | Fill _ m1, Fill _ m2 => m1 = None ∨ m2 = None
  | Fill a _, Own p _ | Own p _, Fill a _ => above p a = false
  | Own p _, Own q _ => above p q = false ∧ above q p = false
  end.

Definition proper (o : call) : Prop :=
  match o with Fill a (Some _) => a ≠ [] | Fill _ None => True | Own p _ => p ≠ [] end.

Lemma above_true x a : above x a = true ↔ x ≠ [] ∧ x `suffix_of` a.
Proof. unfold above. by rewrite andb_true_iff, !bool_decide_eq_true. Qed.

Lemma above_cons x c up : above x (c :: up) = bool_decide (x = c :: up) || above x up.
Proof.
  apply eq_iff_eq_true. rewrite orb_true_iff, !above_true, bool_decide_eq_true. split.
  - intros [Hx [[|d k] H]]; [by left|]. right. split; [done|]. exists k. by injection H.
  - intros [->|[Hx Hs]]; [by split|]. split; [done|by apply suffix_cons_r].
Qed.

Lemma above_refl p : p ≠ [] → above p p = true.
Proof. intros. by apply above_true. Qed.

Lemma lookup_fill a t x :
  fill a t !! x = match t !! x with
                  | Some n => Some n
                  | None => if above x a then Some (NDir dmode) else None
                  end.
Proof.
  induction a as [|c up IH].
  - cbn. destruct (t !! x); [done|]. destruct (above x []) eqn:E; [|done].
    apply above_true in E as [Hx Hs]. by apply suffix_nil_inv in Hs.
  - cbn [fill]. rewrite above_cons. destruct (fill up t !! (c :: up)) eqn:E.
    + rewrite IH. destruct (t !! x) eqn:Ex; [done|]. case_bool_decide as Hx; [|done]. subst x.
      rewrite IH in E. by destruct (above (c :: up) up).
    + destruct (decide (x = c :: up)) as [->|Hne].
      * rewrite lookup_insert_eq, bool_decide_true by done. rewrite IH in E.
        destruct (t !! (c :: up)); [done|]. done.
      * rewrite lookup_insert_ne, IH, bool_decide_false by done. done.
Qed.

Lemma fillable_spec a t : fillable a t = true ↔ ∀ x, above x a = true → not_file (t !! x) = true.
Proof.
  induction a as [|c up IH]; cbn [fillable].
  - split; [|done]. intros _ x [Hx Hs]%above_true. by apply suffix_nil_inv in Hs.
  - rewrite andb_true_iff, IH. setoid_rewrite above_cons. split.
    + intros [H1 H2] x [->%bool_decide_eq_true|Hx]%orb_true_iff; [done|by apply H2].
    + intros H. split; [apply H; by rewrite bool_decide_true|].
      intros x Hx. apply H. rewrite Hx. apply orb_true_r.
Qed.

Lemma no_children_spec t p : no_children t p = true ↔ ∀ c, t !! (c :: p) = None.
Proof.
  unfold no_children. rewrite forallb_forall. split.
  - intros H c. destruct (t !! (c :: p)) as [n|] eqn:E; [|done].
    assert (In (c :: p) (map fst (map_to_list t))) as Hin.
    { apply in_map_iff. exists (c :: p, n). split; [done|].
      by apply list_elem_of_In, elem_of_map_to_list. }
    specialize (H _ Hin). cbn in H. by rewrite bool_decide_true in H.
  - intros H x Hin. apply in_map_iff in Hin as ([x' n] & <- & Hin).
    apply list_elem_of_In, elem_of_map_to_list in Hin. cbn [fst].
    destruct x' as [|c up]; [done|]. rewrite bool_decide_false; [done|]. intros ->. by rewrite H in Hin.
Qed.

(** What a call leaves where it is not at work. *)
Lemma eff_Own_ne p c t x : x ≠ p → eff (Own p c) t !! x = t !! x.
Proof. intros. cbn. by rewrite lookup_partial_alter_ne. Qed.

Lemma eff_Fill_not_above a m t x : above x a = false → x ≠ [] → eff (Fill a m) t !! x = t !! x.
Proof.
  intros Hx Hne. assert (fill a t !! x = t !! x) as Hf by (rewrite lookup_fill, Hx; by destruct (t !! x)).
  destruct m as [mode|]; cbn; [|done]. rewrite lookup_partial_alter_ne; [done|].
  intros ->. by rewrite above_refl in Hx.
Qed.

(** Filling keeps every node, up to the mode of a directory. *)
Lemma not_file_mode mode n : not_file (set_mode mode <$> n) = not_file n.
Proof. by destruct n as [[]|]. Qed.

Lemma not_file_Fill a m t x : not_file (eff (Fill a m) t !! x) = not_file (t !! x).
Proof.
  assert (not_file (fill a t !! x) = not_file (t !! x)) as Hf.
  { rewrite lookup_fill. destruct (t !! x); [done|]. by destruct (above x a). }
  destruct m as [mode|]; [|done]. cbn [eff]. destruct (decide (x = a)) as [->|Hne].
  - by rewrite lookup_partial_alter_eq, not_file_mode.
  - by rewrite lookup_partial_alter_ne.
Qed.

Lemma apart_sym o1 o2 : apart o1 o2 → apart o2 o1.
Proof. destruct o1, o2; cbn; tauto. Qed.

(** Whether a call succeeds does not depend on a call apart from it. *)
Lemma ok_Fill_Own a m q c t :
  above q a = false → q ≠ [] → own_ok q c (eff (Fill a m) t) = own_ok q c t.
Proof.
  intros Hq Hne. destruct c; cbn [own_ok]; try done; rewrite eff_Fill_not_above by done; [|done].
  destruct (t !! q) as [[| |]|]; try done. apply eq_iff_eq_true. rewrite !no_children_spec.
  assert (∀ x, above (x :: q) a = false) as Hx.
  { intros x. destruct (above (x :: q) a) eqn:E; [|done]. apply above_true in E as [_ E].
    apply suffix_cons_l in E. by rewrite (proj2 (above_true q a) (conj Hne E)) in Hq. }
  by setoid_rewrite (λ x, eff_Fill_not_above a m t (x :: q) (Hx x) ltac:(done)).
Qed.

Lemma ok_Own_Fill a p c t : above p a = false → fillable a (eff (Own p c) t) = fillable a t.
Proof.
  intros Hp. apply eq_iff_eq_true. rewrite !fillable_spec. split; intros H x Hx; specialize (H x Hx);
    (rewrite eff_Own_ne in *; [done|]; intros ->; congruence).
Qed.

Lemma ok_Own_Own p c1 q c2 t :
  above p q = false → above q p = false → p ≠ [] → q ≠ [] → own_ok q c2 (eff (Own p c1) t) = own_ok q c2 t.
Proof.
  intros Hpq Hqp Hp Hq. assert (q ≠ p) as Hne by (intros ->; by rewrite above_refl in Hpq).
  destruct c2; cbn [own_ok]; try done; rewrite eff_Own_ne by done; [|done].
  destruct (t !! q) as [[| |]|]; try done. apply eq_iff_eq_true. rewrite !no_children_spec.
  assert (∀ x, x :: q ≠ p) as Hx.
  { intros x <-. by rewrite (proj2 (above_true q (x :: q)) (conj Hq (suffix_cons_r _ _ _ (reflexivity q)))) in Hqp. }
  by setoid_rewrite (λ x, eff_Own_ne p c1 t (x :: q) (Hx x)).
Qed.

Lemma ok_apart o1 o2 t : apart o1 o2 → proper o1 → proper o2 → ok o2 (eff o1 t) = ok o2 t.
Proof.
  destruct o1 as [a m1|p c1], o2 as [b m2|q c2]; cbn [apart ok proper]; intros Ha H1 H2.
  - apply eq_iff_eq_true. rewrite !fillable_spec. by setoid_rewrite not_file_Fill.
  - by apply ok_Fill_Own.
  - by apply ok_Own_Fill.
  - destruct Ha. by apply ok_Own_Own.
Qed.

Lemma fill_comm a b t : fill a (fill b t) = fill b (fill a t).
Proof.
  apply map_eq. intros x. rewrite !lookup_fill. destruct (t !! x); [done|].
  by destruct (above x a), (above x b).
Qed.

Lemma fill_mode a b m t :
  b ≠ [] →
  fill a (partial_alter (fmap (set_mode m)) b (fill b t)) = partial_alter (fmap (set_mode m)) b (fill b (fill a t)).
Proof.
  intros Hb. rewrite <- fill_comm. apply map_eq. intros x. destruct (decide (x = b)) as [->|Hne].
  - rewrite lookup_partial_alter_eq, !lookup_fill, lookup_partial_alter_eq, lookup_fill, above_refl by done.
    by destruct (t !! b).
  - rewrite lookup_partial_alter_ne, !lookup_fill, lookup_partial_alter_ne by done. by rewrite lookup_fill.
Qed.

Lemma eff_comm o1 o2 t :
  apart o1 o2 → proper o1 → proper o2 → eff o2 (eff o1 t) = eff o1 (eff o2 t).
Proof.
  assert (∀ a m p c, above p a = false → p ≠ [] → proper (Fill a m) →
    eff (Own p c) (eff (Fill a m) t) = eff (Fill a m) (eff (Own p c) t)) as Hfo.
  { intros a m p c Hp Hne Hm. apply map_eq. intros x. destruct (decide (x = p)) as [->|Hx].
    - assert (∀ t', eff (Own p c) t' !! p = own_eff c (t' !! p)) as He by (intros; apply lookup_partial_alter_eq).
      by rewrite eff_Fill_not_above, !He, eff_Fill_not_above.
    - rewrite eff_Own_ne by done. destruct m as [m|]; cbn.
      + destruct (decide (x = a)) as [->|Hxa].
        * rewrite !lookup_partial_alter_eq, !lookup_fill. by rewrite lookup_partial_alter_ne.
        * rewrite !lookup_partial_alter_ne, !lookup_fill by done. by rewrite lookup_partial_alter_ne.
      + rewrite !lookup_fill. by rewrite lookup_partial_alter_ne. }
  destruct o1 as [a m1|p c1], o2 as [b m2|q c2]; cbn [apart proper]; intros Ha H1 H2.
  - destruct m1 as [m1|], m2 as [m2|]; cbn [eff].
    + by destruct Ha.
    + by apply fill_mode.
    + symmetry. by apply fill_mode.
    + apply fill_comm.
  - by apply Hfo.
  - symmetry. by apply Hfo.
  - destruct Ha as [Hpq Hqp]. cbn. apply partial_alter_partial_alter_ne.
    intros ->. by rewrite above_refl in Hpq.
Qed.

(** ** Calls that are apart commute *)

Lemma perform_comm o1 o2 t :
  apart o1 o2 → proper o1 → proper o2 →
  (perform o1 t ≫= perform o2) = (perform o2 t ≫= perform o1).
Proof.
  intros Ha H1 H2. unfold perform.
  pose proof (ok_apart o1 o2 t Ha H1 H2) as E1. pose proof (ok_apart o2 o1 t (apart_sym _ _ Ha) H2 H1) as E2.
  destruct (ok o1 t), (ok o2 t); cbn; rewrite ?E1, ?E2; try done. by rewrite eff_comm.
Qed.

Lemma perform_all_app os1 os2 t : perform_all (os1 ++ os2) t = (perform_all os1 t ≫= perform_all os2).
Proof.
  revert t. induction os1 as [|o os1 IH]; intros t; cbn; [done|].
  destruct (perform o t) as [t'|]; cbn; [apply IH|done].
Qed.

Lemma perform_all_cons o os t : perform_all (o :: os) t = (perform o t ≫= perform_all os).
Proof. cbn. by destruct (perform o t). Qed.

Lemma perform_all_move o os t :
  Forall (apart o) os → proper o → Forall proper os →
  perform_all (o :: os) t = perform_all (os ++ [o]) t.
Proof.
  intros Ha Ho Hos. revert t. induction Ha as [|o2 os Ha _ IH]; intros t; [done|].
  apply Forall_cons in Hos as [Ho2 Hos]. rewrite <- app_comm_cons, !perform_all_cons.
  assert ((perform o t ≫= perform_all (o2 :: os)) = ((perform o t ≫= perform o2) ≫= perform_all os)) as ->.
  { destruct (perform o t) as [t1|]; [|done]. cbn. by destruct (perform o2 t1). }
  rewrite perform_comm by done. destruct (perform o2 t) as [t'|]; [|done]. cbn.
  specialize (IH Hos t'). rewrite perform_all_cons in IH. exact IH.
Qed.

(** A call moves to the front past calls it is apart from. *)
Lemma perform_all_front os1 o os2 t :
  Forall (apart o) os1 → proper o → Forall proper os1 →
  perform_all (os1 ++ o :: os2) t = perform_all (o :: os1 ++ os2) t.
Proof.
  intros Ha Ho Hos.
  change (o :: os1 ++ os2) with ((o :: os1) ++ os2).
  rewrite (perform_all_app (o :: os1)), perform_all_move, <- perform_all_app by done.
  by rewrite <- app_assoc.
Qed.

(** A block of calls moves past another, all apart. *)
Lemma perform_all_swap os1 os2 t :
  Forall (λ o, Forall (apart o) os1) os2 → Forall proper os1 → Forall proper os2 →
  perform_all (os1 ++ os2) t = perform_all (os2 ++ os1) t.
Proof.
  intros Ha H1 H2. revert t. induction os2 as [|o os2 IH]; intros t; [by rewrite app_nil_r|].
  apply Forall_cons in Ha as [Ha Has]. apply Forall_cons in H2 as [Ho H2].
  rewrite perform_all_front by done. rewrite <- app_comm_cons, !perform_all_cons.
  destruct (perform o t); [|done]. cbn. by apply IH.
Qed.
End calls.

(** ** The calls of untar.go on plain names *)

Definition plain (name : string) : bool := forallb normal (Split name "/").

(** Where a plain name lies when no link is on its way. *)
Definition place (name : string) : path := rev (Split name "/").

Definition no_links (t : fs) (p : path) : Prop := ∀ x tg, above x p = true → t !! x ≠ Some (NLink tg).
Definition all_dirs (t : fs) (p : path) : Prop := ∀ x, above x p = true → ∃ m, t !! x = Some (NDir m).

Definition outcome {E A} (r : result E A) : option A := match r with Ok a => Some a | Err _ => None end.

Lemma place_cons name : ∃ b up, place name = b :: up ∧ Split name "/" = rev up ++ [b].
Proof.
  unfold place. pose proof (Split_cons_ne name "/") as Hne.
  destruct (rev (Split name "/")) as [|b up] eqn:E.
  - apply (f_equal (@rev string)) in E. by rewrite rev_involutive in E.
  - exists b, up. split; [done|]. apply (f_equal (@rev string)) in E. by rewrite rev_involutive in E.
Qed.

Lemma place_ne name : place name ≠ [].
Proof. by destruct (place_cons name) as (b & up & -> & _). Qed.

Lemma place_inj n1 n2 : place n1 = place n2 → n1 = n2.
Proof.
  unfold place. intros He. apply (f_equal (@rev string)) in He. rewrite !rev_involutive in He.
  by rewrite <- (Join_Split n1 "/"), <- (Join_Split n2 "/"), He.
Qed.

Lemma plain_proper name : plain name = true → name ≠ "" ∧ HasPrefix name "/" = false.
Proof.
  unfold plain. intros H. split; [by intros ->|].
  destruct (HasPrefix name "/") eqn:E; [|done]. apply HasPrefix_spec in E as [t ->].
  pose proof (Split_app "" t "/" eq_refl) as Hs. change ("" +:+ String "/" t) with ("/" +:+ t) in Hs.
  by rewrite Hs in H.
Qed.

Lemma above_up x p : above x (tail p) = true → above x p = true.
Proof. destruct p as [|c up]; [done|]. cbn. intros H. by rewrite above_cons, H, orb_true_r. Qed.

Section refine.
Context (max_links : nat) (umask : Z).
Abbreviation exec := (Untar.exec max_links umask).
Abbreviation dmode := (masked umask 493).
Abbreviation perform := (perform dmode).

Lemma all_dirs_fill a t : all_dirs t a → fill dmode a t = t ∧ fillable a t = true.
Proof.
  intros H. split.
  - apply map_eq. intros x. rewrite lookup_fill. destruct (t !! x) eqn:E; [done|].
    destruct (above x a) eqn:Ea; [|done]. destruct (H x Ea) as [m Hm]. congruence.
  - apply fillable_spec. intros x [m ->]%H. done.
Qed.

Lemma fill_new_dir a p t :
  above p a = true → t !! p = None →
  fill dmode a (<[p := NDir dmode]> t) = fill dmode a t ∧ fillable a (<[p := NDir dmode]> t) = fillable a t.
Proof.
  intros Hp Hn. split.
  - apply map_eq. intros x. rewrite !lookup_fill. destruct (decide (p = x)) as [<-|Hne].
    + by rewrite lookup_insert_eq, Hn, Hp.
    + by rewrite lookup_insert_ne by done.
  - apply eq_iff_eq_true. rewrite !fillable_spec.
    split; intros H x Hx; specialize (H x Hx); (destruct (decide (p = x)) as [<-|Hne];
      [by rewrite ?lookup_insert_eq, ?Hn in *|by rewrite lookup_insert_ne in *]).
Qed.

Lemma mkdirs_plain links t cwd comps :
  forallb normal comps = true → no_links t (rev comps ++ cwd) → all_dirs t cwd →
  outcome (mkdirs max_links links dmode t cwd comps) = perform (Fill (rev comps ++ cwd) None) t.
Proof.
  revert t cwd. induction comps as [|c rest IH]; intros t cwd Hc Hl Hd.
  - destruct (all_dirs_fill _ _ Hd) as [Hf Hk]. unfold PoolOps.perform. cbn.
    rewrite Hf, Hk. by destruct links.
  - cbn [forallb] in Hc. apply andb_true_iff in Hc as [Hn Hc]. apply normal_inv in Hn as [E1 E2].
    assert (rev (c :: rest) ++ cwd = rev rest ++ (c :: cwd)) as Hp by (cbn; by rewrite <- app_assoc).
    rewrite Hp in *. rewrite mkdirs_cons, E1, E2.
    assert (above (c :: cwd) (rev rest ++ (c :: cwd)) = true) as Ha.
    { apply above_true. split; [done|by apply suffix_app_r]. }
    destruct (t !! (c :: cwd)) as [[m mt d|m|tg]|] eqn:E.
    + unfold PoolOps.perform. cbn [ok]. destruct (fillable _ t) eqn:Ef; [|done].
      apply fillable_spec with (x := c :: cwd) in Ef; [|done]. by rewrite E in Ef.
    + apply IH; [done|done|]. intros x Hx. rewrite above_cons in Hx.
      apply orb_true_iff in Hx as [->%bool_decide_eq_true|Hx]; [by eexists|by apply Hd].
    + by destruct (Hl (c :: cwd) tg Ha).
    + rewrite IH.
      * destruct (fill_new_dir _ _ _ Ha E) as [Hf Hk]. unfold PoolOps.perform. cbn [ok eff]. by rewrite Hf, Hk.
      * done.
      * intros x tg Hx. destruct (decide (c :: cwd = x)) as [<-|Hne]; [by rewrite lookup_insert_eq|].
        rewrite lookup_insert_ne by done. by apply Hl.
      * intros x Hx. destruct (decide (c :: cwd = x)) as [<-|Hne]; [rewrite lookup_insert_eq; by eexists|].
        rewrite lookup_insert_ne by done. rewrite above_cons in Hx.
        apply orb_true_iff in Hx as [?%bool_decide_eq_true|Hx]; [congruence|by apply Hd].
Qed.

Lemma MkdirAll_plain name t :
  plain name = true → no_links t (place name) →
  outcome (exec (MkdirAll name 493) t) = perform (Fill (place name) None) t.
Proof.
  intros Hp Hl. destruct (plain_proper name Hp) as [Hne%eqb_false Ha]. cbn [Untar.exec]. rewrite Hne, Ha.
  rewrite mkdirs_plain; rewrite ?app_nil_r; try done.
  intros x [Hx Hs]%above_true. by apply suffix_nil_inv in Hs.
Qed.

(** filepath.Dir of a plain name is its parent. *)
Lemma MkdirAll_Dir_plain name t :
  plain name = true → no_links t (tail (place name)) →
  outcome (exec (MkdirAll (Dir name) 493) t) = perform (Fill (tail (place name)) None) t.
Proof.
  intros Hp Hl. destruct (place_cons name) as (b & up & Hpl & Hs). unfold Dir. rewrite Hs, removelast_last.
  rewrite Hpl in *. cbn [tail] in *. destruct (rev up) as [|c l] eqn:E.
  - apply (f_equal (@rev string)) in E. rewrite rev_involutive in E. cbn in E. subst up.
    unfold PoolOps.perform. cbn. by destruct max_links.
  - assert (Split (Join (c :: l) "/") "/" = c :: l) as Hj.
    { apply (Split_Join c l "/"). pose proof (Split_lacks name "/") as Hlk. rewrite Hs in Hlk.
      by apply Forall_app in Hlk as [? _]. }
    assert (place (Join (c :: l) "/") = up) as Hup.
    { unfold place. by rewrite Hj, <- E, rev_involutive. }
    rewrite MkdirAll_plain; rewrite ?Hup; [done| |done].
    unfold plain in *. rewrite Hj. rewrite Hs, forallb_app in Hp. by apply andb_true_iff in Hp as [? _].
Qed.

Lemma reaches_plain t links cwd pre :
  forallb normal pre = true → all_dirs t (rev pre ++ cwd) → reaches t links cwd pre (rev pre ++ cwd).
Proof.
  revert cwd. induction pre as [|c pre IH]; intros cwd Hn Hd; [apply reach_here|].
  cbn [forallb] in Hn. apply andb_true_iff in Hn as [Hc Hn].
  assert (rev (c :: pre) ++ cwd = rev pre ++ (c :: cwd)) as Hp by (cbn; by rewrite <- app_assoc).
  rewrite Hp in *. destruct (Hd (c :: cwd)) as [m Hm].
  { apply above_true. split; [done|by apply suffix_app_r]. }
  eapply reach_dir; [done|exact Hm|]. by apply IH.
Qed.

Lemma resolve_plain follow t name :
  plain name = true → all_dirs t (tail (place name)) →
  (follow = true → ∀ tg, t !! place name ≠ Some (NLink tg)) →
  Untar.resolve max_links follow t name = Ok (place name).
Proof.
  intros Hp Hd Hf. destruct (plain_proper name Hp) as [Hne%eqb_false Ha].
  unfold Untar.resolve. rewrite Hne, Ha. destruct (place_cons name) as (b & up & Hpl & Hs).
  rewrite Hpl in *. cbn [tail] in Hd. unfold plain in Hp. rewrite Hs, forallb_app in Hp.
  apply andb_true_iff in Hp as [Hn Hb]. cbn in Hb. rewrite andb_true_r in Hb. rewrite Hs.
  apply reaches_walk; [done| |done].
  replace up with (rev (rev up) ++ []) at 2 by (by rewrite rev_involutive, app_nil_r).
  apply reaches_plain; [done|]. by rewrite rev_involutive, app_nil_r.
Qed.

Lemma insert_partial_alter (t : fs) p n (f : node → node) :
  t !! p = Some n → <[p := f n]> t = partial_alter (fmap f) p t.
Proof.
  intros Hn. apply map_eq. intros x. destruct (decide (p = x)) as [<-|Hne].
  - by rewrite lookup_insert_eq, lookup_partial_alter_eq, Hn.
  - by rewrite lookup_insert_ne, lookup_partial_alter_ne.
Qed.

Lemma change_plain t name n f :
  plain name = true → all_dirs t (tail (place name)) → t !! place name = Some n →
  (∀ tg, n ≠ NLink tg) → change max_links t name f = Ok (partial_alter (fmap f) (place name) t).
Proof.
  intros Hp Hd Hn Hl. rewrite <- (insert_partial_alter _ _ _ _ Hn).
  apply change_at; [|apply place_ne|done]. apply resolve_plain; [done|done|]. intros _ tg. rewrite Hn.
  intros [= ->]. by destruct (Hl tg).
Qed.
End refine.

