(* ===== verification/PoolLaws.v ===== *)
(** The write pool (cmd/kbuild-step/untarpool.go) against the serial loop: on a stream
    whose entries do not reach one another through names or links, every interleaving
    of the reader and the workers ends in the serial tree, or in an error exactly when
    the serial loop does; and every run ends. *)

From S2P Require Import Prelude GoString Untar UntarLaws PoolOps.

Section pool.
Context (max_links : nat) (umask : Z).
Abbreviation exec := (Untar.exec max_links umask).
Abbreviation exec_all := (Untar.exec_all max_links umask).
Abbreviation serial := (Untar.serial max_links umask).
Abbreviation dmode := (masked umask 493).
Abbreviation perform := (PoolOps.perform dmode).
Abbreviation perform_all := (PoolOps.perform_all dmode).

(** ** A job as calls *)

Definition job_calls (j : writeJob) : list call :=
  let p := place (jname j) in
  [Fill (tail p) None; Own p Gone; Own p (Fresh (masked umask (jmode j)) (jdata j));
   Own p (WithMode (jmode j)); Own p (WithTime (jmtime j))].

(** What the tree holds once [k] calls of the job have been made. *)
Definition stage (t : fs) (j : writeJob) (k : nat) : Prop :=
  let p := place (jname j) in
  ((1 ≤ k)%nat → all_dirs t (tail p)) ∧ ((3 ≤ k)%nat → ∃ m mt d, t !! p = Some (NFile m mt d)).

Lemma perform_Some c t t' : perform c t = Some t' → t' = eff dmode c t ∧ ok c t = true.
Proof. unfold PoolOps.perform. destruct (ok c t); [|done]. by intros [= ->]. Qed.

Lemma not_above_tail p : above p (tail p) = false.
Proof.
  destruct (above p (tail p)) eqn:E; [|done]. apply above_true in E as [Hne Hs].
  destruct p as [|c up]; [done|]. destruct Hs as [k Hk]. cbn in Hk.
  apply (f_equal length) in Hk. rewrite length_app in Hk. cbn in Hk. lia.
Qed.

Lemma perform_Fill_dirs a m t t' : perform (Fill a m) t = Some t' → all_dirs t' a.
Proof.
  intros [-> Hf]%perform_Some x Hx. cbn [ok] in Hf.
  rewrite fillable_spec in Hf. specialize (Hf x Hx).
  assert (∃ m', fill dmode a t !! x = Some (NDir m')) as [m' Hm].
  { rewrite lookup_fill, Hx. destruct (t !! x) as [[| |]|]; try done; eauto. }
  destruct m as [m|]; cbn [eff]; [|eauto]. destruct (decide (a = x)) as [<-|Hne].
  - rewrite lookup_partial_alter_eq, Hm. cbn. eauto.
  - rewrite lookup_partial_alter_ne by done. eauto.
Qed.

(** One call of a job, made by the code and in the abstract. *)
Lemma job_step t j k o :
  plain (jname j) = true → no_links t (tail (place (jname j))) → stage t j k →
  job_ops j !! k = Some o →
  ∃ c, job_calls j !! k = Some c ∧ outcome (exec o t) = perform c t ∧
       ∀ t', perform c t = Some t' → stage t' j (S k).
Proof.
  unfold stage. set (p := place (jname j)). intros Hp Hl [Hd Hf] Hk.
  assert (Hkeep : ∀ cl t', (1 ≤ k)%nat → perform (Own p cl) t = Some t' → all_dirs t' (tail p)).
  { intros cl t' Hk1 [-> _]%perform_Some x Hx.
    rewrite eff_Own_ne; [by apply Hd|]. intros ->. by rewrite not_above_tail in Hx. }
  unfold job_ops, write_ops in Hk. unfold job_calls. fold p.
  destruct k as [|[|[|[|[|k]]]]]; cbn in Hk; [..|done]; injection Hk as <-; eexists; (split; [reflexivity|]).
  - split; [by apply MkdirAll_Dir_plain|]. intros t' Ht. split; [|lia]. intros _. by eapply perform_Fill_dirs.
  - specialize (Hd ltac:(lia)). split; [|intros t' Ht; split; [intros _; by eapply Hkeep; [lia|]|lia]].
    cbn [Untar.exec]. rewrite resolve_plain by done. fold p. pose proof (place_ne (jname j)) as Hne. fold p in Hne.
    destruct p as [|c up]; [done|]. unfold PoolOps.perform. cbn [ok own_ok eff].
    destruct (t !! (c :: up)) as [[| |]|]; try done. by destruct (no_children t (c :: up)).
  - specialize (Hd ltac:(lia)). split.
    + cbn [Untar.exec]. unfold put. rewrite resolve_plain by done. fold p. cbn [mbind result_bind].
      pose proof (place_ne (jname j)) as Hne. fold p in Hne. destruct p as [|c up]; [done|].
      unfold PoolOps.perform. cbn [ok own_ok eff]. by destruct (t !! (c :: up)).
    + intros t' Ht. split; [intros _; by eapply Hkeep; [lia|]|]. intros _.
      apply perform_Some in Ht as [-> _]. cbn [eff]. rewrite lookup_partial_alter_eq. cbn. eauto.
  - specialize (Hd ltac:(lia)). destruct (Hf ltac:(lia)) as (m & mt & d & Hn). split.
    + cbn [Untar.exec]. by rewrite (change_plain _ _ _ _ _ Hp Hd Hn).
    + intros t' Ht. split; [intros _; by eapply Hkeep; [lia|]|]. intros _. apply perform_Some in Ht as [-> _].
      cbn [eff]. rewrite lookup_partial_alter_eq. fold p in Hn. rewrite Hn. cbn. eauto.
  - specialize (Hd ltac:(lia)). destruct (Hf ltac:(lia)) as (m & mt & d & Hn). split.
    + cbn [Untar.exec]. by rewrite (change_plain _ _ _ _ _ Hp Hd Hn).
    + intros t' Ht. split; [intros _; by eapply Hkeep; [lia|]|]. intros _. apply perform_Some in Ht as [-> _].
      cbn [eff]. rewrite lookup_partial_alter_eq. fold p in Hn. rewrite Hn. cbn. eauto.
Qed.

(** A directory entry, its two calls. *)
Lemma dir_step_mk t name :
  plain name = true → no_links t (place name) →
  outcome (exec (MkdirAll name 493) t) = perform (Fill (place name) None) t.
Proof. apply MkdirAll_plain. Qed.

Lemma dir_step_mode t name m :
  plain name = true → all_dirs t (place name) →
  outcome (exec (Chmod name m) t) = perform (Fill (place name) (Some m)) t.
Proof.
  intros Hp Hd. destruct (all_dirs_fill umask _ _ Hd) as [Hf Hk]. unfold PoolOps.perform. cbn [ok eff].
  rewrite Hf, Hk. cbn [Untar.exec].
  destruct (Hd (place name)) as [m' Hm]; [apply above_refl, place_ne|].
  rewrite (change_plain _ _ _ (NDir m') _ Hp); [done| |done|done].
  intros x Hx. by apply Hd, above_up.
Qed.

(** ** What other calls leave alone *)

Lemma perform_no_link c t t' x tg :
  perform c t = Some t' → t' !! x = Some (NLink tg) → t !! x = Some (NLink tg).
Proof.
  intros [-> _]%perform_Some.
  destruct c as [a m|p cl]; cbn [eff].
  - assert (∀ y, fill dmode a t !! y = Some (NLink tg) → t !! y = Some (NLink tg)) as Hfill.
    { intros y. rewrite lookup_fill. destruct (t !! y); [done|]. by destruct (above y a). }
    destruct m as [m|]; [|apply Hfill]. destruct (decide (a = x)) as [<-|Hne].
    + rewrite lookup_partial_alter_eq. intros H. apply Hfill.
      destruct (fill dmode a t !! a) as [[]|]; cbn in H; congruence.
    + rewrite lookup_partial_alter_ne by done. apply Hfill.
  - destruct (decide (p = x)) as [<-|Hne]; [|by rewrite lookup_partial_alter_ne].
    rewrite lookup_partial_alter_eq. destruct cl, (t !! p) as [[]|]; cbn; congruence.
Qed.

Lemma perform_dirs c t t' p :
  perform c t = Some t' → match c with Fill _ _ => True | Own q _ => above q p = false end →
  all_dirs t p → all_dirs t' p.
Proof.
  intros [-> _]%perform_Some Hq Hd x Hx.
  destruct (Hd x Hx) as [m' Hm]. destruct c as [a m|q cl].
  - assert (fill dmode a t !! x = Some (NDir m')) as Hf by (by rewrite lookup_fill, Hm).
    destruct m as [m|]; cbn [eff]; [|eauto]. destruct (decide (a = x)) as [<-|Hne].
    + rewrite lookup_partial_alter_eq, Hf. cbn. eauto.
    + rewrite lookup_partial_alter_ne by done. eauto.
  - rewrite eff_Own_ne; [eauto|]. intros ->. congruence.
Qed.

Lemma perform_file c t t' p m mt d :
  perform c t = Some t' → p ≠ [] →
  match c with Fill a _ => above p a = false | Own q _ => q ≠ p end →
  t !! p = Some (NFile m mt d) → t' !! p = Some (NFile m mt d).
Proof.
  intros [-> _]%perform_Some Hp Hq Hn. destruct c as [a m'|q cl].
  - by rewrite eff_Fill_not_above.
  - by rewrite eff_Own_ne.
Qed.

(** ** Segments *)

(** What stands between two barriers. *)
Inductive item :=
  | EDir (name : string) (mode : Z)
  | EFile (j : writeJob).

Definition item_instrs (i : item) : list instr :=
  match i with
  | EDir name mode => [IDir (MkdirAll name 493); IDir (Chmod name mode)]
  | EFile j => [IQueue j]
  end.

Definition item_calls (i : item) : list call :=
  match i with
  | EDir name mode => [Fill (place name) None; Fill (place name) (Some mode)]
  | EFile j => job_calls j
  end.

Fixpoint split_items (prog : list instr) : list item * list instr :=
  match prog with
  | IQueue j :: prog => let '(l, r) := split_items prog in (EFile j :: l, r)
  | IDir (MkdirAll name mode) :: (IDir (Chmod name' m) :: prog') as tl =>
      if (name =s name') && (mode =? 493)%Z
      then let '(l, r) := split_items prog' in (EDir name m :: l, r)
      else ([], prog)
  | _ => ([], prog)
  end.

Definition files (items : list item) : list string :=
  omap (λ i, match i with EFile j => Some (jname j) | _ => None end) items.
Definition dirs (items : list item) : list string :=
  omap (λ i, match i with EDir name _ => Some name | _ => None end) items.

(** The names of a segment do not reach one another: no file's path is on the way to
    another file or to a directory entry. *)
Definition separate (F D : list string) : bool :=
  forallb plain F && forallb plain D &&
  forallb (λ f, forallb (λ g, (f =s g) || negb (above (place f) (place g))) F) F &&
  forallb (λ f, forallb (λ d, negb (above (place f) (place d))) D) F.

Fixpoint link_free (t : fs) (p : path) : bool :=
  match p with
  | [] => true
  | _ :: up => match t !! p with Some (NLink _) => false | _ => true end && link_free t up
  end.

(** No link is on the way to any of them. *)
Definition clear_way (t : fs) (F D : list string) : bool :=
  forallb (λ f, link_free t (tail (place f))) F && forallb (λ d, link_free t (place d)) D.

Definition barrier (rest : list instr) : bool :=
  match rest with [] | IFlush :: _ | IFail :: _ => true | _ => false end.

(** Run serially, every segment of the program is of separate names with a clear way
    and ends at a barrier. *)
Fixpoint orderly (fuel : nat) (t : fs) (prog : list instr) : bool :=
  match fuel with
  | O => false
  | S fuel =>
      match prog with
      | [] | IFail :: _ => true
      | IFlush :: rest => orderly fuel t rest
      | IBar o :: rest => match exec o t with Ok t => orderly fuel t rest | Err _ => true end
      | _ =>
          let '(items, rest) := split_items prog in
          let F := files items in let D := dirs items in
          match items with [] => false | _ => true end &&
          separate F D && clear_way t F D && barrier rest &&
          match serial t (concat (map item_instrs items)) with
          | Ok t => orderly fuel t rest
          | Err _ => true
          end
      end
  end.

Lemma split_items_spec prog items rest :
  split_items prog = (items, rest) → prog = concat (map item_instrs items) ++ rest.
Proof.
  revert items rest. induction prog as [prog IH] using (induction_ltof1 _ (@length instr)).
  unfold ltof in IH. intros items rest. destruct prog as [|i prog]; [by intros [= <- <-]|].
  destruct i as [[name mode| | | | | |]|j| | |]; try (by intros [= <- <-]).
  - destruct prog as [|[[| | |name' m| | |]| | | |] prog']; try (by intros [= <- <-]).
    cbn [split_items]. destruct ((name =s name') && (mode =? 493)%Z) eqn:E; [|by intros [= <- <-]].
    apply andb_true_iff in E as [->%eqb_true ->%Z.eqb_eq].
    destruct (split_items prog') as [l r] eqn:El. intros [= <- <-].
    cbn. f_equal. f_equal. apply (IH prog'); [cbn; lia|done].
  - cbn [split_items]. destruct (split_items prog) as [l r] eqn:El. intros [= <- <-].
    cbn. f_equal. apply (IH prog); [cbn; lia|done].
Qed.

Lemma link_free_spec t p : link_free t p = true → no_links t p.
Proof.
  induction p as [|c up IH]; cbn [link_free].
  - intros _ x tg [Hx Hs]%above_true. by apply suffix_nil_inv in Hs.
  - intros [Hp Hu]%andb_true_iff x tg. rewrite above_cons. intros [->%bool_decide_eq_true|Hx]%orb_true_iff.
    + intros Ht. by rewrite Ht in Hp.
    + by apply IH.
Qed.

Lemma separate_spec F D :
  separate F D = true →
  (∀ f, In f F → plain f = true) ∧ (∀ d, In d D → plain d = true) ∧
  (∀ f g, In f F → In g F → f ≠ g → above (place f) (place g) = false) ∧
  (∀ f d, In f F → In d D → above (place f) (place d) = false).
Proof.
  unfold separate. rewrite !andb_true_iff, !forallb_forall. intros (((H1 & H2) & H3) & H4).
  split_and!; [done|done| |].
  - intros f g Hf Hg Hne. specialize (H3 f Hf). rewrite forallb_forall in H3. specialize (H3 g Hg).
    apply eqb_false in Hne. rewrite Hne in H3. by apply negb_true_iff in H3.
  - intros f d Hf Hd. specialize (H4 f Hf). rewrite forallb_forall in H4.
    by apply negb_true_iff, (H4 d).
Qed.

Definition way_ok (t : fs) (F D : list string) : Prop :=
  (∀ f, In f F → no_links t (tail (place f))) ∧ (∀ d, In d D → no_links t (place d)).

Lemma clear_way_spec t F D : clear_way t F D = true → way_ok t F D.
Proof.
  unfold clear_way, way_ok. rewrite andb_true_iff, !forallb_forall. intros [H1 H2].
  split; intros x Hx; apply link_free_spec; auto.
Qed.

Lemma way_perform c t t' F D : perform c t = Some t' → way_ok t F D → way_ok t' F D.
Proof.
  intros Ht [H1 H2]. split; intros x Hx y tg Hy Hn; eapply perform_no_link in Hn; try exact Ht.
  - by eapply H1. - by eapply H2.
Qed.

(** ** One segment in flight *)

Section segment.
Context (F D : list string) (n : nat).
Context (Hsep : separate F D = true).

(** A call of a pending job of worker [i]. *)
Definition call_of (i : nat) (c : call) : Prop :=
  ∃ j, In (jname j) F ∧ shard n (jname j) = i ∧ In c (job_calls j).

Definition job_of (i : nat) (j : writeJob) : Prop := In (jname j) F ∧ shard n (jname j) = i.

(** A worker, and the calls it still has to make. *)
Definition worker_ok (t : fs) (i : nat) (w : worker) (cs : list call) : Prop :=
  Forall (job_of i) (queue w) ∧
  ∃ cur, cs = cur ++ concat (map job_calls (queue w)) ∧
    ((current w = [] ∧ cur = []) ∨
     ∃ j k, job_of i j ∧ current w = drop k (job_ops j) ∧ cur = drop k (job_calls j) ∧ stage t j k).

Definition item_ok (i : item) : Prop :=
  match i with EDir name _ => In name D | EFile j => In (jname j) F end.

Lemma job_calls_proper j c : In c (job_calls j) → proper c.
Proof.
  pose proof (place_ne (jname j)). unfold job_calls. cbn. intros H'.
  repeat destruct H' as [<-|H']; done.
Qed.

Lemma job_calls_place j c :
  In c (job_calls j) → c = Fill (tail (place (jname j))) None ∨ ∃ o, c = Own (place (jname j)) o.
Proof. unfold job_calls. cbn. intros H. repeat destruct H as [<-|H]; eauto; done. Qed.

Lemma above_tail_false x p : above x p = false → above x (tail p) = false.
Proof. intros H. destruct (above x (tail p)) eqn:E; [|done]. apply above_up in E. congruence. Qed.

Lemma jobs_apart j1 j2 c1 c2 :
  In (jname j1) F → In (jname j2) F → jname j1 ≠ jname j2 →
  In c1 (job_calls j1) → In c2 (job_calls j2) → apart c1 c2.
Proof using Hsep.
  intros H1 H2 Hne Hc1 Hc2. destruct (separate_spec F D Hsep) as (_ & _ & Hs & _).
  pose proof (Hs _ _ H1 H2 Hne) as Ha. pose proof (Hs _ _ H2 H1 (not_eq_sym Hne)) as Hb.
  apply job_calls_place in Hc1 as [->|[o1 ->]]; apply job_calls_place in Hc2 as [->|[o2 ->]]; cbn; auto.
  - by apply above_tail_false.
  - by apply above_tail_false.
Qed.

Lemma dir_apart name m j c :
  In name D → In (jname j) F → In c (job_calls j) → apart (Fill (place name) m) c.
Proof using Hsep.
  intros Hd Hj Hc. destruct (separate_spec F D Hsep) as (_ & _ & _ & Hs).
  apply job_calls_place in Hc as [->|[o ->]]; cbn; [by right|by apply Hs].
Qed.

Lemma workers_apart i1 i2 c1 c2 : i1 ≠ i2 → call_of i1 c1 → call_of i2 c2 → apart c1 c2.
Proof using Hsep.
  intros Hne (j1 & H1 & <- & Hc1) (j2 & H2 & <- & Hc2). apply (jobs_apart j1 j2); try done. congruence.
Qed.

Lemma worker_calls t i w cs : worker_ok t i w cs → Forall (call_of i) cs.
Proof.
  intros (Hq & cur & -> & Hcur). apply Forall_app. split.
  - destruct Hcur as [[_ ->]|(j & k & [Hj Hi] & _ & -> & _)]; [constructor|].
    apply Forall_drop, List.Forall_forall. intros c Hc. by exists j.
  - induction Hq as [|j q [Hj Hi] _ IH]; [constructor|]. cbn [map concat]. apply Forall_app. split; [|done].
    apply List.Forall_forall. intros c Hc. by exists j.
Qed.

Lemma call_of_proper i c : call_of i c → proper c.
Proof. intros (j & _ & _ & Hc). by eapply job_calls_proper. Qed.

(** The stage of a job survives every call apart from the job. *)
Lemma stage_keep t t' j k c :
  perform c t = Some t' → stage t j k →
  match c with
  | Fill a _ => above (place (jname j)) a = false
  | Own q _ => q ≠ place (jname j) ∧ above q (place (jname j)) = false
  end → stage t' j k.
Proof.
  intros Ht [Hd Hf] Hc. split.
  - intros Hk. eapply perform_dirs; [exact Ht| |by apply Hd].
    destruct c as [|q cl]; [done|]. destruct Hc. by apply above_tail_false.
  - intros Hk. destruct (Hf Hk) as (m & mt & d & Hn). exists m, mt, d.
    eapply perform_file; [exact Ht|apply place_ne| |done]. destruct c; [done|by destruct Hc].
Qed.

Lemma worker_keep_job t t' i i' w cs c :
  i ≠ i' → perform c t = Some t' → call_of i c → worker_ok t i' w cs → worker_ok t' i' w cs.
Proof using Hsep.
  intros Hne Ht (j & Hj & Hi & Hc) (Hq & cur & -> & Hcur). split; [done|]. exists cur. split; [done|].
  destruct Hcur as [?|(j' & k & [Hj' Hi'] & H1 & H2 & H3)]; [by left|]. right. exists j', k.
  split; [done|]. split; [done|]. split; [done|]. eapply stage_keep; [exact Ht|done|].
  assert (jname j ≠ jname j') as Hn by congruence.
  destruct (separate_spec F D Hsep) as (_ & _ & Hs & _).
  apply job_calls_place in Hc as [->|[o ->]].
  - by apply above_tail_false, Hs.
  - split; [|by apply Hs]. by intros ?%place_inj.
Qed.

Lemma worker_keep_dir t t' i w cs name m :
  In name D → perform (Fill (place name) m) t = Some t' → worker_ok t i w cs → worker_ok t' i w cs.
Proof using Hsep.
  intros Hd Ht (Hq & cur & -> & Hcur). split; [done|]. exists cur. split; [done|].
  destruct Hcur as [?|(j & k & [Hj Hi] & H1 & H2 & H3)]; [by left|]. right. exists j, k.
  split; [done|]. split; [done|]. split; [done|]. eapply stage_keep; [exact Ht|done|].
  destruct (separate_spec F D Hsep) as (_ & _ & _ & Hs). by apply Hs.
Qed.

(** The pool's workers and their calls, side by side. *)
Definition workers_ok (t : fs) (ws : list worker) (css : list (list call)) : Prop :=
  length css = length ws ∧
  ∀ i w cs, ws !! i = Some w → css !! i = Some cs → worker_ok t i w cs.

(** Before worker [i]'s calls stand only calls of other workers. *)
Lemma calls_before t ws css i cs :
  workers_ok t ws css → css !! i = Some cs →
  Forall (λ c, ∃ i', i' ≠ i ∧ call_of i' c) (concat (take i css)).
Proof.
  intros [Hl Hw] Hi. apply List.Forall_forall. intros c Hc.
  apply in_concat in Hc as (cs' & Hin & Hc). apply list_elem_of_In, list_elem_of_lookup in Hin as (i' & Hi').
  apply lookup_take_Some in Hi' as [Hi' Hlt]. exists i'. split; [lia|].
  assert (∃ w, ws !! i' = Some w) as [w Hww].
  { apply lookup_lt_is_Some. rewrite <- Hl. apply lookup_lt_is_Some. by eexists. }
  pose proof (worker_calls _ _ _ _ (Hw _ _ _ Hww Hi')) as Hf. rewrite List.Forall_forall in Hf. by apply Hf.
Qed.

Lemma calls_after t ws css i cs :
  workers_ok t ws css → css !! i = Some cs →
  Forall (λ c, ∃ i', i' ≠ i ∧ call_of i' c) (concat (drop (S i) css)).
Proof.
  intros [Hl Hw] Hi. apply List.Forall_forall. intros c Hc.
  apply in_concat in Hc as (cs' & Hin & Hc). apply list_elem_of_In, list_elem_of_lookup in Hin as (i' & Hi').
  rewrite lookup_drop in Hi'. exists (S i + i')%nat. split; [lia|].
  assert (∃ w, ws !! (S i + i')%nat = Some w) as [w Hww].
  { apply lookup_lt_is_Some. rewrite <- Hl. apply lookup_lt_is_Some. by eexists. }
  pose proof (worker_calls _ _ _ _ (Hw _ _ _ Hww Hi')) as Hf. rewrite List.Forall_forall in Hf. by apply Hf.
Qed.

Lemma all_calls t ws css : workers_ok t ws css → Forall (λ c, ∃ i, call_of i c) (concat css).
Proof.
  intros [Hl Hw]. apply List.Forall_forall. intros c Hc.
  apply in_concat in Hc as (cs' & Hin & Hc). apply list_elem_of_In, list_elem_of_lookup in Hin as (i & Hi).
  exists i. assert (∃ w, ws !! i = Some w) as [w Hww].
  { apply lookup_lt_is_Some. rewrite <- Hl. apply lookup_lt_is_Some. by eexists. }
  pose proof (worker_calls _ _ _ _ (Hw _ _ _ Hww Hi)) as Hf. rewrite List.Forall_forall in Hf. by apply Hf.
Qed.
End segment.

(** ** The serial loop in calls *)

Lemma way_performs os t t' F D : perform_all os t = Some t' → way_ok t F D → way_ok t' F D.
Proof.
  revert t. induction os as [|o os IH]; intros t; cbn; [by intros [= ->]|].
  destruct (perform o t) as [t1|] eqn:E; [|done]. intros H Hw. eapply IH; [done|]. by eapply way_perform.
Qed.

Lemma job_run F D j k t :
  separate F D = true → way_ok t F D → In (jname j) F → stage t j k →
  outcome (exec_all (drop k (job_ops j)) t) = perform_all (drop k (job_calls j)) t.
Proof.
  intros Hs Hw Hj. destruct (separate_spec F D Hs) as (Hp & _).
  remember (5 - k)%nat as m eqn:Hm. revert k t Hm Hw. induction m as [|m IH]; intros k t Hm Hw Hst.
  - rewrite !drop_ge by (cbn; lia). done.
  - destruct (job_ops j !! k) as [o|] eqn:Eo; [|apply lookup_ge_None in Eo; cbn in Eo; lia].
    destruct (job_step t j k o (Hp _ Hj) (proj1 Hw _ Hj) Hst Eo) as (c & Ec & Ho & Hn).
    rewrite (drop_S _ _ _ Eo), (drop_S _ _ _ Ec), perform_all_cons, <- Ho.
    unfold Untar.exec_all. cbn [foldR]. destruct (exec o t) as [t1|] eqn:Ex; [|done]. cbn in Ho.
    change (outcome (exec_all (drop (S k) (job_ops j)) t1) = perform_all (drop (S k) (job_calls j)) t1).
    symmetry in Ho. apply IH; [lia|by eapply way_perform|by apply Hn].
Qed.

Lemma serial_app t a b : serial t (a ++ b) = (serial t a ≫= λ t, serial t b).
Proof. apply foldR_app. Qed.

Lemma ends_bind {A B} (r : result errno A) (f : A → result errno B) :
  outcome (r ≫= f) = (outcome r ≫= λ a, outcome (f a)).
Proof. by destruct r. Qed.

Lemma segment_serial F D items t :
  separate F D = true → way_ok t F D → Forall (item_ok F D) items →
  outcome (serial t (concat (map item_instrs items))) = perform_all (concat (map item_calls items)) t.
Proof.
  intros Hs Hw Hi. destruct (separate_spec F D Hs) as (_ & Hd & _). revert t Hw.
  induction Hi as [|[name m|j] items Hi _ IH]; intros t Hw; [done| |]; cbn [map concat];
    rewrite serial_app, ends_bind, perform_all_app.
  - cbn [item_ok] in Hi.
    assert (outcome (serial t (item_instrs (EDir name m))) = perform_all (item_calls (EDir name m)) t) as ->.
    { cbn [item_instrs item_calls]. unfold Untar.serial. cbn [foldR serial_instr]. rewrite ends_bind.
      rewrite MkdirAll_plain by (try apply Hw; auto). rewrite perform_all_cons.
      destruct (perform _ t) as [t1|] eqn:E1; [|done]. cbn [mbind option_bind]. rewrite ends_bind.
      rewrite dir_step_mode; [|by apply Hd|by eapply perform_Fill_dirs]. rewrite perform_all_cons.
      by destruct (perform _ t1). }
    destruct (perform_all _ t) as [t1|] eqn:E; [|done]. cbn. apply IH. by eapply way_performs.
  - assert (outcome (serial t (item_instrs (EFile j))) = perform_all (item_calls (EFile j)) t) as ->.
    { cbn [item_instrs item_calls]. unfold Untar.serial. cbn [foldR serial_instr]. rewrite ends_bind.
      assert (stage t j 0) as H0 by (split; lia). pose proof (job_run F D j 0 t Hs Hw Hi H0) as Hj.
      rewrite !drop_0 in Hj. rewrite Hj. by destruct (perform_all _ t). }
    destruct (perform_all _ t) as [t1|] eqn:E; [|done]. cbn. apply IH. by eapply way_performs.
Qed.

(** ** The whole run *)

Definition half_instrs (h : option (string * Z)) : list instr :=
  match h with Some (name, m) => [IDir (Chmod name m)] | None => [] end.

Definition half_calls (h : option (string * Z)) : list call :=
  match h with Some (name, m) => [Fill (place name) (Some m)] | None => [] end.

(** No error so far: what is left - the workers' calls, then the reader's segment, then
    the rest of the program - leads to the serial outcome [S]. *)
Definition running (S : option fs) (s : untarPool) : Prop := ∃ F D half items rest css,
  failed s = false ∧ broken s = false ∧ pool s ≠ [] ∧
  separate F D = true ∧ way_ok (tree s) F D ∧
  workers_ok F (length (pool s)) (tree s) (pool s) css ∧
  match half with Some (name, _) => In name D ∧ all_dirs (tree s) (place name) | None => True end ∧
  Forall (item_ok F D) items ∧
  reader s = half_instrs half ++ concat (map item_instrs items) ++ rest ∧
  (barrier rest = true ∨ drained s = true ∧ half = None ∧ items = [] ∧ ∃ o r, rest = IBar o :: r) ∧
  let left := concat css ++ half_calls half ++ concat (map item_calls items) in
  (perform_all left (tree s) ≫= λ t1, outcome (serial t1 rest)) = S ∧
  ∀ t1, perform_all left (tree s) = Some t1 → ∃ fuel, orderly fuel t1 rest = true.

(** An error: the serial loop has one too, and the extraction will report one. *)
Definition doomed (S : option fs) (s : untarPool) : Prop := S = None ∧ failed s || broken s = true.

Lemma drained_workers F t s :
  drained s = true → workers_ok F (length (pool s)) t (pool s) (replicate (length (pool s)) []).
Proof.
  intros Hd. split; [apply length_replicate|]. intros i w cs Hw [-> _]%lookup_replicate.
  unfold drained in Hd. rewrite forallb_forall in Hd.
  assert (idle w = true) as Hi by (apply Hd, list_elem_of_In; by eapply list_elem_of_lookup_2).
  unfold idle in Hi. destruct w as [[|] [|]]; try done. split; [constructor|]. exists []. auto.
Qed.

Lemma concat_nils {A} m : concat (replicate m ([] : list A)) = [].
Proof. induction m; done. Qed.

Lemma segment_items_ok items : Forall (item_ok (files items) (dirs items)) items.
Proof.
  assert (∀ F D, (∀ f, In f (files items) → In f F) → (∀ d, In d (dirs items) → In d D) →
    Forall (item_ok F D) items) as H; [|by apply H].
  intros F D. induction items as [|[name m|j] items IH]; intros HF HD; constructor; cbn in *; auto.
Qed.

(** At a drained pool the rest of the program starts a segment or stands at a barrier. *)
Lemma enter S s fuel prog :
  failed s = false → broken s = false → pool s ≠ [] → drained s = true → reader s = prog →
  outcome (serial (tree s) prog) = S → orderly fuel (tree s) prog = true → running S s.
Proof.
  intros Hf Hb Hp Hd Hr HS Ho. destruct fuel as [|fuel]; [done|].
  assert (∀ F D items rest, separate F D = true → way_ok (tree s) F D → Forall (item_ok F D) items →
    prog = concat (map item_instrs items) ++ rest →
    (barrier rest = true ∨ items = [] ∧ ∃ o r, rest = IBar o :: r) →
    (∀ t1, perform_all (concat (map item_calls items)) (tree s) = Some t1 → ∃ fuel, orderly fuel t1 rest = true) →
    running S s) as Hmk.
  { intros F D items rest Hs Hw Hi Hpr Hba Hor. exists F, D, None, items, rest, (replicate (length (pool s)) []).
    split_and!; try done; [by apply drained_workers|by rewrite Hr| |].
    - destruct Hba as [?|(-> & ? )]; [by left|right]. by split_and!.
    - cbv zeta. rewrite concat_nils. cbn [half_calls app]. split; [|done].
      rewrite <- (segment_serial F D items _ Hs Hw Hi), <- ends_bind, <- serial_app, <- Hpr. exact HS. }
  assert (∀ t F D, F = [] → D = [] → way_ok t F D) as Hw0 by (by intros t ? ? -> ->).
  destruct prog as [|[o|j| |o|] prog'] eqn:Epr; cbn [orderly] in Ho.
  1, 4, 6: match goal with H : reader _ = ?p |- _ => apply (Hmk [] [] [] p) end;
    [done|by apply Hw0|constructor|done|by left|intros t1 [= <-]; by exists (Datatypes.S fuel)].
  3: { apply (Hmk [] [] [] (IBar o :: prog')); [done|by apply Hw0|constructor|done| |].
       - right. split; [done|by eexists _, _].
       - intros t1 [= <-]. by exists (Datatypes.S fuel). }
  all: match goal with H : context [split_items ?p] |- _ =>
         destruct (split_items p) as [items rest] eqn:Esp end;
    apply split_items_spec in Esp;
    rewrite !andb_true_iff in Ho; destruct Ho as ((((_ & Hs) & Hw%clear_way_spec) & Hba) & Ho);
    apply (Hmk (files items) (dirs items) items rest); try done; [apply segment_items_ok|by left|];
    intros t1 Ht1; rewrite <- (segment_serial _ _ _ _ Hs Hw (segment_items_ok items)) in Ht1;
    destruct (serial (tree s) (concat (map item_instrs items))) as [t2|]; [|done];
    injection Ht1 as ->; by exists fuel.
Qed.

Lemma busy s i w :
  pool s !! i = Some w → current w ≠ [] ∨ queue w ≠ [] → drained s = false.
Proof.
  intros Hw Hb. destruct (drained s) eqn:Hd; [|done]. unfold drained in Hd. rewrite forallb_forall in Hd.
  assert (idle w = true) as Hi by (apply Hd, list_elem_of_In; by eapply list_elem_of_lookup_2).
  unfold idle in Hi. destruct w as [[|] [|]]; naive_solver.
Qed.

Lemma concat_at {A} (css : list (list A)) i cs :
  css !! i = Some cs → concat css = concat (take i css) ++ cs ++ concat (drop (S i) css).
Proof.
  intros Hi. rewrite <- (take_drop_middle css i cs Hi) at 1. rewrite concat_app. done.
Qed.

Lemma concat_insert {A} (css : list (list A)) i cs cs' :
  css !! i = Some cs → concat (<[i := cs']> css) = concat (take i css) ++ cs' ++ concat (drop (S i) css).
Proof.
  intros Hi. rewrite insert_take_drop by (by eapply lookup_lt_Some). by rewrite concat_app.
Qed.

(** The next call of a worker may as well be the next of all. *)
Lemma next_call F D n t ws css i c cs L :
  separate F D = true → workers_ok F n t ws css → css !! i = Some (c :: cs) →
  perform_all (concat css ++ L) t = (perform c t ≫= perform_all (concat (<[i := cs]> css) ++ L)).
Proof.
  intros Hs Hw Hi. rewrite (concat_insert _ _ _ cs Hi), (concat_at _ _ _ Hi), <- !app_assoc. cbn [app].
  assert (call_of F n i c) as Hc.
  { destruct Hw as [Hl Hw]. assert (∃ w, ws !! i = Some w) as [w Hww].
    { apply lookup_lt_is_Some. rewrite <- Hl. apply lookup_lt_is_Some. by eexists. }
    pose proof (worker_calls _ _ _ _ _ _ (Hw _ _ _ Hww Hi)) as Hf. by apply Forall_cons in Hf as [? _]. }
  pose proof (calls_before _ _ _ _ _ _ _ Hw Hi) as Hb.
  rewrite perform_all_front; [apply perform_all_cons| |by eapply call_of_proper|].
  - eapply Forall_impl; [exact Hb|]. intros c' (i' & Hne & Hc'). eapply workers_apart; [exact Hs| |exact Hc|exact Hc'].
    done.
  - eapply Forall_impl; [exact Hb|]. intros c' (i' & _ & Hc'). by eapply call_of_proper.
Qed.

(** A dispatched job may as well have been its worker's already. *)
Lemma dispatched_calls F D n t ws css i j cs L :
  separate F D = true → workers_ok F n t ws css → css !! i = Some cs → job_of F n i j →
  perform_all (concat css ++ job_calls j ++ L) t =
  perform_all (concat (<[i := cs ++ job_calls j]> css) ++ L) t.
Proof.
  intros Hs Hw Hi [Hj Hsh]. rewrite (concat_insert _ _ _ _ Hi), (concat_at _ _ _ Hi), <- !app_assoc.
  rewrite !(perform_all_app _ (concat (take i css))). destruct (perform_all _ t) as [t1|]; [|done]. cbn [mbind option_bind].
  rewrite !(perform_all_app _ cs). destruct (perform_all cs t1) as [t2|]; [|done]. cbn [mbind option_bind].
  rewrite !app_assoc, !(perform_all_app _ _ L).
  pose proof (calls_after _ _ _ _ _ _ _ Hw Hi) as Ha.
  rewrite perform_all_swap; [done| | |].
  - apply List.Forall_forall. intros c Hc. eapply Forall_impl; [exact Ha|]. intros c' (i' & Hne & Hc').
    eapply workers_apart; [exact Hs|apply not_eq_sym; exact Hne| |exact Hc']. by exists j.
  - eapply Forall_impl; [exact Ha|]. intros c' (i' & _ & Hc'). by eapply call_of_proper.
  - apply List.Forall_forall. intros c Hc. by eapply job_calls_proper.
Qed.

(** A directory entry's call may be made before the workers'. *)
Lemma dir_call F D n t ws css name m L :
  separate F D = true → workers_ok F n t ws css → In name D →
  perform_all (concat css ++ Fill (place name) m :: L) t =
  (perform (Fill (place name) m) t ≫= perform_all (concat css ++ L)).
Proof.
  intros Hs Hw Hd. pose proof (all_calls _ _ _ _ _ Hw) as Ha.
  rewrite perform_all_front; [apply perform_all_cons| | |].
  - eapply Forall_impl; [exact Ha|]. intros c (i & j & Hj & _ & Hc). by eapply dir_apart.
  - destruct m; [apply place_ne|done].
  - eapply Forall_impl; [exact Ha|]. intros c (i & Hc). by eapply call_of_proper.
Qed.

Lemma drop_head {A} k (l : list A) o os : drop k l = o :: os → l !! k = Some o ∧ os = drop (S k) l.
Proof.
  intros H. assert (l !! k = Some o) as Hk.
  { rewrite <- (Nat.add_0_r k), <- lookup_drop, H. done. }
  split; [done|]. rewrite (drop_S _ _ _ Hk) in H. by injection H.
Qed.

Lemma workers_update F n t t' ws css i w cs :
  workers_ok F n t ws css → (∀ i' w' cs', i ≠ i' → worker_ok F n t i' w' cs' → worker_ok F n t' i' w' cs') →
  worker_ok F n t' i w cs → workers_ok F n t' (<[i := w]> ws) (<[i := cs]> css).
Proof.
  intros [Hl Hw] Ho Hi. split; [by rewrite !length_insert|]. intros i' w' cs'.
  destruct (decide (i = i')) as [<-|Hne].
  - intros [(_ & -> & _)|[? _]]%list_lookup_insert_Some [(_ & -> & _)|[? _]]%list_lookup_insert_Some; done.
  - rewrite !list_lookup_insert_ne by done. intros H1 H2. by apply Ho, Hw.
Qed.

Lemma write_step S s i w o os :
  running S s → pool s !! i = Some w → current w = o :: os →
  match exec o (tree s) with
  | Ok t' => running S (Pool t' (reader s) (<[i := Worker (queue w) os]> (pool s)) (failed s) (broken s))
  | Err _ => S = None
  end.
Proof.
  intros (F & D & half & items & rest & css & Hf & Hb & Hp & Hs & Hway & Hw & Hh & Hi & Hr & Hba & HS & Ho) Hwi Hc.
  destruct (lookup_lt_is_Some_2 css i) as [cs Hcs].
  { destruct Hw as [-> _]. by eapply lookup_lt_Some. }
  destruct (proj2 Hw i w cs Hwi Hcs) as (Hq & cur & -> & [[Hc' _]|(j & k & Hj & Hcur & -> & Hst)]); [congruence|].
  rewrite Hcur in Hc. apply drop_head in Hc as [Ek ->].
  destruct (separate_spec F D Hs) as (Hpl & _ & _ & Hfd).
  destruct (job_step (tree s) j k o (Hpl _ (proj1 Hj)) (proj1 Hway _ (proj1 Hj)) Hst Ek) as (c & Ec & Hout & Hn).
  assert (call_of F (length (pool s)) i c) as Hcall.
  { exists j. destruct Hj as [? ?]. split_and!; try done. apply list_elem_of_In. by eapply list_elem_of_lookup_2. }
  rewrite (drop_S _ _ _ Ec) in Hcs. cbn [app] in Hcs.
  assert (drained s = false) as Hdr by (eapply busy; [exact Hwi|left; by rewrite Hcur, (drop_S _ _ _ Ek)]).
  destruct Hba as [Hba|[? _]]; [|congruence]. cbv zeta in HS, Ho.
  rewrite (next_call _ _ _ _ _ _ _ _ _ _ Hs Hw Hcs), <- Hout in HS.
  rewrite (next_call _ _ _ _ _ _ _ _ _ _ Hs Hw Hcs), <- Hout in Ho.
  destruct (exec o (tree s)) as [t'|]; [|by cbn in HS]. cbn in HS, Ho. symmetry in Hout. cbn in Hout.
  exists F, D, half, items, rest, (<[i := drop (Datatypes.S k) (job_calls j) ++ concat (map job_calls (queue w))]> css).
  cbn [tree reader pool failed broken]. rewrite length_insert.
  split_and!; try done.
  - intros Hnil. apply (f_equal length) in Hnil. rewrite length_insert in Hnil. by destruct (pool s).
  - by eapply way_perform.
  - eapply workers_update; [exact Hw| |].
    + intros i' w' cs' Hne Hok. eapply worker_keep_job; [exact Hs|exact Hne|exact Hout|exact Hcall|exact Hok].
    + split; [done|]. eexists. split; [reflexivity|]. right. exists j, (Datatypes.S k). by split_and!; auto.
  - destruct half as [[name m]|]; [|done]. destruct Hh as [Hd Hdirs]. split; [done|].
    eapply perform_dirs; [exact Hout| |done]. destruct Hcall as (j' & Hj' & _ & Hc').
    apply job_calls_place in Hc' as [->|[o' ->]]; [done|by apply Hfd].
  - by left.
Qed.

Lemma take_step S s i w j q :
  running S s → pool s !! i = Some w → current w = [] → queue w = j :: q →
  running S (Pool (tree s) (reader s) (<[i := Worker q (job_ops j)]> (pool s)) (failed s) (broken s)).
Proof.
  intros (F & D & half & items & rest & css & Hf & Hb & Hp & Hs & Hway & Hw & Hh & Hi & Hr & Hba & HS & Ho) Hwi Hc Hq.
  assert (drained s = false) as Hdr by (eapply busy; [exact Hwi|right; by rewrite Hq]).
  destruct Hba as [Hba|[? _]]; [|congruence].
  exists F, D, half, items, rest, css. cbn [tree reader pool failed broken]. rewrite length_insert.
  split_and!; try done; [| |by left].
  - intros Hnil. apply (f_equal length) in Hnil. rewrite length_insert in Hnil. by destruct (pool s).
  - destruct (lookup_lt_is_Some_2 css i) as [cs Hcs].
    { destruct Hw as [-> _]. by eapply lookup_lt_Some. }
    rewrite <- (list_insert_id css i cs Hcs). eapply workers_update; [exact Hw|done|].
    destruct (proj2 Hw i w cs Hwi Hcs) as (Hqs & cur & -> & Hcur). rewrite Hq in *.
    apply Forall_cons in Hqs as [Hj Hqs]. split; [done|]. cbn [queue current].
    exists (job_calls j). split.
    + destruct Hcur as [[_ ->]|(j' & k & _ & Hk & -> & _)]; [done|].
      rewrite Hc in Hk. apply (f_equal length) in Hk. rewrite length_drop in Hk.
      change (0 = 5 - k)%nat in Hk. rewrite drop_ge; [done|]. change (5 ≤ k)%nat. lia.
    + right. exists j, 0%nat. split_and!; try done. split; lia.
Qed.

Lemma dispatch_step S s j rest' k w :
  running S s → reader s = IQueue j :: rest' → k = shard (length (pool s)) (jname j) → pool s !! k = Some w →
  running S (Pool (tree s) rest' (<[k := Worker (queue w ++ [j]) (current w)]> (pool s)) (failed s) (broken s)).
Proof.
  intros (F & D & half & items & rest & css & Hf & Hb & Hp & Hs & Hway & Hw & Hh & Hi & Hr & Hba & HS & Ho) Hrd Hk Hwi.
  rewrite Hrd in Hr. destruct half as [[name m]|]; [done|]. cbn [half_instrs app] in Hr.
  destruct items as [|[name m|j'] items]; cbn in Hr; [|done|].
  { exfalso. destruct Hba as [Hba|(_ & _ & _ & o & r & ->)]; [by rewrite <- Hr in Hba|done]. }
  injection Hr as <- ->. apply Forall_cons in Hi as [Hj Hi]. cbn [item_ok] in Hj.
  destruct Hba as [Hba|(_ & _ & ? & _)]; [|done].
  destruct (lookup_lt_is_Some_2 css k) as [cs Hcs].
  { destruct Hw as [-> _]. by eapply lookup_lt_Some. }
  assert (job_of F (length (pool s)) k j) as Hjob by (by split).
  cbv zeta in HS, Ho. cbn [half_calls app map concat item_calls] in HS, Ho.
  rewrite (dispatched_calls _ _ _ _ _ _ _ _ _ _ Hs Hw Hcs Hjob) in HS.
  rewrite (dispatched_calls _ _ _ _ _ _ _ _ _ _ Hs Hw Hcs Hjob) in Ho.
  exists F, D, None, items, rest, (<[k := cs ++ job_calls j]> css). cbn [tree reader pool failed broken].
  rewrite length_insert. split_and!; try done; [| |by left].
  - intros Hnil. apply (f_equal length) in Hnil. rewrite length_insert in Hnil. by destruct (pool s).
  - eapply workers_update; [exact Hw|done|].
    destruct (proj2 Hw k w cs Hwi Hcs) as (Hqs & cur & -> & Hcur). cbn [queue current]. split.
    + cbn [queue]. apply Forall_app. split; [done|]. by constructor.
    + exists cur. split; [|done]. cbn [queue]. rewrite map_app, concat_app. cbn [map concat]. by rewrite app_nil_r, app_assoc.
Qed.

(** Nothing is left of a drained pool. *)
Lemma drained_calls F n t s css :
  drained s = true → workers_ok F n t (pool s) css → concat css = [].
Proof.
  intros Hd [Hl Hw]. apply concat_nil_Forall, List.Forall_forall. intros cs Hin.
  apply list_elem_of_In, list_elem_of_lookup in Hin as [i Hcs].
  assert (∃ w, pool s !! i = Some w) as [w Hwi].
  { apply lookup_lt_is_Some. rewrite <- Hl. apply lookup_lt_is_Some. by eexists. }
  assert (current w = [] ∧ queue w = []) as [Hc Hq].
  { destruct (current w) eqn:Ec, (queue w) eqn:Eq; try done;
      (assert (drained s = false) by (eapply busy; [exact Hwi|rewrite Ec, Eq; auto])); congruence. }
  destruct (Hw i w cs Hwi Hcs) as (_ & cur & -> & Hcur). rewrite Hq. cbn [map concat]. rewrite app_nil_r.
  destruct Hcur as [[_ ->]|(j & k & _ & Hk & -> & _)]; [done|]. rewrite Hc in Hk.
  apply (f_equal length) in Hk. rewrite length_drop in Hk. change (0 = 5 - k)%nat in Hk.
  apply drop_ge. change (5 ≤ k)%nat. lia.
Qed.

Lemma dir_made S s name m half' F D items rest css :
  failed s = false → broken s = false → pool s ≠ [] → separate F D = true → way_ok (tree s) F D →
  workers_ok F (length (pool s)) (tree s) (pool s) css → In name D → Forall (item_ok F D) items →
  barrier rest = true →
  (∀ t', perform (Fill (place name) m) (tree s) = Some t' →
     match half' with Some (name', _) => In name' D ∧ all_dirs t' (place name') | None => True end) →
  let left := concat css ++ Fill (place name) m :: half_calls half' ++ concat (map item_calls items) in
  (perform_all left (tree s) ≫= λ t1, outcome (serial t1 rest)) = S →
  (∀ t1, perform_all left (tree s) = Some t1 → ∃ fuel, orderly fuel t1 rest = true) →
  match perform (Fill (place name) m) (tree s) with
  | Some t' => running S (Pool t' (half_instrs half' ++ concat (map item_instrs items) ++ rest)
                            (pool s) (failed s) (broken s))
  | None => S = None
  end.
Proof.
  intros Hf Hb Hp Hs Hway Hw Hd Hi Hba Hh left HS Ho. subst left.
  rewrite (dir_call _ _ _ _ _ _ _ _ _ Hs Hw Hd) in HS. rewrite (dir_call _ _ _ _ _ _ _ _ _ Hs Hw Hd) in Ho.
  destruct (perform _ (tree s)) as [t'|] eqn:E; [|done]. cbn [mbind option_bind] in HS, Ho.
  exists F, D, half', items, rest, css. cbn [tree reader pool failed broken].
  split_and!; try done; [by eapply way_perform| |by apply Hh|by left].
  destruct Hw as [Hl Hw]. split; [done|]. intros i w cs H1 H2. eapply worker_keep_dir; [exact Hs|exact Hd|exact E|].
  by apply Hw.
Qed.

Lemma call_step S s i o rest' :
  running S s → reader s = i :: rest' → i = IDir o ∨ i = IBar o →
  match exec o (tree s) with
  | Ok t' => running S (Pool t' rest' (pool s) (failed s) (broken s))
  | Err _ => S = None
  end.
Proof.
  intros (F & D & half & items & rest & css & Hf & Hb & Hp & Hs & Hway & Hw & Hh & Hi & Hr & Hba & HS & Ho) Hrd Hio.
  rewrite Hrd in Hr. destruct (separate_spec F D Hs) as (_ & Hpd & _). cbv zeta in HS, Ho.
  destruct half as [[name m]|]; cbn [half_instrs half_calls app] in Hr, HS, Ho.
  - injection Hr as -> ->. destruct Hio as [[= <-]|]; [|done]. destruct Hh as [Hd Hdirs].
    destruct Hba as [Hba|(_ & ? & _)]; [|done].
    pose proof (dir_step_mode (tree s) name m (Hpd _ Hd) Hdirs) as Hx.
    pose proof (dir_made S s name (Some m) None F D items rest css Hf Hb Hp Hs Hway Hw Hd Hi Hba ltac:(done) HS Ho) as Hm.
    rewrite <- Hx in Hm. by destruct (exec _ (tree s)).
  - destruct items as [|[name m|j] items]; cbn [map concat item_instrs item_calls app] in Hr, HS, Ho.
    + rewrite app_nil_r in HS, Ho.
      destruct Hba as [Hba|(Hdr & _ & _ & o' & r & ->)]; [by rewrite <- Hr in Hba; destruct Hio as [->| ->]|].
      injection Hr as -> ->. destruct Hio as [|[= <-]]; [done|].
      rewrite (drained_calls _ _ _ _ _ Hdr Hw) in HS, Ho. cbn [PoolOps.perform_all mbind option_bind] in HS, Ho.
      destruct (Ho _ eq_refl) as [[|fuel] Hfu]; [done|]. cbn [orderly] in Hfu.
      unfold Untar.serial in HS. cbn [foldR serial_instr] in HS.
      destruct (exec o' (tree s)) as [t'|]; [|done]. by apply (enter S _ fuel r).
    + injection Hr as -> ->. destruct Hio as [[= <-]|]; [|done]. apply Forall_cons in Hi as [Hd Hi].
      destruct Hba as [Hba|(_ & _ & ? & _)]; [|done].
      pose proof (dir_step_mk (tree s) name (Hpd _ Hd) (proj2 Hway _ Hd)) as Hx.
      assert (∀ t', perform (Fill (place name) None) (tree s) = Some t' → In name D ∧ all_dirs t' (place name)) as Hh'.
      { intros t' Ht'. split; [done|]. by eapply perform_Fill_dirs. }
      pose proof (dir_made S s name None (Some (name, m)) F D items rest css Hf Hb Hp Hs Hway Hw Hd Hi Hba Hh' HS Ho) as Hm.
      rewrite <- Hx in Hm. by destruct (exec _ (tree s)).
    + injection Hr as -> _. by destruct Hio.
Qed.

Lemma flush_step S s rest' :
  running S s → reader s = IFlush :: rest' → drained s = true →
  running S (Pool (tree s) rest' (pool s) (failed s) (broken s)).
Proof.
  intros (F & D & half & items & rest & css & Hf & Hb & Hp & Hs & Hway & Hw & Hh & Hi & Hr & Hba & HS & Ho) Hrd Hdr.
  rewrite Hrd in Hr. cbv zeta in HS, Ho.
  destruct half as [[name m]|]; [done|]. destruct items as [|[name m|j] items]; [|done..].
  cbn in Hr. subst rest. cbn [half_calls map concat app] in HS, Ho. rewrite app_nil_r in HS, Ho.
  rewrite (drained_calls _ _ _ _ _ Hdr Hw) in HS, Ho. cbn [PoolOps.perform_all mbind option_bind] in HS, Ho.
  destruct (Ho _ eq_refl) as [[|fuel] Hfu]; [done|]. by apply (enter S _ fuel rest').
Qed.

Lemma short_step S s rest' : running S s → reader s = IFail :: rest' → S = None.
Proof.
  intros (F & D & half & items & rest & css & Hf & Hb & Hp & Hs & Hway & Hw & Hh & Hi & Hr & Hba & HS & Ho) Hrd.
  rewrite Hrd in Hr. destruct half as [[name m]|]; [done|]. destruct items as [|[name m|j] items]; [|done..].
  cbn in Hr. subst rest. cbv zeta in HS. by destruct (perform_all _ (tree s)).
Qed.

Lemma running_step S s s' :
  running S s → step max_links umask s s' → running S s' ∨ doomed S s'.
Proof.
  intros Hrun Hst. pose proof Hrun as (F & D & half & items & rest & css & Hf & Hb & _).
  destruct Hst as [o i rest' s t' Hr Hio Hx|o i rest' s e Hr Hio Hx|j rest' s k w Hr _ Hk Hw _|j rest' s Hr Hfl
    |rest' s Hr Hd _|rest' s Hr Hd Hfl|rest' s Hr|s k w j q Hw Hc Hq _|s k w j q Hw Hc Hq Hfl
    |s k w o os t' Hw Hc Hx|s k w o os e Hw Hc Hx]; try congruence.
  - left. pose proof (call_step S s i o rest' Hrun Hr Hio) as H. by rewrite Hx in H.
  - right. pose proof (call_step S s i o rest' Hrun Hr Hio) as H. rewrite Hx in H. split; [done|].
    cbn. apply orb_true_r.
  - left. by eapply dispatch_step.
  - left. by apply flush_step.
  - right. split; [by eapply short_step|]. cbn. apply orb_true_r.
  - left. by eapply take_step.
  - left. pose proof (write_step S s k w o os Hrun Hw Hc) as H. by rewrite Hx in H.
  - right. pose proof (write_step S s k w o os Hrun Hw Hc) as H. rewrite Hx in H. by split.
Qed.

Lemma doomed_step S s s' : doomed S s → step max_links umask s s' → doomed S s'.
Proof.
  intros [HS Hfb] Hst. split; [done|].
  destruct Hst; cbn; try done; by rewrite ?orb_true_r.
Qed.

(** ** Every run ends *)

Definition instr_weight (i : instr) : nat := match i with IQueue _ => 8 | _ => 1 end.
Definition worker_weight (w : worker) : nat := 7 * length (queue w) + length (current w).

Definition sum (l : list nat) : nat := fold_right Nat.add 0%nat l.

(** The steps a run can still make. *)
Definition weight (s : untarPool) : nat :=
  sum (map instr_weight (reader s)) + sum (map worker_weight (pool s)).

Lemma sum_app a b : sum (a ++ b) = (sum a + sum b)%nat.
Proof. induction a as [|x a IH]; cbn; [done|]. unfold sum in *. cbn. lia. Qed.

Lemma weight_insert ws i w w' :
  ws !! i = Some w →
  (sum (map worker_weight (<[i := w']> ws)) + worker_weight w =
   sum (map worker_weight ws) + worker_weight w')%nat.
Proof.
  intros Hi. rewrite insert_take_drop by (by eapply lookup_lt_Some).
  rewrite <- (take_drop_middle ws i w Hi) at 3. rewrite !map_app, !sum_app. unfold sum. cbn. lia.
Qed.

Lemma step_weight s s' : step max_links umask s s' → (weight s' < weight s)%nat.
Proof.
  unfold weight.
  assert (∀ i (rest : list instr), (0 < sum (map instr_weight (i :: rest)))%nat) as Hpos.
  { intros i rest. unfold sum. cbn. by destruct i; cbn; lia. }
  destruct 1 as [o i rest' s t' Hr Hio Hx|o i rest' s e Hr Hio Hx|j rest' s k w Hr _ Hk Hw _|j rest' s Hr Hfl
    |rest' s Hr Hd _|rest' s Hr Hd Hfl|rest' s Hr|s k w j q Hw Hc Hq _|s k w j q Hw Hc Hq Hfl
    |s k w o os t' Hw Hc Hx|s k w o os e Hw Hc Hx]; cbn [tree reader pool stop_reader];
    rewrite ?Hr; cbn [map]; try (unfold sum; cbn; lia).
  - destruct Hio as [->| ->]; unfold sum; cbn; lia.
  - destruct Hio as [->| ->]; unfold sum; cbn; lia.
  - pose proof (weight_insert _ _ _ (Worker (queue w ++ [j]) (current w)) Hw) as H.
    unfold worker_weight in H at 2 4. cbn [queue current] in H. rewrite length_app in H.
    unfold sum in *. cbn in *. lia.
  - pose proof (weight_insert _ _ _ (Worker q (job_ops j)) Hw) as H.
    unfold worker_weight in H at 2 4. rewrite Hq, Hc in H. cbn in H. unfold sum in *. cbn in *. lia.
  - pose proof (weight_insert _ _ _ (Worker q []) Hw) as H.
    unfold worker_weight in H at 2 4. rewrite Hq, Hc in H. cbn in H. unfold sum in *. cbn in *. lia.
  - pose proof (weight_insert _ _ _ (Worker (queue w) os) Hw) as H.
    unfold worker_weight in H at 2 4. rewrite Hc in H. cbn in H. unfold sum in *. cbn in *. lia.
  - pose proof (weight_insert _ _ _ (Worker (queue w) []) Hw) as H.
    unfold worker_weight in H at 2 4. rewrite Hc in H. cbn in H. unfold sum in *. cbn in *. lia.
Qed.

Lemma shard_lt n name : n ≠ 0%nat → (shard n name < n)%nat.
Proof.
  intros Hn. unfold shard. pose proof (Z.mod_pos_bound (fnv32a name) (Z.of_nat n) ltac:(lia)). lia.
Qed.

(** A worker with something to do can do it. *)
Lemma worker_moves s i w :
  pool s !! i = Some w → idle w = false → ∃ s', step max_links umask s s'.
Proof.
  intros Hw Hi. destruct (current w) as [|o os] eqn:Ec.
  - destruct (queue w) as [|j q] eqn:Eq; [unfold idle in Hi; by rewrite Ec, Eq in Hi|].
    destruct (failed s) eqn:Ef; eexists; [by eapply step_skip|by eapply step_take].
  - destruct (exec o (tree s)) as [t'|e] eqn:Ex; eexists; [by eapply step_write|by eapply step_write_err].
Qed.

Lemma not_drained s : drained s = false → ∃ i w, pool s !! i = Some w ∧ idle w = false.
Proof.
  unfold drained. intros H. destruct (decide (Forall (λ w, idle w = true) (pool s))) as [Hall|Hex].
  - exfalso. rewrite List.Forall_forall in Hall. assert (forallb idle (pool s) = true); [|congruence].
    by apply forallb_forall.
  - apply not_Forall_Exists in Hex; [|intros w; destruct (idle w); [by left|by right]].
    apply Exists_exists in Hex as (w & Hin & Hw). apply list_elem_of_lookup in Hin as [i Hi].
    exists i, w. split; [done|]. destruct (idle w) eqn:E; [by destruct Hw|done].
Qed.

Lemma progress s : pool s ≠ [] → returned s ∨ ∃ s', step max_links umask s s'.
Proof.
  intros Hp. destruct (drained s) eqn:Hd.
  2: { destruct (not_drained s Hd) as (i & w & Hw & Hi). right. by eapply worker_moves. }
  destruct (reader s) as [|[o|j| |o|] rest'] eqn:Hr; [by left|right..].
  - destruct (exec o (tree s)) as [t'|e] eqn:Ex; eexists;
      [eapply step_call|eapply step_call_err]; eauto.
  - destruct (failed s) eqn:Hf; [eexists; by eapply step_refused|].
    destruct (lookup_lt_is_Some_2 (pool s) (shard (length (pool s)) (jname j))) as [w Hw].
    { apply shard_lt. by destruct (pool s). }
    eexists. eapply step_dispatch; try done.
    unfold drained in Hd. rewrite forallb_forall in Hd.
    assert (idle w = true) as Hi by (apply Hd, list_elem_of_In; by eapply list_elem_of_lookup_2).
    unfold idle in Hi. destruct (queue w) as [|j0 q0]; [unfold channel_size; cbn; lia|by destruct (current w)].
  - destruct (failed s) eqn:Hf; eexists; [by eapply step_flush_err|by eapply step_flush].
  - destruct (exec o (tree s)) as [t'|e] eqn:Ex; eexists;
      [eapply step_call|eapply step_call_err]; eauto.
  - eexists. by eapply step_short.
Qed.

Lemma step_workers s s' : step max_links umask s s' → length (pool s') = length (pool s).
Proof. destruct 1; cbn; by rewrite ?length_insert. Qed.

(** C29. The pool never hangs. From the start of any stream over at least one worker,
    whatever the schedule - full channels, barriers, errors in any worker or in the
    reader - every state reached has returned with its workers drained or can step,
    and every step uses up one of finitely many, so the extraction returns. *)
Theorem untarPool_returns (n : nat) (t : fs) (prog : list instr) (s : untarPool) (k : nat) :
  n ≠ 0%nat → nsteps (step max_links umask) k (newUntarPool n t prog) s →
  (k + weight s ≤ sum (map instr_weight prog))%nat ∧
  (returned s ∨ ∃ s', step max_links umask s s').
Proof.
  intros Hn Hk. assert (∀ s0, nsteps (step max_links umask) k s0 s →
    (k + weight s ≤ weight s0)%nat ∧ length (pool s) = length (pool s0)) as H.
  { clear Hk. revert s. induction k as [|k IH]; intros s s0 Hk.
    - inversion Hk; subst. split; [lia|done].
    - apply nsteps_inv_r in Hk as (s1 & Hk & Hst). destruct (IH _ _ Hk) as [Hw Hl].
      pose proof (step_weight _ _ Hst). pose proof (step_workers _ _ Hst). split; [lia|congruence]. }
  destruct (H _ Hk) as [Hw Hl]. split.
  - unfold weight at 2 in Hw. cbn [newUntarPool reader pool] in Hw.
    assert (sum (map worker_weight (replicate n (Worker [] []))) = 0%nat) as H0 by (clear; induction n; done).
    lia.
  - apply progress. intros Hnil. cbn in Hl. rewrite length_replicate in Hl. rewrite Hnil in Hl. by apply Hn.
Qed.

(** ** The pool is the serial loop *)

(** C6. Concurrency is invisible. For every stream whose segments between barriers are
    of separate names over a way clear of links - what walking a tree produces - and
    for every number of workers, however the reader and the workers interleave at each
    file system call, an extraction that returns has succeeded exactly when the serial
    loop over the same entries does, and then leaves exactly the serial tree. *)
Theorem untarPool_serial (limit strip : nat) (rename : option (string → string))
    (hs : list header) (clean : bool) (n : nat) (t : fs) (s : untarPool) :
  let prog := untar_program limit strip rename hs clean in
  n ≠ 0%nat → orderly (S (length prog)) t prog = true →
  rtc (step max_links umask) (newUntarPool n t prog) s → returned s →
  match serial t prog with
  | Ok t' => succeeded s = true ∧ tree s = t'
  | Err _ => succeeded s = false
  end.
Proof.
  intros prog Hn Ho Hst [Hr Hd].
  assert (running (outcome (serial t prog)) (newUntarPool n t prog)) as H0.
  { apply (enter _ _ (S (length prog)) prog); try done.
    - by destruct n.
    - unfold drained. cbn. clear. by induction n. }
  assert (running (outcome (serial t prog)) s ∨ doomed (outcome (serial t prog)) s) as [Hs|[HS Hfb]].
  { clear Hr Hd. assert (running (outcome (serial t prog)) (newUntarPool n t prog) ∨
      doomed (outcome (serial t prog)) (newUntarPool n t prog)) as H by (by left).
    clear H0. induction Hst as [s|s1 s2 s3 H12 _ IH]; [done|]. apply IH.
    destruct H as [H|H]; [by eapply running_step|right; by eapply doomed_step]. }
  - destruct Hs as (F & D & half & items & rest & css & Hf & Hb & Hp & Hs & Hway & Hw & Hh & Hi & Hrd & Hba & HS & _).
    rewrite Hr in Hrd. destruct half as [[name m]|]; [done|]. destruct items as [|[name m|j] items]; [|done..].
    cbn in Hrd. subst rest. cbv zeta in HS. cbn [half_calls map concat app] in HS. rewrite app_nil_r in HS.
    rewrite (drained_calls _ _ _ _ _ Hd Hw) in HS. cbn in HS.
    destruct (serial t prog) as [t'|]; [|done]. injection HS as ->. split; [|done].
    unfold succeeded. by rewrite Hf, Hb.
  - destruct (serial t prog) as [t'|]; [done|]. unfold succeeded.
    destruct (failed s), (broken s); done.
Qed.
End pool.
