(* ===== verification/UntarScenarios.v ===== *)
(** Streams and schedules: an orderly stream run through the pool, and two hostile
    streams on which the pool and the serial loop part. *)

From S2P Require Import Prelude GoString Untar UntarLaws PoolOps PoolLaws.

(** ** Schedules *)

(** A choice of who moves: the reader, or a worker. *)
Definition do_step (c : option nat) (s : untarPool) : option untarPool :=
  match c with
  | None =>
      match reader s with
      | [] => None
      | (IDir o | IBar o) :: rest =>
          match exec 40 18 o (tree s) with
          | Ok t => Some (Pool t rest (pool s) (failed s) (broken s))
          | Err _ => Some (stop_reader s)
          end
      | IQueue j :: rest =>
          if failed s then Some (stop_reader s)
          else
            let k := shard (length (pool s)) (jname j) in
            match pool s !! k with
            | Some w =>
                if (length (queue w) <? channel_size)%nat
                then Some (Pool (tree s) rest (<[k := Worker (queue w ++ [j]) (current w)]> (pool s))
                             (failed s) (broken s))
                else None
            | None => None
            end
      | IFlush :: rest =>
          if drained s then
            if failed s then Some (stop_reader s)
            else Some (Pool (tree s) rest (pool s) (failed s) (broken s))
          else None
      | IFail :: _ => Some (stop_reader s)
      end
  | Some k =>
      match pool s !! k with
      | None => None
      | Some w =>
          match current w, queue w with
          | o :: os, _ =>
              match exec 40 18 o (tree s) with
              | Ok t => Some (Pool t (reader s) (<[k := Worker (queue w) os]> (pool s)) (failed s) (broken s))
              | Err _ => Some (Pool (tree s) (reader s) (<[k := Worker (queue w) []]> (pool s)) true (broken s))
              end
          | [], j :: q =>
              if failed s
              then Some (Pool (tree s) (reader s) (<[k := Worker q []]> (pool s)) (failed s) (broken s))
              else Some (Pool (tree s) (reader s) (<[k := Worker q (job_ops j)]> (pool s)) (failed s) (broken s))
          | [], [] => None
          end
      end
  end.

(** A choice that cannot move is passed over. *)
Fixpoint play (cs : list (option nat)) (s : untarPool) : untarPool :=
  match cs with
  | [] => s
  | c :: cs => play cs (default s (do_step c s))
  end.

Lemma do_step_sound c s s' : do_step c s = Some s' → step 40 18 s s'.
Proof.
  unfold do_step. destruct c as [k|].
  - destruct (pool s !! k) as [w|] eqn:Hw; [|done]. destruct (current w) as [|o os] eqn:Hc.
    + destruct (queue w) as [|j q] eqn:Hq; [done|].
      destruct (failed s) eqn:Hf; intros [= <-]; rewrite <- Hf; [by eapply step_skip|by eapply step_take].
    + destruct (exec 40 18 o (tree s)) eqn:Hx; intros [= <-]; [by eapply step_write|by eapply step_write_err].
  - destruct (reader s) as [|[o|j| |o|] rest] eqn:Hr; [done|..].
    + destruct (exec 40 18 o (tree s)) eqn:Hx; intros [= <-]; [eapply step_call|eapply step_call_err]; eauto.
    + destruct (failed s) eqn:Hf; [intros [= <-]; by eapply step_refused|].
      destruct (pool s !! _) as [w|] eqn:Hw; [|done].
      destruct (Nat.ltb_spec (length (queue w)) channel_size); [|done]. intros [= <-]. rewrite <- Hf.
      by eapply step_dispatch.
    + destruct (drained s) eqn:Hd; [|done].
      destruct (failed s) eqn:Hf; intros [= <-]; [by eapply step_flush_err|rewrite <- Hf; by eapply step_flush].
    + destruct (exec 40 18 o (tree s)) eqn:Hx; intros [= <-]; [eapply step_call|eapply step_call_err]; eauto.
    + intros [= <-]. by eapply step_short.
Qed.

Lemma play_sound cs s : rtc (step 40 18) s (play cs s).
Proof.
  revert s. induction cs as [|c cs IH]; intros s; [apply rtc_refl|]. cbn.
  destruct (do_step c s) as [s'|] eqn:E; cbn; [|apply IH].
  eapply rtc_l; [by eapply do_step_sound|apply IH].
Qed.

(** The reader as far as it gets, then the workers in turn, again and again. *)
Definition reader_first (rounds : nat) : list (option nat) :=
  concat (repeat (repeat None 8 ++ concat (repeat [Some 1; Some 0]%nat 7)) rounds).

(** ** An orderly stream *)

Definition file (name data : string) : header := Header name TypeReg "" 420 1785542400 (String.length data) data.
Definition dir (name : string) : header := Header name TypeDir "" 493 1785542400 0 "".

Definition source_tree : list header :=
  [dir "linux-6.18.20/"; file "linux-6.18.20/Makefile" "all:"; dir "linux-6.18.20/init/";
   file "linux-6.18.20/init/main.c" "int main;"; file "linux-6.18.20/Makefile" "all: vmlinux";
   Header "linux-6.18.20/latest" TypeSymlink "init" 511 0 0 "";
   file "linux-6.18.20/init/big.c" "a body over the inline limit"; file "linux-6.18.20/README" "kernel"].

Definition source_program : list instr := untar_program 16 1 None source_tree true.
Definition source_run : untarPool := play (reader_first 8) (newUntarPool 2 ∅ source_program).

Lemma untarPool_serial_witness :
  (orderly 40 18 (S (length source_program)) ∅ source_program = true ∧ returned source_run) ∧
  match serial 40 18 ∅ source_program with
  | Ok t' => succeeded source_run = true ∧ tree source_run = t'
  | Err _ => succeeded source_run = false
  end.
Proof.
  assert (orderly 40 18 (S (length source_program)) ∅ source_program = true) as Ho by (by vm_compute).
  assert (returned source_run) as Hr by (split; by vm_compute).
  split; [by split|].
  exact (untarPool_serial 40 18 16 1 None source_tree true 2 ∅ source_run ltac:(done) Ho
           (play_sound _ _) Hr).
Defined.

(** That run succeeds, and the file given twice has its second content. *)
Example source_run_content :
  succeeded source_run = true ∧
  tree source_run !! ["Makefile"] = Some (NFile 420 (Some 1785542400%Z) "all: vmlinux") ∧
  tree source_run !! ["big.c"; "init"] = Some (NFile 420 (Some 1785542400%Z) "a body over the inline limit").
Proof. split_and!; by vm_compute. Qed.

Lemma untarPool_returns_witness :
  2%nat ≠ 0%nat ∧ nsteps (step 40 18) 0 (newUntarPool 2 ∅ source_program) (newUntarPool 2 ∅ source_program) ∧
  ((0 + weight (newUntarPool 2 ∅ source_program) ≤ sum (map instr_weight source_program))%nat ∧
   (returned (newUntarPool 2 ∅ source_program) ∨
    ∃ s', step 40 18 (newUntarPool 2 ∅ source_program) s')).
Proof.
  assert (nsteps (step 40 18) 0 (newUntarPool 2 ∅ source_program) (newUntarPool 2 ∅ source_program)) as H
    by constructor.
  split; [done|]. split; [exact H|].
  exact (untarPool_returns 40 18 2 ∅ source_program _ 0 ltac:(done) H).
Defined.

(** ** Two streams that are not *)

(** A name through a link to a directory is another name for the same file. *)
Definition aliased : list header :=
  [dir "a"; Header "b" TypeSymlink "a" 511 0 0 ""; file "a/x" "first"; file "b/x" "second"].

(** A file name given again as a directory. *)
Definition refiled : list header := [file "a" "file"; dir "a"].

Definition program (hs : list header) : list instr := untar_program 16 0 None hs true.

(** The reader to its end, then one worker to its end, then the other. *)
Definition one_by_one (first second : nat) : list (option nat) :=
  repeat None 20 ++ repeat (Some first) 20 ++ repeat (Some second) 20.

(** Shards keep the order of a name, not of a file. When two names of a stream
    reach one file through a directory link, their writes sit on different workers:
    two schedules of the same extraction both succeed and leave different contents, of
    which one is the serial result. And a file name that returns as a directory, which
    the serial loop refuses, is accepted by a schedule of the pool. *)
Theorem untarPool_races :
  let fair cs hs := play cs (newUntarPool 2 ∅ (program hs)) in
  let s1 := fair (one_by_one 1 0) aliased in
  let s2 := fair (one_by_one 0 1) aliased in
  (rtc (step 40 18) (newUntarPool 2 ∅ (program aliased)) s1 ∧ returned s1 ∧ succeeded s1 = true ∧
   rtc (step 40 18) (newUntarPool 2 ∅ (program aliased)) s2 ∧ returned s2 ∧ succeeded s2 = true ∧
   tree s1 !! ["x"; "a"] = Some (NFile 420 (Some 1785542400%Z) "second") ∧
   tree s2 !! ["x"; "a"] = Some (NFile 420 (Some 1785542400%Z) "first") ∧
   (tree s1 !! ["x"; "a"]) = match serial 40 18 ∅ (program aliased) with
                             | Ok t => t !! ["x"; "a"] | Err _ => None end) ∧
  (let s := fair (one_by_one 0 1) refiled in
   rtc (step 40 18) (newUntarPool 2 ∅ (program refiled)) s ∧ returned s ∧ succeeded s = true ∧
   serial 40 18 ∅ (program refiled) = Err ENotDir).
Proof.
  cbv zeta. split; split_and!; first [apply play_sound|by vm_compute|split; by vm_compute].
Qed.
