(* ===== verification/PoolBounds.v ===== *)
(** What the write pool holds (cmd/kbuild-step/untarpool.go): bodies wait in memory only
    below the inline limit, and the channels bound how many of them do. *)

From S2P Require Import Prelude GoString Untar UntarScenarios.

(** [n] of newUntarPool. *)
Definition pool_size (GOMAXPROCS : nat) : nat := Nat.max (Nat.min GOMAXPROCS 8) 1.

(** Bytes of file bodies a worker has still to write: its channel, and the job in hand
    until its bytes are written (its buffer goes back only when the job is done, so the
    hand counts once either way). The body the reader holds while a channel is full is
    not a worker's, and is one more at most. *)
Definition op_bytes (o : op) : nat := match o with Create _ _ data => String.length data | _ => 0 end.
Definition job_bytes (j : writeJob) : nat := String.length (jdata j).
Definition held (w : worker) : nat := sum_list_with job_bytes (queue w) + sum_list_with op_bytes (current w).
Definition held_all (s : untarPool) : nat := sum_list_with held (pool s).

Section bounds.
Context (max_links : nat) (umask : Z) (limit : nat).

(** Nothing above the limit is dispatched. *)
Definition small_instr (i : instr) : Prop := match i with IQueue j => (job_bytes j ≤ limit)%nat | _ => True end.

Lemma small_program strip rename hs clean : Forall small_instr (untar_program limit strip rename hs clean).
Proof.
  unfold untar_program. apply Forall_app. split; [|destruct clean; by repeat constructor].
  induction hs as [|h hs IH]; [constructor|]. cbn [map concat]. apply Forall_app. split; [|done].
  unfold entry_instrs. destruct (stripComponents (Name h) strip) as [name|]; [|constructor].
  set (name' := match rename with Some f => f name | None => name end).
  destruct (match rename with Some _ => name' =s "" | None => false end); [constructor|].
  destruct (Typeflag h); [by repeat constructor| |by repeat constructor|
    destruct (stripComponents (Linkname h) strip); by repeat constructor|constructor].
  unfold reg_instrs. destruct (Nat.ltb_spec limit (Size h)) as [Hl|Hl].
  - constructor; [done|].
    assert (∀ os, Forall small_instr (map IBar os)) as Hb by (intros os; induction os; by constructor).
    destruct (short h); [apply Forall_app; split; [apply Hb|by repeat constructor]|apply Hb].
  - destruct (short h) eqn:Hs; [by repeat constructor|]. apply Forall_singleton. cbn.
    unfold short in Hs. apply negb_false_iff, Nat.eqb_eq in Hs. unfold job_bytes. cbn. lia.
Qed.

(** A worker within its bounds. *)
Definition lean (w : worker) : Prop :=
  (length (queue w) ≤ channel_size)%nat ∧ Forall (λ j, (job_bytes j ≤ limit)%nat) (queue w) ∧
  (sum_list_with op_bytes (current w) ≤ limit)%nat.

Definition leans (s : untarPool) : Prop := Forall small_instr (reader s) ∧ Forall lean (pool s).

Lemma lean_held w : lean w → (held w ≤ (channel_size + 1) * limit)%nat.
Proof.
  intros (Hl & Hq & Hc). unfold held.
  assert (sum_list_with job_bytes (queue w) ≤ length (queue w) * limit)%nat as Hs.
  { clear Hl. induction Hq as [|j q Hj _ IH]; cbn; lia. }
  assert (length (queue w) * limit ≤ channel_size * limit)%nat by (by apply Nat.mul_le_mono_r). lia.
Qed.

Lemma lean_update s k w :
  Forall lean (pool s) → lean w → Forall lean (<[k := w]> (pool s)).
Proof. intros. by apply Forall_insert. Qed.

Lemma leans_step s s' : step max_links umask s s' → leans s → leans s'.
Proof.
  intros Hst [Hr Hp].
  assert (∀ k w, pool s !! k = Some w → lean w) as Hw.
  { intros k w Hk. rewrite Forall_lookup in Hp. by eapply Hp. }
  destruct Hst as [o i rest s t' Hrd _ _|o i rest s e Hrd _ _|j rest s k w Hrd _ _ Hk Hlt|j rest s Hrd _
    |rest s Hrd _ _|rest s Hrd _ _|rest s Hrd|s k w j q Hk _ Hq _|s k w j q Hk _ Hq _
    |s k w o os t' Hk Hc _|s k w o os e Hk Hc _]; unfold leans, stop_reader; cbn [reader pool];
    try rewrite Hrd in Hr; try (apply Forall_cons in Hr as [Hi Hr]); try (by split).
  all: destruct (Hw k w Hk) as (Hl & Hqs & Hcs); (split; [done|]); apply lean_update; [done|]; unfold lean; cbn.
  - rewrite length_app. cbn. split; [lia|]. split; [|done]. apply Forall_app. split; [done|by apply Forall_singleton].
  - rewrite Hq in *. apply Forall_cons in Hqs as [Hj Hqs]. cbn in Hl. unfold job_bytes in Hj. split; [lia|].
    split; [done|lia].
  - rewrite Hq in *. apply Forall_cons in Hqs as [_ Hqs]. cbn in Hl. split; [lia|]. split; [done|lia].
  - rewrite Hc in Hcs. cbn in Hcs. split; [done|]. split; [done|lia].
  - split; [done|]. split; [done|lia].
Qed.

Lemma pool_length s s' : step max_links umask s s' → length (pool s') = length (pool s).
Proof. by destruct 1; cbn; rewrite ?length_insert. Qed.
End bounds.

(** C30. The extraction's memory is bounded. However large the stream and however the
    reader and the workers interleave, at every point the pool's workers - at most
    eight, at least one - hold no more bytes of file bodies than their channels and
    hands times the inline limit: bodies above it are streamed by the reader. *)
Theorem untarPool_memory (max_links : nat) (umask : Z) (limit strip : nat) (rename : option (string → string))
    (hs : list header) (clean : bool) (GOMAXPROCS : nat) (t : fs) (s : untarPool) :
  rtc (step max_links umask)
      (newUntarPool (pool_size GOMAXPROCS) t (untar_program limit strip rename hs clean)) s →
  (1 ≤ length (pool s) ≤ 8)%nat ∧ (held_all s ≤ length (pool s) * ((channel_size + 1) * limit))%nat.
Proof.
  intros Hr. set (s0 := newUntarPool _ _ _) in Hr.
  assert (leans limit s0 ∧ length (pool s0) = pool_size GOMAXPROCS) as H0.
  { cbn. rewrite length_replicate. split; [|done]. split; [apply small_program|]. cbn.
    apply Forall_replicate. split; [cbn; lia|]. split; [constructor|cbn; lia]. }
  assert (leans limit s ∧ length (pool s) = pool_size GOMAXPROCS) as [[_ Hp] Hn].
  { clearbody s0. induction Hr as [|s0 s1 s2 Hst _ IH]; [done|]. apply IH. destruct H0 as [H0 Hn]. split.
    - by eapply leans_step.
    - by rewrite (pool_length _ _ _ _ Hst). }
  split; [rewrite Hn; unfold pool_size; lia|]. unfold held_all. clear Hn.
  induction Hp as [|w ws Hw _ IH]; [done|]. apply lean_held in Hw. cbn [sum_list_with]. rewrite length_cons.
  generalize dependent ((channel_size + 1) * limit)%nat. intros. lia.
Qed.

Lemma untarPool_memory_witness :
  (1 ≤ length (pool source_run) ≤ 8)%nat ∧
  (held_all source_run ≤ length (pool source_run) * ((channel_size + 1) * 16))%nat.
Proof. exact (untarPool_memory 40 18 16 1 None source_tree true 2 ∅ source_run (play_sound _ _)). Defined.
