(* ===== verification/Patch.v ===== *)
(** cmd/kbuild-step/main.go, [applyPatches]: the series applied file by file through
    os.Root, on the tree of Untar.v. go-gitdiff's parser and its application of one
    file's fragments are parameters. Hard links are by value here too: a file written in
    place is taken to have one name. *)

From S2P Require Import Prelude GoString Untar Tree.

(** ** gitdiff *)

(** gitdiff.File, as far as the step looks at it; the fragments are gitdiff's own. *)
Record File := MkFile {
  OldName : string;
  NewName : string;
  IsNew : bool;
  IsDelete : bool;
  IsRename : bool;
  NewMode : Z;                          (* 0: not given *)
  TextFragments : list string;
  BinaryFragment : option string
}.

(** One prefix of either letter, in either order. *)
Definition old_name (f : File) : string := TrimPrefix (TrimPrefix (OldName f) "a/") "b/".
Definition new_name (f : File) : string := TrimPrefix (TrimPrefix (NewName f) "b/") "a/".

(** os.FileMode.Perm *)
Definition perm_bits (mode : Z) : Z := Z.land mode 511.

(** filepath.Dir: what precedes the last separator, cleaned. *)
Definition filepath_Dir (name : string) : string := Clean (Join (removelast (Split name "/") ++ [""]) "/").

Inductive PatchError :=
  | PSeries (e : StepError)
  | PParse (n : string)
  | PCreate (n name : string)
  | PApply (n name : string)
  | PRead (n : string) (e : errno)
  | PDelete (n name : string) (e : errno)
  | PRename (n name : string) (e : errno)
  | PCall (e : errno).

Section root.
Context (max_links : nat) (umask : Z).

(** ** More calls of os.Root *)

(** What the name leads to; the root itself is a directory, and no call below gets
    further with one. *)
Definition node_at (t : fs) (name : string) : result errno (path * option node) :=
  p ← resolve max_links true t name;
  match p with [] => Err EInvalid | _ => Ok (p, t !! p) end.

Definition ReadFile (t : fs) (name : string) : result errno string :=
  '(_, n) ← node_at t name;
  match n with
  | Some (NFile _ _ d) => Ok d
  | None => Err ENotExist
  | _ => Err EInvalid
  end.

(** The permission bits Stat reports of a file: it is asked of what was just read. *)
Definition Stat_perm (t : fs) (name : string) : result errno Z :=
  '(_, n) ← node_at t name;
  match n with
  | Some (NFile m _ _) => Ok (perm_bits m)
  | None => Err ENotExist
  | _ => Err EInvalid
  end.

(** An existing file keeps its mode. *)
Definition WriteFile (t : fs) (name data : string) (mode : Z) : result errno fs :=
  '(p, n) ← node_at t name;
  match n with
  | Some (NFile m _ _) => Ok (<[p := NFile m None data]> t)
  | None => Ok (<[p := NFile (masked umask mode) None data]> t)
  | _ => Err EInvalid
  end.

(** Remove here reports a missing name. *)
Definition Root_Remove (t : fs) (name : string) : result errno fs :=
  p ← resolve max_links false t name;
  match p, t !! p with
  | _ :: _, None => Err ENotExist
  | _, _ => exec max_links umask (Remove name) t
  end.

(** ** The series *)

Context (Parse : string → option (list File)) (Apply : string → File → option string).

Definition mode_or (f : File) (mode : Z) : Z := if (NewMode f =? 0)%Z then mode else perm_bits (NewMode f).

(** A mode-only or pure rename entry passes the content through. *)
Definition patched (src : string) (f : File) : option string :=
  match TextFragments f, BinaryFragment f with
  | [], None => Some src
  | _, _ => Apply src f
  end.

Definition from_option_err {A} (e : PatchError) (o : option A) : result PatchError A :=
  match o with Some a => Ok a | None => Err e end.

Definition write_mode (t : fs) (name data : string) (mode : Z) : result PatchError fs :=
  t ← map_err PCall (WriteFile t name data mode);
  map_err PCall (exec max_links umask (Chmod name mode) t).

Definition apply_file (n : string) (t : fs) (f : File) : result PatchError fs :=
  let oldName := old_name f in
  let newName := new_name f in
  if IsNew f then
    out ← from_option_err (PCreate n newName) (Apply "" f);
    t ← map_err PCall (exec max_links umask (MkdirAll (filepath_Dir newName) 493) t);
    write_mode t newName out (mode_or f 420)
  else if IsDelete f then map_err (PDelete n oldName) (Root_Remove t oldName)
  else
    src ← map_err (PRead n) (ReadFile t oldName);
    out ← from_option_err (PApply n oldName) (patched src f);
    mode ← map_err PCall (Stat_perm t oldName);
    t ← write_mode t newName out (mode_or f mode);
    if IsRename f && (oldName <>s newName) then map_err (PRename n oldName) (Root_Remove t oldName)
    else Ok t.

Definition apply_patch (raw : string → string) (t : fs) (n : string) : result PatchError fs :=
  files ← from_option_err (PParse n) (Parse (raw n));
  foldR (apply_file n) t files.

Definition applyPatches (I : inputs) (t : fs) : result PatchError fs :=
  names ← map_err PSeries (patchFiles I);
  foldR (apply_patch (patchContent I)) t names.

End root.
