(* ===== verification/PatchLaws.v ===== *)
(** What applying the series does (Patch.v). Git's semantics of a series is stated by
    itself ([git_entry], [git_series]); on a tree whose touched names lie under plain
    directories, [applyPatches] implements it: what git applies, the step applies, with
    git's result. The step is laxer than git, which the runs at the end show. *)

From S2P Require Import Prelude GoString Tree Untar UntarLaws PoolOps Patch.

(** The regular files of a tree: permissions and content by place. *)
Abbreviation listing := (gmap (list string) (Z * string)).

Definition file_of (n : node) : option (Z * string) :=
  match n with NFile m _ d => Some (m, d) | _ => None end.
Definition files (t : fs) : listing := omap file_of t.

(** ** git apply *)

Section git.
Context (Apply : string → File → option string).

(** A name in a patch carries at most one prefix. *)
Definition git_name (s : string) : string :=
  if HasPrefix s "a/" then TrimPrefix s "a/" else TrimPrefix s "b/".

(** A regular file of git's is 100644 or 100755; the other modes are symbolic links,
    submodules and trees. *)
Definition git_mode (raw : Z) : option Z :=
  if (raw =? 33188)%Z then Some 420%Z else if (raw =? 33261)%Z then Some 493%Z else None.

(** Without a mode line a new file is 0644, an existing one keeps its mode. *)
Definition git_new_mode (f : File) (kept : Z) : option Z :=
  if (NewMode f =? 0)%Z then Some kept else git_mode (NewMode f).

(** The hunks, each at its place; without any the content stands. *)
Definition postimage (src : string) (f : File) : option string :=
  match TextFragments f, BinaryFragment f with
  | [], None => Some src
  | _, _ => Apply src f
  end.

(** One entry of regular files, as git applies it: nothing is created, moved or copied
    over an existing file; nothing is changed or deleted but a file the hunks fit; and
    what is deleted is deleted whole. *)
Definition git_entry (f : File) (v : listing) : option listing :=
  let old := place (git_name (OldName f)) in
  let new := place (git_name (NewName f)) in
  if IsNew f then
    match v !! new with
    | Some _ => None
    | None => out ← postimage "" f; mode ← git_new_mode f 420; Some (<[new := (mode, out)]> v)
    end
  else
    '(m, src) ← v !! old;
    out ← postimage src f;
    if IsDelete f then if out =s "" then Some (delete old v) else None
    else
      mode ← git_new_mode f m;
      if git_name (OldName f) =s git_name (NewName f) then Some (<[old := (mode, out)]> v)
      else match v !! new with
           | Some _ => None
           | None => Some (<[new := (mode, out)]> (if IsRename f then delete old v else v))
           end.

(** Entry after entry. *)
Fixpoint git_series (fs : list File) (v : listing) : option listing :=
  match fs with
  | [] => Some v
  | f :: fs => v ← git_entry f v; git_series fs v
  end.
End git.

(** The rest of a name begins with no second prefix: the tree has no top directory [a]
    or [b]. *)
Definition one_prefix (s : string) : Prop :=
  HasPrefix (git_name s) "a/" = false ∧ HasPrefix (git_name s) "b/" = false.
Definition well_named (f : File) : Prop := one_prefix (OldName f) ∧ one_prefix (NewName f).

(** Permission bits and nothing else, as the extractor leaves them. *)
Definition perms_only (v : listing) : Prop := ∀ p m d, v !! p = Some (m, d) → perm_bits m = m.

(** ** What the step's calls do, entry by entry *)

Section effect.
Context (Apply : string → File → option string).

(** A new file, a removal, a change in place, a rename. *)
Definition effect (f : File) (v : listing) : option listing :=
  let old := place (old_name f) in
  let new := place (new_name f) in
  if IsNew f then
    out ← Apply "" f;
    Some (<[new := (mode_or f 420, out)]> v)
  else if IsDelete f then
    _ ← v !! old;
    Some (delete old v)
  else
    '(m, src) ← v !! old;
    out ← patched Apply src f;
    let v' := <[new := (mode_or f (perm_bits m), out)]> v in
    Some (if IsRename f && (old_name f <>s new_name f) then delete old v' else v').

Fixpoint series_effect (fs : list File) (v : listing) : option listing :=
  match fs with
  | [] => Some v
  | f :: fs => v ← effect f v; series_effect fs v
  end.
End effect.

(** The names an entry touches. *)
Definition touched (f : File) : list string :=
  if IsNew f then [new_name f] else if IsDelete f then [old_name f] else [old_name f; new_name f].

(** Everything lies in a directory. *)
Definition tree_ok (t : fs) : Prop := ∀ p, is_Some (t !! p) → all_dirs t (tail p).

(** No link on the way to a touched name, nothing but a file at one. *)
Definition clear_at (t : fs) (name : string) : Prop :=
  plain name = true ∧ no_links t (place name) ∧
  ∀ n, t !! place name = Some n → ∃ m mt d, n = NFile m mt d.

(** The directory of a new file can be made; that of the name a file is moved or copied
    to is there. *)
Definition dir_ready (t : fs) (f : File) : Prop :=
  if IsNew f then fillable (tail (place (new_name f))) t = true
  else if IsDelete f then True
  else old_name f ≠ new_name f → all_dirs t (tail (place (new_name f))).

(** The series fits the tree. *)
Record fits (t : fs) (fs : list File) : Prop := {
  fit_tree : tree_ok t;
  fit_clear : ∀ f n, In f fs → In n (touched f) → clear_at t n;
  fit_dirs : ∀ f, In f fs → dir_ready t f;
  fit_apart : ∀ f n f' n', In f fs → In n (touched f) → In f' fs → In n' (touched f') →
              above (place n) (tail (place n')) = false
}.

Lemma lookup_files t p : files t !! p = t !! p ≫= file_of.
Proof. unfold files. by rewrite lookup_omap. Qed.

Lemma files_insert t p m mt d : files (<[p := NFile m mt d]> t) = <[p := (m, d)]> (files t).
Proof. unfold files. by rewrite omap_insert. Qed.

Lemma files_delete t p : files (delete p t) = delete p (files t).
Proof. unfold files. by rewrite omap_delete. Qed.

Lemma files_fill dmode a t : files (fill dmode a t) = files t.
Proof.
  apply map_eq. intros x. rewrite !lookup_files, lookup_fill.
  destruct (t !! x); [done|]. by destruct (above x a).
Qed.

(** ** filepath.Dir of a plain name *)

Lemma clean_normal st l : forallb normal l = true → foldl (clean_step false) st l = rev l ++ st.
Proof.
  revert st. induction l as [|c l IH]; intros st; [done|]. cbn [forallb foldl rev].
  intros [[H1 H2]%normal_inv H]%andb_true_iff. unfold clean_step at 2. rewrite H1, H2, IH by done.
  by rewrite <- app_assoc.
Qed.

Lemma filepath_Dir_plain name : plain name = true → filepath_Dir name = Dir name.
Proof.
  intros Hp. unfold filepath_Dir, Dir. destruct (place_cons name) as (b & up & _ & Hs).
  unfold plain in Hp. pose proof (Split_lacks name "/") as Hlk. rewrite Hs in *. rewrite removelast_last.
  rewrite forallb_app in Hp. apply andb_true_iff in Hp as [Hn _]. apply Forall_app in Hlk as [Hlk _].
  revert Hn Hlk. destruct (rev up) as [|c l]; [done|]. intros Hn Hlk.
  unfold Clean. change ((c :: l) ++ [""]) with (c :: (l ++ [""])).
  rewrite (Split_Join c (l ++ [""]) "/").
  - assert (HasPrefix (Join (c :: l ++ [""]) "/") "/" = false) as ->.
    { destruct (HasPrefix _ "/") eqn:E; [|done]. apply HasPrefix_spec in E as [s E].
      assert (Split (Join (c :: l ++ [""]) "/") "/" = c :: l ++ [""]) as Hj.
      { apply Split_Join. rewrite app_comm_cons. apply Forall_app. split; [done|]. by repeat constructor. }
      rewrite E in Hj. rewrite (Split_app "" s "/" eq_refl : Split ("/" +:+ s) "/" = _) in Hj.
      injection Hj as <- _. by cbn in Hn. }
    rewrite app_comm_cons, foldl_app, (clean_normal [] (c :: l)), app_nil_r by done.
    change (foldl (clean_step false) (rev (c :: l)) [""]) with (rev (c :: l)).
    rewrite rev_involutive. destruct (_ =s "") eqn:E; [|done]. apply eqb_true in E.
    assert (Split (Join (c :: l) "/") "/" = c :: l) as Hj by (by apply (Split_Join c l "/")).
    rewrite E in Hj. injection Hj as <- _. by cbn in Hn.
  - rewrite app_comm_cons. apply Forall_app. split; [done|]. by repeat constructor.
Qed.

(** ** The calls on a touched name *)

Section laws.
Context (max_links : nat) (umask : Z).
Context (Parse : string → option (list File)) (Apply : string → File → option string).

Lemma walk_plain links follow t cwd comps :
  forallb normal comps = true → no_links t (rev comps ++ cwd) →
  walk links follow t cwd comps = Ok (rev comps ++ cwd) ∨
  ∃ e, walk links follow t cwd comps = Err e.
Proof.
  revert cwd. induction comps as [|c rest IH]; intros cwd Hn Hl; [left; apply walk_nil|].
  cbn [forallb] in Hn. apply andb_true_iff in Hn as [Hc Hn]. apply normal_inv in Hc as [E1 E2].
  assert (rev (c :: rest) ++ cwd = rev rest ++ (c :: cwd)) as Hp by (cbn; by rewrite <- app_assoc).
  rewrite Hp in *. rewrite walk_cons, E1, E2.
  assert (above (c :: cwd) (rev rest ++ (c :: cwd)) = true) as Ha.
  { apply above_true. split; [done|by apply suffix_app_r]. }
  destruct (t !! (c :: cwd)) as [[m mt d|m|tg]|] eqn:E.
  - destruct rest; cbn [is_last]; [by left|right; by eexists].
  - by apply IH.
  - by destruct (Hl (c :: cwd) tg Ha).
  - destruct rest; cbn [is_last]; [by left|right; by eexists].
Qed.

Lemma resolve_clear follow t name :
  clear_at t name →
  resolve max_links follow t name = Ok (place name) ∨ ∃ e, resolve max_links follow t name = Err e.
Proof.
  intros (Hp & Hl & _). destruct (plain_proper name Hp) as [Hne%eqb_false Ha].
  unfold Untar.resolve. rewrite Hne, Ha.
  destruct (walk_plain max_links follow t [] (Split name "/") Hp) as [H|H].
  - by rewrite app_nil_r.
  - left. by rewrite app_nil_r in H.
  - by right.
Qed.

Lemma resolve_ready follow t name :
  clear_at t name → all_dirs t (tail (place name)) → resolve max_links follow t name = Ok (place name).
Proof.
  intros (Hp & Hl & _) Hd. apply resolve_plain; [done|done|]. intros _ tg. apply Hl, above_refl, place_ne.
Qed.

Lemma place_match {A} name (a b : A) : match place name with [] => a | _ => b end = b.
Proof. by destruct (place_cons name) as (? & ? & -> & _). Qed.

Lemma node_at_ready t name :
  clear_at t name → all_dirs t (tail (place name)) → node_at max_links t name = Ok (place name, t !! place name).
Proof. intros. unfold node_at. rewrite resolve_ready by done. cbn. apply place_match. Qed.

(** A name that leads to no file. *)
Lemma node_at_absent t name :
  clear_at t name → t !! place name = None →
  node_at max_links t name = Ok (place name, None) ∨ ∃ e, node_at max_links t name = Err e.
Proof.
  intros Hc Hn. unfold node_at. destruct (resolve_clear true t name Hc) as [->|[e ->]]; [|right; by eexists].
  left. cbn. rewrite place_match. by rewrite Hn.
Qed.

Lemma lookup_file t name v :
  clear_at t name → files t !! place name = Some v → ∃ mt, t !! place name = Some (NFile v.1 mt v.2).
Proof.
  rewrite lookup_files. destruct (t !! place name) as [[m mt d| |]|]; cbn; try done. intros _ [= <-]. by exists mt.
Qed.

Lemma lookup_no_file t name : clear_at t name → files t !! place name = None → t !! place name = None.
Proof.
  intros (_ & _ & Hf) H. rewrite lookup_files in H. destruct (t !! place name) as [n|] eqn:E; [|done].
  destruct (Hf n eq_refl) as (m & mt & d & ->). done.
Qed.

Lemma dirs_insert t p n a : above p a = false → all_dirs t a → all_dirs (<[p := n]> t) a.
Proof.
  intros Hp Hd x Hx. rewrite lookup_insert_ne by (intros ->; congruence). by apply Hd.
Qed.

Lemma above_tail_self p : above p (tail p) = false.
Proof.
  destruct p as [|c up]; [done|]. destruct (above (c :: up) (tail (c :: up))) eqn:E; [|done].
  apply above_true in E as [_ [k Hk]]. apply (f_equal length) in Hk. rewrite length_app in Hk. cbn in Hk. lia.
Qed.

Lemma write_mode_plain t name data mode :
  clear_at t name → all_dirs t (tail (place name)) →
  write_mode max_links umask t name data mode = Ok (<[place name := NFile mode None data]> t).
Proof.
  intros Hc Hd. unfold write_mode, WriteFile. rewrite node_at_ready by done. cbn [mbind result_bind].
  assert (∀ m0, map_err PCall (exec max_links umask (Chmod name mode) (<[place name := NFile m0 None data]> t)) =
    Ok (<[place name := NFile mode None data]> t)) as Hch.
  { intros m0. cbn [exec]. rewrite (change_plain _ _ _ (NFile m0 None data)).
    - cbn. f_equal. rewrite <- (insert_partial_alter _ _ (NFile m0 None data)) by apply lookup_insert_eq.
      apply insert_insert_eq.
    - apply Hc.
    - apply dirs_insert; [apply above_tail_self|done].
    - apply lookup_insert_eq.
    - done. }
  destruct (t !! place name) as [n|] eqn:E; [|apply Hch].
  destruct Hc as (_ & _ & Hf). destruct (Hf n E) as (m & mt & d & ->). apply Hch.
Qed.

Lemma Root_Remove_file t name :
  clear_at t name → all_dirs t (tail (place name)) → is_Some (files t !! place name) →
  Root_Remove max_links umask t name = Ok (delete (place name) t).
Proof.
  intros Hc Hd [v Hv]. apply lookup_file in Hv as [mt Hn]; [|done].
  unfold Root_Remove. cbn [exec]. rewrite resolve_ready by done. cbn.
  destruct (place_cons name) as (b & up & Hp & _). by rewrite Hp, <- Hp, Hn.
Qed.

Lemma Root_Remove_absent t name :
  clear_at t name → files t !! place name = None → ∃ e, Root_Remove max_links umask t name = Err e.
Proof.
  intros Hc Hv. apply lookup_no_file in Hv; [|done]. unfold Root_Remove.
  destruct (resolve_clear false t name Hc) as [->|[e ->]]; [|by exists e]. cbn.
  destruct (place_cons name) as (b & up & Hp & _). rewrite Hp, <- Hp, Hv. by eexists.
Qed.

(** ** The tree keeps fitting the series *)

Lemma above_trans x y a : above x y = true → above y a = true → above x a = true.
Proof. rewrite !above_true. intros [? ?] [? ?]. split; [done|by etransitivity]. Qed.

Lemma above_tail x p : above x (tail p) = true → above x p = true.
Proof. apply above_up. Qed.

(** What changes at a touched name is a file, and only there. *)
Lemma fits_alter t fs f n nd :
  fits t fs → In f fs → In n (touched f) → all_dirs t (tail (place n)) →
  (∀ x, nd = Some x → ∃ m mt d, x = NFile m mt d) →
  fits (partial_alter (λ _, nd) (place n) t) fs.
Proof.
  intros [Ht Hc Hd Ha] Hf Hn Hup Hnd.
  assert (∀ a, above (place n) a = false → all_dirs t a → all_dirs (partial_alter (λ _, nd) (place n) t) a) as Hk.
  { intros a Hx Hall x Hxa. rewrite lookup_partial_alter_ne; [by apply Hall|]. intros E. by rewrite E, Hxa in Hx. }
  assert (∀ x, t !! place n = Some x → ∃ m mt d, x = NFile m mt d) as Hfile by (by apply (Hc f n Hf Hn)).
  split; [| | |done].
  - intros p Hp. apply Hk.
    + destruct (above (place n) (tail p)) eqn:E; [|done].
      destruct (decide (p = place n)) as [->|Hne]; [by rewrite above_tail_self in E|].
      rewrite lookup_partial_alter_ne in Hp by congruence.
      destruct (Ht p Hp (place n) E) as [m Hm]. by destruct (Hfile _ Hm) as (? & ? & ? & ?).
    + destruct (decide (p = place n)) as [->|Hne]; [done|].
      rewrite lookup_partial_alter_ne in Hp by congruence. by apply Ht.
  - intros f' n' Hf' Hn'. destruct (Hc f' n' Hf' Hn') as (Hp & Hl & Hx). split; [done|]. split.
    + intros x tg Hax. destruct (decide (x = place n)) as [->|Hne].
      * rewrite lookup_partial_alter_eq. intros ->. by destruct (Hnd _ eq_refl) as (? & ? & ? & ?).
      * rewrite lookup_partial_alter_ne by done. by apply Hl.
    + intros x. destruct (decide (place n' = place n)) as [->|Hne].
      * rewrite lookup_partial_alter_eq. apply Hnd.
      * rewrite lookup_partial_alter_ne by done. apply Hx.
  - intros f' Hf'. specialize (Hd f' Hf'). unfold dir_ready in *.
    destruct (IsNew f') eqn:En; [|destruct (IsDelete f') eqn:Ed; [done|]].
    + apply fillable_spec. intros x Hx. rewrite lookup_partial_alter_ne; [by apply (proj1 (fillable_spec _ _) Hd)|].
      intros <-. rewrite (Ha f n f' (new_name f')) in Hx; try done. unfold touched. rewrite En. by left.
    + intros Hne. apply Hk; [|by apply Hd]. apply (Ha f n f' (new_name f')); try done.
      unfold touched. rewrite En, Ed. right. by left.
Qed.

Lemma partial_alter_insert (t : fs) p n : partial_alter (λ _, Some n) p t = <[p := n]> t.
Proof. done. Qed.

Lemma fits_insert t fs f n m mt d :
  fits t fs → In f fs → In n (touched f) → all_dirs t (tail (place n)) →
  fits (<[place n := NFile m mt d]> t) fs.
Proof. intros. apply (fits_alter t fs f n (Some (NFile m mt d))); try done. intros x [= <-]. by do 3 eexists. Qed.

Lemma fits_delete t fs f n :
  fits t fs → In f fs → In n (touched f) → all_dirs t (tail (place n)) → fits (delete (place n) t) fs.
Proof. intros. by apply (fits_alter t fs f n None). Qed.

Lemma dirs_fill dmode a b t : all_dirs t b → all_dirs (fill dmode a t) b.
Proof. intros H x Hx. destruct (H x Hx) as [m Hm]. exists m. by rewrite lookup_fill, Hm. Qed.

(** The directories made for a new file. *)
Lemma fill_dirs dmode a t : fillable a t = true → all_dirs (fill dmode a t) a.
Proof.
  intros H x Hx. rewrite lookup_fill. pose proof (proj1 (fillable_spec _ _) H x Hx) as Hn.
  destruct (t !! x) as [[]|]; try done; [by eexists|]. rewrite Hx. by eexists.
Qed.

Lemma fits_fill dmode t fs f :
  fits t fs → In f fs → IsNew f = true →
  fits (fill dmode (tail (place (new_name f))) t) fs ∧
  all_dirs (fill dmode (tail (place (new_name f))) t) (tail (place (new_name f))).
Proof.
  set (a := tail (place (new_name f))). intros [Ht Hc Hd Ha] Hf Hnew.
  pose proof (Hd f Hf) as Hfa. unfold dir_ready in Hfa. rewrite Hnew in Hfa. fold a in Hfa.
  assert (all_dirs (fill dmode a t) a) as Hda by (by apply fill_dirs).
  split; [|done]. split; [| | |done].
  - intros p [n Hp]. rewrite lookup_fill in Hp. destruct (t !! p) eqn:E.
    + apply dirs_fill, Ht. by rewrite E.
    + destruct (above p a) eqn:Ep; [|done]. intros x Hx. apply Hda. eapply above_trans; [by apply above_tail|done].
  - intros f' n' Hf' Hn'. destruct (Hc f' n' Hf' Hn') as (Hp & Hl & Hx). split; [done|]. split.
    + intros x tg Hax. rewrite lookup_fill. specialize (Hl x tg Hax). destruct (t !! x); [done|]. by destruct (above x a).
    + intros x. rewrite lookup_fill. destruct (t !! place n') eqn:E; [intros [= <-]; by apply Hx|].
      assert (above (place n') a = false) as ->; [|done].
      apply (Ha f' n' f (new_name f)); try done. unfold touched. rewrite Hnew. by left.
  - intros f' Hf'. specialize (Hd f' Hf'). unfold dir_ready in *. destruct (IsNew f'); [|destruct (IsDelete f'); [done|]].
    + apply fillable_spec. intros x Hx. pose proof (proj1 (fillable_spec _ _) Hd x Hx) as Hnf.
      rewrite lookup_fill. destruct (t !! x); [done|]. by destruct (above x a).
    + intros Hne. by apply dirs_fill, Hd.
Qed.

(** ** An entry, a file, the series *)

(** A new file: its directories, its content, its mode. *)
Lemma new_file t fs f out :
  fits t fs → In f fs → IsNew f = true →
  ∃ t', (t1 ← map_err PCall (exec max_links umask (MkdirAll (filepath_Dir (new_name f)) 493) t);
         write_mode max_links umask t1 (new_name f) out (mode_or f 420)) = Ok t' ∧
        files t' = <[place (new_name f) := (mode_or f 420, out)]> (files t) ∧ fits t' fs.
Proof.
  intros Hfit Hf En. set (a := tail (place (new_name f))).
  assert (In (new_name f) (touched f)) as Hin by (unfold touched; rewrite En; by left).
  destruct (fit_clear _ _ Hfit f _ Hf Hin) as (Hp & Hl & _).
  pose proof (fit_dirs _ _ Hfit f Hf) as Hr. unfold dir_ready in Hr. rewrite En in Hr.
  destruct (fits_fill (masked umask 493) t fs f Hfit Hf En) as [Hfit' Hda]. fold a in Hr, Hfit', Hda.
  assert (no_links t a) as Hla by (intros x tg Hx; by apply Hl, above_tail).
  pose proof (MkdirAll_Dir_plain max_links umask (new_name f) t Hp Hla) as Hmk.
  unfold perform in Hmk. cbn [ok eff] in Hmk. fold a in Hmk. rewrite Hr in Hmk.
  rewrite filepath_Dir_plain by done.
  destruct (exec max_links umask (MkdirAll (Dir (new_name f)) 493) t) as [t1|]; [|done].
  injection Hmk as ->. cbn [map_err mbind result_bind].
  rewrite write_mode_plain; [|by apply (fit_clear _ _ Hfit' f)|done]. eexists. split; [done|]. split.
  - by rewrite files_insert, files_fill.
  - by apply (fits_insert _ _ f).
Qed.

Lemma found_dirs t fs f n v :
  fits t fs → In f fs → In n (touched f) → files t !! place n = Some v → all_dirs t (tail (place n)).
Proof.
  intros Hfit Hf Hn Hv. apply (fit_tree _ _ Hfit).
  destruct (lookup_file t n v (fit_clear _ _ Hfit f n Hf Hn) Hv) as [mt ->]. by eexists.
Qed.

(** A file read, and what Stat says of it. *)
Lemma read_file t fs f n :
  fits t fs → In f fs → In n (touched f) →
  match files t !! place n with
  | Some (m, d) => ReadFile max_links t n = Ok d ∧ Stat_perm max_links t n = Ok (perm_bits m)
  | None => ∃ e, ReadFile max_links t n = Err e
  end.
Proof.
  intros Hfit Hf Hn. pose proof (fit_clear _ _ Hfit f n Hf Hn) as Hc.
  unfold ReadFile, Stat_perm. destruct (files t !! place n) as [[m d]|] eqn:E.
  - pose proof (found_dirs t fs f n _ Hfit Hf Hn E). rewrite node_at_ready by done.
    destruct (lookup_file t n _ Hc E) as [mt Hm]. cbn. by rewrite Hm.
  - apply lookup_no_file in E; [|done].
    destruct (node_at_absent t n Hc E) as [->|[e ->]]; cbn; by eexists.
Qed.

(** The removal of a touched name. *)
Lemma remove_file t fs f n :
  fits t fs → In f fs → In n (touched f) →
  match files t !! place n with
  | Some _ => ∃ t', Root_Remove max_links umask t n = Ok t' ∧ files t' = delete (place n) (files t) ∧ fits t' fs
  | None => ∃ e, Root_Remove max_links umask t n = Err e
  end.
Proof.
  intros Hfit Hf Hn. pose proof (fit_clear _ _ Hfit f n Hf Hn) as Hc.
  destruct (files t !! place n) as [v|] eqn:E; [|by apply Root_Remove_absent].
  pose proof (found_dirs t fs f n v Hfit Hf Hn E). eexists. split; [|split].
  - apply Root_Remove_file; [done|done|by rewrite E].
  - apply files_delete.
  - by apply (fits_delete t fs f).
Qed.

Lemma apply_file_effect p t fs f :
  fits t fs → In f fs →
  match apply_file max_links umask Apply p t f with
  | Ok t' => effect Apply f (files t) = Some (files t') ∧ fits t' fs
  | Err _ => effect Apply f (files t) = None
  end.
Proof.
  intros Hfit Hf. unfold apply_file, effect.
  assert (∀ n, In n (touched f) → In n (touched f)) as Ht by done. unfold touched at 1 in Ht.
  destruct (IsNew f) eqn:En; [|destruct (IsDelete f) eqn:Ed].
  - destruct (Apply "" f) as [out|]; [|done]. cbn [from_option_err mbind result_bind option_bind].
    destruct (new_file t fs f out Hfit Hf En) as (t' & -> & -> & ?). done.
  - pose proof (remove_file t fs f _ Hfit Hf (Ht _ (or_introl eq_refl))) as Hr.
    destruct (files t !! place (old_name f)); [|by destruct Hr as [e ->]].
    destruct Hr as (t' & -> & Hfs & ?). cbn. by rewrite Hfs.
  - assert (In (old_name f) (touched f)) as Ho by (apply Ht; by left).
    assert (In (new_name f) (touched f)) as Hn by (apply Ht; right; by left).
    pose proof (read_file t fs f _ Hfit Hf Ho) as Hr.
    destruct (files t !! place (old_name f)) as [[m src]|] eqn:Eo; [|by destruct Hr as [e ->]].
    destruct Hr as [-> ->]. cbn [map_err mbind result_bind option_bind].
    destruct (patched Apply src f) as [out|]; [|done]. cbn [from_option_err mbind result_bind option_bind].
    assert (all_dirs t (tail (place (new_name f)))) as Hd.
    { pose proof (fit_dirs _ _ Hfit f Hf) as Hd. unfold dir_ready in Hd. rewrite En, Ed in Hd.
      destruct (decide (old_name f = new_name f)) as [<-|Hne]; [by eapply found_dirs|by apply Hd]. }
    rewrite write_mode_plain; [|by apply (fit_clear _ _ Hfit f)|done]. cbn [mbind result_bind].
    set (t1 := <[_ := _]> t).
    assert (fits t1 fs) as Hfit1 by (by apply (fits_insert t fs f)).
    assert (files t1 = <[place (new_name f) := (mode_or f (perm_bits m), out)]> (files t)) as Hf1
      by apply files_insert.
    destruct (IsRename f && (old_name f <>s new_name f)) eqn:Er; [|by rewrite <- Hf1].
    pose proof (remove_file t1 fs f _ Hfit1 Hf Ho) as Hr. rewrite Hf1 in Hr.
    rewrite lookup_insert_ne, Eo in Hr.
    + destruct Hr as (t' & -> & Hfs & ?). cbn. by rewrite Hfs.
    + intros E%place_inj. rewrite E, String.eqb_refl in Er. by rewrite andb_false_r in Er.
Qed.

Lemma apply_files_effect p t fs l :
  fits t fs → (∀ f, In f l → In f fs) →
  match foldR (apply_file max_links umask Apply p) t l with
  | Ok t' => series_effect Apply l (files t) = Some (files t') ∧ fits t' fs
  | Err _ => series_effect Apply l (files t) = None
  end.
Proof.
  revert t. induction l as [|f l IH]; intros t Hfit Hin; [done|]. cbn [foldR series_effect].
  pose proof (apply_file_effect p t fs f Hfit (Hin f (or_introl eq_refl))) as H.
  destruct (apply_file max_links umask Apply p t f) as [t'|]; cbn [mbind result_bind]; [|by rewrite H].
  destruct H as [-> Hfit']. apply IH; [done|]. intros. apply Hin. by right.
Qed.

Lemma series_effect_app l1 l2 v :
  series_effect Apply (l1 ++ l2) v = (v' ← series_effect Apply l1 v; series_effect Apply l2 v').
Proof.
  revert v. induction l1 as [|f l1 IH]; intros v; [done|]. cbn. destruct (effect Apply f v); [|done]. apply IH.
Qed.

Lemma apply_series_effect raw names fss t fs :
  mapM (λ n, Parse (raw n)) names = Some fss → fits t fs → (∀ f, In f (concat fss) → In f fs) →
  match foldR (apply_patch max_links umask Parse Apply raw) t names with
  | Ok t' => series_effect Apply (concat fss) (files t) = Some (files t') ∧ fits t' fs
  | Err _ => series_effect Apply (concat fss) (files t) = None
  end.
Proof.
  revert fss t. induction names as [|n names IH]; intros fss t Hp Hfit Hin.
  { cbn in Hp. injection Hp as <-. done. }
  cbn in Hp. destruct (Parse (raw n)) as [l|] eqn:El; [|done]. cbn in Hp.
  destruct (mapM _ names) as [fss'|] eqn:Em; [|done]. injection Hp as <-. cbn [concat] in *.
  cbn [foldR].
  assert (apply_patch max_links umask Parse Apply raw t n = foldR (apply_file max_links umask Apply n) t l) as ->
    by (unfold apply_patch; by rewrite El).
  rewrite series_effect_app.
  pose proof (apply_files_effect n t fs l Hfit (λ f H, Hin f (in_or_app _ _ f (or_introl H)))) as H.
  destruct (foldR (apply_file max_links umask Apply n) t l) as [t'|]; [|by rewrite H].
  destruct H as [-> Hfit']. cbn [mbind option_bind]. apply IH; [done|done|].
  intros f Hf. apply Hin, in_or_app. by right.
Qed.

End laws.

(** Exactly what a series does on a tree it fits: as the effects of its entries, errors
    included. *)
Theorem applyPatches_effect (max_links : nat) (umask : Z) (Parse : string → option (list File))
    (Apply : string → File → option string) (I : inputs) (names : list string) (fss : list (list File)) (t : fs) :
  patchFiles I = Ok names → mapM (λ n, Parse (patchContent I n)) names = Some fss → fits t (concat fss) →
  files <$> outcome (applyPatches max_links umask Parse Apply I t) = series_effect Apply (concat fss) (files t).
Proof.
  intros Hn Hp Hfit. unfold applyPatches. rewrite Hn. cbn [map_err mbind result_bind].
  pose proof (apply_series_effect max_links umask Parse Apply (patchContent I) names fss t (concat fss) Hp Hfit
    ltac:(done)) as H.
  destruct (foldR _ t names) as [t'|]; [by destruct H as [-> _]|by rewrite H].
Qed.

(** ** What git applies, the step applies *)

Lemma old_name_git f : one_prefix (OldName f) → old_name f = git_name (OldName f).
Proof.
  unfold one_prefix, old_name, git_name. destruct (HasPrefix (OldName f) "a/") eqn:E; intros [Ha Hb].
  - by rewrite (TrimPrefix_none _ "b/").
  - by rewrite (TrimPrefix_none _ "a/" E).
Qed.

Lemma new_name_git f : one_prefix (NewName f) → new_name f = git_name (NewName f).
Proof.
  unfold one_prefix, new_name, git_name. destruct (HasPrefix (NewName f) "a/") eqn:E; intros [Ha Hb].
  - rewrite (TrimPrefix_none _ "b/"); [done|]. apply HasPrefix_spec in E as [s ->]. done.
  - by rewrite (TrimPrefix_none _ "a/" Ha).
Qed.

Lemma mode_or_git f kept mode :
  perm_bits kept = kept → git_new_mode f kept = Some mode → mode_or f kept = mode ∧ perm_bits mode = mode.
Proof.
  unfold git_new_mode, mode_or, git_mode. intros Hk. destruct (NewMode f =? 0)%Z; [by intros [= <-]|].
  destruct (Z.eqb_spec (NewMode f) 33188) as [->|_]; [by intros [= <-]|].
  destruct (Z.eqb_spec (NewMode f) 33261) as [->|_]; [by intros [= <-]|done].
Qed.

Section git_laws.
Context (Apply : string → File → option string).
Context (Happly : ∀ f, TextFragments f = [] → BinaryFragment f = None → Apply "" f = Some "").

Lemma postimage_new f out : postimage Apply "" f = Some out → Apply "" f = Some out.
Proof using Happly.
  unfold postimage. destruct (TextFragments f) eqn:Et, (BinaryFragment f) eqn:Eb; try done.
  intros [= <-]. by apply Happly.
Qed.

Lemma perms_insert v p mode out : perm_bits mode = mode → perms_only v → perms_only (<[p := (mode, out)]> v).
Proof using. intros Hm Hv q m d. rewrite lookup_insert_Some. intros [[_ [= <- _]]|[_ Hq]]; [done|by eapply Hv]. Qed.

Lemma perms_delete v p : perms_only v → perms_only (delete p v).
Proof using. intros Hv q m d [_ Hq]%lookup_delete_Some. by eapply Hv. Qed.

Lemma git_effect f v v' :
  well_named f → perms_only v → git_entry Apply f v = Some v' → effect Apply f v = Some v' ∧ perms_only v'.
Proof using Happly.
  intros [Ho Hn] Hv. unfold git_entry, effect. rewrite (old_name_git f Ho), (new_name_git f Hn). cbv zeta.
  set (old := git_name (OldName f)). set (new := git_name (NewName f)). destruct (IsNew f).
  - destruct (v !! place new); [done|]. destruct (postimage Apply "" f) as [out|] eqn:Eo; [|done]. cbn [mbind option_bind].
    destruct (git_new_mode f 420) as [mode|] eqn:Em; [|done]. intros [= <-].
    apply mode_or_git in Em as [-> Hm]; [|done]. rewrite (postimage_new _ _ Eo). split; [done|by apply perms_insert].
  - destruct (v !! place old) as [[m src]|] eqn:Em; [|by destruct (IsDelete f)]. cbn [mbind option_bind].
    pose proof (Hv _ _ _ Em) as Hm. change (patched Apply src f) with (postimage Apply src f).
    destruct (postimage Apply src f) as [out|]; [|by destruct (IsDelete f)]. cbn [mbind option_bind].
    destruct (IsDelete f).
    { destruct (out =s ""); [|done]. intros [= <-]. split; [done|by apply perms_delete]. }
    destruct (git_new_mode f m) as [mode|] eqn:Eg; [|done]. cbn [mbind option_bind].
    apply mode_or_git in Eg as [Hmode Hp]; [|done]. rewrite Hm, Hmode.
    destruct (String.eqb_spec old new) as [<-|Hne].
    + intros [= <-]. rewrite andb_false_r. split; [done|by apply perms_insert].
    + destruct (v !! place new); [done|]. intros [= <-]. cbn [negb]. rewrite andb_true_r.
      destruct (IsRename f); [|split; [done|by apply perms_insert]].
      rewrite delete_insert_ne by (intros E%place_inj; by subst new).
      split; [done|]. by apply perms_insert, perms_delete.
Qed.

Lemma git_series_effect fs v v' :
  Forall well_named fs → perms_only v → git_series Apply fs v = Some v' → series_effect Apply fs v = Some v'.
Proof using Happly.
  intros Hf. revert v. induction Hf as [|f fs Hf _ IH]; intros v Hv; [done|]. cbn [git_series series_effect].
  destruct (git_entry Apply f v) as [v1|] eqn:E; [|done]. cbn [mbind option_bind].
  apply git_effect in E as [-> Hv1]; [|done|done]. by apply IH.
Qed.
End git_laws.


(** ** Runs *)

(** A stand-in for gitdiff: the patch text names the series, an entry's fragments are
    the new content. *)
Definition toy_series (raw : string) : option (list File) :=
  if raw =s "change" then
    Some [MkFile "Makefile" "Makefile" false false false 0 ["all: vmlinux"] None;
          MkFile "" "b/scripts/mk/run.sh" true false false 33261 ["#!/bin/sh"] None;
          MkFile "README" "README.rst" false false true 0 [] None]
  else if raw =s "move" then Some [MkFile "README" "doc/README" false false true 0 [] None]
  else if raw =s "create" then Some [MkFile "" "Makefile" true false false 33188 ["new"] None]
  else if raw =s "drop" then Some [MkFile "README" "" false true false 0 ["other"] None]
  else if raw =s "link" then Some [MkFile "" "latest" true false false 40960 ["README"] None]
  else None.
Definition toy_apply (src : string) (f : File) : option string := Some (Join (TextFragments f) "").

Definition toy_tree : fs :=
  <[["Makefile"] := NFile 420 (Some 7%Z) "all:"]> (<[["README"] := NFile 420 (Some 7%Z) "Linux"]> ∅).
Definition toy_patches (raw : string) : inputs := Inputs ∅ None (<["0001.patch" := raw]> ∅) ∅ ∅.
Definition toy_run (raw : string) : result PatchError fs :=
  applyPatches 40 18 toy_series toy_apply (toy_patches raw) toy_tree.

(** What the run leaves at some names, or its error. *)
Definition look (r : result PatchError fs) (ps : list path) : list (option node) + PatchError :=
  match r with Ok t => inl (map (λ p, t !! p) ps) | Err e => inr e end.

Example toy_change :
  look (toy_run "change") [["Makefile"]; ["run.sh"; "mk"; "scripts"]; ["mk"; "scripts"]; ["README"]; ["README.rst"]] =
  inl [Some (NFile 420 None "all: vmlinux"); Some (NFile 493 None "#!/bin/sh"); Some (NDir 493); None;
       Some (NFile 420 None "Linux")].
Proof. by vm_compute. Qed.

(** A file cannot be moved into a directory that is not there yet: only new files get
    theirs made. *)
Example move_needs_directory :
  look (toy_run "move") [] = inr (PCall ENotExist).
Proof. by vm_compute. Qed.

Abbreviation toy_git raw := (git_series toy_apply (default [] (toy_series raw)) (files toy_tree)).

(** The step is laxer than git. A new file replaces one that is there already; *)
Example create_overwrites :
  look (toy_run "create") [["Makefile"]] = inl [Some (NFile 420 None "new")] ∧ toy_git "create" = None.
Proof. by vm_compute. Qed.

(** a deletion never looks at what it deletes; *)
Example delete_unchecked :
  look (toy_run "drop") [["README"]] = inl [None] ∧ toy_git "drop" = None.
Proof. by vm_compute. Qed.

(** and a symbolic link in a patch becomes a file without permissions that holds the
    target. *)
Example link_becomes_file :
  look (toy_run "link") [["latest"]] = inl [Some (NFile 0 None "README")] ∧ toy_git "link" = None.
Proof. by vm_compute. Qed.

(** A file of a top directory [b] loses that directory with the prefix of its old name:
    another file is read in its place. *)
Example prefix_twice :
  let f := MkFile "a/b/README" "b/b/README" false false false 0 ["new"] None in
  old_name f = "README" ∧ new_name f = "b/README" ∧ git_name (OldName f) = "b/README".
Proof. by vm_compute. Qed.

Lemma toy_lookup p n :
  toy_tree !! p = Some n → (p = ["Makefile"] ∨ p = ["README"]) ∧ ∃ m mt d, n = NFile m mt d.
Proof.
  unfold toy_tree. rewrite !lookup_insert_Some, lookup_empty.
  intros [[<- <-]|[_ [[<- <-]|[_ ?]]]]; [| |done]; (split; [auto|by do 3 eexists]).
Qed.

Lemma toy_fits : fits toy_tree (default [] (toy_series "change")).
Proof.
  assert (∀ x tg, toy_tree !! x ≠ Some (NLink tg)) as Hl.
  { intros x tg H. by apply toy_lookup in H as [_ (? & ? & ? & ?)]. }
  split.
  - intros p [n [[-> | ->] _]%toy_lookup] x Hx; by apply above_true in Hx as [? ?%suffix_nil_inv].
  - intros f n [<-|[<-|[<-|[]]]] Hn; repeat (destruct Hn as [<-|Hn]; [split; [reflexivity|];
      (split; [by intros ? ? _|]); intros ? [_ ?]%toy_lookup; done|]); done.
  - intros f [<-|[<-|[<-|[]]]]; [by intros []|reflexivity|].
    intros _ x Hx. by apply above_true in Hx as [? ?%suffix_nil_inv].
  - intros f n f' n' Hf Hn Hf' Hn'. revert n' Hn'. revert f' Hf'. revert n Hn. revert f Hf.
    assert (forallb (λ f, forallb (λ n, forallb (λ f', forallb (λ n', negb (above (place n) (tail (place n'))))
      (touched f')) (default [] (toy_series "change"))) (touched f)) (default [] (toy_series "change")) = true) as H
      by reflexivity.
    intros f Hf n Hn f' Hf' n' Hn'. rewrite forallb_forall in H. specialize (H f Hf).
    rewrite forallb_forall in H. specialize (H n Hn). rewrite forallb_forall in H. specialize (H f' Hf').
    rewrite forallb_forall in H. by apply negb_true_iff, H.
Qed.

(** Git's result at these names. *)
Definition at_names (names : list string) (v : listing) : list (option (Z * string)) :=
  map (λ n, v !! place n) names.

