(* ===== verification/ExtractLaws.v ===== *)
(** The extraction joined with the object tree: Tree.v takes a decoded tarball as the
    list of files it writes and a patch as one step of a parameter; here the entries of
    Untar.v, extracted call by call, are shown to leave exactly those files, and the
    calls of Patch.v to do what the step's own program over the mount does. *)

From S2P Require Import Prelude GoString StepEnv Mount Tree TreeLaws TreeScenarios Untar UntarLaws PoolOps PoolLaws UntarScenarios Patch PatchLaws.

(** ** What a stream writes *)

(** Complete files and directories: no links. *)
Definition linkless (h : header) : bool :=
  match Typeflag h with TypeReg => negb (short h) | TypeDir | TypeOther => true | _ => false end.

(** The name an entry is written under. *)
Definition entry_name (strip : nat) (rename : option (string → string)) (h : header) : option string :=
  name ← stripComponents (Name h) strip;
  match rename with
  | Some f => if f name =s "" then None else Some (f name)
  | None => Some name
  end.

(** A regular entry as the file it becomes. *)
Definition reg_entry (strip : nat) (rename : option (string → string)) (h : header) : option (string * string) :=
  match Typeflag h with
  | TypeReg => (λ name, (name, Body h)) <$> entry_name strip rename h
  | _ => None
  end.
Definition written (strip : nat) (rename : option (string → string)) (hs : list header) : list (string * string) :=
  omap (reg_entry strip rename) hs.

Definition dir_entry (strip : nat) (rename : option (string → string)) (h : header) : option string :=
  match Typeflag h with TypeDir => entry_name strip rename h | _ => None end.
Definition dir_names (strip : nat) (rename : option (string → string)) (hs : list header) : list string :=
  omap (dir_entry strip rename) hs.

Lemma entry_instrs_name limit strip rename h :
  linkless h = true →
  entry_instrs limit strip rename h =
  match entry_name strip rename h with
  | None => []
  | Some name =>
      match Typeflag h with
      | TypeDir => [IDir (MkdirAll name 493); IDir (Chmod name (Perm h))]
      | TypeReg => reg_instrs limit name h
      | _ => []
      end
  end.
Proof.
  unfold entry_instrs, entry_name, linkless. destruct (stripComponents (Name h) strip) as [name|]; [|done].
  cbn [mbind option_bind]. destruct rename as [f|]; [destruct (f name =s "")|]; by destruct (Typeflag h).
Qed.

(** The mount shows the tree: the same regular files under the same names. *)
Definition shows (t : fs) (m : mount) : Prop :=
  ∀ name, plain name = true → m !! name = snd <$> PatchLaws.files t !! place name.

(** Nothing is in the way of the names [F] of files and [D] of directories. *)
Record room (F D : list string) (t : fs) : Prop := {
  room_links : ∀ x tg, t !! x ≠ Some (NLink tg);
  room_files : ∀ f n, In f F → t !! place f = Some n → ∃ m mt d, n = NFile m mt d;
  room_way : ∀ x, ((∃ f, In f F ∧ above x (tail (place f)) = true) ∨ ∃ d, In d D ∧ above x (place d) = true) →
             not_file (t !! x) = true
}.

Section extract.
Context (max_links : nat) (umask : Z) (F D : list string).
Context (Hsep : separate F D = true).
Abbreviation dmode := (masked umask 493).

Lemma sep_plain f : In f F → plain f = true.
Proof. apply (separate_spec F D Hsep). Qed.

Lemma sep_tail f f' : In f F → In f' F → above (place f) (tail (place f')) = false.
Proof.
  intros Hf Hf'. destruct (separate_spec F D Hsep) as (_ & _ & Hff & _).
  destruct (above (place f) (tail (place f'))) eqn:E; [|done].
  destruct (decide (f = f')) as [->|Hne]; [by rewrite above_tail_self in E|].
  specialize (Hff f f' Hf Hf' Hne). by rewrite (above_up _ _ E) in Hff.
Qed.

Lemma sep_dir f d : In f F → In d D → above (place f) (place d) = false.
Proof. intros. destruct (separate_spec F D Hsep) as (_ & _ & _ & Hfd). by apply Hfd. Qed.

(** The way to a name of the stream. *)
Definition on_way (a : path) : Prop := (∃ f, In f F ∧ a = tail (place f)) ∨ ∃ d, In d D ∧ a = place d.

Lemma way_fillable t a : room F D t → on_way a → fillable a t = true.
Proof.
  intros Hr Ha. apply fillable_spec. intros x Hx. apply (room_way _ _ _ Hr).
  destruct Ha as [(f & Hf & ->)|(d & Hd & ->)]; [left|right]; by eexists.
Qed.

Lemma way_apart f a : In f F → on_way a → above (place f) a = false.
Proof. intros Hf [(f' & Hf' & ->)|(d & Hd & ->)]; [by apply sep_tail|by apply sep_dir]. Qed.

Lemma room_fill t a : room F D t → on_way a → room F D (fill dmode a t).
Proof.
  intros [Hl Hf Hw] Ha. split.
  - intros x tg. rewrite lookup_fill. destruct (t !! x) eqn:E; [rewrite <- E; apply Hl|]. by destruct (above x a).
  - intros f n Hin. rewrite lookup_fill, (way_apart f a Hin Ha).
    destruct (t !! place f) eqn:E; [intros [= <-]; by eapply Hf|done].
  - intros x Hx. specialize (Hw x Hx). rewrite lookup_fill. destruct (t !! x); [done|]. by destruct (above x a).
Qed.

Lemma room_mode t a m : room F D t → on_way a → room F D (partial_alter (fmap (set_mode m)) a t).
Proof.
  intros [Hl Hf Hw] Ha. split.
  - intros x tg. destruct (decide (x = a)) as [->|Hne]; [|rewrite lookup_partial_alter_ne by done; apply Hl].
    rewrite lookup_partial_alter_eq. specialize (Hl a). destruct (t !! a) as [[| |tg']|]; cbn; done.
  - intros f n Hin. assert (place f ≠ a) as Hne.
    { intros <-. pose proof (way_apart f _ Hin Ha) as H. by rewrite above_refl in H by apply place_ne. }
    rewrite lookup_partial_alter_ne by done. by apply Hf.
  - intros x Hx. destruct (decide (x = a)) as [->|Hne]; [|rewrite lookup_partial_alter_ne by done; by apply Hw].
    rewrite lookup_partial_alter_eq, not_file_mode. by apply Hw.
Qed.

Lemma room_insert t f m mt d : room F D t → In f F → room F D (<[place f := NFile m mt d]> t).
Proof.
  intros [Hl Hf Hw] Hin. split.
  - intros x tg. destruct (decide (place f = x)) as [<-|Hne]; [by rewrite lookup_insert_eq|].
    rewrite lookup_insert_ne by done. apply Hl.
  - intros f' n Hin'. destruct (decide (place f = place f')) as [->|Hne].
    + rewrite lookup_insert_eq. intros [= <-]. by do 3 eexists.
    + rewrite lookup_insert_ne by done. by apply Hf.
  - intros x Hx. rewrite lookup_insert_ne; [by apply Hw|]. intros <-.
    destruct Hx as [(f' & Hf' & H)|(d' & Hd' & H)]; [by rewrite sep_tail in H|by rewrite sep_dir in H].
Qed.

Lemma room_clear t : room F D t → way_ok t F D.
Proof. intros Hr. split; intros ? _ x tg _; apply (room_links _ _ _ Hr). Qed.
(** ** An entry *)

(** The calls of a written file, made. *)
Lemma job_result t j :
  room F D t → In (jname j) F →
  perform_all dmode (job_calls umask j) t =
  Some (<[place (jname j) := NFile (jmode j) (Some (jmtime j)) (jdata j)]> (fill dmode (tail (place (jname j))) t)).
Proof.
  intros Hr Hj. set (p := place (jname j)). set (t1 := fill dmode (tail p) t).
  assert (on_way (tail p)) as Hway by (left; by exists (jname j)).
  pose proof (room_files _ _ _ (room_fill t (tail p) Hr Hway) (jname j)) as Hf. fold p t1 in Hf.
  unfold job_calls. fold p. rewrite perform_all_cons. unfold perform at 1. cbn [ok eff].
  rewrite way_fillable by done. cbn [mbind option_bind]. fold t1. rewrite perform_all_cons. unfold perform at 1. cbn [ok own_ok eff].
  assert (match t1 !! p with Some (NDir _) => no_children t1 p | _ => true end = true) as ->.
  { destruct (t1 !! p) as [n|] eqn:E; [|done]. by destruct (Hf n Hj eq_refl) as (? & ? & ? & ->). }
  cbn [mbind option_bind]. rewrite perform_all_cons. unfold perform at 1. cbn [ok own_ok eff own_eff].
  rewrite lookup_partial_alter_eq. cbn [mbind option_bind perform_all perform ok own_ok eff own_eff].
  f_equal. apply map_eq. intros x. destruct (decide (p = x)) as [<-|Hne].
  - by rewrite !lookup_partial_alter_eq, lookup_insert_eq.
  - by rewrite !lookup_partial_alter_ne, lookup_insert_ne by done.
Qed.

Lemma dir_result t d m :
  room F D t → In d D →
  perform_all dmode [Fill (place d) None; Fill (place d) (Some m)] t =
  Some (partial_alter (fmap (set_mode m)) (place d) (fill dmode (place d) t)).
Proof.
  intros Hr Hd. assert (on_way (place d)) as Hway by (right; by exists d).
  pose proof (way_fillable t _ Hr Hway) as Hk.
  rewrite perform_all_cons. unfold perform at 1. cbn [ok eff]. rewrite Hk. cbn [mbind option_bind perform_all].
  unfold perform. cbn [ok eff].
  destruct (all_dirs_fill umask (place d) (fill dmode (place d) t)) as [-> ->]; [by apply fill_dirs|done].
Qed.

Lemma serial_ops t os : Untar.serial max_links umask t (map IBar os) = exec_all max_links umask os t.
Proof.
  revert t. induction os as [|o os IH]; intros t; [done|]. unfold Untar.serial, Untar.exec_all in *. cbn [map foldR serial_instr].
  destruct (exec max_links umask o t); [apply IH|done].
Qed.

Lemma shows_file t m name mode mt data :
  plain name = true → shows t m → shows (<[place name := NFile mode mt data]> t) (<[name := data]> m).
Proof.
  intros Hp Hs name' Hp'. rewrite files_insert. destruct (decide (name = name')) as [<-|Hne].
  - by rewrite !lookup_insert_eq.
  - rewrite !lookup_insert_ne by (done || by intros ?%place_inj). by apply Hs.
Qed.

Lemma shows_files t t' m : PatchLaws.files t' = PatchLaws.files t → shows t m → shows t' m.
Proof. intros He Hs name Hp. rewrite He. by apply Hs. Qed.

Lemma files_mode t a m : (∀ x mt d, t !! a ≠ Some (NFile x mt d)) →
  PatchLaws.files (partial_alter (fmap (set_mode m)) a t) = PatchLaws.files t.
Proof.
  intros Ha. apply map_eq. intros x. rewrite !lookup_files. destruct (decide (a = x)) as [<-|Hne].
  - rewrite lookup_partial_alter_eq. destruct (t !! a) as [[]|] eqn:E; try done. by destruct (Ha mode mtime data).
  - by rewrite lookup_partial_alter_ne.
Qed.

(** ** A stream *)

Lemma serial_file t m limit h name :
  room F D t → shows t m → In name F → short h = false →
  ∃ t', Untar.serial max_links umask t (reg_instrs limit name h) = Ok t' ∧
        room F D t' ∧ shows t' (<[name := Body h]> m).
Proof.
  intros Hr Hs Hin Hsh. unfold reg_instrs. rewrite Hsh.
  set (j := WriteJob name (Perm h) (ModTime h) (Body h)).
  assert (Untar.serial max_links umask t
            (if (limit <? Size h)%nat then IFlush :: map IBar (write_ops name (Perm h) (ModTime h) (Body h)) else [IQueue j])
          = exec_all max_links umask (job_ops j) t) as Hser.
  { destruct (limit <? Size h)%nat.
    - change (Untar.serial max_links umask t (IFlush :: ?x)) with (Untar.serial max_links umask t x). apply serial_ops.
    - unfold Untar.serial. cbn [foldR serial_instr]. by destruct (exec_all max_links umask (job_ops j) t). }
  rewrite Hser. pose proof (job_run max_links umask F D j 0 t Hsep (room_clear t Hr) Hin ltac:(split; lia)) as Hj.
  rewrite !drop_0, job_result in Hj by done.
  destruct (exec_all max_links umask (job_ops j) t) as [t'|]; [|done]. injection Hj as ->. eexists. split; [done|].
  assert (on_way (tail (place name))) as Hway by (left; by exists name).
  split; [by apply room_insert, Hin; apply room_fill|].
  apply shows_file; [by apply sep_plain|]. eapply shows_files; [|exact Hs]. apply files_fill.
Qed.

Lemma serial_dir t m d mode :
  room F D t → shows t m → In d D →
  ∃ t', Untar.serial max_links umask t [IDir (MkdirAll d 493); IDir (Chmod d mode)] = Ok t' ∧
        room F D t' ∧ shows t' m.
Proof.
  intros Hr Hs Hd. assert (on_way (place d)) as Hway by (right; by exists d).
  pose proof (segment_serial max_links umask F D [EDir d mode] t Hsep (room_clear t Hr)
                ltac:(by constructor)) as Hseg.
  cbn [map concat item_instrs item_calls app] in Hseg. rewrite dir_result in Hseg by done.
  destruct (Untar.serial _ _ _ _) as [t'|]; [|done]. injection Hseg as ->. eexists. split; [done|].
  split; [by apply room_mode; [apply room_fill|]|].
  eapply shows_files; [|exact Hs]. rewrite files_mode; [apply files_fill|].
  intros x mt y Hx. destruct (fill_dirs dmode (place d) t (way_fillable t _ Hr Hway) (place d)) as [m' Hm].
  { apply above_refl, place_ne. }
  congruence.
Qed.

Lemma serial_entries limit strip rename hs t m :
  Forall (λ h, linkless h = true) hs →
  (∀ f, In f (map fst (written strip rename hs)) → In f F) →
  (∀ d, In d (dir_names strip rename hs) → In d D) →
  room F D t → shows t m →
  ∃ t', Untar.serial max_links umask t (concat (map (entry_instrs limit strip rename) hs)) = Ok t' ∧
        shows t' (write_all (written strip rename hs) m).
Proof.
  intros Hl. revert t m. induction Hl as [|h hs Hh _ IH]; intros t m HF HD Hr Hs; [by exists t|].
  assert (∃ t1, Untar.serial max_links umask t (entry_instrs limit strip rename h) = Ok t1 ∧ room F D t1 ∧
            shows t1 (match reg_entry strip rename h with Some e => <[e.1 := e.2]> m | None => m end))
    as (t1 & Ht1 & Hr1 & Hs1).
  { rewrite entry_instrs_name by done. unfold linkless in Hh.
    unfold written, dir_names in HF, HD. cbn [omap list_omap map] in HF, HD.
    unfold reg_entry, dir_entry in *. destruct (entry_name strip rename h) as [name|];
      [|exists t; by destruct (Typeflag h)].
    destruct (Typeflag h); try done; cbn [fmap option_fmap option_map] in *.
    - apply serial_dir; [done|done|]. apply HD. by left.
    - apply negb_true_iff in Hh. apply serial_file; try done. apply HF. by left.
    - by exists t. }
  assert (∀ f, In f (map fst (written strip rename hs)) → In f F) as HF'.
  { intros f Hf. apply HF. unfold written in *. cbn [omap list_omap]. destruct (reg_entry strip rename h); [by right|done]. }
  assert (∀ d, In d (dir_names strip rename hs) → In d D) as HD'.
  { intros d Hd. apply HD. unfold dir_names in *. cbn [omap list_omap]. destruct (dir_entry strip rename h); [by right|done]. }
  destruct (IH t1 _ HF' HD' Hr1 Hs1) as (t' & Ht' & Hs').
  exists t'. cbn [map concat]. split.
  - unfold Untar.serial in *. rewrite foldR_app, Ht1. exact Ht'.
  - unfold written in *. cbn [omap list_omap]. by destruct (reg_entry strip rename h).
Qed.
End extract.

(** ** The source tarball *)

Lemma runs_each W files m : runs (write_files W files) m tt (write_all files m).
Proof. by split. Qed.

(** C17. [extractTarball]'s list of files is what the extraction of the stream leaves.
    Take any stream of complete files and directories whose names are apart and have
    room - a source tree without links onto a cleared mount - and a decoder that
    delivers its regular entries. Extracted call by call through os.Root (directories
    made, names removed and created, modes and times set, large bodies behind the
    barrier) it succeeds, and the step's own program over the mount ends in the same
    files under the same names. *)
Theorem extractTarball_refines (W : World) (I : inputs) (src : tarball) (m : mount) (c ext : string)
    (max_links : nat) (umask : Z) (limit : nat) (hs : list header) (t : fs) :
  let path := match src with InSrc n => n | InBuild p => p end in
  tarball_content I src m = Some c → find (HasSuffix path) [".gz"; ".zst"; ".xz"] = Some ext →
  decode W ext c = (written 1 None hs, true) →
  let F := map fst (written 1 None hs) in
  let D := dir_names 1 None hs in
  Forall (λ h, linkless h = true) hs → separate F D = true → room F D t → shows t m →
  ∃ t' m', Untar.serial max_links umask t (untar_program limit 1 None hs true) = Ok t' ∧
           runs (extractTarball W I src) m tt m' ∧ shows t' m'.
Proof.
  intros path Hc Hext Hdec F D Hl Hsep Hr Hs.
  destruct (serial_entries max_links umask F D Hsep limit 1 None hs t m Hl ltac:(done) ltac:(done) Hr Hs) as (t' & Ht & Hs').
  exists t', (write_all (written 1 None hs) m). split; [|split; [|done]].
  - unfold untar_program. by rewrite app_nil_r.
  - unfold extractTarball. fold path. unfold tarball_content in Hc.
    apply runs_bind. exists m, m. split; [done|]. rewrite Hc, Hext, Hdec.
    apply runs_bind. exists tt, (write_all (written 1 None hs) m). split; [apply runs_each|done].
Qed.

(** [untarSeed]'s renaming. *)
Definition seed_name (name : string) : string := if name =s stampFile then seedStampFile else name.

(** The same of a seed's stream, its stamp quarantined on the way. *)
Theorem seedPull_join (W : World) (s : seedCfg) (files : list (string * string)) (m : mount)
    (max_links : nat) (umask : Z) (limit : nat) (hs : list header) (t : fs) :
  is_Some (s3Target s) → bucket W s = Object files true →
  map quarantine files = written 0 (Some seed_name) hs →
  let F := map fst (written 0 (Some seed_name) hs) in
  let D := dir_names 0 (Some seed_name) hs in
  Forall (λ h, linkless h = true) hs → separate F D = true → room F D t → shows t m →
  ∃ t' m', Untar.serial max_links umask t (untar_program limit 0 (Some seed_name) hs true) = Ok t' ∧
           runs (seedPull W s) m true m' ∧ shows t' m'.
Proof.
  intros [tg Htg] Hb Hq F D Hl Hsep Hr Hs.
  destruct (serial_entries max_links umask F D Hsep limit 0 (Some seed_name) hs t m Hl ltac:(done) ltac:(done) Hr Hs)
    as (t' & Ht & Hs').
  exists t', (write_all (written 0 (Some seed_name) hs) m). split; [|split; [|done]].
  - unfold untar_program. by rewrite app_nil_r.
  - unfold seedPull. rewrite Htg, Hb, Hq.
    apply runs_bind. exists tt, (write_all (written 0 (Some seed_name) hs) m). split; [apply runs_each|done].
Qed.

(** ** A run *)

Definition small_tree : list header :=
  [dir "linux-6.18.20/"; file "linux-6.18.20/Makefile" "all: vmlinux"; dir "linux-6.18.20/init/";
   file "linux-6.18.20/init/main.c" "a body over the inline limit"].

Definition untar_world : World :=
  MkWorld (unlink toy) (make toy) (λ _ _, (written 1 None small_tree, true)) (workers toy) (gitapply toy) (server toy)
          (cancelled toy) (bucket toy).
Definition untar_inputs : inputs := Inputs ∅ None ∅ (<["linux.tar.gz" := "bytes"]> ∅) ∅.

Lemma extractTarball_refines_witness :
  ∃ t' m', Untar.serial 40 18 ∅ (untar_program 16 1 None small_tree true) = Ok t' ∧
           runs (extractTarball untar_world untar_inputs (InSrc "linux.tar.gz")) ∅ tt m' ∧ shows t' m'.
Proof.
  apply (extractTarball_refines untar_world untar_inputs (InSrc "linux.tar.gz") ∅ "bytes" ".gz" 40 18 16 small_tree ∅).
  - reflexivity.
  - reflexivity.
  - reflexivity.
  - by repeat constructor.
  - by vm_compute.
  - split; [by intros ? ?; rewrite lookup_empty|by intros ? ? _; rewrite lookup_empty|by intros; rewrite lookup_empty].
  - intros name _. unfold PatchLaws.files. by rewrite omap_empty, !lookup_empty.
Defined.

(** ** The patch series *)

Section patches.
Context (max_links : nat) (umask : Z).
Context (Parse : string → option (list File)) (Apply : string → File → option string).

(** The loop body of applyPatches on the mount, where only contents are kept. *)
Definition entry_prog (f : File) : M () () :=
  if IsNew f then
    match Apply "" f with Some out => write (new_name f) out | None => fail () end
  else if IsDelete f then
    src ← read (old_name f);
    match src with Some _ => remove (old_name f) | None => fail () end
  else
    src ← read (old_name f);
    match src ≫= λ s, patched Apply s f with
    | Some out =>
        write (new_name f) out;;
        if IsRename f && (old_name f <>s new_name f) then remove (old_name f) else mret tt
    | None => fail ()
    end.

(** One patch file, as the parameter [gitapply] of a [World]. *)
Definition gitapply_of (raw : string) (m : mount) : list mount * mount * bool :=
  match Parse raw with
  | None => ([], m, false)
  | Some fs => let o := each entry_prog fs m in (passed o, final o, is_ok (ret o))
  end.

Definition lists (v : listing) (m : mount) : Prop :=
  ∀ name, plain name = true → m !! name = snd <$> v !! place name.

Lemma lists_insert v m name e :
  plain name = true → lists v m → lists (<[place name := e]> v) (<[name := e.2]> m).
Proof.
  intros Hp Hs name' Hp'. destruct (decide (name = name')) as [<-|Hne]; [by rewrite !lookup_insert_eq|].
  rewrite !lookup_insert_ne by (done || by intros ?%place_inj). by apply Hs.
Qed.

Lemma lists_delete v m name : plain name = true → lists v m → lists (delete (place name) v) (delete name m).
Proof.
  intros Hp Hs name' Hp'. destruct (decide (name = name')) as [<-|Hne]; [by rewrite !lookup_delete_eq|].
  rewrite !lookup_delete_ne by (done || by intros ?%place_inj). by apply Hs.
Qed.

Lemma entry_effect f v m :
  (∀ n, In n (touched f) → plain n = true) → lists v m →
  match effect Apply f v with
  | Some v' => ∃ m', runs (entry_prog f) m tt m' ∧ lists v' m'
  | None => is_ok (ret (entry_prog f m)) = false
  end.
Proof.
  intros Hp Hs. unfold effect, entry_prog. unfold touched in Hp.
  destruct (IsNew f); [|destruct (IsDelete f)].
  - destruct (Apply "" f) as [out|]; [|done]. cbn. eexists. split; [by apply runs_write|].
    apply (lists_insert v m (new_name f) (_, out)); [apply Hp; by left|done].
  - pose proof (Hs (old_name f) ltac:(apply Hp; by left)) as Ho. unfold runs. rewrite bind_read, Ho.
    destruct (v !! place (old_name f)) as [[md src]|]; cbn; [|done].
    eexists. split; [done|]. apply lists_delete; [apply Hp; by left|done].
  - pose proof (Hs (old_name f) ltac:(apply Hp; by left)) as Ho. unfold runs. rewrite bind_read, Ho.
    destruct (v !! place (old_name f)) as [[md src]|]; cbn [fmap option_fmap option_map snd mbind option_bind]; [|done].
    destruct (patched Apply src f) as [out|]; cbn [mbind option_bind]; [|done].
    assert (lists (<[place (new_name f) := (mode_or f (perm_bits md), out)]> v) (<[new_name f := out]> m)) as Hn
      by (apply (lists_insert v m (new_name f) (_, out)); [apply Hp; right; by left|done]).
    destruct (IsRename f && (old_name f <>s new_name f)); (eexists; split; [done|]); [|done].
    apply lists_delete; [apply Hp; by left|done].
Qed.

Lemma entries_effect l v m :
  (∀ f n, In f l → In n (touched f) → plain n = true) → lists v m →
  match series_effect Apply l v with
  | Some v' => ∃ m', runs (each entry_prog l) m tt m' ∧ lists v' m'
  | None => is_ok (ret (each entry_prog l m)) = false
  end.
Proof.
  revert v m. induction l as [|f l IH]; intros v m Hp Hs; [by exists m|]. cbn [series_effect each].
  pose proof (entry_effect f v m (λ n, Hp f n (or_introl eq_refl)) Hs) as H.
  destruct (effect Apply f v) as [v1|]; cbn [mbind option_bind].
  - destruct H as (m1 & [Hr Hf] & Hs1).
    specialize (IH v1 m1 ltac:(intros f' n Hf'; apply Hp; by right) Hs1).
    unfold runs, mbind, M_bind in *. rewrite Hr, Hf. destruct (series_effect Apply l v1); [|done]. exact IH.
  - unfold mbind, M_bind. by destruct (ret (entry_prog f m)).
Qed.

Lemma series_effect_gitapply W I names fss v m :
  (∀ raw m, gitapply W raw m = gitapply_of raw m) →
  mapM (λ n, Parse (patchContent I n)) names = Some fss →
  (∀ f n, In f (concat fss) → In n (touched f) → plain n = true) → lists v m →
  let prog := each (λ n, external (gitapply W (patchContent I n)) (SPatch n)) names in
  match series_effect Apply (concat fss) v with
  | Some v' => ∃ m', runs prog m tt m' ∧ lists v' m'
  | None => is_ok (ret (prog m)) = false
  end.
Proof.
  intros HW. revert fss v m. induction names as [|n names IH]; intros fss v m Hp Hn Hs; cbn [each].
  { cbn in Hp. injection Hp as <-. by exists m. }
  cbn in Hp. destruct (Parse (patchContent I n)) as [l|] eqn:El; [|done]. cbn in Hp.
  destruct (mapM _ names) as [fss'|] eqn:Em; [|done]. injection Hp as <-. cbn [concat] in *.
  rewrite series_effect_app.
  pose proof (entries_effect l v m (λ f n' Hf, Hn f n' (in_or_app _ _ f (or_introl Hf))) Hs) as H.
  assert (∀ e : StepError, external (gitapply W (patchContent I n)) e m =
    let o := each entry_prog l m in
    Outcome (passed o ++ [final o]) (final o) (if is_ok (ret o) then Ok tt else Err e)) as Hx.
  { intros e. unfold external. rewrite HW. unfold gitapply_of. by rewrite El. }
  cbv zeta in Hx. unfold runs, mbind, M_bind. rewrite Hx. cbn [ret final].
  destruct (series_effect Apply l v) as [v1|]; cbn [option_bind].
  - destruct H as (m1 & [Hr Hf] & Hs1).
    specialize (IH fss' v1 m1 eq_refl ltac:(intros f n' Hf'; apply Hn, in_or_app; by right) Hs1). cbv zeta in IH.
    rewrite Hr, Hf. cbn [is_ok]. destruct (series_effect Apply (concat fss') v1); exact IH.
  - by rewrite H.
Qed.
End patches.

(** The mount's series is the tree's. With gitdiff's loop as the world's [gitapply], the
    step's own applyPatches on the mount and the calls of applyPatches on the tree it
    shows succeed together, and then the mount shows the patched tree. *)
Theorem applyPatches_join (W : World) (I : inputs) (max_links : nat) (umask : Z)
    (Parse : string → option (list File)) (Apply : string → File → option string)
    (names : list string) (fss : list (list File)) (t : fs) (m : mount) :
  (∀ raw m, gitapply W raw m = gitapply_of Parse Apply raw m) →
  patchFiles I = Ok names → mapM (λ n, Parse (patchContent I n)) names = Some fss →
  fits t (concat fss) → shows t m →
  match Patch.applyPatches max_links umask Parse Apply I t with
  | Ok t' => ∃ m', runs (Tree.applyPatches W I) m tt m' ∧ shows t' m'
  | Err _ => is_ok (ret (Tree.applyPatches W I m)) = false
  end.
Proof.
  intros HW Hn Hp Hfit Hs. unfold Patch.applyPatches. rewrite Hn. cbn [map_err mbind result_bind].
  pose proof (apply_series_effect max_links umask Parse Apply (patchContent I) names fss t (concat fss) Hp Hfit
    ltac:(done)) as Ht.
  pose proof (series_effect_gitapply Parse Apply W I names fss (PatchLaws.files t) m HW Hp
    ltac:(intros f n Hf Hin; apply (fit_clear _ _ Hfit f n Hf Hin)) Hs) as Hm. cbv zeta in Hm.
  assert (Tree.applyPatches W I m = each (λ n, external (gitapply W (patchContent I n)) (SPatch n)) names m) as HT.
  { unfold Tree.applyPatches. by apply bind_lift. }
  unfold runs in *. rewrite HT. destruct (foldR _ t names) as [t'|].
  - destruct Ht as [Ht _]. by rewrite Ht in Hm.
  - by rewrite Ht in Hm.
Qed.
