(* ===== verification/RequestLaws.v ===== *)
(** A request from end to end: the client's checks ([Client], [Gateway]), the graph
    ([LLB]) and the step ([Step]) joined by what the daemon delivers to the compile
    vertex. A build the client let through is refused by the step for nothing the
    request says but a seed URL without a bucket: what is left to fail is the outside. *)

From S2P Require Import Prelude GoString GoTime GoSort Sha256 Timestamp Spec SpecValid LLB LLBLaws GraphLaws StepEnv Expect Download Mount Tree Step StepLaws Gateway GatewayLaws Client BuildLaws.

(** ** Which errors a program can return *)

Definition faults {E A} (c : M E A) (P : E → Prop) : Prop := ∀ m e, ret (c m) = Err e → P e.

Section faults.
Context {E : Type} (P : E → Prop).

Lemma faults_bind {A B} (c : M E A) (f : A → M E B) :
  faults c P → (∀ a, faults (f a) P) → faults (c ≫= f) P.
Proof using.
  intros Hc Hf m e. unfold mbind, M_bind. specialize (Hc m).
  destruct (c m) as [ps m' [a|e']]; cbn in *; [apply Hf|]. by intros [= <-]; apply Hc.
Qed.

Lemma faults_ret {A} (a : A) : faults (mret a : M E A) P.
Proof using. by intros m e. Qed.
Lemma faults_get : faults (get : M E mount) P.
Proof using. by intros m e. Qed.
Lemma faults_read p : faults (read p : M E (option string)) P.
Proof using. by intros m e. Qed.
Lemma faults_write p c : faults (write p c : M E unit) P.
Proof using. by intros m e. Qed.
Lemma faults_remove p : faults (remove p : M E unit) P.
Proof using. by intros m e. Qed.
Lemma faults_ignore {F} (c : M F unit) : faults (ignore c : M E unit) P.
Proof using. by intros m e. Qed.
Lemma faults_fail {A} (e : E) : P e → faults (fail e : M E A) P.
Proof using. by intros He m e' [= <-]. Qed.
Lemma faults_external f (e : E) : P e → faults (external f e) P.
Proof using. intros He m e'. unfold external. destruct (f m) as [[ms m'] []]; cbn; by intros [= <-]. Qed.
Lemma faults_lift {F A} (inj : F → E) (r : result F A) :
  (∀ e, r = Err e → P (inj e)) → faults (lift inj r) P.
Proof using. intros H m e. cbn. destruct r as [|e']; [done|]. intros [= <-]. by apply H. Qed.
Lemma faults_wrap {F A} (inj : F → E) (c : M F A) : faults c (P ∘ inj) → faults (wrap inj c) P.
Proof using.
  intros H m e. specialize (H m). unfold wrap. destruct (c m) as [ps m' [a|e']]; cbn in *; [done|].
  intros [= <-]. by apply H.
Qed.
Lemma faults_each {A} (f : A → M E unit) l : (∀ a, faults (f a) P) → faults (each f l) P.
Proof using. intros H. induction l as [|a l IH]; cbn; [apply faults_ret|]. by apply faults_bind. Qed.
End faults.

Create HintDb faults.
#[export] Hint Resolve faults_ret faults_get faults_read faults_write faults_remove faults_ignore : faults.
#[export] Hint Extern 1 (faults (fail _) _) => apply faults_fail; exact I : faults.
#[export] Hint Extern 1 (faults (external _ _) _) => apply faults_external; exact I : faults.
#[export] Hint Extern 1 (faults (runMake _ _ _ _) _) => apply faults_external; exact I : faults.
#[export] Hint Extern 1 (faults (each _ _) _) => apply faults_each; intros : faults.

(** Along a program: every call by its hint, every branch. *)
Ltac fault :=
  repeat (intros;
          first [ solve [eauto with faults]
                | apply faults_bind
                | apply faults_each
                | match goal with |- faults (match ?x with _ => _ end) _ => destruct x end
                | match goal with |- faults (let '(_, _) := ?x in _) _ => destruct x end ]).

(** ** What is left to fail *)

(** Errors of the outside: the network, the tarball, the patches and the
    configuration's content, the bucket's answer, make; and a source tree the client
    did not find. The step's own refusals of what it is asked are not among them. *)
Definition outside_step (I : inputs) (e : StepError) : Prop :=
  match e with
  | SNoPatches | SBadLocal _ | SSourceExt _ | SRename | SNoConfig | SSeedURL => False
  | SHashLocal => srcs I !! Tree.getenv I "SRC_LOCAL" = None
  | SDownload _ | SMismatch _ _ | SExtract | SPatch _ | SSeed | SBaseMake | SAppend | SMake => True
  end.

Definition outside_error (I : inputs) (e : RunError) : Prop :=
  match e with
  | RTimestamp _ | RTarget _ | RSeedPush _ | RSeedURL => False
  | RStep e => outside_step I e
  | RExpect _ | RNoModules | RCopy _ | RSeed => True
  end.

(** The step's own refusal of a seed URL that names no bucket, found when it is first
    needed: [Validate] does not look for one. *)
Definition bucketless (url : string) : bool :=
  match s3Target (MkSeedCfg url "" "" false) with None => true | Some _ => false end.

Lemma s3Target_bucketless c : s3Target c = None ↔ bucketless (url c) = true.
Proof. unfold bucketless, s3Target. cbn [url]. destruct (Cut _ _) as [[a b] ok]. by destruct (_ || _). Qed.

Definition nowhere (I : inputs) : Prop := ∃ c, loadSeedCfg (secrets I) = Some c ∧ bucketless (url c) = true.

Definition step_fault (I : inputs) (e : StepError) : Prop :=
  match e with SSeedURL => nowhere I | _ => outside_step I e end.
Definition run_fault (I : inputs) (e : RunError) : Prop :=
  match e with RSeedURL => nowhere I | RStep e => step_fault I e | _ => outside_error I e end.

Lemma run_fault_cases I e :
  run_fault I e → outside_error I e ∨ ((e = RStep SSeedURL ∨ e = RSeedURL) ∧ nowhere I).
Proof. destruct e as [| | |[]| | | | |]; cbn; tauto. Qed.

(** ** A fetch that succeeds leaves its file *)

Lemma attempt_once_done server attempt t t' :
  attempt_once server attempt t = (t', Done) → is_Some (dst t').
Proof.
  unfold attempt_once. cbv zeta. destruct (server attempt _) as [[]|status ra body clean]; [done..|].
  destruct (status =? 200)%Z; [destruct clean; [|done]; by intros [= <-]; eexists|].
  destruct (status =? 206)%Z; [destruct clean; [|done]; by intros [= <-]; eexists|].
  destruct (_ && _); [done|]. by destruct (_ || _).
Qed.

Lemma attempts_done server cancelled tries attempt t t' :
  attempts server cancelled tries attempt t = (t', Ok tt) → is_Some (dst t').
Proof.
  revert attempt t. induction tries as [|tries IH]; intros attempt t; [done|]. cbn [attempts]. cbv zeta.
  destruct (_ && cancelled attempt); [done|].
  destruct (attempt_once _ _ _) as [t1 []] eqn:E; [|apply IH|done].
  intros [= <-]. by eapply attempt_once_done.
Qed.

Section step.
Context (W : World) (I : inputs).

(** Fetch, check, rename: the file to rename is there. *)
Lemma faults_fetched url part cached sum (A : Type) (a : A) :
  faults (fetch_to W url part;;
          got ← read part;
          let got := fileSHA256 (default "" got) in
          if (sum <>s "") && (got <>s sum) then remove part;; fail (SMismatch got sum)
          else rename part cached SRename;; mret a) (step_fault I).
Proof using.
  intros m e. unfold mbind at 1, M_bind at 1, fetch_to. unfold download.
  destruct (attempts _ _ _ _ _) as [t [[]|d]] eqn:Hd; cbn [ret map_err final]; [|by intros [= <-]].
  apply attempts_done in Hd as [c Hc]. rewrite Hc. rewrite bind_read, lookup_insert_eq. cbn [default].
  destruct (_ && _); [by intros [= <-]|].
  unfold mbind, M_bind, rename. by rewrite lookup_insert_eq.
Qed.

Lemma faults_acquireSource :
  (Tree.getenv I "SRC_LOCAL" ≠ "" → safe_path (Tree.getenv I "SRC_LOCAL")) →
  (Tree.getenv I "SRC_LOCAL" = "" → is_tarball (Tree.getenv I "SRC_URL")) →
  faults (acquireSource W I) (step_fault I).
Proof using.
  intros Hl Hu. unfold acquireSource. cbv zeta.
  destruct (String.eqb_spec (Tree.getenv I "SRC_LOCAL") "") as [E|E]; cbn [negb].
  - apply Hu, check_ext_Ok in E. unfold check_ext in E. destruct (SourceExt _) as [ext|]; [|done].
    apply faults_bind; [apply faults_read|]. intros have. destruct (_ && _); [apply faults_ret|].
    apply faults_fetched.
  - apply Hl in E. pose proof (proj2 E) as Hd%lacks_Contains. apply safe_path_relative in E as [E _].
    rewrite Hd, E. apply faults_ret.
Qed.

(** What a request that was checked gives the step. *)
Record served : Prop := Served {
  sv_local : Tree.getenv I "SRC_LOCAL" ≠ "" → safe_path (Tree.getenv I "SRC_LOCAL");
  sv_url : Tree.getenv I "SRC_LOCAL" = "" → is_tarball (Tree.getenv I "SRC_URL");
  sv_config : is_Some (config I);
  sv_patches : Tree.getenv I "APPLY_PATCHES" = "1" → is_ok (patchFiles I) = true
}.

Lemma faults_stampWant : served → ∀ e, stampWant I = Err e → step_fault I e.
Proof using.
  intros Hs e. unfold stampWant. rewrite bind_Err. intros [H|(psha & _ & H)].
  - destruct (String.eqb_spec (Tree.getenv I "APPLY_PATCHES") "1") as [E|]; [|done].
    apply (sv_patches Hs) in E. by destruct (patchFiles I).
  - apply bind_Err in H as [H|(srcID & _ & [=])].
    destruct (_ <>s ""); [|done]. destruct (srcs I !! _) eqn:E; [done|]. by injection H as <-.
Qed.

Lemma faults_patching :
  served → faults (if Tree.getenv I "APPLY_PATCHES" =s "1" then applyPatches W I else mret tt) (step_fault I).
Proof using.
  intros Hs. destruct (String.eqb_spec (Tree.getenv I "APPLY_PATCHES") "1") as [E|_]; [|apply faults_ret].
  unfold applyPatches. apply faults_bind; [|fault].
  apply faults_lift. intros e He. apply (sv_patches Hs) in E. by rewrite He in E.
Qed.

Lemma faults_write_all fs : faults (write_files W fs) (step_fault I).
Proof using. by intros m e. Qed.

Lemma faults_extractTarball src : faults (extractTarball W I src) (step_fault I).
Proof using. pose proof faults_write_all. unfold extractTarball. cbv zeta. fault. Qed.

Lemma faults_nukeTree : faults (nukeTree W) (step_fault I).
Proof using. by intros m e. Qed.

Lemma faults_seedPull c : loadSeedCfg (secrets I) = Some c → faults (seedPull W c) (step_fault I).
Proof using.
  intros Hc. pose proof faults_write_all. unfold seedPull. destruct (s3Target c) eqn:E; [fault|].
  apply faults_fail. exists c. split; [done|]. by apply s3Target_bucketless.
Qed.

Lemma faults_prepareTree : served → faults (prepareTree W I (loadSeedCfg (secrets I))) (step_fault I).
Proof using.
  intros Hs. pose proof (faults_acquireSource (sv_local Hs) (sv_url Hs)) as Ha.
  pose proof faults_nukeTree. pose proof faults_seedPull as Hpull. pose proof faults_extractTarball.
  pose proof (faults_patching Hs) as Hp. unfold prepareTree.
  apply faults_bind; [by apply faults_lift, faults_stampWant|].
  destruct (loadSeedCfg (secrets I)) as [c|]; [|fault].
  specialize (Hpull c eq_refl). fault.
Qed.

Lemma faults_configure : served → faults (configure W I) (step_fault I).
Proof using.
  intros Hs. unfold configure. destruct (sv_config Hs) as [c ->].
  assert (∀ p t, faults (append p t) (step_fault I)) as Hap.
  { intros p t m e. unfold append. destruct (m !! p); [done|]. by intros [= <-]. }
  fault.
Qed.
End step.

(** ** The whole step *)

Section run.
Context (W : World) (X : Exporter) (expect : file) (jobs : Z) (stage rnd : string).

Lemma faults_copyFiles (P : RunError → Prop) l out :
  (∀ p, P (RCopy p)) → faults (copyFiles l out) P.
Proof using.
  intros Hp. revert out. induction l as [|[s d] l IH]; intros out; cbn; fault. by apply faults_fail.
Qed.

Lemma faults_publish I : faults (publish X rnd (loadSeedCfg (secrets I))) (run_fault I).
Proof using.
  unfold publish, seedPush. cbv zeta. destruct (loadSeedCfg (secrets I)) as [c|] eqn:Ec; [|fault].
  destruct (push c); [|fault]. destruct (s3Target c) eqn:E; [fault|].
  apply faults_bind; [|fault]. apply faults_fail. exists c. split; [done|]. by apply s3Target_bucketless.
Qed.

Lemma served_Setenv ts I : served I → served (Setenv "KBUILD_BUILD_TIMESTAMP" ts I).
Proof using.
  intros []. constructor; unfold Tree.getenv, StepEnv.getenv, patchFiles, Setenv in *;
    cbn [env config patches] in *; by rewrite ?lookup_insert_ne by done.
Qed.

(** The step of a request that was checked, in an environment the graph declares. *)
Lemma faults_run nonce s I :
  valid_spec s → compile_env nonce s ⊆ env I → served I →
  checkSeedPush (env I) (loadSeedCfg (secrets I)) = Ok tt →
  faults (Step.run W X expect jobs stage rnd I) (run_fault I).
Proof using.
  intros V Hsub Hs Hpush. unfold Step.run. cbv zeta.
  pose proof (λ k v, getenv_within nonce s (env I) k v Hsub) as Hget.
  apply faults_bind.
  { apply faults_lift. intros e He. unfold Tree.getenv in He.
    rewrite (Hget _ (SourceDateEpoch s)) in He by (simpl; tauto).
    destruct (proj2 (epoch_check (SourceDateEpoch s)) (v_epoch _ V)) as [_ Hok]. by rewrite He in Hok. }
  intros ts. set (I' := Setenv _ ts I).
  assert (∀ k, k ≠ "KBUILD_BUILD_TIMESTAMP" → StepEnv.getenv (env I') k = StepEnv.getenv (env I) k) as Hk.
  { intros k Hne. unfold StepEnv.getenv, I', Setenv. cbn [env]. by rewrite lookup_insert_ne. }
  apply faults_bind.
  { apply faults_lift. intros e He.
    destruct (resolveTargets_known (env I') s V) as (r & Hr & _).
    - rewrite Hk by done. apply Hget. simpl. tauto.
    - rewrite Hk by done. apply Hget. simpl. tauto.
    - by rewrite Hr in He. }
  intros r. apply faults_bind.
  { apply faults_lift. intros e He. unfold checkSeedPush in *. rewrite Hk in He by done.
    change (secrets I') with (secrets I) in He. by rewrite Hpush in He. }
  apply (served_Setenv ts) in Hs. fold I' in Hs.
  assert (∀ e, step_fault I' e → run_fault I (RStep e)) as Hout.
  { intros []; try done. cbn. unfold Tree.getenv. by rewrite Hk. }
  assert (∀ A (c : M StepError A), faults c (step_fault I') → faults (wrap RStep c) (run_fault I)) as Hwrap.
  { intros A c Hc. apply faults_wrap. intros m e He. by apply Hout, (Hc m). }
  pose proof (faults_publish I). pose proof (λ l out, faults_copyFiles (run_fault I) l out (λ _, Logic.I)).
  unfold sweep, gate, bundle, check_modules, compile, packModules. cbv zeta.
  pose proof (faults_prepareTree W I' Hs). pose proof (faults_configure W I' Hs).
  fault; apply Hwrap; fault.
Qed.
End run.

(** ** What the daemon delivers to the compile vertex *)

(** The variables, the files selected from the client's context and the secrets of the
    session, as the graph asks for them. Only what was there is delivered. *)
Record delivers (os : opts) (d : context_dir) (sent : option (gmap string string)) (I : inputs) : Prop := Delivers {
  dl_env : env_of os ⊆ env I;
  dl_push : env I !! "SEED_PUSH" = env_of os !! "SEED_PUSH";
  dl_config : ∀ n follow h c p,
    In ("/kernel.config", Local n follow h c, [SourcePath p; Readonly]) (mounts_of os) →
    exists_at d p = true → is_Some (config I);
  dl_patches : ∀ src m, In ("/patches", src, m) (mounts_of os) →
    ∀ n, In n (patch_entries d) → is_Some (patches I !! n);
  dl_secrets : ∀ id, In id (secret_ids os) → secrets I !! id = m ← sent; m !! id
}.

(** What the glob patches/*.patch can name. *)
Definition patch_name (n : string) : Prop := HasSuffix n ".patch" = true ∧ ContainsByte n "/" = false.

Lemma patchFiles_found I n : patch_name n → is_Some (patches I !! n) → is_ok (patchFiles I) = true.
Proof.
  intros [Hs Hn] [c Hc]. unfold patchFiles.
  assert (In n (List.filter (λ n, HasSuffix n ".patch" && negb (ContainsByte n "/"))
                  (map fst (map_to_list (patches I))))) as Hin.
  { apply filter_In. rewrite Hs, Hn. split; [|done]. apply in_map_iff. exists (n, c). split; [done|].
    apply list_elem_of_In. by apply elem_of_map_to_list. }
  by destruct (List.filter _ _).
Qed.

Lemma loadSeedCfg_ext m1 m2 :
  (∀ id, In id ["seed_access_key"; "seed_secret_key"; "seed_cfg"] → m1 !! id = m2 !! id) →
  loadSeedCfg m1 = loadSeedCfg m2.
Proof.
  intros H. unfold loadSeedCfg. cbn [forallb]. by rewrite !H by (simpl; tauto).
Qed.

Lemma checkContextDir_found d s :
  checkContextDir d s = Ok tt →
  exists_at d (ConfigName s) = true ∧ (ApplyPatches s = true → patch_entries d ≠ []).
Proof.
  unfold checkContextDir. rewrite then_Ok. intros [Hf Hp]. split.
  - unfold contextFiles in Hf. cbn [app stat_dir] in Hf. by destruct (exists_at d (ConfigName s)).
  - intros E. rewrite E in Hp. cbn [negb] in Hp. by destruct (patch_entries d).
Qed.

(** A graph's inputs, delivered, are what a checked request serves. *)
Lemma delivers_served nonce s d sent I :
  valid_spec s → Forall patch_name (patch_entries d) → checkContextDir d s = Ok tt →
  delivers (run_opts nonce s) d sent I → served I.
Proof.
  intros V Hglob [Hcfg Hpat]%checkContextDir_found [Hsub _ Hdc Hdp _].
  pose proof (λ k v, getenv_within nonce s (env I) k v Hsub) as Hget.
  unfold source_identity in Hget. constructor; unfold Tree.getenv.
  - rewrite (Hget _ (SourceLocalName s)) by (simpl; tauto). intros Hne. by destruct (v_src_name _ V).
  - rewrite (Hget _ (SourceLocalName s)) by (simpl; tauto). intros E. rewrite E in Hget.
    pose proof (v_source _ V) as Hv. rewrite E in Hv. cbn in Hget.
    rewrite (Hget "SRC_URL" (SourceURL s)) by (simpl; tauto). by destruct Hv as (_ & _ & ?).
  - eapply Hdc; [|exact Hcfg]. rewrite run_mounts. right. by left.
  - rewrite (Hget _ (if ApplyPatches s then "1" else "0")) by (simpl; tauto).
    destruct (ApplyPatches s) eqn:E; [intros _|done]. specialize (Hpat eq_refl).
    destruct (patch_entries d) as [|n ns] eqn:En; [done|]. apply Forall_cons in Hglob as [Hn _].
    apply (patchFiles_found I n Hn). eapply Hdp; [|by left].
    rewrite run_mounts, E. apply in_app_iff. right. by left.
Qed.

Section request.
Context `{HH : Host} `{HC : Control} `{HD : Daemon}.
Context (nonce : string) (s : Spec) (cfg : BuildConfig).
Abbreviation request := (Build nonce s cfg).

(** The push check passes on the secrets the client sends. *)
Lemma push_served s' o I :
  checked s cfg → valid_spec s → SeedPush s' = SeedPush s →
  Secrets o = (if SeedURL s =s "" then None else Some (seed_secrets cfg s)) →
  delivers (run_opts nonce s') (context_at (ContextDir cfg)) (Secrets o) I →
  checkSeedPush (env I) (loadSeedCfg (secrets I)) = Ok tt.
Proof.
  intros (Hpush & _ & _) V Hp Hsec [_ Hdp _ _ Hds]. unfold checkSeedPush.
  assert (StepEnv.getenv (env I) "SEED_PUSH" = if SeedPush s then "1" else "") as ->.
  { rewrite <- Hp, <- (getenv_push nonce s'). unfold StepEnv.getenv, compile_env. by rewrite Hdp. }
  destruct (SeedPush s) eqn:E; [|done]. specialize (Hpush eq_refl). cbn [negb String.eqb].
  rewrite (loadSeedCfg_ext (secrets I) (seed_secrets cfg s)).
  - rewrite seed_secrets_read by done. cbn [push]. by rewrite E.
  - intros id Hid. rewrite Hds by (by rewrite (proj1 (run_rest nonce s'))).
    apply eqb_false in Hpush. by rewrite Hsec, Hpush.
Qed.

(** A build graph that is solved is this specification's, its base pinned. *)
Lemma asked_graph os b src t imports :
  In (Asked (QSolve (RunMount b os t src) imports)) request.1 →
  checked s cfg ∧ ∃ s' mode, pinned mode s s' ∧ valid_spec s' ∧ os = run_opts nonce s' ∧
    RunMount b os t src = RunMount (toolchain_state s') (run_opts nonce s') "/out" Scratch.
Proof.
  intros Hq. apply run_events in Hq as (Hc & Hq). split; [done|].
  destruct Hq as [[? [|]]|[|[|(o' & _ & [|(q & [= <-] & Hq)])]]]; try done.
  apply GatewaySolve_asked in Hq as [[? _]|(_ & _ & s' & Hpin & _ & Hk)]; [done|].
  apply KernelLLB_Ok in Hk as (V%Validate_valid & _ & He). exists s'. eexists. split; [exact Hpin|].
  split; [done|]. split; [by injection He|done].
Qed.

(** A seed URL without a bucket, found in the delivered secrets, is the request's. *)
Lemma nowhere_served s' o I :
  valid_spec s → Secrets o = (if SeedURL s =s "" then None else Some (seed_secrets cfg s)) →
  delivers (run_opts nonce s') (context_at (ContextDir cfg)) (Secrets o) I →
  nowhere I → bucketless (SeedURL s) = true.
Proof.
  intros V Hsec [_ _ _ _ Hds] (c & Hc & Hb).
  assert (∀ id, In id ["seed_access_key"; "seed_secret_key"; "seed_cfg"] →
    secrets I !! id = m ← Secrets o; m !! id) as Hin
    by (intros id Hid; by rewrite Hds by (by rewrite (proj1 (run_rest nonce s')))).
  rewrite Hsec in Hin. destruct (String.eqb_spec (SeedURL s) "") as [E|E]; cbn [mbind option_bind] in Hin.
  - unfold loadSeedCfg in Hc. by rewrite Hin in Hc by (simpl; tauto).
  - rewrite (loadSeedCfg_ext _ _ Hin), seed_secrets_read in Hc by done. by injection Hc as <-.
Qed.

(** What is solved, delivered, is served: the step's own checks pass. *)
Lemma asked_served o os b src t imports :
  Forall patch_name (patch_entries (context_at (ContextDir cfg))) →
  In (Solving o) request.1 → In (Asked (QSolve (RunMount b os t src) imports)) request.1 →
  ∃ s', valid_spec s' ∧ HelperRef s' = HelperRef s ∧ os = run_opts nonce s' ∧
    RunMount b os t src = RunMount (toolchain_state s') (run_opts nonce s') "/out" Scratch ∧
    ∀ I, delivers os (context_at (ContextDir cfg)) (Secrets o) I →
      compile_env nonce s' ⊆ env I ∧ served I ∧ checkSeedPush (env I) (loadSeedCfg (secrets I)) = Ok tt ∧
      (nowhere I → bucketless (SeedURL s) = true).
Proof.
  intros Hglob Ho Hq. apply run_events in Ho as (Hc & Ho).
  assert (solves s cfg o) as Hfit%solves_fit by (destruct Ho as [[? [|]]|[|[|(? & ? & [[= ->]|(? & ? & _)])]]]; done).
  apply asked_graph in Hq as (_ & s' & mode & Hpin & V' & -> & He).
  assert (SeedPush s' = SeedPush s ∧ HelperRef s' = HelperRef s ∧
          checkContextDir (context_at (ContextDir cfg)) s' = Ok tt) as (Hp & Hh & Hctx).
  { destruct Hc as (_ & _ & Hd).
    destruct Hpin as [[_ ->]|(_ & ref & dgst & _ & _ & ->)]; (split; [done|]); (split; [done|]); exact Hd. }
  destruct Hfit as (_ & _ & _ & _ & _ & Hsec & _).
  exists s'. split; [done|]. split; [done|]. split; [done|]. split; [exact He|]. intros I Hd.
  split; [apply Hd|]. split; [by eapply delivers_served|].
  pose proof Hc as (_ & V%Validate_valid & _). split; [by eapply (push_served s' o)|by eapply (nowhere_served s' o)].
Qed.

End request.
