(* ===== verification/SuccessLaws.v ===== *)
(** The step succeeds (cmd/kbuild-step/main.go): strong triples - a program returns,
    and what holds then - and the outside that lets a build through. On a mount that
    earlier builds left, a request that was checked is built when the network, the
    tarball, the patches, make, the configuration and the bucket do their part - unless
    the mount has the wanted tree already, marked as configured, and its .config is gone. *)

From S2P Require Import Prelude GoString GoTime GoSort Sha256 Timestamp Spec SpecValid LLB LLBLaws GraphLaws StepEnv Expect Download Mount Tree TreeLaws SeedLaws PrepareLaws ConfigureLaws Step StepLaws ExportLaws Gateway GatewayLaws Frontend FrontendLaws Client BuildLaws RequestLaws.

(** ** Programs that return *)

Definition wins {E A} (P : mount → Prop) (c : M E A) (Q : A → mount → Prop) : Prop :=
  ∀ m, P m → ∃ a m', runs c m a m' ∧ Q a m'.

Section wins.
Context {E : Type}.

Lemma wins_bind {A B} P (c : M E A) (f : A → M E B) R Q :
  wins P c R → (∀ a, wins (R a) (f a) Q) → wins P (c ≫= f) Q.
Proof.
  intros Hc Hf m (a & m1 & H1 & H)%Hc. apply Hf in H as (b & m2 & H2 & H).
  exists b, m2. split; [|done]. apply runs_bind. by exists a, m1.
Qed.

Lemma wins_ret {A} (a : A) (Q : A → mount → Prop) : wins (Q a) (mret a : M E A) Q.
Proof. intros m Hm. exists a, m. split; [by apply runs_ret|done]. Qed.

Lemma wins_skip (Q : mount → Prop) : wins Q (mret tt : M E unit) (λ _, Q).
Proof. apply (wins_ret tt (λ _, Q)). Qed.

Lemma wins_get_intro {A} P (f : mount → M E A) Q :
  (∀ m0, wins (λ m, m = m0 ∧ P m) (f m0) Q) → wins P (get ≫= f) Q.
Proof.
  intros H m Hm. destruct (H m m (conj eq_refl Hm)) as (a & m' & Hr & HQ).
  exists a, m'. split; [|done]. apply runs_bind. exists m, m. split; [by apply runs_get|done].
Qed.

Lemma wins_get_elim {A} P (f : mount → M E A) Q :
  wins P (get ≫= f) Q → ∀ m0, wins (λ m, m = m0 ∧ P m) (f m0) Q.
Proof.
  intros H m0 m [-> Hm]. destruct (H m0 Hm) as (a & m' & Hr & HQ). exists a, m'. split; [|done].
  by apply runs_bind in Hr as (m1 & m2 & [-> ->]%runs_get & Hr).
Qed.

Lemma wins_read P p : wins P (read p : M E _) (λ a m, a = m !! p ∧ P m).
Proof. intros m Hm. exists (m !! p), m. split; [by apply runs_read|done]. Qed.

Lemma wins_read_at {A} m0 p (f : option string → M E A) Q :
  wins (λ m, m = m0) (f (m0 !! p)) Q → wins (λ m, m = m0) (read p ≫= f) Q.
Proof.
  intros H m ->. destruct (H m0 eq_refl) as (a & m' & Hr & HQ). exists a, m'. split; [|done].
  apply runs_bind. exists (m0 !! p), m0. split; [by apply runs_read|done].
Qed.

Lemma wins_write P p c (Q : mount → Prop) :
  (∀ m, P m → Q (<[p := c]> m)) → wins P (write p c : M E unit) (λ _, Q).
Proof. intros H m Hm. exists tt, (<[p := c]> m). split; [by apply runs_write|by apply H]. Qed.

Lemma wins_remove P p (Q : mount → Prop) :
  (∀ m, P m → Q (delete p m)) → wins P (remove p : M E unit) (λ _, Q).
Proof. intros H m Hm. exists tt, (delete p m). split; [by apply runs_remove|by apply H]. Qed.

Lemma wins_lift {F A} P (inj : F → E) (r : result F A) a (Q : A → mount → Prop) :
  r = Ok a → (∀ m, P m → Q a m) → wins P (lift inj r) Q.
Proof. intros Hr H m Hm. exists a, m. split; [by apply runs_lift|by apply H]. Qed.

Lemma wins_lift_bind {F A B} P (inj : F → E) (r : result F A) a (f : A → M E B) Q :
  r = Ok a → wins P (f a) Q → wins P (lift inj r ≫= f) Q.
Proof.
  intros -> H m (b & m' & Hr & HQ)%H. exists b, m'. split; [|done].
  apply runs_bind. exists a, m. split; [by apply runs_lift|done].
Qed.

Lemma wins_wrap {F A} (f : F → E) P (c : M F A) Q : wins P c Q → wins P (wrap f c) Q.
Proof. intros H m (a & m' & Hr & HQ)%H. exists a, m'. by rewrite runs_wrap. Qed.

Lemma wins_external P f (e : E) (Q : mount → Prop) :
  (∀ m, P m → ∃ ms m', f m = (ms, m', true) ∧ Q m') → wins P (external f e) (λ _, Q).
Proof.
  intros H m (ms & m' & Hf & HQ)%H. exists tt, m'. split; [|done]. apply runs_external. by exists ms.
Qed.

Lemma wins_conseq {A} (P P' : mount → Prop) (c : M E A) (Q Q' : A → mount → Prop) :
  wins P' c Q' → (∀ m, P m → P' m) → (∀ a m, Q' a m → Q a m) → wins P c Q.
Proof. intros H HP HQ m (a & m' & Hr & Hm)%HP%H. exists a, m'. auto. Qed.

Lemma wins_pre {A} (P P' : mount → Prop) (c : M E A) Q :
  wins P' c Q → (∀ m, P m → P' m) → wins P c Q.
Proof. intros H HP. eapply wins_conseq; eauto. Qed.

Lemma wins_each {A} (f : A → M E unit) (I : mount → Prop) l :
  (∀ a, In a l → wins I (f a) (λ _, I)) → wins I (each f l) (λ _, I).
Proof.
  induction l as [|a l IH]; intros H; cbn [each]; [apply wins_skip|].
  apply (wins_bind _ _ _ (λ _, I)); [apply H; by left|]. intros u. apply IH. intros b Hb. apply H. by right.
Qed.

(** What a crash triple says of the result adds to what a strong one says. *)
Lemma wins_triple {A} P P' (c : M E A) Q Q' C :
  triple P c Q C → wins P' c Q' → wins (λ m, P m ∧ P' m) c (λ a m, Q a m ∧ Q' a m).
Proof.
  intros Ht Hw m [Hm Hm']. apply Hw in Hm' as (a & m' & Hr & HQ'). exists a, m'.
  split; [done|]. split; [|done]. by eapply triple_runs.
Qed.
End wins.

(** ** The outside that lets a build through *)

Fixpoint applies (W : World) (cs : list string) (m : mount) : Prop :=
  match cs with
  | [] => True
  | c :: cs => ∃ ms m', gitapply W c m = (ms, m', true) ∧ applies W cs m'
  end.

Section outside.
Context (W : World) (X : Exporter) (expect : file) (jobs : Z) (stage : string).
Context (I : inputs) (f ext cfg : string).
Abbreviation env_of := (Tree.getenv I).

(** The server has the file [f]: what it sends is of [f], and among the five attempts
    one ends after failures that are worth a retry. *)
Definition serves (url : string) : Prop :=
  honest (server W url) f ∧ (∀ j, cancelled W j = false) ∧
  ∃ k, (1 <= k <= 5)%nat ∧ (∀ j r, (1 <= j < k)%nat → transient (server W url j r)) ∧
       ∀ r, finishing (server W url k r).

(** A tarball of the request: of the pin, or the one there is. *)
Definition wanted (c : string) : Prop :=
  if (env_of "SRC_LOCAL" =s "") && (env_of "SRC_SHA256" <>s "")
  then fileSHA256 c = env_of "SRC_SHA256" else c = f.

Definition codec (path : string) : option string := find (HasSuffix path) [".gz"; ".zst"; ".xz"].

Record source_there : Prop := {
  st_local : env_of "SRC_LOCAL" ≠ "" →
    srcs I !! env_of "SRC_LOCAL" = Some f ∧ codec (env_of "SRC_LOCAL") = Some ext;
  st_url : env_of "SRC_LOCAL" = "" → SourceExt (env_of "SRC_URL") = Some ext ∧ serves (env_of "SRC_URL");
  st_wanted : wanted f;
  st_decodes : ∀ c, wanted c → ∃ files, decode W ext c = (files, true) ∧
    ∀ m cs, clean m → series I cs → applies W cs (write_all files m)
}.

(** A .config the gate lets pass, for these targets. *)
Definition configured (r : targets) (m : mount) : Prop :=
  ∃ c, m !! ".config" = Some c ∧ (validateExpectations expect (Content c)).2 = None ∧
       (wantModules r = true → modulesEnabled c = true).

(** A marker of this configuration stands next to such a .config. *)
Definition marker_sound (r : targets) (m : mount) : Prop :=
  m !! markerFile = Some (cfgID I cfg) → configured r m.

(** On every tree of the wanted stamp, however an interrupted make left it, make does
    what it is asked: the base leaves a .config, the resolution one that meets the
    expectations, the targets their artifacts. *)
Record make_works (I : inputs) (want : string) (r : targets) : Prop := {
  mk_base : baseMake I ≠ [] → ∀ m, prepared W want m →
    ∃ ms m', make W (env I) (baseMakeArgs (env I)) m = (ms, m', true) ∧ is_Some (m' !! ".config");
  mk_resolve : ∀ m, prepared W want m → config_input W I cfg m →
    ∃ ms m', make W (env I) (olddefconfigArgs (env I)) m = (ms, m', true) ∧ configured r m';
  mk_targets : makeTargets r ≠ [] → ∀ m, prepared W want m → configured r m →
    ∃ ms m', make W (env I) (makeArgs jobs (env I) (makeTargets r)) m = (ms, m', true) ∧
      is_Some (m' !! ".config") ∧ ∀ src dst, artifacts r !! src = Some dst → is_Some (m' !! src);
  mk_modules : wantModules r = true → ∀ m, prepared W want m →
    ∃ ms m', make W (env I) (modulesArgs stage I) m = (ms, m', true)
}.

(** The bucket answers; what it holds, if anything, is whole. *)
Definition bucket_there (r : targets) : Prop :=
  ∀ c, loadSeedCfg (secrets I) = Some c →
    is_Some (s3Target c) ∧ (push c = true → ∀ files, upload X c files = true) ∧
    match bucket W c with
    | BucketError => False
    | NoSuchKey => True
    | Object files complete =>
        complete = true ∧ marker_sound r (write_all (map quarantine files) ∅)
    end.
End outside.

(** ** The tree *)

Lemma write_all_ext files (m m' : mount) p :
  m' !! p = m !! p → write_all files m' !! p = write_all files m !! p.
Proof.
  revert m m'. induction files as [|[q c] files IH]; intros m m' H; [done|]. apply IH.
  cbn [fst snd]. destruct (decide (q = p)) as [->|Hne]; [by rewrite !lookup_insert_eq|].
  by rewrite !lookup_insert_ne.
Qed.

Lemma runs_files W files (m : mount) : runs (write_files W files) m tt (write_all files m).
Proof. by split. Qed.

Lemma clean_unmarked m : clean m → m !! markerFile = None.
Proof.
  intros H. destruct (m !! markerFile) eqn:E; [|done].
  assert (spared (top markerFile) = true) as Hs by (apply H; by rewrite E). done.
Qed.

Lemma clean_config m : clean m → m !! ".config" = None.
Proof.
  intros H. destruct (m !! ".config") eqn:E; [|done].
  assert (spared (top ".config") = true) as Hs by (apply H; by rewrite E). done.
Qed.

Lemma write_all_unmarked files (m : mount) :
  Forall (λ q, kbf q.1 = false) files → unmarked m → unmarked (write_all files m).
Proof.
  intros Hf. revert m. induction Hf as [|[q c] files Hq _ IH]; intros m Hm; [done|]. apply IH.
  cbn [fst] in *. apply unmarked_insert; [|done]. by intros ->.
Qed.

Section tree.
Context (W : World) `{!WorldOk W, !BucketOk W} (X : Exporter) (expect : file).
Context (I : inputs) `{!Spares W I} (f ext cfg : string) (r : targets).
Context (Hsv : served I) (Hsrc : source_there W I f ext) (Hb : bucket_there W X expect I cfg r).
Abbreviation sound := (marker_sound expect I cfg r).

Lemma sound_unmarked m : unmarked m → sound m.
Proof using. intros H Hm. unfold unmarked in H. congruence. Qed.

Lemma sound_ext m m' :
  m' !! markerFile = m !! markerFile → m' !! ".config" = m !! ".config" → sound m → sound m'.
Proof using. intros Hk Hc H. unfold marker_sound, configured. by rewrite Hk, Hc. Qed.

Lemma sound_insert m p c : p ≠ markerFile → p ≠ ".config" → sound m → sound (<[p := c]> m).
Proof using. intros Hk Hc. by apply sound_ext; apply lookup_insert_ne. Qed.

Lemma sound_delete m p : p ≠ markerFile → p ≠ ".config" → sound m → sound (delete p m).
Proof using. intros Hk Hc. by apply sound_ext; apply lookup_delete_ne. Qed.

(** On a mount whose tree is the wanted one, a marker of this configuration stands next
    to a .config that passes. *)
Definition resumes (want : string) (m : mount) : Prop :=
  treePresent m = true → readStamp m = want → sound m.

Lemma wins_sweep want : wins (resumes want) sweep (λ _, resumes want).
Proof using.
  unfold sweep. apply wins_get_intro. intros m0. apply (wins_pre _ (resumes want)); [|by intros m [_ ?]].
  apply wins_each. intros p Hp. apply wins_remove. intros m.
  rewrite <- list_elem_of_In, sort_strings_perm, elem_of_filter_bool in Hp. destruct Hp as [Hp _].
  unfold resumes, treePresent, readStamp. rewrite !lookup_delete_ne by (by intros ->).
  intros H Hmk Hst. apply sound_delete; [by intros ->..|]. by apply H.
Qed.

(** *** Acquiring *)

(** A tarball at hand. *)
Definition at_hand (s : tarball) (m : mount) : Prop :=
  (∃ c, tarball_content I s m = Some c ∧ wanted I f c ∧ source_content W I c) ∧
  match s with InSrc n => codec n = Some ext | InBuild p => codec p = Some ext ∧ spared (top p) = true end.

Lemma at_hand_spared s : spared_only (at_hand s).
Proof using.
  intros m m' Hs [(c & Hc & Hw) Hk]. split; [|done]. exists c. split; [|exact Hw].
  destruct s as [n|p]; [done|]. cbn in *. by rewrite Hs by apply Hk.
Qed.

Lemma served_download url :
  serves W f url → ∃ t, download (server W url) (cancelled W) = (t, Ok tt) ∧ dst t = Some f.
Proof using.
  intros (Hh & Hc & k & Hk & Ht & Hf).
  pose proof (download_succeeds (server W url) (cancelled W) k Hk Hc Ht Hf) as Hok.
  pose proof (attempts_honest (server W url) (cancelled W) f 5 1 (Transfer None 0 [] [] [None]) Hh) as Hd.
  change (attempts (server W url) (cancelled W) 5 1 _) with (download (server W url) (cancelled W)) in Hd.
  destruct (download (server W url) (cancelled W)) as [t res]. cbn in Hok. subst res. exists t.
  split; [done|]. apply Hd; [by exists f|by apply Forall_singleton; exists f|done].
Qed.

Lemma codec_cached e : In e [".gz"; ".xz"; ".zst"] → codec (".kbf-src.tar" +:+ e) = Some e.
Proof using. intros H. repeat destruct H as [<-|H]; by vm_compute. Qed.

Lemma wins_acquire (m0 : mount) :
  wins (λ m, m = m0) (acquireSource W I) (λ s m, at_hand s m).
Proof using Hsv Hsrc.
  pose proof (st_wanted _ _ _ _ Hsrc) as Hwf. unfold acquireSource, at_hand, source_content, wanted in *. cbv zeta.
  destruct (String.eqb_spec (Tree.getenv I "SRC_LOCAL") "") as [E|E]; cbn [negb].
  - destruct (st_url _ _ _ _ Hsrc E) as [Hext Hserve]. rewrite Hext.
    assert (In ext [".gz"; ".xz"; ".zst"]) as Hin by (by apply find_some in Hext as [? _]).
    destruct (cached_spared ext Hin) as [Hs _]. pose proof (codec_cached ext Hin) as Hcodec.
    set (cached := ".kbf-src.tar" +:+ ext) in *. set (part := cached +:+ ".part").
    cbn [andb] in Hwf.
    apply wins_read_at. intros m ->. destruct (_ && match m0 !! cached with Some _ => _ | None => false end) eqn:Eh.
    + apply andb_true_iff in Eh as [Hne Hc]. destruct (m0 !! cached) as [c|] eqn:Ec; [|done].
      exists (InBuild cached), m0. split; [by apply runs_ret|]. split; [|done]. exists c. split; [done|].
      rewrite Hne. apply eqb_true in Hc. by split.
    + destruct (served_download _ Hserve) as (t & Ht & Hdst).
      exists (InBuild cached), (<[cached := f]> (delete part (<[part := f]> m0))). split.
      * apply runs_bind. exists tt, (<[part := f]> m0). split.
        { unfold runs, fetch_to. rewrite Ht. cbn [ret final map_err]. by rewrite Hdst. }
        apply runs_bind. exists (Some f), (<[part := f]> m0). split.
        { apply runs_read. by rewrite lookup_insert_eq. }
        assert ((Tree.getenv I "SRC_SHA256" <>s "") && (fileSHA256 f <>s Tree.getenv I "SRC_SHA256") = false) as Hsum.
        { destruct (Tree.getenv I "SRC_SHA256" <>s ""); [|done]. by rewrite Hwf, String.eqb_refl. }
        cbn [from_option]. change (Datatypes.id f) with f. rewrite Hsum.
        apply runs_bind. exists tt, (<[cached := f]> (delete part (<[part := f]> m0))).
        split; [|by apply runs_ret]. unfold runs, rename. by rewrite lookup_insert_eq.
      * split; [|done]. exists f. cbn [tarball_content]. rewrite lookup_insert_eq. split; [done|].
        split; [exact Hwf|]. destruct (Tree.getenv I "SRC_SHA256" <>s ""); [exact Hwf|by rewrite Ht].
  - pose proof (sv_local _ Hsv E) as Hd. pose proof (proj2 Hd) as Hdots%lacks_Contains.
    apply safe_path_relative in Hd as [Hrel _]. rewrite Hdots, Hrel. cbn [orb].
    destruct (st_local _ _ _ _ Hsrc E) as [Hl Hk].
    intros m ->. exists (InSrc (Tree.getenv I "SRC_LOCAL")), m0. split; [by apply runs_ret|]. split; [|done].
    exists f. by split.
Qed.

Lemma wins_acquire_same (P : mount → Prop) :
  (∀ m m', same_tree m m' → P m → P m') → wins P (acquireSource W I) (λ s m, P m ∧ at_hand s m).
Proof using All.
  intros HP m Hm.
  destruct (wins_triple _ _ _ _ _ _ (triple_acquire W I m) (wins_acquire m) m) as (s & m' & Hr & [Hs _] & Hh).
  { by split. }
  exists s, m'. split; [done|]. split; [|done]. by eapply HP.
Qed.

Lemma same_tree_sound m m' : same_tree m m' → sound m → sound m'.
Proof using. intros Hs. by apply sound_ext; apply Hs. Qed.

(** *** Discarding and pulling *)

Lemma wins_nuke T : spared_only T → wins T (nukeTree W) (λ _ m, clean m ∧ T m).
Proof using WorldOk0.
  intros HT m Hm. exists tt, (final (nukeTree W m)). split; [by split|]. split; [by apply nuke_clean|].
  eapply HT; [|exact Hm]. intros p Hp. rewrite nuke_final by done. by rewrite Hp.
Qed.

(** Between the parts of [prepareTree]: what the source was found to be, a sound
    marker, and from the second on nothing but a tree or the cached source. *)
Definition held (src : option tarball) (m : mount) : Prop := ∀ s, src = Some s → at_hand s m.

Lemma held_spared src : spared_only (held src).
Proof using. intros m m' Hs H s Hsome. eapply at_hand_spared; [exact Hs|by apply H]. Qed.

Definition between (src : option tarball) (m : mount) : Prop :=
  held src m ∧ sound m ∧ (treePresent m = true ∨ clean m).

Lemma clean_between src m : clean m → held src m → between src m.
Proof using. intros Hc Hh. split; [done|]. split; [by apply sound_unmarked, clean_unmarked|by right]. Qed.

Lemma wins_check want :
  wins (resumes want)
    (m ← get;
     if treePresent m && (readStamp m <>s want)
     then src ← acquireSource W I; nukeTree W;; mret (Some src)
     else mret None)
    (λ src m, held src m ∧ (treePresent m = true → sound m)).
Proof using All.
  apply wins_get_intro. intros m0. destruct (_ && _) eqn:E.
  - eapply wins_bind.
    { eapply wins_pre; [by apply (wins_acquire_same (λ _, True))|done]. }
    intros s. eapply wins_bind.
    { eapply wins_pre; [apply (wins_nuke (at_hand s)), at_hand_spared|]. by intros m [_ ?]. }
    intros u. eapply wins_pre; [apply wins_ret|]. intros m [Hc Hh]. cbv beta.
    split; [by intros s' [= <-]|]. intros _. by apply sound_unmarked, clean_unmarked.
  - eapply wins_pre; [apply wins_ret|]. intros m [-> Hm]. split; [intros s [=]|].
    intros Hp. rewrite Hp in E. apply Hm; [done|]. by apply negb_false_iff, eqb_true in E.
Qed.

Lemma wins_clear src :
  wins (λ m, held src m ∧ (treePresent m = true → sound m)) (m ← get; if treePresent m then mret tt else nukeTree W)
    (λ _, between src).
Proof using All.
  apply wins_get_intro. intros m0. destruct (treePresent m0) eqn:E.
  - eapply wins_pre; [apply wins_skip|]. intros m [-> [Hh Hs]]. split; [done|]. split; [by apply Hs|by left].
  - eapply wins_conseq; [apply (wins_nuke (held src)), held_spared|by intros m (_ & ? & _)|].
    intros u m [Hc Hh]. by apply clean_between.
Qed.

(** The objects of the bucket bring a sound marker or none. *)
Lemma wins_seedPull c src :
  loadSeedCfg (secrets I) = Some c →
  wins (λ m, clean m ∧ held src m) (seedPull W c)
    (λ found m, held src m ∧ sound m ∧ if (found : bool) then treePresent m = true else clean m).
Proof using All.
  intros Hc m [Hcl Hh]. pose proof (triple_seedPull W c (λ _, True) ltac:(done) m (conj Hcl Logic.I)) as [_ Hp].
  destruct (Hb c Hc) as ((tgt & Ht) & _ & Hbk). unfold seedPull in *. rewrite Ht in *.
  destruct (bucket W c) as [| |files complete] eqn:Eb; [done| |].
  - exists false, m. split; [by apply runs_ret|]. split; [done|].
    split; [by apply sound_unmarked, clean_unmarked|done].
  - destruct Hbk as [-> Hsound]. set (qs := map quarantine files) in *.
    exists true, (write_all qs m). split.
    { apply runs_bind. exists tt, (write_all qs m). split; [apply runs_files|by apply runs_ret]. }
    assert (runs (write_files W qs;; mret true) m true (write_all qs m)) as [Hr Hf].
    { apply runs_bind. exists tt, (write_all qs m). split; [apply runs_files|by apply runs_ret]. }
    split; [|split].
    + eapply held_spared; [|exact Hh]. intros p Hps. apply write_all_spared; [|done].
      pose proof (bucket_spares c files _ Eb) as Hsp. subst qs.
      apply Forall_forall. intros q (g & -> & Hg)%list_elem_of_fmap. rewrite Forall_forall in Hsp.
      specialize (Hsp g Hg). unfold quarantine. cbn. by destruct (String.eqb_spec g.1 stampFile).
    + apply (sound_ext (write_all qs ∅)); [apply write_all_ext..|exact Hsound]; rewrite lookup_empty.
      * by apply clean_unmarked.
      * by apply clean_config.
    + rewrite Hr, Hf in Hp. destruct Hp as [_ [Hmk _]%pulled_built]. by apply bool_decide_true.
Qed.

Lemma present_ext (m m' : mount) : m' !! "Makefile" = m !! "Makefile" → treePresent m' = treePresent m.
Proof using. intros H. unfold treePresent. by rewrite H. Qed.

Lemma wins_hydrate src want :
  let seed := loadSeedCfg (secrets I) in
  wins (between src)
    (m ← get;
     match seed with
     | Some c =>
         if treePresent m then mret tt
         else
           found ← seedPull W c;
           if (found : bool) then
             seedStamp ← read seedStampFile;
             remove seedStampFile;;
             if default "" seedStamp <>s want then nukeTree W else write stampFile want
           else mret tt
     | None => mret tt
     end)
    (λ _, between src).
Proof using All.
  intros seed. apply wins_get_intro. intros m0.
  assert (∀ m, m = m0 ∧ between src m → between src m) as Hskip by tauto.
  subst seed. destruct (loadSeedCfg _) as [c|] eqn:Ec; [|by eapply wins_pre; [apply wins_skip|exact Hskip]].
  destruct (treePresent m0) eqn:E; [by eapply wins_pre; [apply wins_skip|exact Hskip]|].
  eapply wins_bind.
  { eapply wins_pre; [apply (wins_seedPull c src Ec)|]. intros m [-> (Hh & _ & [Hp|Hc])]; [congruence|done]. }
  intros [].
  - eapply wins_bind; [apply wins_read|]. intros st. cbv beta.
    apply (wins_bind _ _ _ (λ _ m, held src m ∧ sound m ∧ treePresent m = true)).
    + apply wins_remove. intros m (_ & Hh & Hs & Hp). split; [|split; [by apply sound_delete|]].
      * eapply held_spared; [|exact Hh]. intros p Hps. apply lookup_delete_ne. by intros <-.
      * rewrite <- Hp. by apply present_ext, lookup_delete_ne.
    + intros u. destruct (default "" st <>s want).
      * eapply wins_conseq; [apply (wins_nuke (held src)), held_spared|by intros m [? _]|].
        intros v m [Hc Hh]. by apply clean_between.
      * apply wins_write. intros m (Hh & Hs & Hp). split; [|split; [by apply sound_insert|left]].
        -- eapply held_spared; [|exact Hh]. intros p Hps. apply lookup_insert_ne. by intros <-.
        -- rewrite <- Hp. by apply present_ext, lookup_insert_ne.
  - eapply wins_pre; [apply wins_skip|]. intros m (Hh & Hs & Hc). by apply clean_between.
Qed.

(** *** The cold path *)

Lemma wins_extract s :
  wins (λ m, clean m ∧ at_hand s m) (extractTarball W I s)
    (λ _ m, unmarked m ∧ ∀ cs, series I cs → applies W cs m).
Proof using All.
  intros m [Hcl [(c & Hc & Hw & Hcont) Hk]]. destruct (st_decodes _ _ _ _ Hsrc c Hw) as (files & Hd & Hap).
  pose proof (decode_spares ext c Hcont) as Hsp. rewrite Hd in Hsp.
  exists tt, (write_all files m). split; [|split].
  - unfold extractTarball. apply runs_bind. exists m, m. split; [by apply runs_get|].
    cbv beta zeta. change (match s with InSrc n => srcs I !! n | InBuild p => m !! p end) with (tarball_content I s m).
    rewrite Hc.
    assert (codec (match s with InSrc n => n | InBuild p => p end) = Some ext) as Hcodec
      by (destruct s; [exact Hk|exact (proj1 Hk)]).
    unfold codec in Hcodec. rewrite Hcodec, Hd.
    apply runs_bind. exists tt, (write_all files m). split; [apply runs_files|by apply runs_ret].
  - apply write_all_unmarked; [exact Hsp|by apply clean_unmarked].
  - intros cs Hcs. by apply Hap.
Qed.

Lemma wins_series names :
  wins (λ m, unmarked m ∧ applies W (map (patchContent I) names) m)
    (each (λ n, external (gitapply W (patchContent I n)) (SPatch n)) names) (λ _, unmarked).
Proof using Spares0.
  induction names as [|n names IH]; cbn [each map applies].
  - eapply wins_pre; [apply wins_skip|]. by intros m [? _].
  - eapply wins_bind; [|intros u; exact IH]. apply wins_external. intros m (Hu & ms & m' & Hg & Ha).
    exists ms, m'. split; [done|]. split; [|done].
    pose proof (patch_spares n m markerFile eq_refl) as Hp. rewrite Hg in Hp.
    apply Forall_app in Hp as [_ Hp]. rewrite Forall_singleton in Hp. unfold unmarked. by rewrite Hp.
Qed.

Lemma wins_cold want (src : option tarball) :
  wins (λ m, clean m ∧ held src m)
    (s ← (match src with Some s => mret s | None => acquireSource W I end);
     extractTarball W I s;;
     (if Tree.getenv I "APPLY_PATCHES" =s "1" then applyPatches W I else mret tt);;
     write stampFile want)
    (λ _, sound).
Proof using All.
  apply (wins_bind _ _ _ (λ s m, clean m ∧ at_hand s m)).
  { destruct src as [s|].
    - eapply wins_pre; [apply (wins_ret s (λ s m, clean m ∧ at_hand s m))|]. intros m [Hc Hh]. split; [done|by apply Hh].
    - eapply wins_pre; [apply (wins_acquire_same clean), same_tree_clean|]. by intros m [? _]. }
  intros s. eapply wins_bind; [apply wins_extract|]. intros u.
  apply (wins_bind _ _ _ (λ _, unmarked)).
  - unfold series. destruct (String.eqb_spec (Tree.getenv I "APPLY_PATCHES") "1") as [E|_].
    + apply (sv_patches _ Hsv) in E. unfold applyPatches. destruct (patchFiles I) as [names|] eqn:En; [|done].
      eapply wins_bind; [apply (wins_lift _ _ _ names (λ a m, a = names ∧ unmarked m ∧ applies W (map (patchContent I) names) m)); [done|]|].
      { intros m [Hu Ha]. split; [done|]. split; [done|]. apply Ha. by exists names. }
      intros a. eapply wins_pre; [apply (wins_series a)|]. by intros m (-> & ? & ?).
    + eapply wins_pre; [apply wins_skip|]. by intros m [? _].
  - intros v. apply wins_write. intros m Hu. by apply sound_unmarked, unmarked_insert.
Qed.

Lemma stampWant_there : ∃ want, stampWant I = Ok want.
Proof using Hsv Hsrc.
  pose proof (faults_stampWant I Hsv) as Hf. destruct (stampWant I) as [want|e] eqn:E; [by exists want|].
  unfold stampWant in E. exfalso. apply bind_Err in E as [H|(psha & _ & H)].
  - destruct (String.eqb_spec (Tree.getenv I "APPLY_PATCHES") "1") as [Ep|]; [|done].
    apply (sv_patches _ Hsv) in Ep. by destruct (patchFiles I).
  - apply bind_Err in H as [H|(srcID & _ & [=])].
    destruct (String.eqb_spec (Tree.getenv I "SRC_LOCAL") "") as [|En]; [done|]. cbn [negb] in H.
    by rewrite (proj1 (st_local _ _ _ _ Hsrc En)) in H.
Qed.

Lemma wins_prepareTree want :
  consistent I → stampWant I = Ok want →
  wins (λ m, truthful W m ∧ resumes want m) (prepareTree W I (loadSeedCfg (secrets I)))
    (λ _ m, (∃ want, stampWant I = Ok want ∧ prepared W want m) ∧ sound m).
Proof using All.
  intros Hcons Hwant. eapply wins_triple; [by apply triple_prepareTree|]. unfold prepareTree.
  apply (wins_lift_bind _ _ _ want _ _ Hwant).
  apply wins_get_intro. intros m0.
  eapply wins_bind; [exact (wins_get_elim _ _ _ (wins_check want) m0)|]. intros src.
  apply wins_get_intro. intros m1.
  eapply wins_bind; [exact (wins_get_elim _ _ _ (wins_clear src) m1)|]. intros u.
  apply wins_get_intro. intros m2.
  eapply wins_bind; [exact (wins_get_elim _ _ _ (wins_hydrate src want) m2)|]. intros v.
  apply wins_get_intro. intros m3. destruct (treePresent m3) eqn:Ep.
  - eapply wins_pre; [apply wins_skip|]. by intros m [-> (_ & ? & _)].
  - eapply wins_pre; [apply (wins_cold want src)|]. intros m [-> (Hh & _ & [Hp|Hc])]; [congruence|done].
Qed.
End tree.

(** ** The configuration *)

Section run.
Context (W : World) `{!WorldOk W, !BucketOk W} (X : Exporter) (expect : file) (jobs : Z) (stage rnd : string).

Section one.
Context (I : inputs) `{!Spares W I} (cfg want : string) (r : targets).
Context (Hcfg : config I = Some cfg) (Hmk : make_works W expect jobs stage cfg I want r).
Abbreviation ready m := (prepared W want m ∧ configured expect r m).

(** Along what keeps the tree prepared, only the rest is to be shown. *)
Lemma wins_keeps {E A} (c : M E A) (P : mount → Prop) (Q : A → mount → Prop) :
  keeps W want c → wins (λ m, prepared W want m ∧ P m) c Q →
  wins (λ m, prepared W want m ∧ P m) c (λ a m, prepared W want m ∧ Q a m).
Proof using.
  intros Hk Hw m [Hm HP]. destruct (Hw m (conj Hm HP)) as (a & m' & Hr & HQ).
  exists a, m'. split; [done|]. split; [by eapply keeps_runs|done].
Qed.

Lemma wins_runMake args e (P Q : mount → Prop) :
  (∀ m, prepared W want m → P m → ∃ ms m', make W (env I) args m = (ms, m', true) ∧ Q m') →
  wins (λ m, prepared W want m ∧ P m) (runMake W I args e) (λ _ m, prepared W want m ∧ Q m).
Proof using WorldOk0 Spares0.
  intros H. apply wins_keeps; [apply keeps_runMake; done|]. apply wins_external. intros m [Hm HP]. by apply H.
Qed.

Lemma wins_input :
  wins (prepared W want)
    (match baseMake I with
     | [] => write ".config" cfg
     | _ =>
         runMake W I (baseMakeArgs (env I)) SBaseMake;;
         if TrimSpace cfg =s "" then mret tt else append ".config" (String LF cfg)
     end)
    (λ _ m, prepared W want m ∧ config_input W I cfg m).
Proof using All.
  apply (wins_pre _ (λ m, prepared W want m ∧ True)); [|done].
  unfold config_input. pose proof (mk_base _ _ _ _ _ _ _ _ Hmk) as Hbase.
  destruct (baseMake I) as [|t ts] eqn:Eb.
  - apply wins_keeps; [auto with keeps|]. apply wins_write. intros m _. apply lookup_insert_eq.
  - eapply wins_bind.
    { apply (wins_runMake _ _ _ (λ m', (∃ mb ms, make W (env I) (baseMakeArgs (env I)) mb = (ms, m', true)) ∧
                                       is_Some (m' !! ".config"))).
      intros m Hm _. destruct (Hbase ltac:(done) m Hm) as (ms & m' & Hr & Hc).
      exists ms, m'. split; [exact Hr|]. split; [by exists m, ms|exact Hc]. }
    intros u. destruct (TrimSpace cfg =s "").
    + eapply wins_pre; [apply wins_skip|]. intros m (Hm & (mb & ms & H) & _). split; [done|]. by exists mb, ms, m.
    + apply wins_keeps; [auto with keeps|]. intros m (Hm & (mb & ms & H) & [old Hold]).
      exists tt, (<[".config" := old +:+ String LF cfg]> m). split; [unfold runs, append; by rewrite Hold|].
      exists mb, ms, m. split; [done|]. by exists old.
Qed.

Lemma wins_configure :
  wins (λ m, prepared W want m ∧ marker_sound expect I cfg r m) (configure W I) (λ _ m, ready m).
Proof using All.
  unfold configure. rewrite Hcfg. eapply wins_bind; [apply wins_read|]. intros prev. cbv beta.
  destruct (bool_decide_reflect (prev = Some (cfgID I cfg))) as [->|_].
  - eapply wins_pre; [apply wins_skip|]. intros m (He & Hm & Hs). split; [done|by apply Hs].
  - apply (wins_bind _ _ _ (λ _, prepared W want)).
    { apply wins_remove. intros m (_ & Hm & _). by apply prepared_delete. }
    intros u. eapply wins_bind; [apply wins_input|]. intros v.
    eapply (wins_bind _ _ _ (λ _ m, ready m)).
    + apply wins_runMake. intros m Hm Hin. by apply (mk_resolve _ _ _ _ _ _ _ _ Hmk).
    + intros w. apply wins_write. intros m (Hm & c & Hc & Hok). split; [by apply prepared_insert|].
      exists c. by rewrite lookup_insert_ne.
Qed.

(** ** Gate, compile, exports, push *)

Definition compiled (m : mount) : Prop :=
  prepared W want m ∧ is_Some (m !! ".config") ∧ ∀ src dst, artifacts r !! src = Some dst → is_Some (m !! src).

Lemma wins_gate : wins (λ m, ready m) (gate expect) (λ _ m, ready m).
Proof using.
  apply wins_get_intro. intros m0. intros m [-> (Hm & c & Hc & Hv & Hmod)]. exists tt, m0.
  split; [|split; [done|by exists c]]. unfold config_file. rewrite Hc, Hv. by apply runs_ret.
Qed.

Lemma wins_check_modules : wins (λ m, ready m) (check_modules r) (λ _ m, ready m).
Proof using.
  unfold check_modules. eapply wins_bind; [apply wins_read|]. intros o.
  intros m (-> & Hm & c & Hc & Hv & Hmod). exists tt, m. split; [|split; [done|by exists c]].
  rewrite Hc. destruct (wantModules r); cbn [andb]; [rewrite Hmod by done; cbn [negb]|]; by apply runs_ret.
Qed.

Lemma wins_compile arch ts :
  resolved arch ts r → wins (λ m, ready m) (compile W jobs I r) (λ _ m, compiled m).
Proof using All.
  intros (Ht & Ha & _). unfold compile.
  pose proof (mk_targets _ _ _ _ _ _ _ _ Hmk) as Hbuild. destruct (makeTargets r) as [|t l] eqn:Et.
  - eapply wins_pre; [apply wins_skip|]. intros m (Hm & c & Hc & _). split; [done|]. split; [by exists c|].
    intros src dst (x & Hin & Hx)%Ha. exfalso.
    assert (is_Some (make_target_of arch x)) as [y Hy].
    { unfold artifact_of, make_target_of in *. destruct (x =s "vmlinux"); [by eexists|].
      destruct (x =s "image"); [by eexists|done]. }
    apply list_elem_of_In in Hin. assert (y ∈ omap (make_target_of arch) ts) as Hy' by (apply list_elem_of_omap; eauto).
    rewrite <- Ht in Hy'. by apply not_elem_of_nil in Hy'.
  - apply wins_wrap, wins_runMake. intros m Hm Hc. by apply Hbuild.
Qed.

Lemma wins_copyFiles l out P :
  (∀ m, P m → ∀ s d, (s, d) ∈ l → is_Some (m !! s)) → wins P (copyFiles l out) (λ _, P).
Proof using.
  revert out. induction l as [|[s d] l IH]; intros out H; cbn [copyFiles]; [apply (wins_ret out (λ _, P))|].
  eapply wins_bind; [apply wins_read|]. intros have. intros m (-> & Hm).
  destruct (H m Hm s d) as [c Hc]; [by left|]. rewrite Hc. apply IH; [|done].
  intros m' Hm' s' d' Hin. apply (H m' Hm' s' d'). by right.
Qed.

Lemma wins_packModules out :
  wantModules r = true → wins compiled (packModules W X stage I out) (λ _ _, True).
Proof using All.
  intros Hw. apply wins_get_intro. intros m0. eapply wins_bind.
  { apply wins_wrap. eapply wins_pre; [apply (wins_runMake _ _ (λ _, True) (λ _, True))|].
    - intros m Hm _. destruct (mk_modules _ _ _ _ _ _ _ _ Hmk Hw m Hm) as (ms & m' & Hr). by exists ms, m'.
    - by intros m [-> (? & _)]. }
  intros u. by eapply wins_pre; [apply (wins_ret _ (λ _ _, True))|].
Qed.

Lemma wins_publish :
  bucket_there W X expect I cfg r →
  wins (λ _, True) (publish X rnd (loadSeedCfg (secrets I))) (λ _ _, True).
Proof using.
  assert (∀ A (a : A), wins (λ _, True) (mret a : M RunError A) (λ _ _, True)) as Hret
    by (intros A a; apply (wins_ret a (λ _ _, True))).
  intros Hb. unfold publish. destruct (loadSeedCfg (secrets I)) as [c|] eqn:Ec; [|apply Hret].
  destruct (Hb c Ec) as ((t & Ht) & Hup & _). destruct (push c) eqn:Ep; [|apply Hret].
  apply (wins_bind _ _ _ (λ _ _, True)); [|intros files; apply Hret].
  unfold seedPush. rewrite Ht. cbv zeta.
  apply (wins_bind _ _ _ (λ _ _, True)); [by apply wins_write|]. intros _.
  apply wins_get_intro. intros m0. apply (wins_pre _ (λ _, True)); [|done].
  apply (wins_bind _ _ _ (λ _ _, True)); [by apply wins_write|]. intros _.
  apply (wins_bind _ _ _ (λ _ _, True)); [by apply wins_remove|]. intros _.
  rewrite Hup by done. apply Hret.
Qed.

Lemma wins_tail arch ts :
  resolved arch ts r → bucket_there W X expect I cfg r →
  wins (λ m, ready m) (tail W X expect jobs stage rnd I r (loadSeedCfg (secrets I))) (λ _ _, True).
Proof using All.
  intros Hres Hb. unfold tail. eapply wins_bind; [apply wins_gate|]. intros ?.
  apply (wins_bind _ _ _ (λ _ m, ready m)).
  { apply wins_remove. intros m (Hm & c & Hc & Hok). split; [by apply prepared_delete|].
    exists c. by rewrite lookup_delete_ne. }
  intros ?. apply (wins_bind _ _ _ (λ _ m, ready m)).
  { apply wins_get_intro. intros m0. eapply wins_pre; [apply (wins_ret _ (λ _ m, ready m))|by intros m [_ ?]]. }
  intros out. eapply wins_bind; [apply wins_check_modules|]. intros ?.
  eapply wins_bind; [by eapply wins_compile|]. intros ?.
  eapply wins_bind.
  { apply wins_copyFiles. intros m (_ & _ & Ha) s d Hin%elem_of_map_to_list. by eapply Ha. }
  intros out1. apply (wins_bind _ _ _ (λ _, compiled)).
  { destruct (wantConfig r); [|apply (wins_ret out1 (λ _, compiled))]. apply wins_copyFiles.
    intros m (_ & Hc & _) s d [= -> ->]%list_elem_of_singleton. exact Hc. }
  intros out2. apply (wins_bind _ _ _ (λ _ _, True)).
  { destruct (wantModules r) eqn:Hw; [by apply wins_packModules|].
    by eapply wins_pre; [apply (wins_ret out2 (λ _ _, True))|]. }
  intros out3. eapply wins_bind; [by apply wins_publish|]. intros files.
  apply (wins_ret _ (λ _ _, True)).
Qed.
End one.

(** ** The whole step *)

(** The outside does its part for these inputs: it has the source, its make builds the
    tree, its bucket answers. *)
Record cooperates (I : inputs) (f ext cfg : string) : Prop := {
  co_config : config I = Some cfg;
  co_source : source_there W I f ext;
  co_make : ∀ ts want r,
    Timestamp (Tree.getenv I "SOURCE_DATE_EPOCH") = Ok ts → stampWant I = Ok want →
    resolveTargets (env I) = Ok r →
    make_works W expect jobs stage cfg (Setenv "KBUILD_BUILD_TIMESTAMP" ts I) want r;
  co_bucket : ∀ r, resolveTargets (env I) = Ok r → bucket_there W X expect I cfg r
}.

Lemma getenv_Setenv ts I k :
  k ≠ "KBUILD_BUILD_TIMESTAMP" → Tree.getenv (Setenv "KBUILD_BUILD_TIMESTAMP" ts I) k = Tree.getenv I k.
Proof using. intros Hk. unfold Tree.getenv, StepEnv.getenv, Setenv. cbn [env]. by rewrite lookup_insert_ne. Qed.

Lemma source_there_Setenv ts I f ext :
  source_there W I f ext → source_there W (Setenv "KBUILD_BUILD_TIMESTAMP" ts I) f ext.
Proof using.
  intros [H1 H2 H3 H4]. constructor; rewrite ?getenv_Setenv by done; try done.
  - unfold wanted. by rewrite !getenv_Setenv.
  - intros c. unfold wanted. rewrite !getenv_Setenv by done. intros (files & Hd & Ha)%H4.
    exists files. split; [done|]. intros m cs Hm Hcs. apply Ha; [done|]. revert Hcs.
    unfold series. by rewrite getenv_Setenv.
Qed.

Lemma cfgID_Setenv ts I cfg : cfgID (Setenv "KBUILD_BUILD_TIMESTAMP" ts I) cfg = cfgID I cfg.
Proof using. unfold cfgID, baseMake. by rewrite getenv_Setenv. Qed.

Lemma resolveTargets_Setenv ts I :
  resolveTargets (env (Setenv "KBUILD_BUILD_TIMESTAMP" ts I)) = resolveTargets (env I).
Proof using.
  change (StepEnv.getenv (env I)) with (Tree.getenv I). unfold resolveTargets.
  change (StepEnv.getenv (env ?J)) with (Tree.getenv J). by rewrite !getenv_Setenv.
Qed.

(** Behind the contract checks: sweep, tree, configuration, and the tail. *)
Lemma wins_behind I `{!Spares W I} f ext cfg want r arch ts :
  consistent I → served I → source_there W I f ext → config I = Some cfg → stampWant I = Ok want →
  make_works W expect jobs stage cfg I want r → bucket_there W X expect I cfg r → resolved arch ts r →
  wins (λ m, truthful W m ∧ resumes expect I cfg r want m)
    (sweep;;
     wrap RStep (prepareTree W I (loadSeedCfg (secrets I)));;
     wrap RStep (configure W I);;
     tail W X expect jobs stage rnd I r (loadSeedCfg (secrets I)))
    (λ _ _, True).
Proof using All.
  intros Hcons Hs Hsrc Hcfg Hwant Hmk Hb Hres.
  eapply wins_bind; [apply (wins_triple _ _ _ _ _ _ (triple_sweep W) (wins_sweep expect I cfg r want))|]. intros u.
  eapply wins_bind; [by apply wins_wrap, (wins_prepareTree W X expect I f ext cfg r)|]. intros v.
  eapply wins_bind.
  { apply wins_wrap. eapply wins_pre; [by apply (wins_configure I cfg want r)|].
    intros m [(want' & Hw' & Hp) Hsound]. rewrite Hwant in Hw'. injection Hw' as <-. by split. }
  intros w. by eapply wins_tail.
Qed.

Lemma wins_run nonce s I `{!Spares W I} f ext cfg m :
  valid_spec s → compile_env nonce s ⊆ env I → served I →
  checkSeedPush (env I) (loadSeedCfg (secrets I)) = Ok tt →
  truthful W m → cooperates I f ext cfg →
  (∀ want r, stampWant I = Ok want → resolveTargets (env I) = Ok r → resumes expect I cfg r want m) →
  is_ok (ret (Step.run W X expect jobs stage rnd I m)) = true.
Proof using All.
  intros V Hsub Hs Hpush Hm [Hcfg Hsrc Hmake Hbucket] Hmark.
  pose proof (consistent_compile nonce s I V Hsub) as Hcons.
  pose proof (λ k v, getenv_within nonce s (env I) k v Hsub) as Hget.
  destruct (resolveTargets_known (env I) s V) as (r & Hr & Hres); [apply Hget; simpl; tauto..|].
  assert (∃ ts, Timestamp (Tree.getenv I "SOURCE_DATE_EPOCH") = Ok ts) as [ts Hts].
  { unfold Tree.getenv. rewrite (Hget _ (SourceDateEpoch s)) by (simpl; tauto).
    destruct (proj2 (epoch_check (SourceDateEpoch s)) (v_epoch _ V)) as [_ Hok].
    destruct (Timestamp (SourceDateEpoch s)) as [ts|] eqn:Et; [by exists ts|done]. }
  destruct (stampWant_there W I f ext Hs Hsrc) as [want Hwant].
  specialize (Hmake ts want r Hts Hwant Hr). specialize (Hbucket r Hr). specialize (Hmark want r Hwant Hr).
  assert (Spares W (Setenv "KBUILD_BUILD_TIMESTAMP" ts I)) as HS' by (by apply Spares_Setenv).
  set (I' := Setenv "KBUILD_BUILD_TIMESTAMP" ts I) in *.
  assert (bucket_there W X expect I' cfg r) as Hb'.
  { intros c Hc. destruct (Hbucket c Hc) as (H1 & H2 & H3). split; [done|]. split; [done|].
    unfold marker_sound in *. subst I'. by rewrite cfgID_Setenv. }
  assert (wins (λ m, truthful W m ∧ resumes expect I' cfg r want m)
            (Step.run W X expect jobs stage rnd I) (λ _ _, True)) as Hwin.
  { unfold Step.run. apply (wins_lift_bind _ _ _ ts _ _ Hts). cbv zeta. fold I'.
    apply (wins_lift_bind _ _ _ r); [by rewrite <- Hr; apply resolveTargets_Setenv|].
    apply (wins_lift_bind _ _ _ tt).
    { rewrite <- Hpush. unfold checkSeedPush, I', Setenv. cbn [env secrets].
      unfold StepEnv.getenv. by rewrite lookup_insert_ne. }
    apply (wins_behind I' f ext cfg want r (archOrDefault s) (targetsOrDefault s)); try done.
    - by apply consistent_Setenv.
    - by apply served_Setenv.
    - by apply source_there_Setenv.
    - by rewrite <- Hwant; apply stampWant_Setenv. }
  destruct (Hwin m) as (a & m' & [Ha _] & _); [|by rewrite Ha].
  split; [done|]. unfold resumes, marker_sound in *. subst I'. by rewrite cfgID_Setenv.
Qed.
End run.

(** ** A request *)

Section request.
Context `{HH : Host} `{HC : Control} `{HD : Daemon} `{HS : Subrequests}.

(** The build context as the daemon showed it to the frontend. *)
Definition seen (ref : reference) : context_dir :=
  Gateway.ContextDir (StatFile ref)
    (List.filter (λ e, HasSuffix e ".patch") (default [] (ReadDir ref "patches" "*.patch"))).

(** The graph [g] was solved for [s], with what its vertex is delivered from: by the
    client, from its context directory and the secrets it sends; or by the frontend,
    from the context its probe saw and the session's own secrets, which have what a
    push needs if one was asked for. *)
Inductive issued (nonce : string) (s : Spec) (g : State) : context_dir → option (gmap string string) → Prop :=
  | issued_client cfg o imports :
      In (Solving o) (Build nonce s cfg).1 → In (Asked (QSolve g imports)) (Build nonce s cfg).1 →
      issued nonce s g (context_at (ContextDir cfg)) (Secrets o)
  | issued_frontend parse_platform unmarshal_imports opts imports ref sent :
      opt_value opts "requestid" = "" → outcome_of (layers parse_platform opts) = Ok s →
      In (QSolve g imports) (asked (build parse_platform unmarshal_imports nonce opts)) →
      Solve (context_probe s) [] = Ok (Some ref) →
      (SeedPush s = true → ∃ m c, sent = Some m ∧ loadSeedCfg m = Some c ∧ push c = true) →
      issued nonce s g (seen ref) sent.

Lemma stat_dir_Ok d files : Forall (λ f, exists_at d f.2 = true) files → stat_dir d files = Ok tt.
Proof. induction 1 as [|[key name] files Hf _ IH]; [done|]. cbn in *. by rewrite Hf. Qed.

Lemma seen_complete s ref :
  context_complete s → Solve (context_probe s) [] = Ok (Some ref) → checkContextDir (seen ref) s = Ok tt.
Proof.
  intros (ref' & Hs & Hst & Hp) Hs'. rewrite Hs in Hs'. injection Hs' as ->.
  unfold checkContextDir. rewrite stat_dir_Ok by done. cbn [mbind result_bind].
  destruct (ApplyPatches s); [|done]. cbn [negb seen patch_entries].
  destruct (Hp eq_refl) as (ents & e & -> & Hin & He). cbn [from_option].
  assert (In e (List.filter (λ e, HasSuffix e ".patch") ents)) as H by (by apply filter_In).
  change (Datatypes.id ents) with ents. by destruct (List.filter _ ents).
Qed.

Lemma issued_served nonce s os b src t d sent :
  issued nonce s (RunMount b os t src) d sent → Forall patch_name (patch_entries d) →
  ∃ s', valid_spec s' ∧ os = run_opts nonce s' ∧ ∀ I, delivers os d sent I →
    compile_env nonce s' ⊆ env I ∧ served I ∧ checkSeedPush (env I) (loadSeedCfg (secrets I)) = Ok tt.
Proof.
  intros [cfg o imports Ho Hq|pp ui opts imports ref sent' Hr Hs Hq Hprobe Hpush] Hglob.
  - destruct (asked_served nonce s cfg o os b src t imports Hglob Ho Hq) as (s' & V & _ & Hos & _ & H).
    exists s'. split; [done|]. split; [done|]. intros I (? & ? & ? & _)%H. done.
  - apply build_solves in Hq as [(_ & ? & _)|(s0 & Hs0 & _ & _ & [[? _]|(_ & Hctx & s' & Hp & Hk)])]; try done.
    rewrite Hs0 in Hs. injection Hs as ->. apply KernelLLB_Ok in Hk as (V%Validate_valid & _ & [= _ -> _ _]).
    exists s'. split; [done|]. split; [done|]. intros I Hd.
    assert (checkContextDir (seen ref) s' = Ok tt ∧ SeedPush s' = SeedPush s) as [Hc Hsp].
    { pose proof (seen_complete s ref Hctx Hprobe) as Hc.
      by destruct Hp as [[_ ->]|(_ & r & dgst & _ & _ & ->)]. }
    split; [apply Hd|]. split; [by eapply delivers_served|]. destruct Hd as [_ Hdp _ _ Hds].
    unfold checkSeedPush. assert (StepEnv.getenv (env I) "SEED_PUSH" = if SeedPush s then "1" else "") as ->.
    { rewrite <- Hsp, <- (getenv_push nonce s'). unfold StepEnv.getenv, compile_env. by rewrite Hdp. }
    destruct (SeedPush s); [|done]. destruct (Hpush eq_refl) as (ms & c & -> & Hl & Hpc). cbn [negb String.eqb].
    rewrite (loadSeedCfg_ext (secrets I) ms), Hl; [by rewrite Hpc|].
    intros id Hid. by rewrite Hds by (by rewrite (proj1 (run_rest nonce s'))).
Qed.

(** The frontend's builds, too, are refused by the step for nothing but a seed URL
    without a bucket. *)
Theorem issued_never_refused nonce s os b src t d sent :
  issued nonce s (RunMount b os t src) d sent → Forall patch_name (patch_entries d) →
  ∀ W X expect jobs stage rnd I m e,
    delivers os d sent I → ret (Step.run W X expect jobs stage rnd I m) = Err e →
    outside_error I e ∨ ((e = RStep SSeedURL ∨ e = RSeedURL) ∧ nowhere I).
Proof.
  intros Hi Hglob W X expect jobs stage rnd I m e Hd Hret.
  destruct (issued_served nonce s os b src t d sent Hi Hglob) as (s' & V & _ & Hsv).
  destruct (Hsv I Hd) as (Hsub & Hs & Hpush).
  apply run_fault_cases. by eapply (faults_run W X expect jobs stage rnd nonce s' I V).
Qed.

End request.
