(* ===== verification/Provenance.v ===== *)
(** Where a kernel comes from: the parts joined once more, for a build that succeeds.
    A pinned request answered over a mount it shares with builds that spare the step's
    own files lifts its artifacts out of a tree that was extracted from the pinned
    tarball. *)

From S2P Require Import Prelude GoString GoTime GoSort Sha256 Timestamp Spec SpecValid LLB LLBLaws GraphLaws StepEnv Expect Download Mount Tree TreeLaws SeedLaws PrepareLaws ConfigureLaws Step StepLaws ExportLaws Kernelfile Gateway GatewayLaws Frontend FrontendLaws Client BuildLaws RequestLaws.

(** ** The source of a tree *)

Section origin.
Context (W : World).

(** The tarball and the series a tree was made from. *)
Definition made_from (id ps c : string) (cs : list string) : Prop :=
  source_id id c ∧ series_id ps cs ∧ ∃ ext files, decode W ext c = (files, true).

Lemma built_origin w m : built W w m → ∃ id ps c cs, w = stamp id ps ∧ made_from id ps c cs.
Proof using.
  induction 1 as [id ps ext c files cs m0 m Hid Hps Hd _ _|w m e args ms m' ok m1 _ IH _ _|w m m' _ IH _|w m m' _ IH _];
    try done.
  exists id, ps, c, cs. split; [done|]. split; [done|]. split; [done|]. by exists ext, files.
Qed.

Lemma sha256_hex v : is_sha256 v → all_bytes printable v = true.
Proof using. intros H. by apply name_bytes_printable, sha256_bytes. Qed.

(** A digest is no other source identity. *)
Lemma source_id_pin pin c id ps ps' :
  is_sha256 pin → source_id id c → stamp pin ps = stamp id ps' → fileSHA256 c = pin ∧ ps = ps'.
Proof using.
  intros Hpin Hid He.
  assert (all_bytes printable (fileSHA256 c) = true) as Hc.
  { eapply all_bytes_impl; [|apply hex_bytes]. apply ascii_impl. by vm_compute. }
  assert (all_bytes printable id = true → pin = id ∧ ps = ps') as Hinj.
  { intros Hp. rewrite <- (str_app_nil_r (stamp id ps')) in He.
    apply stamp_inj in He as [-> ->]; [|by apply sha256_hex|done]. by rewrite str_app_nil_r. }
  destruct Hid as [->|[->|H]].
  - destruct Hinj as [-> ->]; [done|done].
  - destruct Hinj as [-> _]; [by rewrite all_bytes_app, Hc|]. by destruct Hpin as [_ Hh].
  - apply HasPrefix_spec in H as [t ->]. unfold stamp in He. rewrite !str_app_assoc in He. apply str_app_inj in He.
    destruct Hpin as [_ Hh]. destruct pin as [|a pin]; [by destruct t|]. rewrite !app_cons in He.
    injection He as -> _. by apply andb_true_iff in Hh as [? _].
Qed.

(** Without patches the series is empty. *)
Lemma series_none cs : series_id "none" cs → cs = [].
Proof using.
  intros [[_ ->]|He]; [done|]. exfalso.
  pose proof (hex_take_bytes 16 (Sum256 (foldr (λ c r, c +:+ r) "" cs))) as Hh.
  change (str_take 16 (hex _)) with (str_take 16 (fileSHA256 (foldr (λ c r, c +:+ r) "" cs))) in Hh.
  by rewrite <- He in Hh.
Qed.
End origin.

(** ** What a request asks for *)

(** Where a target's artifact is exported. *)
Definition output_of (arch t : string) : option string :=
  match artifact_of arch t with
  | Some (_, dst) => Some dst
  | None =>
      if t =s "modules" then Some "/out/modules.tar.zst"
      else if t =s "config" then Some "/out/config"
      else if t =s "kconfigs" then Some "/out/kconfig.txt.gz" else None
  end.

Lemma listed_In t ts : listed t ts = true ↔ In t ts.
Proof.
  unfold listed. rewrite existsb_exists. split.
  - by intros (x & Hx & <-%eqb_true).
  - intros H. exists t. split; [done|]. apply String.eqb_refl.
Qed.

(** What is in /out is exactly what the targets name. *)
Lemma exported_names arch ts r mg mc ms out :
  resolved arch ts r → Forall (λ t, In t ["vmlinux"; "image"; "modules"; "config"; "kconfigs"]) ts →
  exported r mg mc ms out → complete r mg mc →
  ∀ dst, is_Some (out !! dst) ↔ ∃ t, In t ts ∧ output_of arch t = Some dst.
Proof.
  intros (_ & Ha & Hmo & Hco & Hk) Hts Hx (Hc1 & Hc2 & _) dst.
  assert (∀ t, output_of arch t = Some dst ↔
    (∃ src, artifact_of arch t = Some (src, dst)) ∨
    (t = "modules" ∧ dst = "/out/modules.tar.zst") ∨ (t = "config" ∧ dst = "/out/config") ∨
    (t = "kconfigs" ∧ dst = "/out/kconfig.txt.gz")) as Ho.
  { intros t. unfold output_of, artifact_of.
    destruct (String.eqb_spec t "vmlinux") as [->|]; [naive_solver|].
    destruct (String.eqb_spec t "image") as [->|]; [destruct (arch =s "arm64"); naive_solver|].
    destruct (String.eqb_spec t "modules") as [->|]; [naive_solver|].
    destruct (String.eqb_spec t "config") as [->|]; [naive_solver|].
    destruct (String.eqb_spec t "kconfigs") as [->|]; naive_solver. }
  setoid_rewrite Ho. split.
  - intros [a [(src & c & Hs & _ & _)|[(Hw & -> & _)|[(Hw & -> & _)|(Hw & -> & _)]]]%Hx].
    + apply Ha in Hs as (t & Ht & He). exists t. split; [done|]. left. by exists src.
    + rewrite Hco, listed_In in Hw. exists "config". naive_solver.
    + rewrite Hk, listed_In in Hw. exists "kconfigs". naive_solver.
    + rewrite Hmo, listed_In in Hw. exists "modules". naive_solver.
  - intros (t & Ht & [(src & He)|[[-> ->]|[[-> ->]|[-> ->]]]]).
    + assert (artifacts r !! src = Some dst) as Hs by (apply Ha; eauto). destruct (Hc1 _ _ Hs) as [c Hc].
      eexists. apply Hx. left. eauto.
    + eexists. apply Hx. do 3 right. rewrite Hmo, listed_In. eauto.
    + assert (wantConfig r = true) as Hw by (by rewrite Hco, listed_In). destruct (Hc2 Hw) as [c Hc].
      eexists. apply Hx. right. left. eauto.
    + eexists. apply Hx. do 2 right. left. rewrite Hk, listed_In. eauto.
Qed.

Lemma stampWant_remote I want :
  Tree.getenv I "SRC_LOCAL" = "" → stampWant I = Ok want →
  ∃ ps, want = stamp (Tree.getenv I "SRC_ID") ps ∧ (Tree.getenv I "APPLY_PATCHES" = "0" → ps = "none").
Proof.
  intros Hl. unfold stampWant. rewrite Hl. cbn [String.eqb negb]. intros (ps & Hps & [= <-])%bind_Ok.
  exists ps. split; [done|]. intros E. rewrite E in Hps. by injection Hps as <-.
Qed.

(** A completed step of a valid specification, on a truthful mount. *)
Lemma run_made (W : World) (X : Exporter) `{!WorldOk W, !BucketOk W} nonce s expect jobs stage rnd I `{!Spares W I} m out pushed :
  valid_spec s → compile_env nonce s ⊆ env I → truthful W m →
  ret (Step.run W X expect jobs stage rnd I m) = Ok (out, pushed) →
  ∃ want r mg mc ms,
    stampWant I = Ok want ∧ built W want mc ∧ resolved (archOrDefault s) (targetsOrDefault s) r ∧
    exported r mg mc ms out ∧ complete r mg mc.
Proof.
  intros V Hsub Hm Hret. pose proof (λ k v, getenv_within nonce s (env I) k v Hsub) as Hget.
  apply (run_parts W X expect jobs stage rnd I) in Hret
    as (ts & want & r & m' & mf & _ & Hwant & Hr & Hm' & H); [|by eapply consistent_compile|done].
  destruct (runs_tail W X expect jobs stage rnd _ want _ r m' out pushed mf Hr Hm' H) as (mg & mc & Htr & Hx & Hc & _).
  rewrite stampWant_Setenv in Hwant. destruct (t_compiled _ _ _ _ _ _ _ _ Htr) as [[_ Hb] _].
  assert (∀ k v, k ≠ "KBUILD_BUILD_TIMESTAMP" → StepEnv.getenv (env I) k = v →
    StepEnv.getenv (env (Setenv "KBUILD_BUILD_TIMESTAMP" ts I)) k = v) as Hset.
  { intros k v Hk <-. unfold StepEnv.getenv. cbn [Setenv env]. by rewrite lookup_insert_ne. }
  destruct (resolveTargets_known (env (Setenv "KBUILD_BUILD_TIMESTAMP" ts I)) s V) as (r' & Hr' & Hres);
    [by apply Hset, Hget; [|simpl; tauto]..|].
  rewrite Hr in Hr'. injection Hr' as <-. by eexists want, r, mg, mc, _.
Qed.

(** ** Who asks *)

Section request.
Context `{HH : Host} `{HC : Control} `{HD : Daemon} `{HS : Subrequests}.

(** The graph [g] is solved for the specification [s]: by the client library, or by the
    frontend whose options and build file say [s]. *)
Inductive solved_for (nonce : string) (s : Spec) (g : State) : Prop :=
  | by_client cfg imports :
      In (Asked (QSolve g imports)) (Client.Build nonce s cfg).1 → solved_for nonce s g
  | by_frontend parse_platform unmarshal_imports opts imports :
      opt_value opts "requestid" = "" → outcome_of (layers parse_platform opts) = Ok s →
      In (QSolve g imports) (asked (build parse_platform unmarshal_imports nonce opts)) → solved_for nonce s g.

Lemma solved_graph nonce s os b src t :
  solved_for nonce s (RunMount b os t src) →
  ∃ s' mode, pinned mode s s' ∧ valid_spec s' ∧ os = run_opts nonce s'.
Proof.
  intros [cfg imports Hq|pp ui opts imports Hr Hs Hq].
  - apply asked_graph in Hq as (_ & s' & mode & Hp & V & Hos & _). eauto.
  - apply build_solves in Hq as [(_ & ? & _)|(s0 & Hs0 & _ & _ & [[? _]|(_ & _ & s' & Hp & Hk)])]; try done.
    rewrite Hs0 in Hs. injection Hs as ->.
    apply KernelLLB_Ok in Hk as (V%Validate_valid & _ & [= _ -> _ _]). eauto.
Qed.

(** C4. A pinned kernel comes from the pinned source, on a mount shared among builds that
    spare the step's own files: whose tarballs hold no .kbf- file and whose patches and
    make touch none. (One build that does not, an unpinned one say, can leave a stamp
    that a later pinned build believes, [TreeScenarios.forged_stamp]; and a seed is what
    a step pushed of a truly stamped tree, [BucketOk].) Take a build graph the
    client or the frontend had solved for a specification with a checksum, and the step
    of its compile vertex on a mount that any sequence of such builds - other requests,
    failed, killed anywhere - has left. If the step succeeds, /out has exactly the files
    the targets name, and every image in it is that of one compiled tree whose source is
    a completely extracted tarball with that checksum, whose stamp names it and the
    patch series, and which has no patches when none were asked for. *)
Theorem request_provenance (nonce : string) (s : Spec) (os : opts) (b src : State) (t : string)
    (W : World) (X : Exporter) (expect : file) (jobs : Z) (stage rnd : string) (I : inputs) (m : mount)
    (out : gmap string artifact) (pushed : option (list (string * string))) :
  WorldOk W → BucketOk W → Spares W I → reachable W X m → SourceLocalName s = "" → SourceSHA256 s ≠ "" →
  solved_for nonce s (RunMount b os t src) → env_of os ⊆ env I →
  ret (Step.run W X expect jobs stage rnd I m) = Ok (out, pushed) →
  (∀ dst, is_Some (out !! dst) ↔ ∃ tgt, In tgt (targetsOrDefault s) ∧ output_of (archOrDefault s) tgt = Some dst) ∧
  ∃ mc ps c cs,
    built W (stamp (SourceSHA256 s) ps) mc ∧ made_from W (SourceSHA256 s) ps c cs ∧
    fileSHA256 c = SourceSHA256 s ∧ (ApplyPatches s = false → cs = []) ∧
    ∀ tgt path dst, In tgt (targetsOrDefault s) → artifact_of (archOrDefault s) tgt = Some (path, dst) →
      ∃ x, mc !! path = Some x ∧ out !! dst = Some (Copied x).
Proof.
  intros HW HB Hsp Hreach Hloc Hsha Hq Hsub Hret.
  apply solved_graph in Hq as (s' & mode & Hpin & V & ->).
  assert (SourceLocalName s' = SourceLocalName s ∧ SourceSHA256 s' = SourceSHA256 s ∧
          targetsOrDefault s' = targetsOrDefault s ∧ archOrDefault s' = archOrDefault s ∧
          ApplyPatches s' = ApplyPatches s) as (Hl & Hs & Ht & Ha & Hp)
    by (by destruct Hpin as [[_ ->]|(_ & ref & dgst & _ & _ & ->)]).
  rewrite <- Ht, <- Ha, <- Hp, <- Hs in *. rewrite <- Hl in Hloc. clear Hpin Hl Hs Ht Ha Hp.
  pose proof (reachable_mount W X m HW HB Hreach) as Hm.
  destruct (run_made W X nonce s' expect jobs stage rnd I m out pushed V Hsub Hm Hret)
    as (want & r & mg & mc & ms & Hwant & Hb & Hres & Hx & Hc).
  split; [by eapply exported_names; [|apply targetsOrDefault_plain| |]|].
  pose proof (λ k v, getenv_within nonce s' (env I) k v Hsub) as Hget.
  unfold source_identity in Hget. rewrite Hloc in Hget. cbn in Hget.
  pose proof Hsha as Hne. apply eqb_false in Hne. rewrite Hne in Hget.
  apply stampWant_remote in Hwant as (ps & -> & Hps); [|by apply Hget; simpl; tauto].
  unfold Tree.getenv in *. rewrite (Hget "SRC_ID" (SourceSHA256 s')) in * by (simpl; tauto).
  destruct (built_origin W _ _ Hb) as (id & ps' & c & cs & He & Hid & Hcs & Hd).
  assert (is_sha256 (SourceSHA256 s')) as Hpin by (by destruct (v_sha _ V)).
  destruct (source_id_pin _ _ _ _ _ Hpin Hid He) as [Hc' <-].
  exists mc, ps, c, cs. split; [done|]. split; [split; [by left|by split]|]. split; [done|]. split.
  - intros Hp. apply series_none. rewrite <- Hps; [done|].
    apply Hget. rewrite Hp. simpl. tauto.
  - intros tgt path dst Htgt Hart. destruct Hres as (_ & Har & _).
    assert (artifacts r !! path = Some dst) as Hl by (apply Har; eauto).
    destruct (proj1 Hc _ _ Hl) as [x Hmc]. exists x. split; [done|]. apply Hx. left. eauto.
Qed.
End request.
