(* ===== verification/RequestScenarios.v ===== *)
(** A request run through every part: the client of [ClientScenarios] against its
    daemon, the step in the toy world of [TreeScenarios] on what is delivered. *)

From S2P Require Import Prelude GoString GoTime Sha256 Timestamp Spec SpecValid LLB LLBLaws GraphLaws StepEnv Expect Download Mount Tree TreeLaws ConfigureLaws TreeScenarios PrepareLaws Step StepLaws StepScenarios Gateway GatewayLaws Frontend FrontendScenarios Client BuildLaws ClientScenarios RequestLaws SuccessLaws Provenance.

(** Publishing a seed, from a tagged base. *)
Definition publishing : Spec := set_SeedPush true tagged.
Definition published : Spec := set_SeedPush true (pinned_at "sha256:01").
Definition published_opts : opts := run_opts "n0" published.

Definition sent : Act (option BuildResult * option ClientError) :=
  @Build laptop buildkitd (registry "sha256:01") "n0" publishing config.

(** What the graph asks for, and no more. *)
Definition vertex_inputs : inputs :=
  Inputs (env_of published_opts) (Some "CONFIG_A=y") ∅ ∅ (seed_secrets config publishing).

Lemma vertex_delivered :
  delivers published_opts (@context_at laptop (ContextDir config)) (Some (seed_secrets config publishing)) vertex_inputs.
Proof.
  constructor; [done|done|by eexists| |done].
  intros src m Hin. unfold published_opts in Hin. rewrite run_mounts in Hin.
  cbn in Hin. naive_solver.
Qed.

Lemma at_In {A} (l : list A) k x : l !! k = Some x → In x l.
Proof. intros H. apply list_elem_of_In. by eapply list_elem_of_lookup_2. Qed.

Lemma sent_solving : ∃ o, In (Solving o) sent.1 ∧ Secrets o = Some (seed_secrets config publishing).
Proof.
  assert (match sent.1 !! 2%nat with Some (Solving o) => Secrets o | _ => None end =
          Some (seed_secrets config publishing)) as H by (vm_compute; reflexivity).
  destruct (sent.1 !! 2%nat) as [[]|] eqn:E; try discriminate H. eexists. split; [by eapply at_In|exact H].
Qed.

Definition imported : list CacheOptionsEntry := [CacheEntry "registry" {["ref" := "ghcr.io/o/c:main"]}].

Lemma sent_graph :
  In (Asked (QSolve (RunMount (toolchain_state published) published_opts "/out" Scratch) imported)) sent.1.
Proof.
  apply (at_In _ 6).
  vm_cast_no_check (@eq_refl (option client_event)
    (Some (Asked (QSolve (RunMount (toolchain_state published) published_opts "/out" Scratch) imported)))).
Qed.

(** The toy server's tarball is not the pinned one: the step fails, for that. *)
Definition vertex_run : outcome RunError (gmap string artifact * option (list (string * string))) :=
  Step.run toy toy_exporter Missing 4 "/tmp/modstage-1" "1" vertex_inputs ∅.


(** The exception: the same request for a seed URL with no bucket passes every check
    of the client, and the step, delivered what its graph asks for, refuses it. *)
Definition nowhere_url : string := "https://seeds.example".
Definition nowhere_request : Spec := set_SeedURL nowhere_url publishing.
Definition nowhere_opts : opts := run_opts "n0" (set_SeedURL nowhere_url published).
Definition nowhere_inputs : inputs :=
  Inputs (env_of nowhere_opts) (Some "CONFIG_A=y") ∅ ∅ (seed_secrets config nowhere_request).

Example nowhere_refused :
  match (@Build laptop buildkitd (registry "sha256:01") "n0" nowhere_request config).1 !! 6%nat with
  | Some (Asked (QSolve (RunMount _ os _ _) _)) => bool_decide (env_of os = env_of nowhere_opts) = true
  | _ => False
  end ∧
  ret (Step.run toy toy_exporter Missing 4 "/tmp/modstage-1" "1" nowhere_inputs ∅) = Err (RStep SSeedURL).
Proof. split; vm_compute; reflexivity. Qed.

(** The same client asking for the tarball the toy server has. *)
Definition pinned_request : Spec := set_SourceSHA256 good_sum (set_SourceURL good_url tagged).
Definition pinned_opts : opts := run_opts "n0" (set_Base "docker.io/tuxmake/x86_64_gcc@sha256:01" pinned_request).
Definition pinned_inputs : inputs := Inputs (env_of pinned_opts) (Some "CONFIG_A=y") ∅ ∅ ∅.

Definition pinned_run : outcome RunError (gmap string artifact * option (list (string * string))) :=
  Step.run toy toy_exporter Missing 4 "/tmp/modstage-1" "1" pinned_inputs ∅.

Definition pinned_solved : State :=
  RunMount (toolchain_state (set_Base "docker.io/tuxmake/x86_64_gcc@sha256:01" pinned_request)) pinned_opts "/out" Scratch.

Lemma pinned_graph :
  In (Asked (QSolve pinned_solved imported)) (@Build laptop buildkitd (registry "sha256:01") "n0" pinned_request config).1.
Proof.
  apply (at_In _ 6).
  vm_cast_no_check (@eq_refl (option client_event) (Some (Asked (QSolve pinned_solved imported)))).
Qed.

Lemma request_provenance_witness :
  match ret pinned_run with
  | Ok (out, _) =>
      (∀ dst, is_Some (out !! dst) ↔ ∃ tgt, In tgt (targetsOrDefault pinned_request) ∧
                                       output_of (archOrDefault pinned_request) tgt = Some dst) ∧
      ∃ mc x, mc !! "vmlinux" = Some x ∧ out !! "/out/vmlinux" = Some (Copied x) ∧
              ∃ ps, built toy (stamp good_sum ps) mc
  | Err _ => False
  end.
Proof.
  assert (is_ok (ret pinned_run) = true) as Hok by (vm_compute; reflexivity).
  destruct (ret pinned_run) as [[out pushed]|e] eqn:E; [|discriminate Hok].
  pose proof (@by_client laptop buildkitd (registry "sha256:01") described "n0" pinned_request _ config _ pinned_graph) as Hq.
  destruct (@request_provenance laptop buildkitd (registry "sha256:01") described "n0" pinned_request
    pinned_opts (toolchain_state (set_Base "docker.io/tuxmake/x86_64_gcc@sha256:01" pinned_request)) Scratch "/out"
    toy toy_exporter Missing 4%Z "/tmp/modstage-1" "1" pinned_inputs ∅ out pushed
    toy_ok toy_bucket (toy_spares _) (reach_new _ _) eq_refl ltac:(discriminate) Hq (reflexivity _) E)
    as (Hd & mc & ps & c & cs & Hb & _ & _ & _ & Hart).
  split; [exact Hd|]. destruct (Hart "vmlinux" "vmlinux" "/out/vmlinux" ltac:(left; reflexivity) eq_refl) as (x & Hx & Ho).
  exists mc, x. split; [exact Hx|]. split; [exact Ho|]. exists ps. exact Hb.
Defined.

(** The toy world behind a network that drops the first attempt. *)
Definition flaky_toy : World := {|
  unlink := unlink toy; make := make toy; decode := decode toy; workers := workers toy;
  gitapply := gitapply toy;
  server url k r := if (k =? 1)%nat then NoResponse false else server toy url k r;
  cancelled := cancelled toy; bucket := bucket toy
|}.

#[export] Instance flaky_ok : WorldOk flaky_toy.
Proof. destruct toy_ok as [H1 H2]. split; [exact H1|exact H2]. Qed.

#[export] Instance flaky_spares I : Spares flaky_toy I.
Proof.
  destruct (toy_spares I) as [H1 H2 _]. split; [exact H1|exact H2|]. intros ext c _. by apply Forall_singleton.
Qed.

#[export] Instance flaky_bucket : BucketOk flaky_toy.
Proof. by split. Qed.

(** Another build, killed while it wrote its stamp. *)
Definition killed_states : list mount :=
  passed (Step.run flaky_toy toy_exporter (Content "y CONFIG_MODULES") 4 "/tmp/modstage-1" "1" toy_build ∅).
Definition killed : mount := default ∅ (killed_states !! 152%nat).

Lemma default_In {A} (d : A) (l : list A) k : (k < length l)%nat → In (default d (l !! k)) l.
Proof. intros [x Hx]%lookup_lt_is_Some. rewrite Hx. by eapply at_In. Qed.

Lemma killed_among : In killed killed_states.
Proof. apply default_In. vm_compute. lia. Qed.

Lemma killed_reachable : reachable flaky_toy toy_exporter killed.
Proof.
  refine (reach_build flaky_toy toy_exporter toy_spec "" toy_build (Content "y CONFIG_MODULES") 4%Z
           "/tmp/modstage-1" "1" ∅ killed (reach_new _ _) toy_spec_valid _ (flaky_spares _) _); [done|].
  right. exact killed_among.
Qed.

(** The pinned request on it, the session's secrets delivered. *)
Definition seeded_inputs : inputs :=
  Inputs (env_of pinned_opts) (Some "CONFIG_A=y") ∅ ∅ (seed_secrets config pinned_request).

Lemma seeded_delivered :
  delivers pinned_opts (@context_at laptop (ContextDir config)) (Some (seed_secrets config pinned_request)) seeded_inputs.
Proof.
  constructor; [done|done|by eexists| |done].
  intros src m Hin. unfold pinned_opts in Hin. rewrite run_mounts in Hin. cbn in Hin. naive_solver.
Qed.

Lemma toy_applies cs m : applies flaky_toy cs m.
Proof. induction cs as [|c cs IH]; [done|]. by exists [], m. Qed.

Lemma seeded_source : source_there flaky_toy seeded_inputs ("tar of " +:+ good_url) ".gz".
Proof.
  constructor.
  - intros H. exfalso. apply H. reflexivity.
  - intros _. split; [vm_compute; reflexivity|]. split; [|split; [done|]].
    + intros k range st ra body clean H. cbn in H. destruct (k =? 1)%nat; [done|]. injection H as <- <- <- <-.
      split; [|done]. intros _. exists "". split; [|done]. by vm_compute.
    + exists 2%nat. split; [lia|]. split; [|intros r; cbn; auto].
      intros j r Hj. assert (j = 1%nat) as -> by lia. reflexivity.
  - vm_compute. reflexivity.
  - intros c _. exists [("Makefile", c)]. split; [done|]. intros m cs _ _. apply toy_applies.
Qed.

Lemma seeded_resolves r : resolveTargets (env seeded_inputs) = Ok r →
  makeTargets r = ["vmlinux"] ∧ artifacts r = {["vmlinux" := "/out/vmlinux"]} ∧ wantModules r = false.
Proof.
  assert (resolveTargets (env seeded_inputs) =
          Ok (Resolved ["vmlinux"] {["vmlinux" := "/out/vmlinux"]} false false false)) as -> by (vm_compute; reflexivity).
  by intros [= <-].
Qed.

Lemma seeded_cooperates :
  cooperates flaky_toy toy_exporter Missing 4 "/tmp/modstage-1" seeded_inputs ("tar of " +:+ good_url) ".gz" "CONFIG_A=y".
Proof.
  constructor.
  - done.
  - apply seeded_source.
  - intros ts want r _ _ (Ht & Ha & Hw)%seeded_resolves. set (J := Setenv _ ts seeded_inputs).
    assert (baseMake J = []) as Hb by (unfold baseMake, J; rewrite getenv_Setenv by done; vm_compute; reflexivity).
    constructor.
    + by rewrite Hb.
    + intros m _ Hin. unfold config_input in Hin. rewrite Hb in Hin.
      eexists [], _. split; [reflexivity|]. exists ("CONFIG_A=y" +:+ "+resolved"). rewrite lookup_insert_eq, Hin.
      split; [done|]. split; [by vm_compute|]. by rewrite Hw.
    + intros _ m _ (c & Hc & _). exists [], (<["vmlinux" := "elf"]> m). rewrite Ht. split; [|split].
      * unfold makeArgs, archArgs, J. change (StepEnv.getenv (env (Setenv ?k ts ?I))) with (Tree.getenv (Setenv k ts I)).
        rewrite !getenv_Setenv by done. vm_compute (_ ++ _). reflexivity.
      * rewrite lookup_insert_ne by done. by exists c.
      * intros src dst H. rewrite Ha, lookup_singleton_Some in H. destruct H as [<- _].
        rewrite lookup_insert_eq. by eexists.
    + by rewrite Hw.
  - intros r _ c Hc. split; [|split].
    + vm_compute in Hc. injection Hc as <-. eexists. vm_compute. reflexivity.
    + done.
    + done.
Qed.

(** The killed build's stamp is not whole, so its tree is not the one wanted. *)
Lemma killed_resumes want r :
  stampWant seeded_inputs = Ok want → resolveTargets (env seeded_inputs) = Ok r →
  treePresent killed = true → readStamp killed = want →
  killed !! markerFile = Some (cfgID seeded_inputs "CONFIG_A=y") → configured Missing r killed.
Proof.
  intros Hw _ _ Hst _. exfalso. assert (readStamp killed = "sr") as Hk by (vm_compute; reflexivity).
  assert (match stampWant seeded_inputs with Ok w => w =s "sr" | Err _ => false end = false) as Hno
    by (vm_compute; reflexivity).
  rewrite Hw, <- Hst, Hk in Hno. discriminate Hno.
Qed.

